(* ===== verification/_CoqProject ===== *)
-Q . S2P
Prelude.v
GoStrings.v
GoTime.v
Wait.v
StringSet.v
Strconv.v
PFlagValues.v
AtomicBool.v
Types.v
ThreadSafeStore.v
KStore.v
Indexing.v
PtrMap.v
PFlag.v
PFlagVars.v
PFlagFacts.v
PFlagParse.v
PFlagProps.v
PFlagAdd.v
PFlagOps.v
Backoff.v
BackoffProps.v
GoURL.v
GoURLProps.v
QueryParams.v
FieldSelector.v
ApiErrors.v
URLBackoff.v
TokenBucket.v
BucketRate.v
Request.v
RequestProps.v
StreamWatcher.v
OS.v
Mergo.v
Transport.v
TransportProps.v
RESTConfig.v
RESTConfigProps.v
ClientCmd.v
ClientCmdProps.v
FIFO.v
RateLimiter.v
RateLimiterProps.v
EventQueue.v
EventQueueFacts.v
EventQueueSpec.v
EventQueueProps.v
Reflector.v
RESTListWatch.v
ReflectorProps.v
Configurer.v
Instances.v
DaemonProps.v
IPAddr.v
Nl.v
NetlinkLink.v
Rtnetlink.v
IPAddrProps.v
RtnetlinkProps.v
NetlinkLinkProps.v
RtnetlinkCalls.v
Template.v
GoTemplate.v
Proxier.v
ProxierSpec.v
ProxierFacts.v
ProxierHandlers.v
ProxierProps.v
Commit.v
CommitProps.v
System.v
Shipped.v
Controller.v
Pipeline.v
Reflection.v
Options.v
Healthz.v
Server.v
Connect.v
