(* ===== verification/Prelude.v ===== *)
(** * kube2haproxy: a verified model

    kube2haproxy watches the services and endpoints of a Kubernetes cluster, keeps
    a table of service ports with their backends, and writes the configuration
    files of HAProxy and keepalived from it, reloading the daemons.  This library
    models the Go code under [src/] with the vendored packages that it is built on, and
    proves what makes it correct.

    ** The program and its model

    Data flow: a reflector lists and watches a resource of the API server and calls an
    event queue; a controller loop pops events and hands them to the proxier; the
    proxier updates its tables and queues a request with a rate limiter; a background
    loop of the rate limiter renders a template and reloads a daemon through a
    configuration writer.

    What is used of the Go language and its standard library:
    - [GoStrings], [Strconv] (strings, numbers and their texts), [GoTime] (times and
      [int64] durations with wrap-around), [PtrMap] (maps of pointers with an explicit
      heap), [OS] (files and scripts where any call may fail), [GoURL] ([net/url] and
      [path]) with [GoURLProps], where parsing reads back what a URL is written as.

    The vendored packages:
    - [Wait] ([util/wait/wait.go]): the loop that goroutines run in.
    - [StringSet] ([util/sets/string.go]), [ThreadSafeStore] and [Indexing]
      ([client/cache/thread_safe_store.go], [index.go]), [KStore]
      ([client/cache/store.go]), [FIFO] ([client/cache/fifo.go]).  [KStore.StoreOps] and
      [KStore.StoreLaws] are the interface that the event queue uses; [KStore.Cache]
      implements it.
    - [Reflector] ([client/cache/reflector.go], [listwatch.go]) with [ReflectorProps].
      [Reflector.Store] is the interface of the stores it feeds, and
      [ReflectorProps.Mirrors] the contract they keep.
    - [TokenBucket] ([juju/ratelimit], [util/throttle.go]): the limit on requests to the
      API server; [BucketRate] finds the bucket for a rate, with [float64] arithmetic.
    - Requests to the API server: [QueryParams] ([conversion/queryparams]),
      [FieldSelector] ([fields]), [ApiErrors] ([api/errors], [api/unversioned]),
      [URLBackoff] ([restclient/urlbackoff.go], [util/backoff.go]), [Request]
      ([restclient/request.go], [client.go]) with [RequestProps]; [RESTListWatch] has the
      requests that the functions of a [ListWatch] build with it, and [StreamWatcher]
      ([watch/iowatcher.go], [watch/json/decoder.go]) the stream a watch is read from.
    - Clients: [ClientCmd] ([unversioned/clientcmd]) loads and merges kubeconfig files
      with [Mergo] ([imdario/mergo]); [RESTConfig] ([restclient/config.go],
      [unversioned/helper.go]) makes clients from a configuration with [Transport]
      ([client/transport]); with [ClientCmdProps], [RESTConfigProps], [TransportProps].
    - [Healthz] ([pkg/healthz] and the mux of [app/server.go]): the endpoints for health,
      profiling and metrics.
    - [PFlagValues], [PFlag], [PFlagVars] ([spf13/pflag], [util/flags.go],
      [util/logs.go]): the flags, on an explicit heap of flags and variables;
      [PFlagFacts], [PFlagParse], [PFlagProps], [PFlagAdd], [PFlagOps] prove the
      invariant, parsing, adding, and the set-up of [main] with the methods.

    The program:
    - [AtomicBool] ([util/abool/bool.go]), [Types] ([proxy/types.go] and the parts
      of the API objects that the program reads).
    - [Backoff] ([util/flowcontrol/backoff.go]) with [BackoffProps];
      [RateLimiter] ([util/ratelimiter/ratelimiter.go]) with [RateLimiterProps].
    - [EventQueue] ([util/cache/eventqueue.go]) with [EventQueueFacts] (each method),
      [EventQueueSpec] (the invariant and the simulation between a producer's and a
      consumer's objects) and [EventQueueProps].
    - [Configurer] ([util/config/configurer.go]), [Instances]
      ([util/haproxy/haproxy.go], [util/keepalived/keepalived.go]) with the class
      [Daemon] that both implement, and [DaemonProps].
    - [IPAddr] ([util/ipaddr/addr.go]) with [IPAddrProps], over the class [Netlink];
      the package [vishvananda/netlink] implements that class with messages to the kernel:
      [Nl] ([nl/nl_linux.go]) sends requests, [NetlinkLink] ([link_linux.go]) finds and
      decodes links, [Rtnetlink] ([addr_linux.go]) changes addresses.  [RtnetlinkProps] has
      the formats, [NetlinkLinkProps] and [RtnetlinkCalls] the calls, over the class
      [KernelLaws].
    - [Template] ([util/template/template.go]), over the class [TextTemplate];
      [GoTemplate] is an engine for the subset of the template language that the
      shipped templates use, and [Shipped] has those templates.
    - [Proxier]: the tables and the event handlers of [proxy/template/proxier.go];
      [ProxierSpec] is their specification, one unit and one address at a time;
      [ProxierFacts] and [ProxierHandlers] prove it, [ProxierProps] uses it.
    - [Commit]: the rest of that file, committing and the MASTER state, over the
      proxier, the files and the device; with concrete states for runs; [CommitProps];
      [System] is the proxier with its two background loops.
    - [Controller] ([proxy/controller/controller.go]); [Pipeline] joins the queues,
      the controller and the proxier, and follows a unit with its addresses through both
      queues; [Reflection] adds the reflectors.
    - [Options] ([app/options/options.go]), [Server] ([app/server.go], [main.go]);
      [Connect] follows the flags through the client to the requests of the reflectors.

    Definitions keep the names of the Go functions; a method that would clash with a
    keyword or a type has an underscore ([Set_], [List_], [Index_]).  A struct is a
    record, and a method on a struct is a function in the monad [M] of this file over
    the record (or over a larger record, with [zoom]).

    ** Conventions

    - [M S A] is sequential code over the state [S].  It ends in one of four ways:
      it returns, panics (leaving the state that the deferred calls leave), ends
      the process, or blocks (on a held mutex, an empty queue or a channel).  A mutex of a
      component whose methods all hold it from start to end is not represented:
      each call is one transition.  The proxier's and the controller's locks are
      flags, since there a panic may leave them held or another thread may wait.
    - The order in which Go iterates over a map is a parameter ([MapOrder]): every
      theorem holds for every order.  The clock is read through arguments.
    - Code outside the repository is a parameter: the kernel's netlink sockets,
      [text/template], formatting of numbers ([GoFormats]), sending an HTTP request
      ([Request.Outside]), the codec of the API objects and of kubeconfig files, X.509 and
      the environment of the process are classes or arguments, and the laws that are
      assumed of them ([KernelLaws], [honest], [Responsive]) hold of concrete instances
      that the witnesses use.
    - Loops are over a list or the keys of a map, with five exceptions.  A request is sent
      at most ten times, the bound of the code ([Request.request_loop]).  Parsers of
      netlink messages have as many turns as there are bytes, of which each turn takes
      some, and receiving has one more than datagrams are waiting.  The search for a quantum
      has 400 turns, more than there are quanta ([BucketRate.quantum_loop_fuel]).  Parsing a command
      line ([PFlag.parseArgs], [parseShortArg]) has fuel, the number of arguments and of
      shorthands, and would block without it; [PFlagProps.Parse_ends] shows that it is
      enough.  Loops that run for ever ([wait.Until], the list-and-watch loop) take
      their inputs from the outside as a list, block at its end, and the theorems are
      about all lists; the loops of the controller and of the rate limiter appear as
      their bodies, and the theorems are about all sequences of iterations.

    ** What the theorems show

    - End to end: [Reflection.reflected_services_served] follows the services from the
      API server, through lists and watches that may break at any time, to the route
      table; [Pipeline.services_reach_tables] does from the queue, through every
      interleaving with relists, endpoints and commits, and
      [Pipeline.backends_reach_tables] the addresses of the endpoints, as long as the service
      keeps its port; [System.configs_follow_tables], [System.request_is_committed] and
      [Shipped.daemons_serve_tables] go on to the files of the daemons, their text, with
      the addresses that the device had at the last commit, and their reload scripts.
    - Proxier: [ProxierProps.handle_event_correct] is the refinement theorem of the
      handlers; from it follow convergence, independence of objects and of the
      interleaving of the two streams, and that changes leave requests.
    - Event queue: the invariant, [Pop], what compression preserves
      ([drain_converges], [relist_complete]), wake-ups and the marker of the first
      list.
    - Reflector: the store is at the version that is reported, whatever happens
      ([store_follows_server]); nothing leaks ([ListAndWatch_tidy]); timeouts.
    - Rate limiter, backoff and token bucket: one iteration on every branch, the distance
      of runs, coalescing and service of requests, the exact window, the number of
      tokens and the time to wait for them.
    - Flags: parsing reads back what a grammar of command lines writes
      ([parse_unparse]), stops at the first error, ends; the flags of the program
      ([flags_correct]); the invariant of all methods.
    - Stores and sets: equivalence with finite sets and with scans of the objects.
    - Commits and daemons: atomic replacement of files under any failure, the order
      of writing and reloading, errors, MASTER transitions.
    - Device: which link is found, and what the calls do to the table of a kernel that
      answers as rtnetlink documents ([runner_on_rtnetlink]), through encoding, parsing and
      the loop over answers; that the package keeps the laws the rest relies on
      ([RtnetlinkCalls.vishvananda_laws]), so that [System] applies to it.
    - Requests: what [Do] and [Watch] send, how often, what they wait for and what they
      leave open ([RequestProps.Do_correct], [Watch_correct]); names cannot leave the path
      ([names_stay_in_path]); the server reads back the options of a reflector
      ([reflector_requests]).
    - Watch streams: every interleaving of the goroutine with its readers and callers of
      [Stop] ([StreamWatcher_correct], [stopped_watcher_ends]).
    - Clients: which server the flags and files choose ([flags_with_file],
      [flags_without_file]), that credentials are only sent over TLS
      ([credentials_need_tls]), that caching transports changes nothing
      when the certificate files can be used ([cache_transparent]), for which limits there is a
      client, and what is asked in the end ([Connect.master_is_asked]).
    - Atomic boolean, endpoints and start-up: their functional behaviour.
    - Where the code does not do what its comments say or loses information, a
      theorem exhibits a run: [relist_keeps_stale], [announce_panics_iff_readd],
      [Cancel_does_not_unblock], [Replace_key_error], [backoff_is_flat],
      [long_interval_not_kept], [lagging_service_drops_addresses],
      [compressed_delete_leaves_unit], [sync_loses_vip], [SetMaster_loses_event],
      [backup_still_reloads], [bad_template_deadlocks], [burst_is_doubled],
      [Retry_After_not_honoured], [backoff_starts_afresh], [Stop_leaves_goroutine],
      [short_watch_has_no_timeout], [extensions_panic], [ConfirmUsable_panics],
      [no_burst_New], [port_range_not_read], [gretap_keys_exchanged],
      [empty_file_hits_cache], [AddFlag_again_breaks].  [EventQueue.ListKeys] never
      answers a key ([EventQueueProps.readers_correct]).

    ** What is not modelled

    - Serving HTTP connections, and the handlers of [pprof] and [prometheus].  Logging.
    - In package [netlink], what is not about addresses or finding a link by its name.
    - The HTTP transport, TLS and the codecs; the bodies of requests, label selectors and
      the metrics of the client; writing kubeconfig files and prompting for passwords.
      The reflectors ([Reflector]) have requests as records, of which [RESTListWatch]
      gives the URLs.
    - The parts of the template language that the shipped templates do not use, and the
      shell scripts.
    - The value types of [pflag] that no flag of the program has; [Poll] and
      [ExponentialBackoff], which are not called.
    - Memory exhaustion, and data races on [skipCommit], which is written by the
      controller without the proxier's lock.

    Next: [SetMaster] in several steps inside [System]; the reflector of the endpoints next to that of the
    services. *)

From stdpp Require Import gmap strings list relations.

(** * Errors and outcomes of Go code *)

(** A Go [error] value.  [nil] is [None : option error]; the values are the
    error types the program's own code builds or forwards. *)
Inductive error : Type :=
| Errorf (msg : string)
| KeyError (err : error)
| EventQueueStopped.

#[export] Instance error_eq_dec : EqDecision error.
Proof. solve_decision. Defined.

(** What running a piece of Go code ends in: a normal return, a panic that
    unwinds (the state is the one left behind by the deferred calls), the end
    of the process ([os.Exit] inside [glog.Fatalf]), or a thread blocked on a
    mutex or condition variable, which left the state as it is. *)
Inductive outcome (S A : Type) : Type :=
| Ret (a : A) (s : S)
| Panic (msg : string) (s : S)
| Exit (s : S)
| Block (s : S).
Arguments Ret {S A} a s.
Arguments Panic {S A} msg s.
Arguments Exit {S A} s.
Arguments Block {S A} s.

(** The state the code leaves, however it ends. *)
Definition final {S A} (o : outcome S A) : S :=
  match o with
  | Ret _ s | Panic _ s | Exit s | Block s => s
  end.

(** Sequential Go code over a state [S]. *)
Definition M (S A : Type) : Type := S → outcome S A.

#[export] Instance M_ret {S} : MRet (M S) := λ A a s, Ret a s.
#[export] Instance M_bind {S} : MBind (M S) := λ A B f m s,
  match m s with
  | Ret a s' => f a s'
  | Panic msg s' => Panic msg s'
  | Exit s' => Exit s'
  | Block s' => Block s'
  end.

Definition get {S} : M S S := λ s, Ret s s.
Definition gets {S A} (f : S → A) : M S A := λ s, Ret (f s) s.
Definition modify {S} (f : S → S) : M S unit := λ s, Ret tt (f s).
Definition panic {S A} (msg : string) : M S A := λ s, Panic msg s.
Definition fatal {S A} : M S A := λ s, Exit s.

(** [defer d()] at the head of a function body: [d] runs on a return and on a
    panic; it does not run when the process exits, and a blocked thread has
    not reached the end of the body. *)
Definition deferred {S A} (d : S → S) (m : M S A) : M S A := λ s,
  match m s with
  | Ret a s' => Ret a (d s')
  | Panic msg s' => Panic msg (d s')
  | Exit s' => Exit s'
  | Block s' => Block s'
  end.

(** Code over a part [T] of the state [S]. *)
Definition zoom {S T A} (view : S → T) (upd : T → S → S) (m : M T A) : M S A := λ s,
  match m (view s) with
  | Ret a t => Ret a (upd t s)
  | Panic msg t => Panic msg (upd t s)
  | Exit t => Exit (upd t s)
  | Block t => Block (upd t s)
  end.

(** Code with a variable of its own that starts as [t]. *)
Definition with_var {S T A} (t : T) (m : M (S * T) A) : M S A := λ s,
  match m (s, t) with
  | Ret a s' => Ret a s'.1
  | Panic msg s' => Panic msg s'.1
  | Exit s' => Exit s'.1
  | Block s' => Block s'.1
  end.

(** [for _, x := range xs { body(x) }] over a slice. *)
Fixpoint for_each {S A} (body : A → M S unit) (xs : list A) : M S unit :=
  match xs with
  | [] => mret tt
  | x :: xs' => body x ;; for_each body xs'
  end.

(** The builtin [copy]: [dst] afterwards, whose length does not change. *)
Definition go_copy {A} (dst src : list A) : list A := take (length dst) src ++ drop (length src) dst.

(** * Ranging over maps

    [for k := range m] visits every key once in an unspecified order.  The order
    is a parameter of the definitions that range over a map: any function that
    lists the keys. *)
Class MapOrder := {
  map_range {V : Type} : gmap string V → list string;
  map_range_perm {V : Type} (m : gmap string V) : map_range m ≡ₚ (map_to_list m).*1
}.

(** Two orders, for runs by computation. *)
Definition order_up : MapOrder :=
  {| map_range V m := (map_to_list m).*1; map_range_perm V m := reflexivity _ |}.
Program Definition order_down : MapOrder :=
  {| map_range V m := reverse (map_to_list m).*1 |}.
Next Obligation. intros V m. apply reverse_Permutation. Qed.

(** * Automation *)

(** The well-formedness lemmas of the components' states. *)
Create HintDb go.

(** Unfold the monad's plumbing, leaving the program's own definitions. *)
Ltac m_unfold :=
  unfold mbind, mret, M_bind, M_ret, get, gets, modify, panic, fatal in *.

(** Case analysis on a decision of the goal only. *)
Ltac decide_goal :=
  match goal with |- context [@decide ?P ?d] => destruct (@decide P d) end.

(** * Running code *)

Lemma bind_Ret {S A B} (m : M S A) (f : A → M S B) s a s' :
  m s = Ret a s' → mbind f m s = f a s'.
Proof. intros H. unfold mbind, M_bind. by rewrite H. Qed.

Lemma bind_unfold {S A B} (m : M S A) (f : A → M S B) s :
  mbind f m s =
  match m s with
  | Ret a s' => f a s'
  | Panic msg s' => Panic msg s'
  | Exit s' => Exit s'
  | Block s' => Block s'
  end.
Proof. done. Qed.
Lemma bind_Ret_inv {S A B} (m : M S A) (f : A → M S B) s b s' :
  mbind f m s = Ret b s' → ∃ a s1, m s = Ret a s1 ∧ f a s1 = Ret b s'.
Proof. rewrite bind_unfold. destruct (m s); [eauto|done..]. Qed.
Lemma with_var_inv {S T A} (t : T) (m : M (S * T) A) s a s' :
  with_var t m s = Ret a s' → ∃ s1, m (s, t) = Ret a s1 ∧ s' = s1.1.
Proof. unfold with_var. destruct (m (s, t)); [intros [= <- <-]; eauto|done..]. Qed.

(** To show something of a sequence, follow how its first part ends. *)
Lemma bind_case {S A B} (P : outcome S B → Prop) (m : M S A) (f : A → M S B) s :
  match m s with
  | Ret a s' => P (f a s')
  | Panic msg s' => P (Panic msg s')
  | Exit s' => P (Exit s')
  | Block s' => P (Block s')
  end → P (mbind f m s).
Proof. unfold mbind, M_bind. by destruct (m s). Qed.

(** Run the first part of a sequence, by an equation for its result. *)
Tactic Notation "run" uconstr(H) := rewrite (bind_Ret _ _ _ _ _ H).
Tactic Notation "run" uconstr(H) "in" hyp(H') := rewrite (bind_Ret _ _ _ _ _ H) in H'.

(** Continuations that agree give the same code. *)
Lemma bind_ext {S A B} (m : M S A) (f g : A → M S B) s :
  (∀ a s, f a s = g a s) → mbind f m s = mbind g m s.
Proof. intros H. unfold mbind, M_bind. by destruct (m s). Qed.

(** * Postconditions *)

(** [Q] of a return, [P] of the state that is left otherwise. *)
Definition post {S A} (m : M S A) (s : S) (Q : A → S → Prop) (P : S → Prop) : Prop :=
  match m s with
  | Ret a s' => Q a s'
  | o => P (final o)
  end.

Lemma post_ret {S A} (a : A) (s : S) (Q : A → S → Prop) P : Q a s → post (mret a) s Q P.
Proof. done. Qed.
Lemma post_run {S A} (m : M S A) s a s' (Q : A → S → Prop) P : m s = Ret a s' → Q a s' → post m s Q P.
Proof. unfold post. by intros ->. Qed.
Lemma post_modify {S} (f : S → S) s (Q : unit → S → Prop) P : Q tt (f s) → post (modify f) s Q P.
Proof. done. Qed.
Lemma post_bind {S A B} (m : M S A) (f : A → M S B) s Q P :
  post m s (λ a s', post (f a) s' Q P) P → post (mbind f m) s Q P.
Proof. unfold post. rewrite bind_unfold. by destruct (m s). Qed.
Lemma post_gets {S A B} (g : S → A) (f : A → M S B) s Q P :
  post (f (g s)) s Q P → post (mbind f (gets g)) s Q P.
Proof. done. Qed.
Lemma post_weaken {S A} (m : M S A) s (Q Q' : A → S → Prop) (P P' : S → Prop) :
  post m s Q P → (∀ a s', Q a s' → Q' a s') → (∀ s', P s' → P' s') → post m s Q' P'.
Proof. unfold post. destruct (m s); naive_solver. Qed.
Lemma post_deferred {S A} (d : S → S) (m : M S A) s (Q : A → S → Prop) (P : S → Prop) :
  post m s (λ a s', Q a (d s')) (λ s', P s' ∧ P (d s')) → post (deferred d m) s Q P.
Proof. unfold post, deferred. destruct (m s); cbn; naive_solver. Qed.
Lemma post_final {S A} (m : M S A) s (P : S → Prop) :
  post m s (λ _ s', P s') P → P (final (m s)).
Proof. unfold post. by destruct (m s). Qed.

Lemma post_zoom {S T A} (view : S → T) (upd : T → S → S) (m : M T A) s Q P :
  post m (view s) (λ a t, Q a (upd t s)) (λ t, P (upd t s)) → post (zoom view upd m) s Q P.
Proof. unfold post, zoom. by destruct (m (view s)). Qed.

(** The code returns, with [Q]. *)
Abbreviation returns m s Q := (post m s Q (λ _, False)).
Lemma returns_Ret {S A} (m : M S A) s (Q : A → S → Prop) :
  returns m s Q ↔ ∃ a s', m s = Ret a s' ∧ Q a s'.
Proof. unfold post. split; [destruct (m s); naive_solver|by intros (? & ? & -> & ?)]. Qed.

(** * Generic lemmas *)

(** An invariant of a step relation holds in every reachable state. *)
Lemma rtc_invariant {A} (R : relation A) (I : A → Prop) x y :
  (∀ a b, I a → R a b → I b) → rtc R x y → I x → I y.
Proof. intros Hstep. induction 1; eauto. Qed.

Lemma foldl_invariant {A B} (f : A → B → A) (I : A → Prop) xs a :
  (∀ a x, I a → x ∈ xs → I (f a x)) → I a → I (foldl f a xs).
Proof.
  revert a. induction xs as [|x xs IH]; simpl; intros a Hf Ha; [done|].
  apply IH; [|apply Hf; set_solver]. intros; apply Hf; set_solver.
Qed.

(** Filtering out a key that is not there changes nothing. *)
Lemma filter_ne_id {A} `{EqDecision A} (k : A) (l : list A) :
  k ∉ l → filter (λ x, x ≠ k) l = l.
Proof.
  induction l as [|x l IH]; intros Hk; [done|].
  rewrite filter_cons_True by set_solver. rewrite IH; set_solver.
Qed.

(** In a list without duplicates the last of several elements is not the first. *)
Lemma last_cons_ne {A} (k x : A) l :
  NoDup (k :: l) → l ≠ [] → last (k :: l) = Some x → x ≠ k.
Proof.
  intros [Hk _]%NoDup_cons Hne Hl ->. apply Hk. destruct l as [|y l]; [done|].
  change (last (y :: l) = Some k) in Hl. apply last_Some in Hl as [l' ->]. set_solver.
Qed.

(** The last element of a list is that of any of its nonempty tails. *)
Lemma last_drop {A} (l : list A) n : n < length l → last (drop n l) = last l.
Proof.
  intros Hn. rewrite <-(take_drop n l) at 2. rewrite last_app.
  destruct (last (drop n l)) eqn:E; [done|]. apply last_None in E.
  pose proof (length_drop l n) as Hl. rewrite E in Hl. simpl in Hl. lia.
Qed.

(** The range of a map lists its keys once each. *)
Lemma elem_of_map_range `{!MapOrder} {V} (m : gmap string V) k :
  k ∈ map_range m ↔ is_Some (m !! k).
Proof.
  rewrite map_range_perm, list_elem_of_fmap. split.
  - intros ([k' v] & -> & Hin). apply elem_of_map_to_list in Hin. simpl. eauto.
  - intros [v Hv]. exists (k, v). by rewrite elem_of_map_to_list.
Qed.

Lemma NoDup_map_range `{!MapOrder} {V} (m : gmap string V) : NoDup (map_range m).
Proof. rewrite map_range_perm. apply NoDup_fst_map_to_list. Qed.
