(* ===== verification/GoStrings.v ===== *)
(** The part of Go's string handling the program uses: [strings.LastIndex],
    slicing [s[:n]] with its bounds check, and the concatenations that
    [fmt.Sprintf] with [%s] verbs performs.  Strings are byte strings. *)

From Stdlib Require Import Ascii.
From stdpp Require Import gmap strings list sorting.
From S2P Require Import Prelude.

Local Open Scope Z_scope.

(** [strings.LastIndex s sep]: the index of the last instance of [sep] in [s],
    or -1. *)
Fixpoint LastIndex (s sep : string) : Z :=
  match s with
  | EmptyString => if String.prefix sep EmptyString then 0 else -1
  | String c s' =>
      let r := LastIndex s' sep in
      if decide (r < 0) then (if String.prefix sep (String c s') then 0 else -1)
      else r + 1
  end.

(** The slice expression [s[:n]]; [None] is the run-time panic of an index out
    of range. *)
Definition slice_to (s : string) (n : Z) : option string :=
  if decide (0 ≤ n ≤ Z.of_nat (String.length s))
  then Some (String.substring 0 (Z.to_nat n) s)
  else None.

(** [strings.ToLower] of text in ASCII. *)
Definition lower_byte (c : ascii) : ascii :=
  let n := nat_of_ascii c in
  if decide (65 <= n <= 90)%nat then ascii_of_nat (n + 32) else c.
Fixpoint ToLower (s : string) : string :=
  match s with EmptyString => "" | String c s' => String (lower_byte c) (ToLower s') end.

(** Whether the byte [c] occurs in [s]. *)
Fixpoint has_byte (c : ascii) (s : string) : bool :=
  match s with
  | EmptyString => false
  | String d s' => bool_decide (c = d) || has_byte c s'
  end.

(** The keys of a map in increasing order. *)
Definition sorted_keys {A} (m : gmap string A) : list string :=
  merge_sort String.le (map_to_list m).*1.

(** The separator byte of the program's keys, as a string. *)
Definition colon : ascii := ":"%char.

Lemma append_assoc s t u : (s +:+ t) +:+ u = s +:+ (t +:+ u).
Proof. induction s; [done|]. unfold String.app in *; simpl. by f_equal. Qed.

Lemma append_empty_r s : s +:+ "" = s.
Proof. induction s; [done|]. unfold String.app in *; simpl. by f_equal. Qed.

Lemma length_append s t :
  String.length (s +:+ t) = (String.length s + String.length t)%nat.
Proof. induction s; [done|]. unfold String.app in *; simpl. by f_equal. Qed.

Lemma has_byte_append c s t : has_byte c (s +:+ t) = has_byte c s || has_byte c t.
Proof.
  induction s as [|d s IH]; [done|]. unfold String.app in *; simpl in *.
  rewrite IH. by destruct (bool_decide _).
Qed.

Lemma substring_append s t : String.substring 0 (String.length s) (s +:+ t) = s.
Proof.
  induction s as [|c s IH]; [by destruct t|]. unfold String.app in *; simpl.
  by rewrite IH.
Qed.

Lemma prefix_colon c s : String.prefix ":" (String c s) = bool_decide (colon = c).
Proof.
  cbn [String.prefix]. fold colon. case_match; [|by rewrite bool_decide_eq_false_2].
  rewrite bool_decide_eq_true_2 by done. by destruct s.
Qed.

Lemma LastIndex_none s : has_byte colon s = false → LastIndex s ":" = -1.
Proof.
  induction s as [|c s IH]; [done|]. cbn [has_byte]. intros [Hc Hs]%orb_false_iff.
  cbn [LastIndex]. cbv zeta. by rewrite IH, prefix_colon, Hc.
Qed.

Lemma LastIndex_bounds s sep : -1 ≤ LastIndex s sep.
Proof.
  induction s as [|c s IH]; cbn [LastIndex].
  - case_match; lia.
  - cbv zeta. case_decide; [case_match|]; lia.
Qed.

Lemma LastIndex_found s :
  has_byte colon s = true → 0 ≤ LastIndex s ":" < Z.of_nat (String.length s).
Proof.
  induction s as [|c s IH]; [done|]. cbn [has_byte LastIndex]. cbv zeta. rewrite prefix_colon.
  cbn [String.length]. destruct (has_byte colon s) eqn:E.
  - intros _. destruct (IH eq_refl). rewrite decide_False by lia. lia.
  - rewrite orb_false_r. intros ->. rewrite LastIndex_none by done. simpl. lia.
Qed.

(** A string with a separator can be cut before the last one. *)
Lemma slice_LastIndex s : has_byte colon s = true → is_Some (slice_to s (LastIndex s ":")).
Proof.
  intros Hs%LastIndex_found. unfold slice_to. rewrite decide_True by lia. eauto.
Qed.

(** The last separator of [a:b] is the one before [b] when [b] has none. *)
Lemma LastIndex_sep a b :
  has_byte colon b = false →
  LastIndex (a +:+ ":" +:+ b) ":" = Z.of_nat (String.length a).
Proof.
  intros Hb. induction a as [|c a IH].
  - unfold String.app; cbn [String.append LastIndex]. cbv zeta.
    rewrite (LastIndex_none b) by done. simpl. by destruct b.
  - unfold String.app in *. cbn [String.append LastIndex]. cbv zeta.
    rewrite IH. rewrite decide_False by lia. simpl. lia.
Qed.

Lemma slice_to_sep a b :
  slice_to (a +:+ ":" +:+ b) (Z.of_nat (String.length a)) = Some a.
Proof.
  unfold slice_to. rewrite length_append, decide_True by lia.
  by rewrite Nat2Z.id, substring_append.
Qed.

(** A string with no separator cannot be cut before it. *)
Lemma slice_to_neg s n : n < 0 → slice_to s n = None.
Proof. intros. unfold slice_to. by rewrite decide_False by lia. Qed.

(** Cutting at a separator is unambiguous when the tail has none. *)
Lemma sep_inj_l a a' b b' :
  has_byte colon b = false → has_byte colon b' = false →
  a +:+ ":" +:+ b = a' +:+ ":" +:+ b' → a = a' ∧ b = b'.
Proof.
  intros Hb Hb' Heq.
  assert (a = a') as ->.
  { assert (String.length a = String.length a') as Hl.
    { apply Nat2Z.inj. rewrite <-(LastIndex_sep a b), <-(LastIndex_sep a' b') by done.
      by rewrite Heq. }
    assert (Some a = Some a') as [=]; [|done].
    by rewrite <-(slice_to_sep a b), <-(slice_to_sep a' b'), Heq, Hl. }
  split; [done|]. by apply (inj (String.app a')), (inj (String.app ":")) in Heq.
Qed.

(** Cutting at the first separator [d] is unambiguous when the head has none. *)
Lemma head_inj d a a' b b' :
  has_byte d a = false → has_byte d a' = false →
  a +:+ String d b = a' +:+ String d b' → a = a' ∧ b = b'.
Proof.
  revert a'. induction a as [|c a IH]; intros [|c' a'] Ha Ha' Heq;
    unfold String.app in *; simpl in *.
  - by injection Heq.
  - injection Heq as <- _. by rewrite bool_decide_eq_true_2 in Ha'.
  - injection Heq as -> _. by rewrite bool_decide_eq_true_2 in Ha.
  - apply orb_false_iff in Ha as [_ Ha], Ha' as [_ Ha'].
    injection Heq as -> Heq. destruct (IH a' Ha Ha' Heq) as [-> ->]. done.
Qed.

Lemma sep_inj_r a a' b b' :
  has_byte colon a = false → has_byte colon a' = false →
  a +:+ ":" +:+ b = a' +:+ ":" +:+ b' → a = a' ∧ b = b'.
Proof. apply (head_inj colon). Qed.
