(* ===== verification/GoTime.v ===== *)
(** Go's [time.Duration] and [time.Time] as far as the program uses them.

    A [Duration] is an [int64] count of nanoseconds, kept in [Z] with its
    wrap-around written out ([wrap64]).  A [Time] is an instant in nanoseconds
    since Go's zero time on an unbounded axis; [Sub] saturates at the ends of
    [int64], as the documentation of [time.Time.Sub] says. *)

From stdpp Require Import numbers.
From S2P Require Import Prelude.

Local Open Scope Z_scope.

Definition Duration : Type := Z.
Definition Time : Type := Z.

(** [time.Time{}]. *)
Definition zero_Time : Time := 0.

Definition min_int64 : Z := - 2 ^ 63.
Definition max_int64 : Z := 2 ^ 63 - 1.

(** Two's complement wrap-around of a mathematical integer to [int64]. *)
Definition wrap64 (z : Z) : Z := (z + 2 ^ 63) mod 2 ^ 64 - 2 ^ 63.

Definition is_int64 (z : Z) : Prop := min_int64 ≤ z ≤ max_int64.

(** [t.Sub(u)]. *)
Definition Sub (t u : Time) : Duration := Z.max min_int64 (Z.min max_int64 (t - u)).

Definition Nanosecond : Duration := 1.
Definition Millisecond : Duration := 1000000.
Definition Second : Duration := 1000000000.
Definition Minute : Duration := 60 * Second.

Lemma wrap64_id z : is_int64 z → wrap64 z = z.
Proof.
  unfold is_int64, wrap64, min_int64, max_int64. intros H.
  rewrite Z.mod_small; lia.
Qed.

Lemma wrap64_range z : is_int64 (wrap64 z).
Proof.
  unfold is_int64, wrap64, min_int64, max_int64.
  pose proof (Z.mod_pos_bound (z + 2 ^ 63) (2 ^ 64)). lia.
Qed.

Lemma Sub_range t u : is_int64 (Sub t u).
Proof. unfold is_int64, Sub, min_int64, max_int64. lia. Qed.

(** Within the range of a duration, comparing [Sub] is comparing instants. *)
Lemma Sub_lt t u d : is_int64 d → min_int64 < d → Sub t u < d ↔ t - u < d.
Proof. unfold is_int64, Sub, min_int64, max_int64. lia. Qed.

Lemma Sub_gt t u d : is_int64 d → d < max_int64 → d < Sub t u ↔ d < t - u.
Proof. unfold is_int64, Sub, min_int64, max_int64. lia. Qed.
