(* ===== verification/Wait.v ===== *)
(** [util/wait/wait.go] of the vendored Kubernetes code, as the program uses it: the
    loop that runs a function every period, recovers from its panics and ends when
    its stop channel is closed.

    The loop may run for ever, so what the outside does is an argument: the code of
    each run (which includes what the run reads from the outside) and whether the
    channel is closed when the loop looks at it.  A loop whose argument is used up is
    waiting for the period to pass. *)

From stdpp Require Import list.
From S2P Require Import Prelude.

(** [defer runtime.HandleCrash()] around a run: a panic is logged and the run is over. *)
Definition recover_panic {S} (m : M S unit) : M S unit := λ s,
  match m s with
  | Panic _ s' => Ret tt s'
  | o => o
  end.

(** The loop of [JitterUntil]: a run with what its second [select] finds. *)
Fixpoint until_loop {S} (runs : list (M S unit * bool)) : M S unit :=
  match runs with
  | [] => λ s, Block s
  | (f, stopped) :: runs =>
      recover_panic f ;;
      if stopped : bool then mret tt else until_loop runs
  end.

(** [JitterUntil] with the factor 0, which [Until] passes: the period is the same before
    every run.  [stopped] is what the first [select] finds. *)
Definition JitterUntil {S} (stopped : bool) (runs : list (M S unit * bool)) : M S unit :=
  if stopped then mret tt else until_loop runs.

Definition Until {S} (stopped : bool) (runs : list (M S unit * bool)) : M S unit :=
  JitterUntil stopped runs.

(** A run leaves by a return or not at all. *)
Lemma recover_panic_final {S} (m : M S unit) s : final (recover_panic m s) = final (m s).
Proof. unfold recover_panic. by destruct (m s). Qed.

(** What every run keeps, the loop keeps. *)
Lemma Until_keeps {S} (I : S → Prop) stopped runs s :
  Forall (λ r : M S unit * bool, ∀ s, I s → I (final (r.1 s))) runs →
  I s → I (final (Until stopped runs s)).
Proof.
  intros Hr. unfold Until, JitterUntil. destruct stopped; [done|]. revert s.
  induction Hr as [|[f b] runs Hf _ IH]; intros s HI; [done|]. cbn [until_loop].
  apply bind_case. specialize (Hf s HI). cbn in Hf. rewrite <-recover_panic_final in Hf.
  destruct (recover_panic f s); cbn in Hf; [|done..]. destruct b; [done|]. by apply IH.
Qed.
