(* ===== verification/StringSet.v ===== *)
(** [util/sets/string.go] of the vendored Kubernetes code: sets of strings as maps to
    nothing.

    The methods that change a set are functions to the changed set.  The order in
    which a set is walked through is that of Go's maps ([MapOrder]); the theorem at
    the end says that nothing but [PopAny] depends on it, and that the methods are
    the operations on finite sets. *)

From stdpp Require Import gmap strings list sorting.
From S2P Require Import Prelude GoStrings.

(** [type String map[string]Empty]. *)
Abbreviation String := (gmap string ()).

Section StringSet.
Context `{mo : MapOrder}.
Implicit Types s : String.

Fixpoint Insert (items : list string) (s : String) : String :=
  match items with
  | [] => s
  | item :: items => Insert items (<[item := tt]> s)
  end.
Definition NewString (items : list string) : String := Insert items ∅.
(** [StringKeySet], for a map with string keys. *)
Definition StringKeySet {V} (theMap : gmap string V) : String :=
  foldl (λ ret key, Insert [key] ret) ∅ (map_range theMap).
Fixpoint Delete (items : list string) (s : String) : String :=
  match items with
  | [] => s
  | item :: items => Delete items (delete item s)
  end.
Definition Has (item : string) (s : String) : bool :=
  match s !! item with Some _ => true | None => false end.
Fixpoint HasAll (items : list string) (s : String) : bool :=
  match items with
  | [] => true
  | item :: items => if negb (Has item s) then false else HasAll items s
  end.
Fixpoint HasAny (items : list string) (s : String) : bool :=
  match items with
  | [] => false
  | item :: items => if Has item s then true else HasAny items s
  end.
Definition Len (s : String) : nat := size s.
Definition Difference (s s2 : String) : String :=
  foldl (λ result key, if negb (Has key s2) then Insert [key] result else result) (NewString []) (map_range s).
Definition Union (s1 s2 : String) : String :=
  let result := foldl (λ result key, Insert [key] result) (NewString []) (map_range s1) in
  foldl (λ result key, Insert [key] result) result (map_range s2).
Definition Intersection (s1 s2 : String) : String :=
  let '(walk, other) := if decide (Len s1 < Len s2) then (s1, s2) else (s2, s1) in
  foldl (λ result key, if Has key other then Insert [key] result else result) (NewString []) (map_range walk).
Definition IsSuperset (s1 s2 : String) : bool := HasAll (map_range s2) s1.
Definition Equal (s1 s2 : String) : bool := bool_decide (size s1 = size s2) && IsSuperset s1 s2.

(** [sort.Sort] with [lessString]: the keys are distinct, so that the sorted list is
    unique. *)
Definition lessString (lhs rhs : string) : bool := String.ltb lhs rhs.
Definition List (s : String) : list string :=
  merge_sort String.le (foldl (λ res key, res ++ [key]) [] (map_range s)).
Definition PopAny (s : String) : string * bool * String :=
  match map_range s with
  | key :: _ => (key, true, Delete [key] s)
  | [] => ("", false, s)
  end.

(** ** Lemmas *)
Local Abbreviation dom m := (base.dom m : gset string).

Lemma Insert_dom items s : dom (Insert items s) = dom s ∪ list_to_set items.
Proof.
  revert s. induction items as [|i items IH]; intros s; cbn; [set_solver|].
  rewrite IH, dom_insert_L. set_solver.
Qed.
Lemma Delete_dom items s : dom (Delete items s) = dom s ∖ list_to_set items.
Proof.
  revert s. induction items as [|i items IH]; intros s; cbn; [set_solver|].
  rewrite IH, dom_delete_L. set_solver.
Qed.
Lemma Has_spec item s : Has item s = true ↔ item ∈ dom s.
Proof. unfold Has. rewrite elem_of_dom. destruct (s !! item); naive_solver. Qed.

(** A loop that inserts the keys with some property. *)
Lemma insert_loop_dom (f : string → bool) ks s :
  dom (foldl (λ result key, if f key then Insert [key] result else result) s ks) =
    dom s ∪ list_to_set (filter (λ k, f k = true) ks).
Proof.
  revert s. induction ks as [|k ks IH]; intros s; cbn [foldl]; [set_solver|]. rewrite IH.
  destruct (f k) eqn:E.
  - rewrite filter_cons_True by done. cbn [Insert]. rewrite dom_insert_L. set_solver.
  - rewrite filter_cons_False by congruence. set_solver.
Qed.

Lemma elem_map_range {V} (m : gmap string V) k : k ∈ map_range m ↔ k ∈ dom m.
Proof. by rewrite elem_of_map_range, elem_of_dom. Qed.

Lemma insert_loop_range (f : string → bool) s {V} (m : gmap string V) k :
  k ∈ dom (foldl (λ result key, if f key then Insert [key] result else result) s (map_range m)) ↔
    k ∈ dom s ∨ (k ∈ dom m ∧ f k = true).
Proof.
  rewrite insert_loop_dom, elem_of_union, elem_of_list_to_set, list_elem_of_filter, elem_map_range. tauto.
Qed.

Lemma insert_all_range s {V} (m : gmap string V) k :
  k ∈ dom (foldl (λ result key, Insert [key] result) s (map_range m)) ↔ k ∈ dom s ∨ k ∈ dom m.
Proof. pose proof (insert_loop_range (λ _, true) s m k). cbn [Insert] in *. tauto. Qed.

Lemma HasAll_spec items s : HasAll items s = true ↔ ∀ i, i ∈ items → i ∈ dom s.
Proof.
  induction items as [|i items IH]; cbn; [split; [set_solver|done]|].
  destruct (Has i s) eqn:E; cbn.
  - rewrite IH. apply Has_spec in E. set_solver.
  - split; [done|]. intros H. rewrite <-E. apply Has_spec, H. left.
Qed.
Lemma HasAny_spec items s : HasAny items s = true ↔ ∃ i, i ∈ items ∧ i ∈ dom s.
Proof.
  induction items as [|i items IH]; cbn; [split; [done|set_solver]|].
  destruct (Has i s) eqn:E.
  - apply Has_spec in E. split; [intros _; exists i; set_solver|done].
  - rewrite IH. split; [set_solver|]. intros (j & [->|Hj]%elem_of_cons & Hd); [|by eauto].
    apply Has_spec in Hd. congruence.
Qed.

Lemma snoc_loop (l acc : list string) : foldl (λ res key, res ++ [key]) acc l = acc ++ l.
Proof.
  revert acc. induction l as [|k l IH]; intros acc; cbn; [by rewrite app_nil_r|].
  by rewrite IH, <-app_assoc.
Qed.

Lemma List_perm s : List s ≡ₚ map_range s.
Proof. unfold List. by rewrite merge_sort_Permutation, snoc_loop. Qed.
Lemma elem_of_List k s : k ∈ List s ↔ k ∈ dom s.
Proof. by rewrite List_perm, elem_map_range. Qed.
Lemma NoDup_List s : NoDup (List s).
Proof. rewrite List_perm. apply NoDup_map_range. Qed.

Lemma unit_map_eq s1 s2 : dom s1 = dom s2 → s1 = s2.
Proof.
  intros H. apply map_eq. intros k. destruct (s1 !! k) as [[]|] eqn:E1, (s2 !! k) as [[]|] eqn:E2; try done.
  - apply not_elem_of_dom in E2. apply elem_of_dom_2 in E1. set_solver.
  - apply not_elem_of_dom in E1. apply elem_of_dom_2 in E2. set_solver.
Qed.

Lemma Equal_spec s1 s2 : Equal s1 s2 = true ↔ s1 = s2.
Proof.
  unfold Equal. rewrite andb_true_iff, bool_decide_eq_true. unfold IsSuperset. rewrite HasAll_spec. split.
  - intros [Hsz Hsub]. apply unit_map_eq. symmetry. apply set_subseteq_size_eq.
    + intros k. rewrite <-(elem_map_range s2). apply Hsub.
    + by rewrite !size_dom, Hsz.
  - intros ->. split; [done|]. intros i. by rewrite elem_map_range.
Qed.

(** ** The property *)

(** Sets of strings are finite sets: with [dom] as the elements, the constructors,
    membership tests, difference, union, intersection, superset, equality and size
    are those of sets, [List] lists the elements once each in increasing order, and
    [PopAny] removes some element unless there is none. *)
Theorem string_sets_correct s1 s2 items :
  (dom (NewString items) = list_to_set items ∧ dom (Insert items s1) = dom s1 ∪ list_to_set items ∧
   dom (Delete items s1) = dom s1 ∖ list_to_set items) ∧
  ((∀ k, Has k s1 = true ↔ k ∈ dom s1) ∧ (HasAll items s1 = true ↔ ∀ k, k ∈ items → k ∈ dom s1) ∧
   (HasAny items s1 = true ↔ ∃ k, k ∈ items ∧ k ∈ dom s1)) ∧
  (dom (Difference s1 s2) = dom s1 ∖ dom s2 ∧ dom (Union s1 s2) = dom s1 ∪ dom s2 ∧
   dom (Intersection s1 s2) = dom s1 ∩ dom s2) ∧
  ((IsSuperset s1 s2 = true ↔ dom s2 ⊆ dom s1) ∧ (Equal s1 s2 = true ↔ s1 = s2)) ∧
  (Len s1 = size (dom s1) ∧ NoDup (List s1) ∧ StronglySorted String.le (List s1) ∧
   ∀ k, k ∈ List s1 ↔ k ∈ dom s1) ∧
  match PopAny s1 with
  | (k, true, s') => k ∈ dom s1 ∧ s' = delete k s1
  | (_, false, s') => s1 = ∅ ∧ s' = s1
  end.
Proof.
  split_and!.
  - unfold NewString. rewrite Insert_dom. set_solver.
  - apply Insert_dom.
  - apply Delete_dom.
  - intros k. apply Has_spec.
  - apply HasAll_spec.
  - apply HasAny_spec.
  - apply set_eq. intros k. unfold Difference. rewrite (insert_loop_range (λ key, negb (Has key s2))).
    rewrite negb_true_iff, <-not_true_iff_false, Has_spec. set_solver.
  - apply set_eq. intros k. unfold Union. rewrite !insert_all_range. set_solver.
  - apply set_eq. intros k. unfold Intersection. case_decide; rewrite insert_loop_range, Has_spec; set_solver.
  - unfold IsSuperset. rewrite HasAll_spec. split; intros H k; [rewrite <-(elem_map_range s2)|rewrite elem_map_range]; apply H.
  - apply Equal_spec.
  - unfold Len. by rewrite size_dom.
  - apply NoDup_List.
  - unfold List. apply StronglySorted_merge_sort; apply _.
  - intros k. apply elem_of_List.
  - unfold PopAny. destruct (map_range s1) as [|k ks] eqn:E.
    + split; [|done]. apply unit_map_eq. apply set_eq. intros k.
      rewrite <-(elem_map_range s1), E. set_solver.
    + split; [|done]. apply elem_map_range. rewrite E. left.
Qed.
End StringSet.
