(* ===== verification/Strconv.v ===== *)
(** Further parts of Go's [strings] and [strconv] packages, as the flag packages use
    them: searching and splitting at a byte, joining, booleans, and 64-bit integers
    in base 10 or with a base prefix.

    [ParseInt] is written out with its range errors: on an overflow the result is
    the nearest integer of 64 bits together with an error, and the flag types
    store that result.  Quoting, floating-point numbers and the text of durations
    are a parameter ([GoFormats]): nothing depends on them but the texts of
    messages and what a flag of that type accepts. *)

From Stdlib Require Import Ascii QArith.
From stdpp Require Import strings list pretty sorting gmap.
From S2P Require Import Prelude GoStrings GoTime.

Local Open Scope Z_scope.

(** ** Strings *)

(** [strings.HasPrefix s p]. *)
Definition HasPrefix (s p : string) : bool := String.prefix p s.

(** [strings.Contains s sub]. *)
Fixpoint Contains (s sub : string) : bool :=
  String.prefix sub s || match s with EmptyString => false | String _ s' => Contains s' sub end.

(** [strings.Index s c] for a single byte. *)
Fixpoint IndexByte (c : ascii) (s : string) : option nat :=
  match s with
  | EmptyString => None
  | String d s' => if decide (d = c) then Some 0%nat else S <$> IndexByte c s'
  end.

(** [s[i:]] and [s[:i]] for an index that is in range. *)
Fixpoint skip (i : nat) (s : string) : string :=
  match i, s with
  | S i, String _ s' => skip i s'
  | _, _ => s
  end.
Fixpoint take_s (i : nat) (s : string) : string :=
  match i, s with
  | S i, String c s' => String c (take_s i s')
  | _, _ => EmptyString
  end.

(** [strings.SplitN s c 2] for a single byte: the part before the first [c], and the
    part after it when there is one. *)
Fixpoint cut (c : ascii) (s : string) : string * option string :=
  match s with
  | EmptyString => (EmptyString, None)
  | String d s' =>
      if decide (d = c) then (EmptyString, Some s')
      else let r := cut c s' in (String d r.1, r.2)
  end.

(** [strings.Replace s old new -1] for single bytes. *)
Fixpoint replace_byte (old new : ascii) (s : string) : string :=
  match s with
  | EmptyString => EmptyString
  | String c s' => String (if decide (c = old) then new else c) (replace_byte old new s')
  end.

(** [strings.Repeat " " n]. *)
Fixpoint spaces (n : nat) : string :=
  match n with O => EmptyString | S n => String " " (spaces n) end.

(** [strings.TrimSuffix s suffix]. *)
Fixpoint TrimSuffix (s suffix : string) : string :=
  if decide (s = suffix) then EmptyString
  else match s with EmptyString => EmptyString | String c s' => String c (TrimSuffix s' suffix) end.

(** [fmt.Fprintln]: the operands with a space between them, and a newline. *)
Definition newline : string := String "010" "".
Fixpoint join (sep : string) (l : list string) : string :=
  match l with
  | [] => ""
  | [s] => s
  | s :: l' => s +:+ sep +:+ join sep l'
  end.
Definition Sprintln (l : list string) : string := join " " l +:+ newline.

(** ** Quoting, floats and durations *)
Class GoFormats := {
  Quote : string → string;               (* [%q] of a string *)
  QuoteByte : ascii → string;            (* [%q] of a byte *)
  ParseFloat32 : string → Q * option error;
  FormatFloat32 : Q → string;
  ParseDuration : string → Z * option error;
  Duration_String : Z → string
}.

(** ** Booleans *)
Section Strconv.
Context `{gf : GoFormats}.

Definition syntaxError (fn s : string) : error :=
  Errorf ("strconv." +:+ fn +:+ ": parsing " +:+ Quote s +:+ ": invalid syntax").
Definition rangeError (fn s : string) : error :=
  Errorf ("strconv." +:+ fn +:+ ": parsing " +:+ Quote s +:+ ": value out of range").

Definition ParseBool (s : string) : bool * option error :=
  if bool_decide (s ∈ ["1"; "t"; "T"; "true"; "TRUE"; "True"]) then (true, None)
  else if bool_decide (s ∈ ["0"; "f"; "F"; "false"; "FALSE"; "False"]) then (false, None)
  else (false, Some (syntaxError "ParseBool" s)).
Definition FormatBool (b : bool) : string := if b then "true" else "false".

(** ** Integers *)

(** The value of a digit in some base up to 36, [None] for any other byte. *)
Definition digit (c : ascii) : option Z :=
  let n := Z.of_nat (nat_of_ascii c) in
  if decide (48 ≤ n ≤ 57) then Some (n - 48)
  else if decide (97 ≤ n ≤ 122) then Some (n - 97 + 10)
  else if decide (65 ≤ n ≤ 90) then Some (n - 65 + 10)
  else None.

Inductive number : Type := Number (n : Z) | BadSyntax | OutOfRange.

Definition max_uint64 : Z := 2 ^ 64 - 1.

(** The loop of [strconv.ParseUint] over the digits, from the value [n] of those
    before: it stops at the first byte that is no digit of the base, or at the
    first digit at which the value leaves 64 bits. *)
Fixpoint parse_digits (base n : Z) (s : string) : number :=
  match s with
  | EmptyString => Number n
  | String c s' =>
      match digit c with
      | None => BadSyntax
      | Some v =>
          if decide (base ≤ v) then BadSyntax
          else if decide (max_uint64 < n * base + v) then OutOfRange
          else parse_digits base (n * base + v) s'
      end
  end.

(** [strconv.ParseUint s base 64] for base 10, and base 0 with its prefixes. *)
Definition ParseUint (s : string) (base : Z) : number :=
  match s with
  | EmptyString => BadSyntax
  | String c s' =>
      if decide (base = 0) then
        if decide (c = "0"%char) then
          match s' with
          | String "x" s'' | String "X" s'' =>
              if decide (s'' = EmptyString) then BadSyntax else parse_digits 16 0 s''
          | _ => parse_digits 8 0 s
          end
        else parse_digits 10 0 s
      else parse_digits base 0 s
  end.

(** [strconv.ParseInt s base 64], with the name of the function in its errors. *)
Definition parse_int (fn : string) (s : string) (base : Z) : Z * option error :=
  let '(neg, digits) :=
    match s with
    | String "+" s' => (false, s')
    | String "-" s' => (true, s')
    | _ => (false, s)
    end in
  let cutoff := 2 ^ 63 in
  match ParseUint digits base with
  | BadSyntax => (0, Some (syntaxError fn s))
  | OutOfRange => (if neg then - cutoff else cutoff - 1, Some (rangeError fn s))
  | Number un =>
      if neg then
        if decide (cutoff < un) then (- cutoff, Some (rangeError fn s)) else (- un, None)
      else if decide (cutoff ≤ un) then (cutoff - 1, Some (rangeError fn s)) else (un, None)
  end.
Definition ParseInt (s : string) (base : Z) : Z * option error := parse_int "ParseInt" s base.
(** [strconv.Atoi]. *)
Definition Atoi (s : string) : Z * option error := parse_int "Atoi" s 10.
End Strconv.

(** ** Lemmas *)

Lemma has_byte_false_cut c s : has_byte c s = false → cut c s = (s, None).
Proof.
  induction s as [|d s IH]; [done|]. simpl. intros [Hd Hs]%orb_false_iff.
  apply bool_decide_eq_false in Hd. rewrite decide_False by done. by rewrite IH.
Qed.

(** Splitting [name=value] where the name has no [=]. *)
Lemma cut_append c a b : has_byte c a = false → cut c (a +:+ String c b) = (a, Some b).
Proof.
  induction a as [|d a IH]; unfold String.app in *; simpl.
  - intros _. by rewrite decide_True.
  - intros [Hd Ha]%orb_false_iff. apply bool_decide_eq_false in Hd.
    rewrite decide_False by done. by rewrite IH.
Qed.

Lemma skip_length s i : (String.length (skip i s) <= String.length s)%nat.
Proof. revert s. induction i as [|i IH]; intros [|c s]; simpl; try lia. specialize (IH s). lia. Qed.

Lemma IndexByte_lt c s i : IndexByte c s = Some i → (i < String.length s)%nat.
Proof.
  revert i. induction s as [|d s IH]; intros i; simpl; [done|].
  case_decide; intros Hi; [simplify_eq; lia|].
  apply fmap_Some in Hi as (j & Hj & ->). apply IH in Hj. lia.
Qed.

(** A byte is found in a string that has it, no later than where it is. *)
Lemma IndexByte_append c s t :
  ∃ i, IndexByte c (s +:+ String c t) = Some i ∧ (i <= String.length s)%nat.
Proof.
  induction s as [|d s (i & IH & Hi)]; unfold String.app in *; simpl.
  - rewrite decide_True by done. eauto.
  - case_decide; [exists 0%nat; split; [done|lia]|]. rewrite IH. exists (S i). split; [done|lia].
Qed.

Lemma replace_byte_none old new s : has_byte old s = false → replace_byte old new s = s.
Proof.
  induction s as [|c s IH]; [done|]. simpl. intros [Hc Hs]%orb_false_iff.
  apply bool_decide_eq_false in Hc. rewrite decide_False by congruence. by rewrite IH.
Qed.

Lemma replace_byte_gone old new s : old ≠ new → has_byte old (replace_byte old new s) = false.
Proof.
  intros Hne. induction s as [|c s IH]; [done|]. simpl. rewrite IH, orb_false_r.
  apply bool_decide_eq_false. case_decide; congruence.
Qed.

Lemma prefix_empty s : String.prefix "" s = true.
Proof. by destruct s. Qed.

(** Containing a one-byte string. *)
Lemma Contains_byte c s : Contains s (String c "") = has_byte c s.
Proof.
  induction s as [|d s IH]; [done|]. cbn [Contains has_byte]. rewrite IH. f_equal.
  cbn [String.prefix]. case_match; [|by rewrite bool_decide_eq_false_2].
  by rewrite prefix_empty, bool_decide_eq_true_2.
Qed.

(** *** Decimal round trip *)
Lemma digit_pretty x : (x < 10)%N → digit (pretty_N_char x) = Some (Z.of_N x).
Proof.
  intros Hx. assert (x ∈ [0; 1; 2; 3; 4; 5; 6; 7; 8; 9]%N) as Hin by (rewrite !elem_of_cons; lia).
  clear Hx. repeat (apply elem_of_cons in Hin as [->|Hin]; [reflexivity|]). inversion Hin.
Qed.

(** Reading the decimal digits of [x] and going on with [s]. *)
Lemma parse_digits_pretty x s :
  (0 < x)%N → Z.of_N x ≤ max_uint64 →
  parse_digits 10 0 (pretty_N_go x s) = parse_digits 10 (Z.of_N x) s.
Proof.
  revert s. induction (N.lt_wf_0 x) as [x _ IH]; intros s Hx Hmax.
  assert (x mod 10 < 10)%N as Hm by (apply N.mod_lt; lia).
  assert (x = 10 * (x / 10) + x mod 10)%N as Hdm by (apply N.div_mod; lia).
  assert (Z.of_N x = Z.of_N (x / 10) * 10 + Z.of_N (x mod 10)) as HZ by lia.
  rewrite pretty_N_go_step by done.
  assert (parse_digits 10 (Z.of_N (x / 10)) (String (pretty_N_char (x mod 10)) s) =
    parse_digits 10 (Z.of_N x) s) as Hlast.
  { cbn [parse_digits]. rewrite digit_pretty by done. rewrite decide_False by lia.
    rewrite decide_False by lia. by rewrite <-HZ. }
  destruct (decide (x / 10 = 0)%N) as [E|E]; [by rewrite E in *; rewrite pretty_N_go_0|].
  assert (x / 10 < x)%N by (apply N.div_lt; lia).
  clear Hdm. generalize dependent (x / 10)%N. intros q HZ Hlast Hq Hlt.
  rewrite IH by lia. done.
Qed.

(** The first digit of a positive number is none of the characters that open a sign or
    the prefix of another base. *)
Lemma pretty_go_head x s :
  (0 < x)%N → ∃ y s', pretty_N_go x s = String (pretty_N_char y) s' ∧ (0 < y < 10)%N.
Proof.
  revert s. induction (N.lt_wf_0 x) as [x _ IH]; intros s Hx.
  assert (x mod 10 < 10)%N as Hm by (apply N.mod_lt; lia).
  assert (x = 10 * (x / 10) + x mod 10)%N as Hdm by (apply N.div_mod; lia).
  rewrite pretty_N_go_step by done.
  destruct (decide (x / 10 = 0)%N) as [E|E].
  - rewrite E, pretty_N_go_0. exists (x mod 10)%N, s. split; [done|lia].
  - apply IH; [apply N.div_lt; lia|lia].
Qed.

Lemma ParseUint_pretty x base :
  base = 0 ∨ base = 10 → (0 < x)%N → Z.of_N x ≤ max_uint64 →
  ParseUint (pretty_N_go x "") base = Number (Z.of_N x).
Proof.
  intros Hb Hx Hmax. pose proof (parse_digits_pretty x "" Hx Hmax) as Hp.
  destruct (pretty_go_head x "" Hx) as (y & s' & E & Hy). rewrite E in *. unfold ParseUint.
  assert (pretty_N_char y ≠ "0"%char).
  { assert (y ∈ [1; 2; 3; 4; 5; 6; 7; 8; 9]%N) as Hin by (rewrite !elem_of_cons; lia).
    repeat (apply elem_of_cons in Hin as [->|Hin]; [discriminate|]). inversion Hin. }
  destruct Hb as [-> | ->]; simpl decide.
  - rewrite decide_True by done. by rewrite decide_False.
  - by rewrite decide_False by lia.
Qed.

(** The text of a 64-bit integer reads back as the integer, in base 10 and with base
    detection. *)
Lemma parse_int_pretty `{!GoFormats} fn z base :
  base = 0 ∨ base = 10 → is_int64 z → parse_int fn (pretty z) base = (z, None).
Proof.
  intros Hb. unfold is_int64, min_int64, max_int64. intros Hz.
  destruct z as [|p|p].
  - destruct Hb as [-> | ->]; reflexivity.
  - change (pretty (Zpos p)) with (pretty_N_go (Npos p) "").
    pose proof (ParseUint_pretty (Npos p) base Hb eq_refl ltac:(unfold max_uint64; lia)) as Hp.
    destruct (pretty_go_head (Npos p) "" eq_refl) as (y & s' & E & Hy). rewrite E in *.
    unfold parse_int.
    assert (∀ (A : Type) (a b d : A), match pretty_N_char y with
      | "+"%char => a | "-"%char => b | _ => d end = d) as Hsign.
    { intros A a b d. assert (y ∈ [1; 2; 3; 4; 5; 6; 7; 8; 9]%N) as Hin by (rewrite !elem_of_cons; lia).
      repeat (apply elem_of_cons in Hin as [->|Hin]; [reflexivity|]). inversion Hin. }
    rewrite Hsign, Hp. simpl Z.of_N. by rewrite decide_False by lia.
  - change (pretty (Zneg p)) with (String "-" (pretty_N_go (Npos p) "")).
    unfold parse_int. rewrite ParseUint_pretty by (done || unfold max_uint64; lia).
    simpl Z.of_N. by rewrite decide_False by lia.
Qed.

(** Formats for runs by computation. *)
Definition plain_formats : GoFormats := {|
  Quote s := "'" +:+ s +:+ "'";
  QuoteByte c := String.String c "";
  ParseFloat32 s := match ParseUint s 10 with Number n => (inject_Z n, None) | _ => (0%Q, Some (Errorf s)) end;
  FormatFloat32 q := "";
  ParseDuration s := match ParseUint s 10 with Number n => (n, None) | _ => (0%Z, Some (Errorf s)) end;
  Duration_String d := ""
|}.
