(* ===== verification/PFlagValues.v ===== *)
(** The values of flags in the vendored package [pflag]: the interface [Value] and its
    implementations for the types that the program's flags have ([string.go],
    [int.go], [float32.go], [duration.go], [bool.go]), and the wrapper around the
    values of Go's own package [flag] ([golangflag.go]).

    A value holds a pointer to a variable.  Memory ([Mem C]) is one object of type
    [C], whose fields pointers may refer to (the configuration of the server), and
    the variables made by [new]; a pointer ([Ref]) is how to load and store.  A
    floating-point number of 32 bits is a rational number here. *)

From Stdlib Require Import QArith.
From stdpp Require Import strings list pretty.
From S2P Require Import Prelude GoStrings GoTime Strconv.

Local Open Scope Z_scope.

(** ** Memory *)

(** A variable made by [new]. *)
Inductive cell : Type :=
| C_string (s : string) | C_int (n : Z) | C_float32 (q : Q) | C_duration (d : Duration) | C_bool (b : bool).

Record Mem (C : Type) := mkMem { object : C; variables : list cell }.
Arguments mkMem {C} object variables.
Arguments object {C} m : rename.
Arguments variables {C} m : rename.

(** A pointer to a variable of type [A]. *)
Record Ref (C A : Type) := mkRef { load : Mem C → A; store : A → Mem C → Mem C }.
Arguments mkRef {C A} load store.
Arguments load {C A} r m : rename.
Arguments store {C A} r a m : rename.

(** [&o.Field] for a field of the object. *)
Definition field_ref {C A} (get : C → A) (put : A → C → C) : Ref C A :=
  mkRef (λ m, get (object m)) (λ a m, mkMem (put a (object m)) (variables m)).

(** [new(T)]: a fresh variable that holds the zero value. *)
Definition cell_ref {C A} (inj : A → cell) (prj : cell → option A) (zero : A) (n : nat) : Ref C A :=
  mkRef (λ m, default zero (variables m !! n ≫= prj))
        (λ a m, mkMem (object m) (<[n := inj a]> (variables m))).
Definition new {C A} (inj : A → cell) (prj : cell → option A) (zero : A) : M (Mem C) (Ref C A) := λ m,
  Ret (cell_ref inj prj zero (length (variables m)))
      (mkMem (object m) (variables m ++ [inj zero])).
Definition new_string {C} : M (Mem C) (Ref C string) :=
  new C_string (λ c, match c with C_string s => Some s | _ => None end) "".
Definition new_int {C} : M (Mem C) (Ref C Z) :=
  new C_int (λ c, match c with C_int n => Some n | _ => None end) 0.
Definition new_float32 {C} : M (Mem C) (Ref C Q) :=
  new C_float32 (λ c, match c with C_float32 q => Some q | _ => None end) 0%Q.
Definition new_duration {C} : M (Mem C) (Ref C Duration) :=
  new C_duration (λ c, match c with C_duration d => Some d | _ => None end) 0.
Definition new_bool {C} : M (Mem C) (Ref C bool) :=
  new C_bool (λ c, match c with C_bool b => Some b | _ => None end) false.

(** [*p] and [*p = a]. *)
Definition load_ref {C A} (p : Ref C A) : M (Mem C) A := gets (load p).
Definition store_ref {C A} (p : Ref C A) (a : A) : M (Mem C) unit := modify (store p a).

(** ** Values *)

(** A value of Go's package [flag]: the methods of its interface, the name that
    reflection gives its type (behind a pointer), and what its method
    [IsBoolFlag] answers if it has one. *)
Record GoValue (C : Type) := mkGoValue {
  gv_String : Mem C → string;
  gv_Set : string → M (Mem C) (option error);
  gv_TypeName : string;
  gv_IsBoolFlag : option bool
}.
Arguments mkGoValue {C} _ _ _ _.
Arguments gv_String {C} _ _.
Arguments gv_Set {C} _ _.
Arguments gv_TypeName {C} _.
Arguments gv_IsBoolFlag {C} _.

(** The dynamic types behind the interface [Value]. *)
Inductive Value (C : Type) : Type :=
| stringValue (p : Ref C string)
| intValue (p : Ref C Z)
| float32Value (p : Ref C Q)
| durationValue (p : Ref C Duration)
| boolValue (p : Ref C bool)
| flagValueWrapper (inner : GoValue C) (flagType : string).
Arguments stringValue {C} p.
Arguments intValue {C} p.
Arguments float32Value {C} p.
Arguments durationValue {C} p.
Arguments boolValue {C} p.
Arguments flagValueWrapper {C} inner flagType.

Section Values.
Context `{gf : GoFormats} {C : Type}.

(** [string.go] *)
Definition newStringValue (val : string) (p : Ref C string) : M (Mem C) (Value C) :=
  store_ref p val ;; mret (stringValue p).
Definition stringValue_Set (s : Ref C string) (val : string) : M (Mem C) (option error) :=
  store_ref s val ;; mret None.
Definition stringValue_Type : string := "string".
Definition stringValue_String (s : Ref C string) (m : Mem C) : string := load s m.
Definition stringConv (sval : string) : string * option error := (sval, None).

(** [int.go] *)
Definition newIntValue (val : Z) (p : Ref C Z) : M (Mem C) (Value C) :=
  store_ref p val ;; mret (intValue p).
Definition intValue_Set (i : Ref C Z) (s : string) : M (Mem C) (option error) :=
  let '(v, err) := ParseInt s 0 in
  store_ref i v ;; mret err.
Definition intValue_Type : string := "int".
Definition intValue_String (i : Ref C Z) (m : Mem C) : string := pretty (load i m).
Definition intConv (sval : string) : Z * option error := Atoi sval.

(** [float32.go] *)
Definition newFloat32Value (val : Q) (p : Ref C Q) : M (Mem C) (Value C) :=
  store_ref p val ;; mret (float32Value p).
Definition float32Value_Set (f : Ref C Q) (s : string) : M (Mem C) (option error) :=
  let '(v, err) := ParseFloat32 s in
  store_ref f v ;; mret err.
Definition float32Value_Type : string := "float32".
Definition float32Value_String (f : Ref C Q) (m : Mem C) : string := FormatFloat32 (load f m).
Definition float32Conv (sval : string) : Q * option error :=
  let '(v, err) := ParseFloat32 sval in
  match err with
  | Some err => (0%Q, Some err)
  | None => (v, None)
  end.

(** [duration.go] *)
Definition newDurationValue (val : Duration) (p : Ref C Duration) : M (Mem C) (Value C) :=
  store_ref p val ;; mret (durationValue p).
Definition durationValue_Set (d : Ref C Duration) (s : string) : M (Mem C) (option error) :=
  let '(v, err) := ParseDuration s in
  store_ref d v ;; mret err.
Definition durationValue_Type : string := "duration".
Definition durationValue_String (d : Ref C Duration) (m : Mem C) : string := Duration_String (load d m).
Definition durationConv (sval : string) : Duration * option error := ParseDuration sval.

(** [bool.go] *)
Definition newBoolValue (val : bool) (p : Ref C bool) : M (Mem C) (Value C) :=
  store_ref p val ;; mret (boolValue p).
Definition boolValue_Set (b : Ref C bool) (s : string) : M (Mem C) (option error) :=
  let '(v, err) := ParseBool s in
  store_ref b v ;; mret err.
Definition boolValue_Type : string := "bool".
Definition boolValue_String (b : Ref C bool) (m : Mem C) : string := FormatBool (load b m).
Definition boolConv (sval : string) : bool * option error := ParseBool sval.
(** Which values have the method of the interface [boolFlag]. *)
Definition is_boolFlag (v : Value C) : bool :=
  match v with boolValue _ => true | _ => false end.

(** [golangflag.go]: a value that already has the methods of [Value] is used as it
    is; any other is wrapped, with the name of its type. *)
Definition wrapFlagValue (v : Value C + GoValue C) : Value C :=
  match v with
  | inl pv => pv
  | inr v => flagValueWrapper v (TrimSuffix (gv_TypeName v) "Value")
  end.
Definition flagValueWrapper_String (v : GoValue C) (m : Mem C) : string := gv_String v m.
Definition flagValueWrapper_Set (v : GoValue C) (s : string) : M (Mem C) (option error) := gv_Set v s.
Definition flagValueWrapper_Type (flagType : string) : string := flagType.

(** The methods of the interface [Value]. *)
Definition Value_String (v : Value C) (m : Mem C) : string :=
  match v with
  | stringValue p => stringValue_String p m
  | intValue p => intValue_String p m
  | float32Value p => float32Value_String p m
  | durationValue p => durationValue_String p m
  | boolValue p => boolValue_String p m
  | flagValueWrapper inner _ => flagValueWrapper_String inner m
  end.
Definition Value_Set (v : Value C) (s : string) : M (Mem C) (option error) :=
  match v with
  | stringValue p => stringValue_Set p s
  | intValue p => intValue_Set p s
  | float32Value p => float32Value_Set p s
  | durationValue p => durationValue_Set p s
  | boolValue p => boolValue_Set p s
  | flagValueWrapper inner _ => flagValueWrapper_Set inner s
  end.
Definition Value_Type (v : Value C) : string :=
  match v with
  | stringValue _ => stringValue_Type
  | intValue _ => intValue_Type
  | float32Value _ => float32Value_Type
  | durationValue _ => durationValue_Type
  | boolValue _ => boolValue_Type
  | flagValueWrapper _ flagType => flagValueWrapper_Type flagType
  end.
End Values.

(** A pointer behaves as one: what is stored is loaded. *)
Definition ref_ok {C A} (p : Ref C A) (m : Mem C) : Prop := ∀ a, load p (store p a m) = a.

Lemma field_ref_ok {C A} (get : C → A) put (m : Mem C) :
  (∀ a c, get (put a c) = a) → ref_ok (field_ref get put) m.
Proof. intros H a. apply H. Qed.

(** A fresh variable holds the zero value and keeps what is stored, and the others
    are as before. *)
Lemma new_spec {C A} inj prj (zero : A) (m : Mem C) :
  (∀ a, prj (inj a) = Some a) →
  ∃ p m', new inj prj zero m = Ret p m' ∧ object m' = object m ∧
    load p m' = zero ∧ ref_ok p m' ∧ variables m' = variables m ++ [inj zero].
Proof.
  intros Hprj. eexists _, _. split; [reflexivity|]. cbn. split; [done|]. split.
  { by rewrite lookup_app_r, Nat.sub_diag by lia; cbn; rewrite Hprj. }
  split; [|done]. intros a. cbn. rewrite list_lookup_insert_eq; [cbn; by rewrite Hprj|].
  rewrite length_app. cbn. lia.
Qed.
