(* ===== verification/AtomicBool.v ===== *)
(** [util/abool/bool.go]: an atomic boolean stored in an [int32] word.

    Each method is one atomic memory operation ([sync/atomic]); its model is one
    state transformer on the word.  The theorem shows that the word always is 0
    or 1 and that the methods implement a boolean register with
    compare-and-swap. *)

From stdpp Require Import numbers list.
From S2P Require Import Prelude.

Local Open Scope Z_scope.

(** The [int32] word behind [type AtomicBool int32]. *)
Definition AtomicBool : Type := Z.

(** [sync/atomic]: [StoreInt32], [LoadInt32], [CompareAndSwapInt32]. *)
Definition StoreInt32 (v : Z) : M Z unit := modify (λ _, v).
Definition LoadInt32 : M Z Z := get.
Definition CompareAndSwapInt32 (old new : Z) : M Z bool := λ w,
  if decide (w = old) then Ret true new else Ret false w.

Definition New : AtomicBool := 0.

Definition Set_ : M AtomicBool unit := StoreInt32 1.
Definition UnSet : M AtomicBool unit := StoreInt32 0.
Definition IsSet : M AtomicBool bool := v ← LoadInt32; mret (bool_decide (v = 1)).

Definition NewBool (ok : bool) : AtomicBool :=
  let ab := New in
  if ok then final (Set_ ab) else ab.

Definition SetTo (yes : bool) : M AtomicBool unit :=
  if yes then StoreInt32 1 else StoreInt32 0.

Definition SetToIf (old new : bool) : M AtomicBool bool :=
  let o := if old then 1 else 0 in
  let n := if new then 1 else 0 in
  CompareAndSwapInt32 o n.

(** The calls a thread can make on the object, and the register they promise. *)
Inductive call : Type :=
| CSet | CUnSet | CIsSet | CSetTo (yes : bool) | CSetToIf (old new : bool).

(** What a call does to the word and answers ([None] for a method without a
    result). *)
Definition run_call (c : call) : M AtomicBool (option bool) :=
  match c with
  | CSet => Set_ ;; mret None
  | CUnSet => UnSet ;; mret None
  | CIsSet => b ← IsSet; mret (Some b)
  | CSetTo yes => SetTo yes ;; mret None
  | CSetToIf old new => b ← SetToIf old new; mret (Some b)
  end.

(** The boolean register: new value and answer. *)
Definition spec_call (c : call) (b : bool) : bool * option bool :=
  match c with
  | CSet => (true, None)
  | CUnSet => (false, None)
  | CIsSet => (b, Some b)
  | CSetTo yes => (yes, None)
  | CSetToIf old new => if eqb b old then (new, Some true) else (b, Some false)
  end.

(** Answers of a sequence of calls, and the object they leave. *)
Fixpoint run_calls (cs : list call) (w : AtomicBool) : list (option bool) * AtomicBool :=
  match cs with
  | [] => ([], w)
  | c :: cs =>
      match run_call c w with
      | Ret r w' => let '(rs, w'') := run_calls cs w' in (r :: rs, w'')
      | o => ([], final o)
      end
  end.

Fixpoint spec_calls (cs : list call) (b : bool) : list (option bool) * bool :=
  match cs with
  | [] => ([], b)
  | c :: cs =>
      let '(b', r) := spec_call c b in
      let '(rs, b'') := spec_calls cs b' in (r :: rs, b'')
  end.

(** The word that stands for a boolean. *)
Definition word (b : bool) : AtomicBool := if b then 1 else 0.

Lemma IsSet_word b : IsSet (word b) = Ret b (word b).
Proof. by destruct b. Qed.

Lemma run_call_spec c b :
  run_call c (word b) = Ret (spec_call c b).2 (word (spec_call c b).1).
Proof. destruct c as [| | |[]|[] []], b; reflexivity. Qed.

(** Every sequence of calls on an [AtomicBool] made by [NewBool] answers as
    the boolean register does and leaves the word that encodes the register's
    value, so the word is 0 or 1 at all times. *)
Theorem calls_refine_register (cs : list call) (init : bool) :
  run_calls cs (NewBool init) =
    ((spec_calls cs init).1, word (spec_calls cs init).2).
Proof.
  replace (NewBool init) with (word init) by by destruct init.
  revert init. induction cs as [|c cs IH]; intros b; simpl; [done|].
  rewrite run_call_spec. destruct (spec_call c b) as [b' r] eqn:E. simpl.
  rewrite IH. by destruct (spec_calls cs b').
Qed.
