(* ===== verification/Types.v ===== *)
(** The data of the program: the event types of a watch, the parts of the API
    objects the program reads, and the program's own types of
    [proxy/types.go].

    An API object carries many more fields; the records keep the ones that some
    line of the program reads.  Go [int]s are [Z]: the program only copies and
    compares ports. *)

From stdpp Require Import gmap strings list.
From S2P Require Import Prelude GoStrings.

(** * watch.EventType

    The Go type is a string type with the four constants below; [NoEvent] is
    its zero value, the empty string, which reading an absent map key gives. *)
Inductive EventType : Type := Added | Modified | Deleted | Error | NoEvent.

#[export] Instance EventType_eq_dec : EqDecision EventType.
Proof. solve_decision. Defined.

(** * API objects *)

Definition ProtocolTCP : string := "TCP".
Definition ProtocolUDP : string := "UDP".
Definition ClusterIPNone : string := "None".

Record ServicePort := mkServicePort {
  sp_Name : string;
  sp_Protocol : string;
  sp_Port : Z
}.

Record ApiService := mkApiService {
  svc_Namespace : string;
  svc_Name : string;
  svc_ResourceVersion : string;
  svc_ClusterIP : string;
  svc_Ports : list ServicePort
}.

Record EndpointPort := mkEndpointPort { ep_Name : string; ep_Port : Z }.

(** The addresses of a subset are kept as their [IP] strings. *)
Record EndpointSubset := mkEndpointSubset {
  ss_Addresses : list string;
  ss_NotReadyAddresses : list string;
  ss_Ports : list EndpointPort
}.

Record ApiEndpoints := mkApiEndpoints {
  eps_Namespace : string;
  eps_Name : string;
  eps_ResourceVersion : string;
  eps_Subsets : list EndpointSubset
}.

Definition IsServiceIPSet (service : ApiService) : bool :=
  bool_decide (svc_ClusterIP service ≠ ClusterIPNone) &&
  bool_decide (svc_ClusterIP service ≠ "").

(** * Keys of API objects *)

(** [meta.Accessor] on an object with metadata. *)
Class MetaAccessor (obj : Type) := {
  GetNamespace : obj → string;
  GetName : obj → string;
  GetResourceVersion : obj → string
}.

#[export] Instance ApiService_meta : MetaAccessor ApiService :=
  {| GetNamespace := svc_Namespace; GetName := svc_Name; GetResourceVersion := svc_ResourceVersion |}.
#[export] Instance ApiEndpoints_meta : MetaAccessor ApiEndpoints :=
  {| GetNamespace := eps_Namespace; GetName := eps_Name; GetResourceVersion := eps_ResourceVersion |}.

(** [cache.MetaNamespaceKeyFunc]: an object of a [MetaAccessor] type always has
    its metadata, so the error branch of the Go function is not reachable. *)
Definition MetaNamespaceKeyFunc {obj} `{!MetaAccessor obj} (o : obj) : error + string :=
  if decide (0 < String.length (GetNamespace o))
  then inr (GetNamespace o +:+ "/" +:+ GetName o)
  else inr (GetName o).

(** * proxy/types.go *)

Record NamespacedName := mkNamespacedName { Namespace : string; Name : string }.

Record ServicePortName := mkServicePortName {
  spn_NamespacedName : NamespacedName;
  spn_Port : string
}.

(** [func (spn ServicePortName) String()]. *)
Definition ServicePortName_String (spn : ServicePortName) : string :=
  Namespace (spn_NamespacedName spn) +:+ ":" +:+
  Name (spn_NamespacedName spn) +:+ ":" +:+ spn_Port spn.

Record Service := mkService {
  ClusterIP : string;
  Port : Z;
  Protocol : string
}.

Record Endpoint := mkEndpoint { ep_IP : string; ep_port : Z }.

Record ServiceUnit := mkServiceUnit {
  su_Name : string;
  ServiceInfo : Service;
  Endpoints : list Endpoint
}.

(** The zero value of [Service], which a unit made by [createServiceUnit] has. *)
Definition zero_Service : Service := mkService "" 0 "".

Definition with_ServiceInfo (svc : Service) (u : ServiceUnit) : ServiceUnit :=
  mkServiceUnit (su_Name u) svc (Endpoints u).
Definition with_Endpoints (es : list Endpoint) (u : ServiceUnit) : ServiceUnit :=
  mkServiceUnit (su_Name u) (ServiceInfo u) es.

#[export] Instance Service_eq_dec : EqDecision Service.
Proof. solve_decision. Defined.
#[export] Instance Endpoint_eq_dec : EqDecision Endpoint.
Proof. solve_decision. Defined.
#[export] Instance NamespacedName_eq_dec : EqDecision NamespacedName.
Proof. solve_decision. Defined.
#[export] Instance ServicePort_eq_dec : EqDecision ServicePort.
Proof. solve_decision. Defined.
#[export] Instance ServiceUnit_eq_dec : EqDecision ServiceUnit.
Proof. solve_decision. Defined.

(** The key prefix [ns:name] all ports of one object share. *)
Definition svc_prefix (nn : NamespacedName) : string :=
  Namespace nn +:+ ":" +:+ Name nn.

Lemma ServicePortName_String_prefix spn :
  ServicePortName_String spn = svc_prefix (spn_NamespacedName spn) +:+ ":" +:+ spn_Port spn.
Proof. unfold ServicePortName_String, svc_prefix. by rewrite !append_assoc. Qed.

(** A key determines the object and the port when no name holds the separator
    (Kubernetes names are DNS labels). *)
Lemma ServicePortName_String_inj nn nn' p p' :
  has_byte colon p = false → has_byte colon p' = false →
  has_byte colon (Namespace nn) = false → has_byte colon (Namespace nn') = false →
  ServicePortName_String (mkServicePortName nn p) =
    ServicePortName_String (mkServicePortName nn' p') →
  nn = nn' ∧ p = p'.
Proof.
  rewrite !ServicePortName_String_prefix. simpl. intros ???? Heq.
  apply sep_inj_l in Heq as [Heq ->]; [|done..].
  apply sep_inj_r in Heq as [Hns Hn]; [|done..].
  destruct nn, nn'; simpl in *; by subst.
Qed.
