(* ===== verification/ThreadSafeStore.v ===== *)
(** [client/cache/thread_safe_store.go] and [index.go] of the vendored Kubernetes code:
    a map of objects by key with indices.

    An indexer gives the values of an object; the index of a name keeps, for each
    value, the set of keys of the objects that have it.  Every method runs under the
    map's lock.  The loops over the indexers and over the items run in the order of
    Go's maps ([MapOrder]), which matters only when an indexer fails: an update
    stops there, and its error is dropped.  A missing index is a nil map. *)

From stdpp Require Import gmap strings list.
From S2P Require Import Prelude StringSet.

(** [type Index map[string]sets.String]. *)
Abbreviation Index := (gmap string String).

(** [type IndexFunc func(obj interface{}) ([]string, error)]. *)
Abbreviation IndexFunc obj := (obj → error + list string).

Record threadSafeMap (obj : Type) := mkThreadSafeMap {
  items : gmap string obj;
  indexers : gmap string (IndexFunc obj);
  indices : gmap string Index
}.
Arguments mkThreadSafeMap {obj} _ _ _.
Arguments items {obj} _.
Arguments indexers {obj} _.
Arguments indices {obj} _.

(** [ThreadSafeStore.X] in the order of the source. *)
Section ThreadSafeMap.
Context `{mo : MapOrder} {obj : Type}.
Implicit Types (c : threadSafeMap obj) (o : obj).

Definition set_items (i : gmap string obj) c : threadSafeMap obj := mkThreadSafeMap i (indexers c) (indices c).
Definition set_indices (i : gmap string Index) c : threadSafeMap obj := mkThreadSafeMap (items c) (indexers c) i.

(** The body of the loop of [deleteFromIndices] for one indexer. *)
Definition unindex (key : string) (indexValues : list string) (index : Index) : Index :=
  foldl (λ index indexValue,
    match index !! indexValue with
    | Some set => <[indexValue := Delete [key] set]> index
    | None => index
    end) index indexValues.
Fixpoint delete_loop (names : list string) o (key : string) c : option error * threadSafeMap obj :=
  match names with
  | [] => (None, c)
  | name :: names =>
      match indexers c !! name with
      | None => delete_loop names o key c
      | Some indexFunc =>
          match indexFunc o with
          | inl err => (Some err, c)
          | inr indexValues =>
              match indices c !! name with
              | None => delete_loop names o key c
              | Some index =>
                  delete_loop names o key (set_indices (<[name := unindex key indexValues index]> (indices c)) c)
              end
          end
      end
  end.
Definition deleteFromIndices o (key : string) c : option error * threadSafeMap obj :=
  delete_loop (map_range (indexers c)) o key c.

(** The same for [updateIndices]. *)
Definition reindex (key : string) (indexValues : list string) (index : Index) : Index :=
  foldl (λ index indexValue,
    <[indexValue := Insert [key] (default ∅ (index !! indexValue))]> index) index indexValues.
Fixpoint update_loop (names : list string) o (key : string) c : option error * threadSafeMap obj :=
  match names with
  | [] => (None, c)
  | name :: names =>
      match indexers c !! name with
      | None => update_loop names o key c
      | Some indexFunc =>
          match indexFunc o with
          | inl err => (Some err, c)
          | inr indexValues =>
              let index := default ∅ (indices c !! name) in
              update_loop names o key (set_indices (<[name := reindex key indexValues index]> (indices c)) c)
          end
      end
  end.
Definition updateIndices (oldObj : option obj) (newObj : obj) (key : string) c : option error * threadSafeMap obj :=
  let c := match oldObj with
           | Some oldObj => (deleteFromIndices oldObj key c).2
           | None => c
           end in
  update_loop (map_range (indexers c)) newObj key c.

Definition Add (key : string) o c : threadSafeMap obj :=
  let oldObject := items c !! key in
  (updateIndices oldObject o key (set_items (<[key := o]> (items c)) c)).2.
Definition Update (key : string) o c : threadSafeMap obj :=
  let oldObject := items c !! key in
  (updateIndices oldObject o key (set_items (<[key := o]> (items c)) c)).2.
Definition Delete (key : string) c : threadSafeMap obj :=
  match items c !! key with
  | Some o =>
      let c := (deleteFromIndices o key c).2 in
      set_items (delete key (items c)) c
  | None => c
  end.
Definition Get (key : string) c : option obj := items c !! key.
Definition List c : list obj := omap (λ key, items c !! key) (map_range (items c)).
Definition ListKeys c : list string := map_range (items c).

Fixpoint Replace_loop (keys : list string) c : threadSafeMap obj :=
  match keys with
  | [] => c
  | key :: keys =>
      match items c !! key with
      | Some item => Replace_loop keys (updateIndices None item key c).2
      | None => Replace_loop keys c
      end
  end.
Definition Replace (new : gmap string obj) (resourceVersion : string) c : threadSafeMap obj :=
  Replace_loop (map_range new) (mkThreadSafeMap new (indexers c) ∅).

(** An element of the result is [None] where the code appends nil for a key without an
    object. *)
Definition Index_ (indexName : string) o c : error + list (option obj) :=
  match indexers c !! indexName with
  | None => inl (Errorf ("Index with name " +:+ indexName +:+ " does not exist"))
  | Some indexFunc =>
      match indexFunc o with
      | inl err => inl err
      | inr indexKeys =>
          let index := default ∅ (indices c !! indexName) in
          let returnKeySet := foldl (λ returnKeySet indexKey,
            foldl (λ returnKeySet key, Insert [key] returnKeySet) returnKeySet
              (StringSet.List (default ∅ (index !! indexKey)))) ∅ indexKeys in
          inr ((λ absoluteKey, items c !! absoluteKey) <$> map_range returnKeySet)
      end
  end.
Definition ByIndex (indexName indexKey : string) c : error + list (option obj) :=
  match indexers c !! indexName with
  | None => inl (Errorf ("Index with name " +:+ indexName +:+ " does not exist"))
  | Some _ =>
      let index := default ∅ (indices c !! indexName) in
      let set := default ∅ (index !! indexKey) in
      inr ((λ key, items c !! key) <$> StringSet.List set)
  end.
Definition ListIndexFuncValues (indexName : string) c : list string :=
  map_range (default ∅ (indices c !! indexName)).

Definition NewThreadSafeStore (indexers : gmap string (IndexFunc obj)) (indices : gmap string Index) :
    threadSafeMap obj := mkThreadSafeMap ∅ indexers indices.

(** ** What the index loops keep *)
Lemma delete_loop_items names o key c :
  items (delete_loop names o key c).2 = items c ∧ indexers (delete_loop names o key c).2 = indexers c.
Proof. revert c. induction names as [|n ns IH]; intros c; cbn; repeat case_match; try done; try apply IH; by rewrite !(proj1 (IH _)), !(proj2 (IH _)). Qed.
Lemma update_loop_items names o key c :
  items (update_loop names o key c).2 = items c ∧ indexers (update_loop names o key c).2 = indexers c.
Proof. revert c. induction names as [|n ns IH]; intros c; cbn; repeat case_match; try done; try apply IH; by rewrite !(proj1 (IH _)), !(proj2 (IH _)). Qed.
Lemma updateIndices_items old o key c :
  items (updateIndices old o key c).2 = items c ∧ indexers (updateIndices old o key c).2 = indexers c.
Proof.
  unfold updateIndices, deleteFromIndices. destruct old as [o'|].
  - destruct (delete_loop_items (map_range (indexers c)) o' key c) as [H1 H2].
    destruct (update_loop_items (map_range (indexers (delete_loop (map_range (indexers c)) o' key c).2)) o key
      (delete_loop (map_range (indexers c)) o' key c).2) as [-> ->]. done.
  - apply update_loop_items.
Qed.

(** ** The map of items *)
Lemma Add_items key o c : items (Add key o c) = <[key := o]> (items c).
Proof. unfold Add. by rewrite (proj1 (updateIndices_items _ _ _ _)). Qed.
Lemma Delete_items key c : items (Delete key c) = delete key (items c).
Proof.
  unfold Delete, deleteFromIndices. destruct (items c !! key) as [o|] eqn:E; [|by rewrite delete_id].
  cbn. by rewrite (proj1 (delete_loop_items _ _ _ _)).
Qed.
Lemma Replace_loop_items keys c :
  items (Replace_loop keys c) = items c ∧ indexers (Replace_loop keys c) = indexers c.
Proof.
  revert c. induction keys as [|k ks IH]; intros c; cbn; [done|]. case_match; [|done].
  destruct (IH (updateIndices None o k c).2) as [-> ->]. apply updateIndices_items.
Qed.
Lemma Replace_items new rv c : items (Replace new rv c) = new.
Proof. unfold Replace. by rewrite (proj1 (Replace_loop_items _ _)). Qed.
End ThreadSafeMap.
