(* ===== verification/KStore.v ===== *)
(** The [Store] interface of [k8s.io/kubernetes/pkg/client/cache], and the
    implementation [NewStore] gives: a map from keys to objects.

    [StoreOps] are the methods the event queue calls; [StoreLaws] is what it
    relies on: for a key function, the store is a map from keys to the objects
    last put under them.  [cache_laws] proves the laws for the implementation, the
    type [cache] of [store.go] over a [threadSafeMap]. *)

From stdpp Require Import gmap strings list.
From S2P Require Import Prelude Types ThreadSafeStore.

(** A method returns its [error] result and the new state. *)
Class StoreOps (S obj : Type) := {
  store_Add : obj → S → option error * S;
  store_Update : obj → S → option error * S;
  store_Delete : obj → S → option error * S;
  store_GetByKey : string → S → error + option obj;
  store_Replace : list obj → string → S → option error * S
}.

(** The map a list of objects makes: a later object replaces an earlier one
    with the same key. *)
Definition keyed_map {obj} (keyFn : obj → error + string) (objs : list obj)
    : gmap string obj :=
  foldl (λ m o, match keyFn o with inr k => <[k:=o]> m | inl _ => m end) ∅ objs.

(** The first error the key function gives on a list. *)
Fixpoint first_key_error {obj} (keyFn : obj → error + string) (objs : list obj)
    : option error :=
  match objs with
  | [] => None
  | o :: objs => match keyFn o with inl e => Some e | inr _ => first_key_error keyFn objs end
  end.

Class StoreLaws (S obj : Type) `{!StoreOps S obj} (keyFn : obj → error + string) := {
  store_view : S → gmap string obj;
  law_Add o k s : keyFn o = inr k →
    (store_Add o s).1 = None ∧ store_view (store_Add o s).2 = <[k:=o]> (store_view s);
  law_Update o k s : keyFn o = inr k →
    (store_Update o s).1 = None ∧ store_view (store_Update o s).2 = <[k:=o]> (store_view s);
  law_Delete o k s : keyFn o = inr k →
    (store_Delete o s).1 = None ∧ store_view (store_Delete o s).2 = delete k (store_view s);
  law_GetByKey k s : store_GetByKey k s = inr (store_view s !! k);
  law_Replace os rv s : first_key_error keyFn os = None →
    (store_Replace os rv s).1 = None ∧ store_view (store_Replace os rv s).2 = keyed_map keyFn os
}.

(** * [cache] *)
Module Cache.
Section Cache.
Context `{mo : MapOrder} {obj : Type} (keyFn : obj → error + string).

(** The field [cacheStorage]; [keyFunc] is the parameter. *)
Definition cacheStorage : Type := threadSafeMap obj.

Definition Add (o : obj) (c : cacheStorage) : option error * cacheStorage :=
  match keyFn o with
  | inl err => (Some (KeyError err), c)
  | inr key => (None, ThreadSafeStore.Add key o c)
  end.

Definition Update (o : obj) (c : cacheStorage) : option error * cacheStorage :=
  match keyFn o with
  | inl err => (Some (KeyError err), c)
  | inr key => (None, ThreadSafeStore.Update key o c)
  end.

Definition Delete (o : obj) (c : cacheStorage) : option error * cacheStorage :=
  match keyFn o with
  | inl err => (Some (KeyError err), c)
  | inr key => (None, ThreadSafeStore.Delete key c)
  end.

Definition List (c : cacheStorage) : list obj := ThreadSafeStore.List c.
Definition ListKeys (c : cacheStorage) : list string := ThreadSafeStore.ListKeys c.
Definition Index_ (indexName : string) (o : obj) (c : cacheStorage) : error + list (option obj) :=
  ThreadSafeStore.Index_ indexName o c.
Definition ListIndexFuncValues (indexName : string) (c : cacheStorage) : list string :=
  ThreadSafeStore.ListIndexFuncValues indexName c.
Definition ByIndex (indexName indexKey : string) (c : cacheStorage) : error + list (option obj) :=
  ThreadSafeStore.ByIndex indexName indexKey c.

Definition GetByKey (key : string) (c : cacheStorage) : error + option obj :=
  inr (ThreadSafeStore.Get key c).
Definition Get (o : obj) (c : cacheStorage) : error + option obj :=
  match keyFn o with
  | inl err => inl (KeyError err)
  | inr key => GetByKey key c
  end.

(** The loop of [Replace], which builds [items] and stops at the first key
    error. *)
Fixpoint Replace_loop (objs : list obj) (items : gmap string obj) : error + gmap string obj :=
  match objs with
  | [] => inr items
  | item :: objs =>
      match keyFn item with
      | inl err => inl (KeyError err)
      | inr key => Replace_loop objs (<[key:=item]> items)
      end
  end.

Definition Replace (objs : list obj) (resourceVersion : string) (c : cacheStorage)
    : option error * cacheStorage :=
  match Replace_loop objs ∅ with
  | inl err => (Some err, c)
  | inr items => (None, ThreadSafeStore.Replace items resourceVersion c)
  end.

Definition NewStore : cacheStorage := NewThreadSafeStore ∅ ∅.
Definition NewIndexer (indexers : gmap string (IndexFunc obj)) : cacheStorage :=
  NewThreadSafeStore indexers ∅.

#[export] Instance cache_ops : StoreOps cacheStorage obj := {|
  store_Add := Add; store_Update := Update; store_Delete := Delete;
  store_GetByKey := GetByKey; store_Replace := Replace |}.

Lemma cache_Replace_loop_spec objs items :
  first_key_error keyFn objs = None →
  Replace_loop objs items =
    inr (foldl (λ m o, match keyFn o with inr k => <[k:=o]> m | inl _ => m end) items objs).
Proof.
  revert items. induction objs as [|o objs IH]; simpl; intros items H; [done|].
  destruct (keyFn o); [done|]. by apply IH.
Qed.

(** The laws hold whatever the indexers. *)
#[export, program] Instance cache_laws : StoreLaws cacheStorage obj keyFn := {|
  store_view := items |}.
Next Obligation. intros o k s H. simpl. unfold Add. rewrite H. simpl. by rewrite Add_items. Qed.
Next Obligation. intros o k s H. simpl. unfold Update. rewrite H. simpl. by rewrite Add_items. Qed.
Next Obligation. intros o k s H. simpl. unfold Delete. rewrite H. simpl. by rewrite Delete_items. Qed.
Next Obligation. done. Qed.
Next Obligation.
  intros os rv s H. simpl. unfold Replace. rewrite cache_Replace_loop_spec by done. simpl.
  by rewrite Replace_items.
Qed.
End Cache.
End Cache.

Lemma keyed_map_snoc {obj} (keyFn : obj → error + string) os o k :
  keyFn o = inr k → keyed_map keyFn (os ++ [o]) = <[k:=o]> (keyed_map keyFn os).
Proof. intros H. unfold keyed_map. rewrite foldl_app. simpl. by rewrite H. Qed.
