(* ===== verification/Indexing.v ===== *)
(** Indices of the thread-safe store: [index.go], the key functions of [store.go] that
    take keys apart, and the theorems about [ThreadSafeStore] with indexers. *)

From Stdlib Require Import Ascii QArith.
From stdpp Require Import gmap strings list sorting.
From S2P Require Import Prelude GoStrings Strconv Types StringSet ThreadSafeStore KStore.

(** ** Key functions *)

(** [strings.Split s c] for a single byte. *)
Fixpoint Split (c : ascii) (s : string) : list string :=
  match s with
  | EmptyString => [""]
  | String.String d s' =>
      if decide (d = c) then "" :: Split c s'
      else match Split c s' with
           | [] => [String.String d ""]
           | p :: ps => String.String d p :: ps
           end
  end.

Section Keys.
Context `{gf : GoFormats}.

Definition SplitMetaNamespaceKey (key : string) : string * string * option error :=
  match Split "/" key with
  | [name] => ("", name, None)
  | [namespace; name] => (namespace, name, None)
  | _ => ("", "", Some (Errorf ("unexpected key format: " +:+ Quote key)))
  end.
End Keys.

(** [IndexFuncToKeyFuncAdapter]; [None] is the panic of [indexKeys[0]] on an empty
    slice. *)
Definition IndexFuncToKeyFuncAdapter {obj} (indexFunc : IndexFunc obj) (o : obj) : option (error + string) :=
  match indexFunc o with
  | inl err => Some (inl err)
  | inr indexKeys =>
      if decide (1 < length indexKeys)
      then Some (inl (Errorf ("too many keys: [" +:+ join " " indexKeys +:+ "]")))
      else inr <$> head indexKeys
  end.

(** An object of a [MetaAccessor] type always has its metadata. *)
Definition MetaNamespaceIndexFunc {obj} `{!MetaAccessor obj} : IndexFunc obj :=
  λ o, inr [GetNamespace o].

(** *** Taking keys apart *)
Definition slash : ascii := "/"%char.

Lemma Split_none c s : has_byte c s = false → Split c s = [s].
Proof.
  induction s as [|d s IH]; [done|]. cbn. intros [Hd Hs]%orb_false_iff.
  apply bool_decide_eq_false in Hd. rewrite decide_False by congruence. by rewrite IH.
Qed.
Lemma Split_one c a b : has_byte c a = false → has_byte c b = false → Split c (a +:+ String.String c b) = [a; b].
Proof.
  intros Ha Hb. induction a as [|d a IH]; unfold String.app in *; cbn in *.
  - rewrite decide_True by done. by rewrite Split_none.
  - apply orb_false_iff in Ha as [Hd Ha]. apply bool_decide_eq_false in Hd.
    rewrite decide_False by congruence. by rewrite IH.
Qed.

(** ** The invariant of the indices *)
Section Indices.
Context `{mo : MapOrder} {obj : Type}.
Implicit Types (c : threadSafeMap obj) (o : obj).

(** The values that an indexer gives. *)
Definition values_of (f : IndexFunc obj) o : list string := match f o with inr vs => vs | inl _ => [] end.

(** The keys under a value of an index. *)
Definition members c (name v : string) : StringSet.String :=
  default ∅ (default ∅ (indices c !! name) !! v).
Definition indexed c (name v key : string) : Prop := is_Some (members c name v !! key).

(** The indexers do not fail. *)
Definition total_indexers c : Prop := ∀ name f o, indexers c !! name = Some f → ∃ vs, f o = inr vs.

(** Every index has under a value exactly the keys of the objects with that value. *)
Definition indices_ok c : Prop :=
  ∀ name f v key, indexers c !! name = Some f →
    (indexed c name v key ↔ ∃ o, items c !! key = Some o ∧ v ∈ values_of f o).

(** *** Changing one index *)
Lemma unindex_members key vs (index : Index) v k :
  is_Some (default ∅ (unindex key vs index !! v) !! k) ↔
    is_Some (default ∅ (index !! v) !! k) ∧ ¬ (k = key ∧ v ∈ vs).
Proof.
  revert index. induction vs as [|w vs IH]; intros index; cbn; [set_solver|].
  unfold unindex in IH. rewrite IH. rewrite elem_of_cons.
  assert (is_Some (default ∅ ((match index !! w with Some set => <[w := StringSet.Delete [key] set]> index | None => index end)
      !! v) !! k) ↔ is_Some (default ∅ (index !! v) !! k) ∧ ¬ (k = key ∧ v = w)) as ->; [|tauto].
  destruct (index !! w) as [set|] eqn:E.
  - destruct (decide (v = w)) as [->|Hne].
    + rewrite lookup_insert_eq, E. cbn. rewrite lookup_delete_is_Some. naive_solver.
    + rewrite lookup_insert_ne by done. naive_solver.
  - split; [|tauto]. intros H. split; [done|]. intros [_ ->]. rewrite E in H. cbn in H.
    rewrite lookup_empty in H. by destruct H.
Qed.

Lemma reindex_members key vs (index : Index) v k :
  is_Some (default ∅ (reindex key vs index !! v) !! k) ↔
    is_Some (default ∅ (index !! v) !! k) ∨ (k = key ∧ v ∈ vs).
Proof.
  revert index. induction vs as [|w vs IH]; intros index; cbn; [set_solver|].
  unfold reindex in IH. rewrite IH, elem_of_cons.
  assert (is_Some (default ∅ (<[w := <[key := tt]> (default ∅ (index !! w))]> index !! v) !! k) ↔
    is_Some (default ∅ (index !! v) !! k) ∨ (k = key ∧ v = w)) as ->; [|tauto].
  destruct (decide (v = w)) as [->|Hne].
  - rewrite lookup_insert_eq. cbn. rewrite lookup_insert_is_Some'. naive_solver.
  - rewrite lookup_insert_ne by done. naive_solver.
Qed.

(** *** The loops over the indexers *)
Lemma set_indices_indexed c name (index : Index) name' v k :
  indexed (set_indices (<[name := index]> (indices c)) c) name' v k ↔
    if decide (name' = name) then is_Some (default ∅ (index !! v) !! k) else indexed c name' v k.
Proof.
  unfold indexed, members, set_indices. cbn. destruct (decide (name' = name)) as [->|Hne].
  - by rewrite lookup_insert_eq.
  - by rewrite lookup_insert_ne.
Qed.

Lemma delete_loop_indexed names o key c name v k :
  total_indexers c →
  indexed (delete_loop names o key c).2 name v k ↔
    indexed c name v k ∧
    ¬ (name ∈ names ∧ k = key ∧ ∃ f, indexers c !! name = Some f ∧ v ∈ values_of f o).
Proof.
  revert c. induction names as [|n ns IH]; intros c Ht; cbn; [set_solver|]. rewrite elem_of_cons.
  destruct (indexers c !! n) as [f|] eqn:Ef.
  2: { rewrite IH by done. split; intros [H1 H2]; (split; [done|]); [|naive_solver].
       intros ([->|Hin] & -> & f & Hf & Hv); [by rewrite Ef in Hf|eauto 10]. }
  destruct (Ht n f o Ef) as [vs Hvs]. rewrite Hvs.
  assert (∀ w, w ∈ values_of f o ↔ w ∈ vs) as Hvals by (intros; unfold values_of; by rewrite Hvs).
  destruct (indices c !! n) as [index|] eqn:Ei.
  - rewrite IH by done. cbn [indexers set_indices]. rewrite set_indices_indexed.
    case_decide as Hn; [subst n|].
    + rewrite unindex_members. unfold indexed, members. rewrite Ei. cbn [default from_option id]. split.
      * intros [[H1 H2] H3]. split; [done|]. intros (_ & -> & f' & Hf' & Hv). simplify_eq.
        apply H2. split; [done|]. by apply Hvals.
      * intros [H1 H2]. split; [split; [done|]|].
        -- intros [-> Hv]. apply H2. split; [by left|]. split; [done|]. exists f. by rewrite Hvals.
        -- intros (Hin & -> & f' & Hf' & Hv). apply H2. split; [by left|]. eauto.
    + naive_solver.
  - rewrite IH by done. split; intros [H1 H2]; (split; [done|]); [|naive_solver].
    intros ([->|Hin] & -> & f' & Hf' & Hv); [|eauto 10].
    unfold indexed, members in H1. rewrite Ei in H1. cbn in H1. rewrite !lookup_empty in H1. cbn in H1.
    rewrite lookup_empty in H1. by destruct H1.
Qed.

Lemma update_loop_indexed names o key c name v k :
  total_indexers c →
  indexed (update_loop names o key c).2 name v k ↔
    indexed c name v k ∨
    (name ∈ names ∧ k = key ∧ ∃ f, indexers c !! name = Some f ∧ v ∈ values_of f o).
Proof.
  revert c. induction names as [|n ns IH]; intros c Ht; cbn; [set_solver|]. rewrite elem_of_cons.
  destruct (indexers c !! n) as [f|] eqn:Ef.
  2: { rewrite IH by done. split; [naive_solver|].
       intros [?|([->|Hin] & -> & f & Hf & Hv)]; [by left|congruence|right; eauto 10]. }
  destruct (Ht n f o Ef) as [vs Hvs]. rewrite Hvs.
  assert (∀ w, w ∈ values_of f o ↔ w ∈ vs) as Hvals by (intros; unfold values_of; by rewrite Hvs).
  rewrite IH by done. cbn [indexers set_indices]. rewrite set_indices_indexed.
  case_decide as Hn; [subst n|naive_solver].
  rewrite reindex_members. unfold indexed, members. split.
  - intros [[H|[-> Hv]]|(Hin & -> & f' & Hf' & Hv)]; [by left| |].
    + right. split; [by left|]. split; [done|]. exists f. by rewrite Hvals.
    + right. split; [by left|]. eauto.
  - intros [H|([_|Hin] & -> & f' & Hf' & Hv)]; [by left; left| |]; simplify_eq; left; right; split; try done;
      by apply Hvals.
Qed.

(** *** The methods keep the invariant *)
Lemma updateIndices_indexed old o key c name f v k :
  total_indexers c → indexers c !! name = Some f →
  indexed (updateIndices old o key c).2 name v k ↔
    (indexed c name v k ∧ ¬ (k = key ∧ ∃ o', old = Some o' ∧ v ∈ values_of f o')) ∨
    (k = key ∧ v ∈ values_of f o).
Proof.
  intros Ht Hf. assert (name ∈ map_range (indexers c)) as Hin by (apply elem_of_map_range; by eauto).
  unfold updateIndices, deleteFromIndices. set (c' := match old with Some _ => _ | None => c end).
  assert (indexers c' = indexers c) as Hi.
  { unfold c'. destruct old; [apply delete_loop_items|done]. }
  assert (total_indexers c') as Ht' by (unfold total_indexers; by rewrite Hi).
  rewrite update_loop_indexed by done. rewrite Hi.
  assert (indexed c' name v k ↔ indexed c name v k ∧ ¬ (k = key ∧ ∃ o', old = Some o' ∧ v ∈ values_of f o')) as ->.
  { unfold c'. destruct old as [o'|]; [|naive_solver]. rewrite delete_loop_indexed by done. naive_solver. }
  naive_solver.
Qed.

Lemma Add_total key o c : total_indexers c → total_indexers (Add key o c).
Proof. intros H. unfold Add, total_indexers. by rewrite (proj2 (updateIndices_items _ _ _ _)). Qed.

Lemma Add_ok key o c : total_indexers c → indices_ok c → indices_ok (Add key o c).
Proof.
  intros Ht Hok name f v k Hf. unfold Add in *.
  rewrite (proj2 (updateIndices_items _ _ _ _)) in Hf. cbn in Hf.
  rewrite (updateIndices_indexed _ _ _ _ _ f) by done. rewrite (proj1 (updateIndices_items _ _ _ _)).
  change (indexed (set_items (<[key:=o]> (items c)) c) name v k) with (indexed c name v k).
  rewrite (Hok name f v k Hf). cbn. destruct (decide (k = key)) as [->|Hne].
  - rewrite lookup_insert_eq. split.
    + intros [[(o' & Ho' & Hv) Hno]|[_ Hv]]; [|by eauto]. destruct Hno. eauto.
    + intros (o' & [= <-] & Hv). by right.
  - rewrite lookup_insert_ne by done. naive_solver.
Qed.

Lemma Delete_ok key c : total_indexers c → indices_ok c → indices_ok (ThreadSafeStore.Delete key c).
Proof.
  intros Ht Hok name f v k. unfold ThreadSafeStore.Delete, deleteFromIndices.
  destruct (items c !! key) as [o|] eqn:Eo; [|apply Hok].
  set (c' := (delete_loop (map_range (indexers c)) o key c).2).
  destruct (delete_loop_items (map_range (indexers c)) o key c) as [Hi Hx]. fold c' in Hi, Hx.
  cbn. rewrite Hx, Hi. intros Hf.
  assert (name ∈ map_range (indexers c)) as Hin by (apply elem_of_map_range; by eauto).
  change (indexed (set_items (delete key (items c)) c') name v k) with (indexed c' name v k).
  unfold c'. rewrite delete_loop_indexed by done. rewrite (Hok name f v k Hf).
  destruct (decide (k = key)) as [->|Hne].
  - rewrite lookup_delete_eq. split; [|by intros (? & ? & _)].
    intros [(o' & Ho' & Hv) Hno]. simplify_eq. destruct Hno. eauto.
  - rewrite lookup_delete_ne by done. naive_solver.
Qed.

Lemma Replace_loop_indexed keys c name f v k :
  total_indexers c → indexers c !! name = Some f →
  indexed (Replace_loop keys c) name v k ↔
    indexed c name v k ∨ (k ∈ keys ∧ ∃ o, items c !! k = Some o ∧ v ∈ values_of f o).
Proof.
  revert c. induction keys as [|k' ks IH]; intros c Ht Hf; cbn; [set_solver|]. rewrite elem_of_cons.
  destruct (items c !! k') as [o|] eqn:Eo; [|rewrite IH by done; naive_solver].
  destruct (updateIndices_items None o k' c) as [Hi Hx].
  rewrite IH; [|unfold total_indexers; by rewrite Hx|by rewrite Hx].
  rewrite Hi, (updateIndices_indexed _ _ _ _ _ f) by done. naive_solver.
Qed.

Lemma Replace_ok new rv c : total_indexers c → indices_ok (Replace new rv c).
Proof.
  intros Ht name f v k. unfold Replace. rewrite (proj1 (Replace_loop_items _ _)), (proj2 (Replace_loop_items _ _)).
  cbn. intros Hf. rewrite (Replace_loop_indexed _ _ _ f) by done. cbn. unfold indexed, members. cbn.
  rewrite lookup_empty. cbn. rewrite lookup_empty. cbn. rewrite lookup_empty.
  split; [|intros (o & Ho & Hv); right; split; [apply elem_of_map_range; eauto|eauto]].
  intros [[? [=]]|[_ H]]. done.
Qed.
End Indices.

(** ** Runs of an indexer *)
Section Runs.
Context `{mo : MapOrder} {obj : Type}.
Implicit Types (c : threadSafeMap obj) (o : obj).

(** A call that changes the store. *)
Inductive change : Type :=
| Change_Add (key : string) (o : obj)
| Change_Update (key : string) (o : obj)
| Change_Delete (key : string)
| Change_Replace (new : gmap string obj) (rv : string).
Definition apply_change (c : threadSafeMap obj) (ch : change) : threadSafeMap obj :=
  match ch with
  | Change_Add key o => Add key o c
  | Change_Update key o => Update key o c
  | Change_Delete key => ThreadSafeStore.Delete key c
  | Change_Replace new rv => Replace new rv c
  end.
(** The map of items that the changes leave. *)
Definition apply_items_change (m : gmap string obj) (ch : change) : gmap string obj :=
  match ch with
  | Change_Add key o | Change_Update key o => <[key := o]> m
  | Change_Delete key => delete key m
  | Change_Replace new _ => new
  end.

Lemma change_indexers c ch : indexers (apply_change c ch) = indexers c.
Proof.
  destruct ch as [k o|k o|k|new rv]; cbn.
  - unfold Add. by rewrite (proj2 (updateIndices_items _ _ _ _)).
  - unfold Update. by rewrite (proj2 (updateIndices_items _ _ _ _)).
  - unfold ThreadSafeStore.Delete. case_match; [|done]. cbn. apply delete_loop_items.
  - unfold Replace. by rewrite (proj2 (Replace_loop_items _ _)).
Qed.
Lemma change_items c ch : items (apply_change c ch) = apply_items_change (items c) ch.
Proof.
  destruct ch; cbn; [apply Add_items|apply Add_items|apply Delete_items|apply Replace_items].
Qed.
Lemma change_ok c ch : total_indexers c → indices_ok c → indices_ok (apply_change c ch).
Proof.
  intros Ht Hok. destruct ch as [k o|k o|k|new rv]; cbn; [by apply Add_ok|exact (Add_ok k o c Ht Hok)|by apply Delete_ok|by apply Replace_ok].
Qed.

Lemma new_ok indexers : indices_ok (Cache.NewIndexer (obj := obj) indexers).
Proof.
  intros name f v k _. unfold indexed, members. cbn. rewrite lookup_empty. cbn.
  rewrite lookup_empty. cbn. rewrite lookup_empty. split; [by intros [? [=]]|by intros (? & ? & _)].
Qed.

Lemma changes_ok chs c :
  total_indexers c → indices_ok c →
  indices_ok (foldl apply_change c chs) ∧ indexers (foldl apply_change c chs) = indexers c ∧
  items (foldl apply_change c chs) = foldl apply_items_change (items c) chs.
Proof.
  revert c. induction chs as [|ch chs IH]; intros c Ht Hok; cbn; [done|].
  destruct (IH (apply_change c ch)) as (H1 & H2 & H3).
  - unfold total_indexers. by rewrite change_indexers.
  - by apply change_ok.
  - by rewrite H2, H3, change_indexers, change_items.
Qed.

(** The set of keys that [Index] collects. *)
Lemma insert_members (sets : string → StringSet.String) vs acc k :
  is_Some (foldl (λ returnKeySet indexKey,
      foldl (λ returnKeySet key, Insert [key] returnKeySet) returnKeySet (StringSet.List (sets indexKey)))
    acc vs !! k) ↔ is_Some (acc !! k) ∨ ∃ v, v ∈ vs ∧ is_Some (sets v !! k).
Proof.
  assert (∀ (l : list string) (acc : StringSet.String),
    is_Some (foldl (λ s key, Insert [key] s) acc l !! k) ↔ is_Some (acc !! k) ∨ k ∈ l) as Hin.
  { induction l as [|x l IH]; intros a; cbn; [set_solver|]. rewrite IH, lookup_insert_is_Some'. set_solver. }
  revert acc. induction vs as [|v vs IH]; intros acc; cbn; [set_solver|].
  rewrite IH, Hin, (elem_of_List k (sets v)), elem_of_dom.
  split; [intros [[?|?]|(w & ? & ?)]|intros [?|(w & [->|?]%elem_of_cons & ?)]]; eauto 10.
  all: right; eexists; split; [|eassumption]; (by left) || by right.
Qed.

(** ** The properties *)

(** An indexer answers as a scan of its objects would.  After any additions, updates,
    deletions and replacements, with indexers that do not fail: [ByIndex] gives the
    objects that have the value, in the order of their keys and once each; [Index]
    gives those that share a value with an object, once each; the objects are those
    of the map that the changes describe. *)
Theorem indexer_correct indexers chs name f :
  total_indexers (Cache.NewIndexer indexers) → indexers !! name = Some f →
  let c := foldl apply_change (Cache.NewIndexer indexers) chs in
  items c = foldl apply_items_change ∅ chs ∧
  (∀ v, ∃ ks, ByIndex name v c = inr ((λ k, items c !! k) <$> ks) ∧ NoDup ks ∧ StronglySorted String.le ks ∧
     ∀ k, k ∈ ks ↔ ∃ o, items c !! k = Some o ∧ v ∈ values_of f o) ∧
  (∀ o, ∃ ks, Index_ name o c = inr ((λ k, items c !! k) <$> ks) ∧ NoDup ks ∧
     ∀ k, k ∈ ks ↔ ∃ o' v, items c !! k = Some o' ∧ v ∈ values_of f o' ∧ v ∈ values_of f o).
Proof.
  intros Ht Hf c. destruct (changes_ok chs (Cache.NewIndexer indexers) Ht (new_ok indexers)) as (Hok & Hx & Hi).
  fold c in Hok, Hx, Hi. split; [done|].
  assert (ThreadSafeStore.indexers c !! name = Some f) as Hcf by by rewrite Hx.
  assert (∀ v k, is_Some (members c name v !! k) ↔ ∃ o, items c !! k = Some o ∧ v ∈ values_of f o) as Hmem
    by (intros v k; apply (Hok name f v k Hcf)).
  clearbody c. split.
  - intros v. exists (StringSet.List (members c name v)). split; [|split; [apply NoDup_List|split]].
    + unfold ByIndex. by rewrite Hcf.
    + unfold StringSet.List. apply StronglySorted_merge_sort; apply _.
    + intros k. rewrite elem_of_List, elem_of_dom. apply Hmem.
  - intros o. destruct (Ht name f o Hf) as [vs Hvs].
    set (ret := foldl (λ returnKeySet indexKey,
      foldl (λ returnKeySet key, Insert [key] returnKeySet) returnKeySet
        (StringSet.List (members c name indexKey))) ∅ vs).
    exists (map_range ret). split; [|split; [apply NoDup_map_range|]].
    + unfold Index_. rewrite Hcf, Hvs. done.
    + intros k. rewrite elem_of_map_range. unfold ret. rewrite insert_members, lookup_empty.
      unfold values_of at 2. rewrite Hvs. split.
      * intros [[? [=]]|(v & Hv & (o' & Ho' & Hv')%Hmem)]. eauto.
      * intros (o' & v & Ho' & Hv' & Hv). right. exists v. split; [done|]. apply Hmem. eauto.
Qed.
End Runs.

(** The key of an object and its parts determine each other: for a namespace and a
    name without slashes (the only ones that the API admits), splitting the key gives
    the namespace and the name; a key with two slashes or more is refused. *)
Theorem key_roundtrip `{gf : GoFormats} {obj} `{!MetaAccessor obj} (o : obj) :
  (has_byte slash (GetNamespace o) = false → has_byte slash (GetName o) = false →
   ∃ key, MetaNamespaceKeyFunc o = inr key ∧
     SplitMetaNamespaceKey key = (GetNamespace o, GetName o, None)) ∧
  (∀ a b d, ∃ err, SplitMetaNamespaceKey (a +:+ "/" +:+ b +:+ "/" +:+ d) = ("", "", Some err)).
Proof.
  split.
  - intros Hns Hn. unfold MetaNamespaceKeyFunc. case_decide as Hlen.
    + eexists. split; [done|]. unfold SplitMetaNamespaceKey.
      change (GetNamespace o +:+ "/" +:+ GetName o) with (GetNamespace o +:+ String.String slash (GetName o)).
      fold slash. by rewrite Split_one.
    + eexists. split; [done|]. unfold SplitMetaNamespaceKey. fold slash. rewrite Split_none by done.
      by destruct (GetNamespace o); [|cbn in Hlen; lia].
  - intros a b d. assert (∀ s, ∃ p ps, Split "/" s = p :: ps) as Hne.
    { induction s as [|c s (p & ps & IH)]; cbn; [by eexists _, _|]. case_decide; [by eexists _, _|].
      rewrite IH. by eexists _, _. }
    assert (∀ s t, ∃ p ps qs q, Split "/" (s +:+ String.String "/" t) = p :: ps ++ q :: qs ∧ Split "/" t = q :: qs) as Hsp.
    { intros s t. destruct (Hne t) as (q & qs & Ht). induction s as [|c s (p & ps & qs' & q' & IH & E)].
      - exists "", [], qs, q. split; [|done]. unfold String.app. cbn. by rewrite Ht.
      - rewrite E in Ht. simplify_eq. unfold String.app in *. cbn. case_decide.
        + exists "", (p :: ps), qs, q. by rewrite IH.
        + rewrite IH. exists (String.String c p), ps, qs, q. done. }
    destruct (Hsp b d) as (p1 & ps1 & qs1 & q1 & E1 & _).
    destruct (Hsp a (b +:+ String.String "/" d)) as (p2 & ps2 & qs2 & q2 & E2 & E3).
    eexists. unfold SplitMetaNamespaceKey.
    change (a +:+ "/" +:+ b +:+ "/" +:+ d) with (a +:+ String.String "/" (b +:+ String.String "/" d)).
    rewrite E2. rewrite E1 in E3. simplify_eq. destruct ps2 as [|? [|]]; cbn; [|done|done].
    by destruct ps1.
Qed.

(** ** Witnesses *)
Section Witness.
#[local] Existing Instance order_up.

(** Objects that are their own values, by namespace. *)
Definition by_first : IndexFunc (string * string) := λ o, inr [o.1].

Lemma indexer_correct_witness :
  let c := foldl apply_change (Cache.NewIndexer {["ns" := by_first]})
    [Change_Add "a/x" ("a", "x"); Change_Add "b/y" ("b", "y"); Change_Update "b/y" ("a", "y"); Change_Delete "a/x"] in
  items c = {["b/y" := ("a", "y")]} ∧ ∃ ks, ByIndex "ns" "a" c = inr ((λ k, items c !! k) <$> ks) ∧ "b/y" ∈ ks.
Proof.
  intros c. destruct (indexer_correct {["ns" := by_first]}
    [Change_Add "a/x" ("a", "x"); Change_Add "b/y" ("b", "y"); Change_Update "b/y" ("a", "y"); Change_Delete "a/x"]
    "ns" by_first) as (Hi & Hb & _).
  - intros name f o Hf. change (({["ns" := by_first]} : gmap string (IndexFunc (string * string))) !! name = Some f) in Hf.
    apply lookup_singleton_Some in Hf as [<- <-]. by eexists.
  - vm_compute. reflexivity.
  - fold c in Hi, Hb. split; [rewrite Hi; vm_compute; reflexivity|].
    destruct (Hb "a") as (ks & E & _ & _ & Hks). exists ks. split; [exact E|]. apply Hks.
    exists ("a", "y"). split; [vm_compute; reflexivity|]. left.
Defined.

#[local] Existing Instance plain_formats.
Definition web : ApiService := mkApiService "default" "web" "1" "10.0.0.1" [].

Lemma key_roundtrip_witness :
  ∃ key, MetaNamespaceKeyFunc web = inr key ∧ SplitMetaNamespaceKey key = ("default", "web", None).
Proof. refine (proj1 (key_roundtrip web) _ _); reflexivity. Defined.
End Witness.
