(* ===== verification/PtrMap.v ===== *)
(** Go maps whose values are pointers, [map[string]*V].

    The program keeps records behind pointers in two maps
    ([proxier.routeTable] and [backoff.perItemBackoff]) and changes them through
    a pointer it has looked up earlier.  The model keeps the store those
    pointers refer to: [table] maps keys to locations, [heap] maps locations to
    values, and [next] is the next location to allocate.  A deleted key leaves
    its record behind (garbage), as in Go.

    [wf] says that no two keys share a record.  Under it the map of values
    [view] describes the whole, and each operation on pointers is the
    corresponding operation on [view]. *)

From stdpp Require Import gmap strings.
From S2P Require Import Prelude.

Definition loc : Type := nat.

Record ptrmap (V : Type) := mkPtrmap {
  table : gmap string loc;
  heap : gmap loc V;
  next : loc
}.
Arguments mkPtrmap {V} _ _ _.
Arguments table {V} _.
Arguments heap {V} _.
Arguments next {V} _.

(** [map[string]*V{}]. *)
Definition ptr_empty {V} : ptrmap V := mkPtrmap ∅ ∅ 0.

Section PtrMap.
Context {V : Type}.
Implicit Types (m : ptrmap V) (n : string) (l : loc) (v : V).

(** [p, ok := m[n]]. *)
Definition ptr_lookup (n : string) : M (ptrmap V) (option loc) := gets (λ m, table m !! n).

(** [*p]; a pointer into the heap always has a value, and reading through any
    other one (such as [nil], which an absent key gives) panics. *)
Definition ptr_load (l : option loc) : M (ptrmap V) V := λ m,
  match l ≫= λ l, heap m !! l with
  | Some v => Ret v m
  | None => Panic "invalid memory address or nil pointer dereference" m
  end.

(** [*p = v]. *)
Definition ptr_store (l : option loc) (v : V) : M (ptrmap V) unit := λ m,
  match l with
  | Some l => Ret tt (mkPtrmap (table m) (<[l := v]> (heap m)) (next m))
  | None => Panic "invalid memory address or nil pointer dereference" m
  end.

(** [p := &V{...}]. *)
Definition ptr_new (v : V) : M (ptrmap V) loc := λ m,
  Ret (next m) (mkPtrmap (table m) (<[next m := v]> (heap m)) (S (next m))).

(** [m[n] = p]. *)
Definition ptr_set (n : string) (l : loc) : M (ptrmap V) unit :=
  modify (λ m, mkPtrmap (<[n := l]> (table m)) (heap m) (next m)).

(** [delete(m, n)]. *)
Definition ptr_delete (n : string) : M (ptrmap V) unit :=
  modify (λ m, mkPtrmap (delete n (table m)) (heap m) (next m)).

(** The map of values behind the pointers. *)
Definition view (m : ptrmap V) : gmap string V := omap (λ l, heap m !! l) (table m).

Record ptr_wf (m : ptrmap V) : Prop := {
  ptr_inj n n' l : table m !! n = Some l → table m !! n' = Some l → n = n';
  ptr_valid n l : table m !! n = Some l → is_Some (heap m !! l);
  ptr_next l : is_Some (heap m !! l) → l < next m
}.

Lemma view_lookup m n : view m !! n = table m !! n ≫= λ l, heap m !! l.
Proof. apply lookup_omap. Qed.

Lemma view_lookup_Some m n v :
  view m !! n = Some v ↔ ∃ l, table m !! n = Some l ∧ heap m !! l = Some v.
Proof. rewrite view_lookup, bind_Some. done. Qed.

Lemma ptr_wf_empty : ptr_wf ptr_empty.
Proof. split; intros *; simpl; rewrite lookup_empty; [done..|]. by intros [? ?]. Qed.

Lemma view_empty : view ptr_empty = ∅.
Proof. apply omap_empty. Qed.

(** A key and the value behind it. *)
Lemma ptr_lookup_view m n :
  ptr_wf m →
  (table m !! n = None ∧ view m !! n = None) ∨
  (∃ l v, table m !! n = Some l ∧ heap m !! l = Some v ∧ view m !! n = Some v).
Proof.
  intros [_ Hv _]. rewrite view_lookup. destruct (table m !! n) as [l|] eqn:E; [|by left].
  right. destruct (Hv n l E) as [v Hl]. exists l, v. simpl. by rewrite Hl.
Qed.

(** Presence of a key is the same in the table and in the view. *)
Lemma ptr_view_None m n : ptr_wf m → table m !! n = None ↔ view m !! n = None.
Proof. intros Hm. destruct (ptr_lookup_view m n Hm) as [[-> ->]|(l & v & -> & _ & ->)]; done. Qed.

Lemma ptr_dom m : ptr_wf m → dom (table m) = dom (view m).
Proof.
  intros Hm. apply set_eq. intros n. rewrite !elem_of_dom, <-!not_eq_None_Some.
  by rewrite ptr_view_None.
Qed.

(** Writing through the pointer of a key is inserting at the key. *)
Lemma ptr_store_view m n l v :
  ptr_wf m → table m !! n = Some l →
  ∃ m', ptr_store (Some l) v m = Ret tt m' ∧ ptr_wf m' ∧ table m' = table m ∧
        view m' = <[n := v]> (view m).
Proof.
  intros [Hinj Hval Hnext] Hl. eexists. split; [done|].
  split_and!; [split; simpl; [done|..]|done|].
  - intros n' l' Hl'. destruct (decide (l = l')) as [->|];
      [rewrite lookup_insert_eq; eauto|rewrite lookup_insert_ne by done; eauto].
  - intros l' [v' Hl']. destruct (decide (l = l')) as [->|]; [by eapply Hnext, Hval|].
    rewrite lookup_insert_ne in Hl' by done. eauto.
  - apply map_eq. intros n'. rewrite view_lookup. simpl.
    destruct (decide (n = n')) as [->|Hne].
    + rewrite Hl. simpl. by rewrite !lookup_insert_eq.
    + rewrite (lookup_insert_ne _ n n'), view_lookup by done.
      destruct (table m !! n') as [l'|] eqn:El; simpl; [|done].
      rewrite lookup_insert_ne; [done|]. intros ->. by apply Hne, (Hinj _ _ l').
Qed.

(** Allocating a record and putting it at a key is inserting at the key; the
    pointer stays the key's. *)
Lemma ptr_put_new_view m n v :
  ptr_wf m →
  ∃ m' l, (l ← ptr_new v; ptr_set n l ;; mret l) m = Ret l m' ∧ ptr_wf m' ∧
    table m' !! n = Some l ∧ heap m' !! l = Some v ∧ view m' = <[n := v]> (view m).
Proof.
  intros [Hinj Hval Hnext]. m_unfold. eexists _, _. split; [done|]. simpl.
  assert (∀ n' l', table m !! n' = Some l' → l' ≠ next m) as Hfresh.
  { intros n' l' Hl' ->. pose proof (Hnext _ (Hval _ _ Hl')). lia. }
  split_and!; [split; simpl|by rewrite lookup_insert_eq..|].
  - intros n1 n2 l. rewrite !lookup_insert_Some. naive_solver.
  - intros n' l'. rewrite lookup_insert_Some. intros [[_ <-]|[_ Hl']];
      [rewrite lookup_insert_eq; eauto|]. rewrite lookup_insert_ne; [eauto|].
    intros <-. by eapply Hfresh.
  - intros l' [v' Hl']. apply lookup_insert_Some in Hl' as [[<- _]|[_ Hl']]; [lia|].
    assert (l' < next m) by (apply Hnext; eauto). lia.
  - apply map_eq. intros n'. rewrite view_lookup. simpl.
    destruct (decide (n = n')) as [->|Hne].
    + rewrite !lookup_insert_eq. simpl. by rewrite lookup_insert_eq.
    + rewrite !lookup_insert_ne, view_lookup by done.
      destruct (table m !! n') as [l'|] eqn:El; simpl; [|done].
      rewrite lookup_insert_ne; [done|]. intros <-. by eapply Hfresh.
Qed.

(** Deleting a key. *)
Lemma ptr_delete_view m n :
  ptr_wf m →
  ∃ m', ptr_delete n m = Ret tt m' ∧ ptr_wf m' ∧ view m' = delete n (view m).
Proof.
  intros [Hinj Hval Hnext]. eexists. split; [done|]. split.
  - split; simpl; [| |done].
    + intros n1 n2 l. rewrite !lookup_delete_Some. naive_solver.
    + intros n' l'. rewrite lookup_delete_Some. naive_solver.
  - apply map_eq. intros n'. rewrite view_lookup. simpl.
    destruct (decide (n = n')) as [->|Hne].
    + by rewrite !lookup_delete_eq.
    + by rewrite !lookup_delete_ne, view_lookup by done.
Qed.
End PtrMap.

#[export] Hint Resolve ptr_wf_empty : go.
