(* ===== verification/PFlag.v ===== *)
(** The vendored package [pflag] ([flag.go]): sets of flags and the parsing of a
    command line.

    A [FlagSet] has three maps whose values are pointers to flags; the pointers are
    locations of one heap of [Flag] records, which several sets may share.  The
    state of a method ([State C]) is the set it is called on with that heap, the
    memory that the flags' values point into, the text written so far (to standard
    error, or to a writer), and the arguments of the process.  A call on the
    package itself is a call on the set [CommandLine], for which
    [is_CommandLine] is set.

    A normalisation function is a function of the name, and a custom function
    [Usage] only writes.  A nil map is an empty one. *)

From Stdlib Require Import Ascii.
From stdpp Require Import gmap strings list pretty.
From S2P Require Import Prelude GoStrings Strconv PtrMap PFlagValues.

Local Open Scope Z_scope.

(** Where text is written: [None] is standard error. *)
Definition writer : Type := option nat.
Definition output_trace : Type := list (writer * string).

(** The types of [flag.go]. *)
Inductive ErrorHandling : Type := ContinueOnError | ExitOnError | PanicOnError.

Definition ErrHelp : error := Errorf "pflag: help requested".

Record Flag (C : Type) := mkFlag {
  Name : string;
  Shorthand : string;
  Flag_Usage : string;
  Flag_Value : Value C;
  DefValue : string;
  Changed_ : bool;
  NoOptDefVal : string;
  Deprecated : string;
  Hidden : bool;
  ShorthandDeprecated : string;
  Annotations : gmap string (list string)
}.
Arguments mkFlag {C} _ _ _ _ _ _ _ _ _ _ _.
Arguments Name {C} _.
Arguments Shorthand {C} _.
Arguments Flag_Usage {C} _.
Arguments Flag_Value {C} _.
Arguments DefValue {C} _.
Arguments Changed_ {C} _.
Arguments NoOptDefVal {C} _.
Arguments Deprecated {C} _.
Arguments Hidden {C} _.
Arguments ShorthandDeprecated {C} _.
Arguments Annotations {C} _.

Record FlagSet := mkFlagSet {
  Usage_ : option (output_trace → output_trace);
  name : string;
  parsed : bool;
  actual : gmap string loc;
  formal : gmap string loc;
  shorthands : gmap ascii loc;
  args : list string;
  argsLenAtDash : Z;
  exitOnError : bool;
  errorHandling : ErrorHandling;
  output : writer;
  interspersed : bool;
  normalizeNameFunc : option (string → string);
  is_CommandLine : bool
}.

Record State (C : Type) := mkState {
  fset : FlagSet;
  flags : gmap loc (Flag C);
  fresh : loc;
  mem : Mem C;
  written : output_trace;
  os_Args : list string
}.
Arguments mkState {C} _ _ _ _ _ _.
Arguments fset {C} _.
Arguments flags {C} _.
Arguments fresh {C} _.
Arguments mem {C} _.
Arguments written {C} _.
Arguments os_Args {C} _.

(** *** Field updates *)
Definition set_parsed (b : bool) (f : FlagSet) : FlagSet :=
  mkFlagSet (Usage_ f) (name f) b (actual f) (formal f) (shorthands f) (args f) (argsLenAtDash f)
    (exitOnError f) (errorHandling f) (output f) (interspersed f) (normalizeNameFunc f) (is_CommandLine f).
Definition set_actual (m : gmap string loc) (f : FlagSet) : FlagSet :=
  mkFlagSet (Usage_ f) (name f) (parsed f) m (formal f) (shorthands f) (args f) (argsLenAtDash f)
    (exitOnError f) (errorHandling f) (output f) (interspersed f) (normalizeNameFunc f) (is_CommandLine f).
Definition set_formal (m : gmap string loc) (f : FlagSet) : FlagSet :=
  mkFlagSet (Usage_ f) (name f) (parsed f) (actual f) m (shorthands f) (args f) (argsLenAtDash f)
    (exitOnError f) (errorHandling f) (output f) (interspersed f) (normalizeNameFunc f) (is_CommandLine f).
Definition set_shorthands (m : gmap ascii loc) (f : FlagSet) : FlagSet :=
  mkFlagSet (Usage_ f) (name f) (parsed f) (actual f) (formal f) m (args f) (argsLenAtDash f)
    (exitOnError f) (errorHandling f) (output f) (interspersed f) (normalizeNameFunc f) (is_CommandLine f).
Definition set_args (l : list string) (f : FlagSet) : FlagSet :=
  mkFlagSet (Usage_ f) (name f) (parsed f) (actual f) (formal f) (shorthands f) l (argsLenAtDash f)
    (exitOnError f) (errorHandling f) (output f) (interspersed f) (normalizeNameFunc f) (is_CommandLine f).
Definition set_argsLenAtDash (n : Z) (f : FlagSet) : FlagSet :=
  mkFlagSet (Usage_ f) (name f) (parsed f) (actual f) (formal f) (shorthands f) (args f) n
    (exitOnError f) (errorHandling f) (output f) (interspersed f) (normalizeNameFunc f) (is_CommandLine f).
Definition set_output (w : writer) (f : FlagSet) : FlagSet :=
  mkFlagSet (Usage_ f) (name f) (parsed f) (actual f) (formal f) (shorthands f) (args f) (argsLenAtDash f)
    (exitOnError f) (errorHandling f) w (interspersed f) (normalizeNameFunc f) (is_CommandLine f).
Definition set_interspersed (b : bool) (f : FlagSet) : FlagSet :=
  mkFlagSet (Usage_ f) (name f) (parsed f) (actual f) (formal f) (shorthands f) (args f) (argsLenAtDash f)
    (exitOnError f) (errorHandling f) (output f) b (normalizeNameFunc f) (is_CommandLine f).
Definition set_normalizeNameFunc (n : option (string → string)) (f : FlagSet) : FlagSet :=
  mkFlagSet (Usage_ f) (name f) (parsed f) (actual f) (formal f) (shorthands f) (args f) (argsLenAtDash f)
    (exitOnError f) (errorHandling f) (output f) (interspersed f) n (is_CommandLine f).

Section PFlag.
Context `{gf : GoFormats, mo : MapOrder} {C : Type}.

Definition set_Name (n : string) (f : Flag C) : Flag C :=
  mkFlag n (Shorthand f) (Flag_Usage f) (Flag_Value f) (DefValue f) (Changed_ f) (NoOptDefVal f)
    (Deprecated f) (Hidden f) (ShorthandDeprecated f) (Annotations f).
Definition set_Changed (b : bool) (f : Flag C) : Flag C :=
  mkFlag (Name f) (Shorthand f) (Flag_Usage f) (Flag_Value f) (DefValue f) b (NoOptDefVal f)
    (Deprecated f) (Hidden f) (ShorthandDeprecated f) (Annotations f).
Definition set_NoOptDefVal (s : string) (f : Flag C) : Flag C :=
  mkFlag (Name f) (Shorthand f) (Flag_Usage f) (Flag_Value f) (DefValue f) (Changed_ f) s
    (Deprecated f) (Hidden f) (ShorthandDeprecated f) (Annotations f).
Definition set_Deprecated (s : string) (f : Flag C) : Flag C :=
  mkFlag (Name f) (Shorthand f) (Flag_Usage f) (Flag_Value f) (DefValue f) (Changed_ f) (NoOptDefVal f)
    s (Hidden f) (ShorthandDeprecated f) (Annotations f).
Definition set_Hidden (b : bool) (f : Flag C) : Flag C :=
  mkFlag (Name f) (Shorthand f) (Flag_Usage f) (Flag_Value f) (DefValue f) (Changed_ f) (NoOptDefVal f)
    (Deprecated f) b (ShorthandDeprecated f) (Annotations f).
Definition set_ShorthandDeprecated (s : string) (f : Flag C) : Flag C :=
  mkFlag (Name f) (Shorthand f) (Flag_Usage f) (Flag_Value f) (DefValue f) (Changed_ f) (NoOptDefVal f)
    (Deprecated f) (Hidden f) s (Annotations f).
Definition set_Annotations (a : gmap string (list string)) (f : Flag C) : Flag C :=
  mkFlag (Name f) (Shorthand f) (Flag_Usage f) (Flag_Value f) (DefValue f) (Changed_ f) (NoOptDefVal f)
    (Deprecated f) (Hidden f) (ShorthandDeprecated f) a.

Definition set_fset (f : FlagSet) (s : State C) : State C :=
  mkState f (flags s) (fresh s) (mem s) (written s) (os_Args s).
Definition set_flags (h : gmap loc (Flag C)) (s : State C) : State C :=
  mkState (fset s) h (fresh s) (mem s) (written s) (os_Args s).
Definition set_mem (m : Mem C) (s : State C) : State C :=
  mkState (fset s) (flags s) (fresh s) m (written s) (os_Args s).
Definition set_written (w : output_trace) (s : State C) : State C :=
  mkState (fset s) (flags s) (fresh s) (mem s) w (os_Args s).

(** [f.field = ...] on the set, and [*p], [p.field = ...], [p := &Flag{...}] on flags. *)
Definition on_set (g : FlagSet → FlagSet) : M (State C) unit := modify (λ s, set_fset (g (fset s)) s).
Definition on_mem {A} (m : M (Mem C) A) : M (State C) A := zoom mem set_mem m.
Definition load_flag (l : loc) : M (State C) (Flag C) := λ s,
  match flags s !! l with
  | Some flag => Ret flag s
  | None => Panic "invalid memory address or nil pointer dereference" s
  end.
Definition update_flag (l : loc) (g : Flag C → Flag C) : M (State C) unit :=
  flag ← load_flag l;
  modify (λ s, set_flags (<[l := g flag]> (flags s)) s).
Definition new_flag (flag : Flag C) : M (State C) loc := λ s,
  Ret (fresh s) (mkState (fset s) (<[fresh s := flag]> (flags s)) (S (fresh s)) (mem s) (written s)
    (os_Args s)).

(** [fmt.Fprint(w, text)]. *)
Definition Fprint (w : writer) (text : string) : M (State C) unit :=
  modify (λ s, set_written (written s ++ [(w, text)]) s).

(** A loop that does not end. *)
Definition diverge {S A} : M S A := λ s, Block s.

(** The text of an error. *)
Fixpoint Error (err : error) : string :=
  match err with
  | Errorf msg => msg
  | KeyError err => "couldn't create key for object: " +:+ Error err
  | EventQueueStopped => "Event queue was stopped."
  end.
Definition quoted_Errorf (pre s post : string) : error := Errorf (pre +:+ Quote s +:+ post).

(** ** Names and lookups *)
Definition sortFlags (m : gmap string loc) : list loc := omap (λ k, m !! k) (sorted_keys m).

Definition GetNormalizeFunc (f : FlagSet) : string → string :=
  match normalizeNameFunc f with
  | Some n => n
  | None => λ name, name
  end.
Definition normalizeFlagName (f : FlagSet) (name : string) : string := GetNormalizeFunc f name.

(** The body of the loop of [SetNormalizeFunc], for a key that is still in the map. *)
Definition renormalize (k : string) : M (State C) unit :=
  s ← get;
  match formal (fset s) !! k with
  | None => mret tt
  | Some v =>
      on_set (λ f, set_formal (delete k (formal f)) f) ;;
      let nname := normalizeFlagName (fset s) k in
      on_set (λ f, set_formal (<[nname := v]> (formal f)) f) ;;
      update_flag v (set_Name nname)
  end.

(** [SetNormalizeFunc]; the loop ranges over a map that it changes, so that names it
    adds may be visited as well: [ks] are the keys that are visited. *)
Definition SetNormalizeFunc (n : string → string) (ks : list string) : M (State C) unit :=
  on_set (set_normalizeNameFunc (Some n)) ;;
  for_each renormalize ks.

Definition out (f : FlagSet) : writer :=
  match output f with
  | None => None
  | Some w => Some w
  end.
Definition SetOutput (w : writer) : M (State C) unit := on_set (set_output w).

Definition VisitAll (fn : loc → M (State C) unit) : M (State C) unit :=
  s ← get;
  for_each fn (sortFlags (formal (fset s))).
Definition Visit (fn : loc → M (State C) unit) : M (State C) unit :=
  s ← get;
  for_each fn (sortFlags (actual (fset s))).

Definition HasFlags (f : FlagSet) : bool := bool_decide ((0 < size (formal f))%nat).
Fixpoint HasAvailableFlags_loop (ls : list loc) : M (State C) bool :=
  match ls with
  | [] => mret false
  | l :: ls =>
      flag ← load_flag l;
      if negb (Hidden flag) && bool_decide (Deprecated flag = "") then mret true
      else HasAvailableFlags_loop ls
  end.
Definition HasAvailableFlags : M (State C) bool :=
  s ← get;
  HasAvailableFlags_loop (omap (λ k, formal (fset s) !! k) (map_range (formal (fset s)))).

Definition lookup_ (f : FlagSet) (name : string) : option loc := formal f !! name.
Definition Lookup (f : FlagSet) (name : string) : option loc := lookup_ f (normalizeFlagName f name).

(** [getFlagType]: the value of a flag of some type, through its text. *)
Definition getFlagType {A} (name ftype : string) (convFunc : string → A * option error) :
    M (State C) (error + A) :=
  s ← get;
  match Lookup (fset s) name with
  | None => mret (inl (Errorf ("flag accessed but not defined: " +:+ name)))
  | Some l =>
      flag ← load_flag l;
      if decide (Value_Type (Flag_Value flag) ≠ ftype)
      then mret (inl (Errorf ("trying to get " +:+ ftype +:+ " value of flag of type " +:+
                               Value_Type (Flag_Value flag))))
      else
        let sval := Value_String (Flag_Value flag) (mem s) in
        let '(result, err) := convFunc sval in
        match err with
        | Some err => mret (inl err)
        | None => mret (inr result)
        end
  end.

Definition ArgsLenAtDash (f : FlagSet) : Z := argsLenAtDash f.

(** ** Marking flags *)
Definition MarkDeprecated (name usageMessage : string) : M (State C) (option error) :=
  s ← get;
  match Lookup (fset s) name with
  | None => mret (Some (quoted_Errorf "flag " name " does not exist"))
  | Some l =>
      if decide (usageMessage = "") then
        mret (Some (quoted_Errorf "deprecated message for flag " name " must be set"))
      else update_flag l (set_Deprecated usageMessage) ;; mret None
  end.
Definition MarkShorthandDeprecated (name usageMessage : string) : M (State C) (option error) :=
  s ← get;
  match Lookup (fset s) name with
  | None => mret (Some (quoted_Errorf "flag " name " does not exist"))
  | Some l =>
      if decide (usageMessage = "") then
        mret (Some (quoted_Errorf "deprecated message for flag " name " must be set"))
      else update_flag l (set_ShorthandDeprecated usageMessage) ;; mret None
  end.
Definition MarkHidden (name : string) : M (State C) (option error) :=
  s ← get;
  match Lookup (fset s) name with
  | None => mret (Some (quoted_Errorf "flag " name " does not exist"))
  | Some l => update_flag l (set_Hidden true) ;; mret None
  end.

(** The message for a deprecated flag that is set. *)
Definition warn_deprecated (flag : Flag C) : M (State C) unit :=
  if decide (Deprecated flag = "") then mret tt
  else Fprint None ("Flag --" +:+ Name flag +:+ " has been deprecated, " +:+ Deprecated flag +:+ newline).

Definition Set_ (name value : string) : M (State C) (option error) :=
  s ← get;
  let normalName := normalizeFlagName (fset s) name in
  match formal (fset s) !! normalName with
  | None => mret (Some (Errorf ("no such flag -" +:+ name)))
  | Some l =>
      flag ← load_flag l;
      err ← on_mem (Value_Set (Flag_Value flag) value);
      match err : option error with
      | Some err => mret (Some err)
      | None =>
          on_set (λ f, set_actual (<[normalName := l]> (actual f)) f) ;;
          update_flag l (set_Changed true) ;;
          warn_deprecated flag ;;
          mret None
      end
  end.

Definition SetAnnotation (name key : string) (values : list string) : M (State C) (option error) :=
  s ← get;
  let normalName := normalizeFlagName (fset s) name in
  match formal (fset s) !! normalName with
  | None => mret (Some (Errorf ("no such flag -" +:+ name)))
  | Some l =>
      update_flag l (λ flag, set_Annotations (<[key := values]> (Annotations flag)) flag) ;; mret None
  end.

Definition Changed (name : string) : M (State C) bool :=
  s ← get;
  match Lookup (fset s) name with
  | None => mret false
  | Some l => flag ← load_flag l; mret (Changed_ flag)
  end.

(** ** Usage messages *)
Definition isZeroValue (value : string) : bool :=
  bool_decide (value ∈ ["false"; "<nil>"; ""; "0"]).

Definition backquote : ascii := "`"%char.
(** The byte that marks where the usage text of a line begins. *)
Definition NUL : ascii := "000"%char.

Definition type_name (v : Value C) : string :=
  if is_boolFlag v then ""
  else match v with
       | durationValue _ => "duration"
       | intValue _ => "int"
       | stringValue _ => "string"
       | _ => "value"
       end.

(** [UnquoteUsage]: the name between the first two back quotes and the usage without
    them, or a name for the type. *)
Definition UnquoteUsage (flag : Flag C) : string * string :=
  let usage := Flag_Usage flag in
  match IndexByte backquote usage with
  | Some i =>
      match IndexByte backquote (skip (S i) usage) with
      | Some n =>
          let name := take_s n (skip (S i) usage) in
          (name, take_s i usage +:+ name +:+ skip (S (S i + n)) usage)
      | None => (type_name (Flag_Value flag), usage)
      end
  | None => (type_name (Flag_Value flag), usage)
  end.

(** The line of a flag up to the mark. *)
Definition usage_line (flag : Flag C) : string :=
  let line :=
    if negb (bool_decide (Shorthand flag = "")) && bool_decide (ShorthandDeprecated flag = "")
    then "  -" +:+ Shorthand flag +:+ ", --" +:+ Name flag
    else "      --" +:+ Name flag in
  let varname := (UnquoteUsage flag).1 in
  let line := if decide (varname = "") then line else line +:+ " " +:+ varname in
  if decide (NoOptDefVal flag = "") then line
  else if decide (Value_Type (Flag_Value flag) = "string") then
    line +:+ "[=" +:+ Quote (NoOptDefVal flag) +:+ "]"
  else if decide (Value_Type (Flag_Value flag) = "bool") then
    if decide (NoOptDefVal flag = "true") then line else line +:+ "[=" +:+ NoOptDefVal flag +:+ "]"
  else line +:+ "[=" +:+ NoOptDefVal flag +:+ "]".
(** With the mark. *)
Definition usage_head (flag : Flag C) : string := usage_line flag +:+ String NUL "".

(** The rest of the line. *)
Definition usage_tail (flag : Flag C) : string :=
  (UnquoteUsage flag).2 +:+
  (if isZeroValue (DefValue flag) then ""
   else if decide (Value_Type (Flag_Value flag) = "string")
   then " (default " +:+ Quote (DefValue flag) +:+ ")"
   else " (default " +:+ DefValue flag +:+ ")").

(** The closure that [FlagUsages] passes to [VisitAll], on the lines and the maximal
    length so far. *)
Definition usage_visit (acc : list string * nat) (flag : Flag C) : list string * nat :=
  if negb (bool_decide (Deprecated flag = "")) || Hidden flag then acc
  else
    let line := usage_head flag in
    let maxlen := if decide ((acc.2 < String.length line)%nat) then String.length line else acc.2 in
    (acc.1 ++ [line +:+ usage_tail flag], maxlen).

Fixpoint visit_usages (acc : list string * nat) (ls : list loc) : M (State C) (list string * nat) :=
  match ls with
  | [] => mret acc
  | l :: ls => flag ← load_flag l; visit_usages (usage_visit acc flag) ls
  end.

(** The second loop: the mark is replaced by blanks up to the common column; an index
    or a count out of range would panic. *)
Fixpoint print_usages (maxlen : nat) (lines : list string) : M (State C) string :=
  match lines with
  | [] => mret ""
  | line :: lines =>
      match IndexByte NUL line with
      | None => panic "slice bounds out of range"
      | Some sidx =>
          if decide ((maxlen < sidx)%nat) then panic "strings: negative Repeat count"
          else
            let spacing := spaces (maxlen - sidx) in
            x ← print_usages maxlen lines;
            mret (Sprintln [take_s sidx line; spacing; skip (S sidx) line] +:+ x)
      end
  end.
Definition FlagUsages : M (State C) string :=
  s ← get;
  acc ← visit_usages ([], 0%nat) (sortFlags (formal (fset s)));
  let '(lines, maxlen) := acc in
  print_usages maxlen lines.

Definition PrintDefaults : M (State C) unit :=
  usages ← FlagUsages;
  s ← get;
  Fprint (out (fset s)) usages.
Definition defaultUsage : M (State C) unit :=
  s ← get;
  Fprint (out (fset s)) ("Usage of " +:+ name (fset s) +:+ ":" +:+ newline) ;;
  PrintDefaults.
(** The package variable [Usage], with its initial value. *)
Definition Usage : M (State C) unit :=
  s ← get;
  match os_Args s with
  | [] => panic "index out of range"
  | arg0 :: _ =>
      Fprint None ("Usage of " +:+ arg0 +:+ ":" +:+ newline) ;;
      PrintDefaults
  end.
(** [f.usage()]. *)
Definition usage : M (State C) unit :=
  s ← get;
  if is_CommandLine (fset s) then Usage
  else match Usage_ (fset s) with
       | None => defaultUsage
       | Some u => modify (λ s, set_written (u (written s)) s)
       end.

(** ** Results of parsing *)
Definition NFlag (f : FlagSet) : Z := Z.of_nat (size (actual f)).
Definition Arg (f : FlagSet) (i : Z) : string :=
  if decide (i < 0 ∨ Z.of_nat (length (args f)) ≤ i) then ""
  else default "" (args f !! Z.to_nat i).
Definition NArg (f : FlagSet) : Z := Z.of_nat (length (args f)).
Definition Args (f : FlagSet) : list string := args f.
Definition Parsed (f : FlagSet) : bool := parsed f.

(** ** Adding flags *)
Definition AddFlag (l : loc) : M (State C) unit :=
  s ← get;
  flag ← load_flag l;
  let normalizedFlagName := normalizeFlagName (fset s) (Name flag) in
  match formal (fset s) !! normalizedFlagName with
  | Some _ =>
      let msg := name (fset s) +:+ " flag redefined: " +:+ Name flag in
      Fprint (out (fset s)) (msg +:+ newline) ;;
      panic msg
  | None =>
      update_flag l (set_Name normalizedFlagName) ;;
      on_set (λ f, set_formal (<[normalizedFlagName := l]> (formal f)) f) ;;
      match Shorthand flag with
      | EmptyString => mret tt
      | String c EmptyString =>
          match shorthands (fset s) !! c with
          | Some old =>
              old ← load_flag old;
              Fprint (out (fset s)) (name (fset s) +:+ " shorthand reused: " +:+ QuoteByte c +:+ " for " +:+
                normalizedFlagName +:+ " already used for " +:+ Name old +:+ newline) ;;
              panic "shorthand redefinition"
          | None => on_set (λ f, set_shorthands (<[c := l]> (shorthands f)) f)
          end
      | _ =>
          Fprint (out (fset s)) (name (fset s) +:+ " shorthand more than ASCII character: " +:+
            Shorthand flag +:+ newline) ;;
          panic "shorthand is more than one character"
      end
  end.

Definition VarPF (value : Value C) (name shorthand usage : string) : M (State C) loc :=
  s ← get;
  flag ← new_flag (mkFlag name shorthand usage value (Value_String value (mem s)) false "" "" false "" ∅);
  AddFlag flag ;;
  mret flag.
Definition VarP (value : Value C) (name shorthand usage : string) : M (State C) unit :=
  VarPF value name shorthand usage ;; mret tt.
Definition Var (value : Value C) (name usage : string) : M (State C) unit := VarP value name "" usage.

(** [AddFlagSet], for another set whose flags are in the same heap; [None] is nil. *)
Definition AddFlagSet (newSet : option FlagSet) : M (State C) unit :=
  match newSet with
  | None => mret tt
  | Some newSet =>
      for_each (λ l,
        s ← get;
        flag ← load_flag l;
        match Lookup (fset s) (Name flag) with
        | None => AddFlag l
        | Some _ => mret tt
        end) (sortFlags (formal newSet))
  end.

(** ** Parsing *)
Definition failf (err : error) : M (State C) error :=
  s ← get;
  Fprint (out (fset s)) (Error err +:+ newline) ;;
  usage ;;
  mret err.

Definition containsShorthand (arg shorthand : string) : bool :=
  if HasPrefix arg "-" then false
  else Contains (cut "=" arg).1 shorthand.

Definition setFlag (l : loc) (value origArg : string) : M (State C) (option error) :=
  flag ← load_flag l;
  err ← on_mem (Value_Set (Flag_Value flag) value);
  match err : option error with
  | Some err =>
      e ← failf (Errorf ("invalid argument " +:+ Quote value +:+ " for " +:+ origArg +:+ ": " +:+ Error err));
      mret (Some e)
  | None =>
      on_set (λ f, set_actual (<[normalizeFlagName f (Name flag) := l]> (actual f)) f) ;;
      update_flag l (set_Changed true) ;;
      warn_deprecated flag ;;
      (if negb (bool_decide (ShorthandDeprecated flag = "")) &&
          containsShorthand origArg (Shorthand flag)
       then Fprint None ("Flag shorthand -" +:+ Shorthand flag +:+ " has been deprecated, " +:+
                         ShorthandDeprecated flag +:+ newline)
       else mret tt) ;;
      mret None
  end.

(** An error with its usage message, as the result of a parsing function. *)
Definition fail_with {A} (a : A) (err : error) : M (State C) (A * option error) :=
  e ← failf err; mret (a, Some e).
Definition set_with {A} (a : A) (l : loc) (value origArg : string) : M (State C) (A * option error) :=
  e ← setFlag l value origArg; mret (a, e).

(** [parseLongArg], for an argument [s] that begins with two dashes. *)
Definition parseLongArg (s : string) (a : list string) : M (State C) (list string * option error) :=
  let name := skip 2 s in
  match name with
  | EmptyString => fail_with a (Errorf ("bad flag syntax: " +:+ s))
  | String c _ =>
      if bool_decide (c = "-"%char) || bool_decide (c = "="%char)
      then fail_with a (Errorf ("bad flag syntax: " +:+ s))
      else
        let split := cut "=" name in
        let name := split.1 in
        st ← get;
        match formal (fset st) !! normalizeFlagName (fset st) name with
        | None =>
            if decide (name = "help") then usage ;; mret (a, Some ErrHelp)
            else fail_with a (Errorf ("unknown flag: --" +:+ name))
        | Some l =>
            flag ← load_flag l;
            match split.2 with
            | Some value => set_with a l value s
            | None =>
                if decide (NoOptDefVal flag ≠ "") then set_with a l (NoOptDefVal flag) s
                else match a with
                     | value :: a => set_with a l value s
                     | [] => fail_with a (Errorf ("flag needs an argument: " +:+ s))
                     end
            end
        end
  end.

(** [parseSingleShortArg]: the remaining shorthands, the remaining arguments and the
    error. *)
Definition parseSingleShortArg (shs : string) (a : list string) :
    M (State C) (string * list string * option error) :=
  if HasPrefix shs "test." then mret ("", [], None)
  else
    match shs with
    | EmptyString => panic "slice bounds out of range"
    | String c outShorts =>
        st ← get;
        match shorthands (fset st) !! c with
        | None =>
            if decide (c = "h"%char) then usage ;; mret (outShorts, a, Some ErrHelp)
            else fail_with (outShorts, a)
                   (Errorf ("unknown shorthand flag: " +:+ QuoteByte c +:+ " in -" +:+ shs))
        | Some l =>
            flag ← load_flag l;
            if bool_decide ((2 < String.length shs)%nat) && HasPrefix outShorts "=" then
              set_with ("", a) l (skip 1 outShorts) shs
            else if decide (NoOptDefVal flag ≠ "") then set_with (outShorts, a) l (NoOptDefVal flag) shs
            else if decide ((1 < String.length shs)%nat) then set_with ("", a) l outShorts shs
            else match a with
                 | value :: a => set_with (outShorts, a) l value shs
                 | [] => fail_with (outShorts, a)
                           (Errorf ("flag needs an argument: " +:+ QuoteByte c +:+ " in -" +:+ shs))
                 end
        end
    end.

(** The loop of [parseShortArg] over the shorthands of one argument: every round gets
    the arguments that followed it, [args].  The fuel is the number of shorthands. *)
Fixpoint parseShortArg_loop (fuel : nat) (shs : string) (args a : list string) :
    M (State C) (list string * option error) :=
  match shs with
  | EmptyString => mret (a, None)
  | _ =>
      match fuel with
      | O => diverge
      | S fuel =>
          r ← parseSingleShortArg shs args;
          let '(shs, a, err) := r in
          match err with
          | Some err => mret (a, Some err)
          | None => parseShortArg_loop fuel shs args a
          end
      end
  end.
Definition parseShortArg (s : string) (args : list string) : M (State C) (list string * option error) :=
  let shs := skip 1 s in
  parseShortArg_loop (String.length shs) shs args args.

Definition append_args (l : list string) : M (State C) unit :=
  on_set (λ f, set_args (args f ++ l) f).

(** The loop of [parseArgs]; the fuel is the number of arguments. *)
Fixpoint parseArgs_loop (fuel : nat) (l : list string) : M (State C) (option error) :=
  match l with
  | [] => mret None
  | s :: l =>
      match fuel with
      | O => diverge
      | S fuel =>
          if negb (HasPrefix s "-") || bool_decide (s = "-") then
            st ← get;
            if negb (interspersed (fset st)) then append_args [s] ;; append_args l ;; mret None
            else append_args [s] ;; parseArgs_loop fuel l
          else if HasPrefix s "--" then
            if decide (s = "--") then
              on_set (λ f, set_argsLenAtDash (Z.of_nat (length (args f))) f) ;;
              append_args l ;;
              mret None
            else
              r ← parseLongArg s l;
              let '(l, err) := r in
              match err with
              | Some err => mret (Some err)
              | None => parseArgs_loop fuel l
              end
          else
            r ← parseShortArg s l;
            let '(l, err) := r in
            match err with
            | Some err => mret (Some err)
            | None => parseArgs_loop fuel l
            end
      end
  end.
Definition parseArgs (l : list string) : M (State C) (option error) := parseArgs_loop (length l) l.

Definition Parse (arguments : list string) : M (State C) (option error) :=
  on_set (set_parsed true) ;;
  on_set (set_args []) ;;
  err ← parseArgs arguments;
  match err : option error with
  | None => mret None
  | Some err =>
      s ← get;
      match errorHandling (fset s) with
      | ContinueOnError => mret (Some err)
      | ExitOnError => fatal
      | PanicOnError => panic (Error err)
      end
  end.

(** The package's [Parse], on [CommandLine]. *)
Definition Parse_CommandLine : M (State C) unit :=
  s ← get;
  match os_Args s with
  | [] => panic "slice bounds out of range"
  | _ :: l => Parse l ;; mret tt
  end.

Definition SetInterspersed (b : bool) : M (State C) unit := on_set (set_interspersed b).
Definition NewFlagSet (name : string) (errorHandling : ErrorHandling) : FlagSet :=
  mkFlagSet None name false ∅ ∅ ∅ [] (-1) false errorHandling None true None false.
(** The package variable [CommandLine]. *)
Definition CommandLine (arg0 : string) : FlagSet :=
  let f := NewFlagSet arg0 ExitOnError in
  mkFlagSet (Usage_ f) (name f) (parsed f) (actual f) (formal f) (shorthands f) (args f) (argsLenAtDash f)
    (exitOnError f) (errorHandling f) (output f) (interspersed f) (normalizeNameFunc f) true.
Definition Init (name : string) (errorHandling : ErrorHandling) (f : FlagSet) : FlagSet :=
  mkFlagSet (Usage_ f) name (parsed f) (actual f) (formal f) (shorthands f) (args f) (-1)
    (exitOnError f) errorHandling (output f) (interspersed f) (normalizeNameFunc f) (is_CommandLine f).
End PFlag.
