(* ===== verification/PFlagVars.v ===== *)
(** Defining flags of each type and reading them ([string.go], [int.go], [float32.go],
    [duration.go], [bool.go]), taking over the flags of Go's own package [flag]
    ([golangflag.go]), and what Kubernetes adds ([util/flags.go], [util/logs.go]).

    The functions of the package itself are in [Module Package]: they are called on
    the set [CommandLine]. *)

From Stdlib Require Import Ascii QArith.
From stdpp Require Import gmap strings list.
From S2P Require Import Prelude GoStrings GoTime Strconv PtrMap PFlagValues PFlag.

Local Open Scope Z_scope.

Section Vars.
Context `{gf : GoFormats, mo : MapOrder} {C : Type}.

(** [fs.getFlagType] as the typed getters use it: the zero value with an error. *)
Definition getter {A} (zero : A) (m : M (State C) (error + A)) : M (State C) (A * option error) :=
  r ← m;
  match r : error + A with
  | inl err => mret (zero, Some err)
  | inr val => mret (val, None)
  end.

(** ** [string.go] *)
Definition GetString (name : string) : M (State C) (string * option error) :=
  getter "" (getFlagType name "string" stringConv).
Definition StringVarP (p : Ref C string) (name shorthand : string) (value : string) (usage : string) : M (State C) unit :=
  v ← on_mem (newStringValue value p); VarP v name shorthand usage.
Definition StringVar (p : Ref C string) (name : string) (value : string) (usage : string) : M (State C) unit :=
  v ← on_mem (newStringValue value p); VarP v name "" usage.
Definition StringP (name shorthand : string) (value : string) (usage : string) : M (State C) (Ref C string) :=
  p ← on_mem new_string; StringVarP p name shorthand value usage ;; mret p.
Definition String_ (name : string) (value : string) (usage : string) : M (State C) (Ref C string) :=
  p ← on_mem new_string; StringVarP p name "" value usage ;; mret p.

(** ** [int.go] *)
Definition GetInt (name : string) : M (State C) (Z * option error) :=
  getter 0 (getFlagType name "int" intConv).
Definition IntVarP (p : Ref C Z) (name shorthand : string) (value : Z) (usage : string) : M (State C) unit :=
  v ← on_mem (newIntValue value p); VarP v name shorthand usage.
Definition IntVar (p : Ref C Z) (name : string) (value : Z) (usage : string) : M (State C) unit :=
  v ← on_mem (newIntValue value p); VarP v name "" usage.
Definition IntP (name shorthand : string) (value : Z) (usage : string) : M (State C) (Ref C Z) :=
  p ← on_mem new_int; IntVarP p name shorthand value usage ;; mret p.
Definition Int_ (name : string) (value : Z) (usage : string) : M (State C) (Ref C Z) :=
  p ← on_mem new_int; IntVarP p name "" value usage ;; mret p.

(** ** [float32.go] *)
Definition GetFloat32 (name : string) : M (State C) (Q * option error) :=
  getter 0%Q (getFlagType name "float32" float32Conv).
Definition Float32VarP (p : Ref C Q) (name shorthand : string) (value : Q) (usage : string) : M (State C) unit :=
  v ← on_mem (newFloat32Value value p); VarP v name shorthand usage.
Definition Float32Var (p : Ref C Q) (name : string) (value : Q) (usage : string) : M (State C) unit :=
  v ← on_mem (newFloat32Value value p); VarP v name "" usage.
Definition Float32P (name shorthand : string) (value : Q) (usage : string) : M (State C) (Ref C Q) :=
  p ← on_mem new_float32; Float32VarP p name shorthand value usage ;; mret p.
Definition Float32_ (name : string) (value : Q) (usage : string) : M (State C) (Ref C Q) :=
  p ← on_mem new_float32; Float32VarP p name "" value usage ;; mret p.

(** ** [duration.go] *)
Definition GetDuration (name : string) : M (State C) (Duration * option error) :=
  getter 0 (getFlagType name "duration" durationConv).
Definition DurationVarP (p : Ref C Duration) (name shorthand : string) (value : Duration) (usage : string) : M (State C) unit :=
  v ← on_mem (newDurationValue value p); VarP v name shorthand usage.
Definition DurationVar (p : Ref C Duration) (name : string) (value : Duration) (usage : string) : M (State C) unit :=
  v ← on_mem (newDurationValue value p); VarP v name "" usage.
Definition DurationP (name shorthand : string) (value : Duration) (usage : string) : M (State C) (Ref C Duration) :=
  p ← on_mem new_duration; DurationVarP p name shorthand value usage ;; mret p.
Definition Duration_ (name : string) (value : Duration) (usage : string) : M (State C) (Ref C Duration) :=
  p ← on_mem new_duration; DurationVarP p name "" value usage ;; mret p.

(** ** [bool.go] *)
Definition GetBool (name : string) : M (State C) (bool * option error) :=
  getter false (getFlagType name "bool" boolConv).
Definition BoolVarP (p : Ref C bool) (name shorthand : string) (value : bool) (usage : string) : M (State C) unit :=
  v ← on_mem (newBoolValue value p);
  flag ← VarPF v name shorthand usage;
  update_flag flag (set_NoOptDefVal "true").
Definition BoolVar (p : Ref C bool) (name : string) (value : bool) (usage : string) : M (State C) unit :=
  BoolVarP p name "" value usage.
Definition BoolP (name shorthand : string) (value : bool) (usage : string) : M (State C) (Ref C bool) :=
  p ← on_mem new_bool; BoolVarP p name shorthand value usage ;; mret p.
Definition Bool_ (name : string) (value : bool) (usage : string) : M (State C) (Ref C bool) :=
  BoolP name "" value usage.

(** ** [golangflag.go] *)

(** A flag of Go's package [flag]: its value may have the methods of [pflag.Value]. *)
Record GoFlag := mkGoFlag {
  go_Name : string;
  go_Usage : string;
  go_Value : Value C + GoValue C
}.

(** [goflag.Value.(goBoolFlag)] and its answer. *)
Definition go_IsBoolFlag (v : Value C + GoValue C) : bool :=
  match v with
  | inl pv => is_boolFlag pv
  | inr v => default false (gv_IsBoolFlag v)
  end.
Definition PFlagFromGoFlag (goflag : GoFlag) (m : Mem C) : Flag C :=
  let value := wrapFlagValue (go_Value goflag) in
  mkFlag (go_Name goflag)
    (if decide (String.length (go_Name goflag) = 1%nat) then go_Name goflag else "")
    (go_Usage goflag) value (Value_String value m) false
    (if go_IsBoolFlag (go_Value goflag) then "true" else "") "" false "" ∅.
Definition AddGoFlag (goflag : GoFlag) : M (State C) unit :=
  s ← get;
  match Lookup (fset s) (go_Name goflag) with
  | Some _ => mret tt
  | None =>
      newflag ← new_flag (PFlagFromGoFlag goflag (mem s));
      AddFlag newflag
  end.
(** [newSet] is the map of the set's flags by name; [None] is nil. *)
Definition AddGoFlagSet (newSet : option (gmap string GoFlag)) : M (State C) unit :=
  match newSet with
  | None => mret tt
  | Some newSet => for_each AddGoFlag (omap (λ k, newSet !! k) (sorted_keys newSet))
  end.

(** ** [util/flags.go] and [util/logs.go] *)
Definition WordSepNormalizeFunc (name : string) : string :=
  if Contains name "_" then replace_byte "_" "-" name else name.
(** With the warning that is logged. *)
Definition WarnWordSepNormalizeFunc (name : string) : string * option string :=
  if Contains name "_" then
    let nname := replace_byte "_" "-" name in
    (nname, Some (name +:+ " is DEPRECATED and will be removed in a future version. Use " +:+ nname +:+
                  " instead."))
  else (name, None).
Definition logFlushFreq : M (State C) (Ref C Duration) :=
  Duration_ "log-flush-frequency" (5 * Second) "Maximum number of seconds between log flushes".
(** [InitFlags]; parsing an empty command line with the package [flag] sets nothing. *)
Definition InitFlags (ks : list string) (goflags : gmap string GoFlag) : M (State C) unit :=
  SetNormalizeFunc WordSepNormalizeFunc ks ;;
  AddGoFlagSet (Some goflags) ;;
  Parse_CommandLine.
End Vars.
Arguments GoFlag : clear implicits.

(** ** The functions of the package *)
Module Package.
Section Package.
Context `{gf : GoFormats, mo : MapOrder} {C : Type}.

(** On the set [CommandLine] ([f]). *)
Definition VisitAll (fn : loc → M (State C) unit) : M (State C) unit := PFlag.VisitAll fn.
Definition Visit (fn : loc → M (State C) unit) : M (State C) unit := PFlag.Visit fn.
Definition Lookup (f : FlagSet) (name : string) : option loc := PFlag.Lookup f name.
Definition Set_ (name value : string) : M (State C) (option error) := PFlag.Set_ name value.
Definition PrintDefaults : M (State C) unit := PFlag.PrintDefaults.
Definition NFlag (f : FlagSet) : Z := Z.of_nat (size (actual f)).
Definition Arg (f : FlagSet) (i : Z) : string := PFlag.Arg f i.
Definition NArg (f : FlagSet) : Z := Z.of_nat (length (args f)).
Definition Args (f : FlagSet) : list string := args f.
Definition Var (value : Value C) (name usage : string) : M (State C) unit := PFlag.VarP value name "" usage.
Definition VarP (value : Value C) (name shorthand usage : string) : M (State C) unit :=
  PFlag.VarP value name shorthand usage.
Definition Parsed (f : FlagSet) : bool := PFlag.Parsed f.
Definition SetInterspersed (b : bool) : M (State C) unit := PFlag.SetInterspersed b.

Definition StringVar (p : Ref C string) (name : string) (value : string) (usage : string) : M (State C) unit :=
  v ← on_mem (newStringValue value p); PFlag.VarP v name "" usage.
Definition StringVarP (p : Ref C string) (name shorthand : string) (value : string) (usage : string) : M (State C) unit :=
  v ← on_mem (newStringValue value p); PFlag.VarP v name shorthand usage.
Definition String_ (name : string) (value : string) (usage : string) : M (State C) (Ref C string) :=
  StringP name "" value usage.
Definition StringP (name shorthand : string) (value : string) (usage : string) : M (State C) (Ref C string) :=
  StringP name shorthand value usage.

Definition IntVar (p : Ref C Z) (name : string) (value : Z) (usage : string) : M (State C) unit :=
  v ← on_mem (newIntValue value p); PFlag.VarP v name "" usage.
Definition IntVarP (p : Ref C Z) (name shorthand : string) (value : Z) (usage : string) : M (State C) unit :=
  v ← on_mem (newIntValue value p); PFlag.VarP v name shorthand usage.
Definition Int_ (name : string) (value : Z) (usage : string) : M (State C) (Ref C Z) :=
  IntP name "" value usage.
Definition IntP (name shorthand : string) (value : Z) (usage : string) : M (State C) (Ref C Z) :=
  IntP name shorthand value usage.

Definition Float32Var (p : Ref C Q) (name : string) (value : Q) (usage : string) : M (State C) unit :=
  v ← on_mem (newFloat32Value value p); PFlag.VarP v name "" usage.
Definition Float32VarP (p : Ref C Q) (name shorthand : string) (value : Q) (usage : string) : M (State C) unit :=
  v ← on_mem (newFloat32Value value p); PFlag.VarP v name shorthand usage.
Definition Float32_ (name : string) (value : Q) (usage : string) : M (State C) (Ref C Q) :=
  Float32P name "" value usage.
Definition Float32P (name shorthand : string) (value : Q) (usage : string) : M (State C) (Ref C Q) :=
  Float32P name shorthand value usage.

Definition DurationVar (p : Ref C Duration) (name : string) (value : Duration) (usage : string) : M (State C) unit :=
  v ← on_mem (newDurationValue value p); PFlag.VarP v name "" usage.
Definition DurationVarP (p : Ref C Duration) (name shorthand : string) (value : Duration) (usage : string) : M (State C) unit :=
  v ← on_mem (newDurationValue value p); PFlag.VarP v name shorthand usage.
Definition Duration_ (name : string) (value : Duration) (usage : string) : M (State C) (Ref C Duration) :=
  DurationP name "" value usage.
Definition DurationP (name shorthand : string) (value : Duration) (usage : string) : M (State C) (Ref C Duration) :=
  DurationP name shorthand value usage.

Definition BoolVarP (p : Ref C bool) (name shorthand : string) (value : bool) (usage : string) : M (State C) unit :=
  v ← on_mem (newBoolValue value p);
  flag ← VarPF v name shorthand usage;
  update_flag flag (set_NoOptDefVal "true").
Definition BoolVar (p : Ref C bool) (name : string) (value : bool) (usage : string) : M (State C) unit :=
  BoolVarP p name "" value usage.
Definition BoolP (name shorthand : string) (value : bool) (usage : string) : M (State C) (Ref C bool) :=
  b ← BoolP name shorthand value usage; mret b.
Definition Bool_ (name : string) (value : bool) (usage : string) : M (State C) (Ref C bool) :=
  BoolP name "" value usage.
End Package.
End Package.
