(* ===== verification/PFlagFacts.v ===== *)
(** Facts about [PFlag]: the invariant of a set of flags, that usage messages never
    panic, and what the steps of parsing keep. *)

From Stdlib Require Import Ascii.
From stdpp Require Import gmap strings list pretty.
From S2P Require Import Prelude GoStrings Strconv PtrMap PFlagValues PFlag PFlagVars.

Local Open Scope Z_scope.

(** ** Code that returns *)

(** [m] returns from [s], with a result and a state that satisfy [Q]. *)
Definition returns {S A} (m : M S A) (s : S) (Q : A → S → Prop) : Prop :=
  ∃ a s', m s = Ret a s' ∧ Q a s'.

Lemma returns_ret {S A} (a : A) (s : S) (Q : A → S → Prop) : Q a s → returns (mret a) s Q.
Proof. intros H. by exists a, s. Qed.

Lemma returns_bind {S A B} (m : M S A) (f : A → M S B) s Q :
  returns m s (λ a s', returns (f a) s' Q) → returns (mbind f m) s Q.
Proof. intros (a & s' & E & b & s'' & E' & H). exists b, s''. by rewrite (bind_Ret _ _ _ _ _ E). Qed.

Lemma returns_weaken {S A} (m : M S A) s (Q Q' : A → S → Prop) :
  returns m s Q → (∀ a s', Q a s' → Q' a s') → returns m s Q'.
Proof. intros (a & s' & E & H) HQ. exists a, s'. auto. Qed.

Lemma returns_modify {S} (f : S → S) (s : S) (Q : unit → S → Prop) : Q tt (f s) → returns (modify f) s Q.
Proof. intros H. by exists tt, (f s). Qed.

Lemma returns_get {S} (s : S) (Q : S → S → Prop) : Q s s → returns get s Q.
Proof. intros H. by exists s, s. Qed.

Section Facts.
Context `{gf : GoFormats, mo : MapOrder} {C : Type}.
Implicit Types (s : State C) (fl : Flag C) (l : loc).

(** ** The invariant *)

(** Every pointer of the three maps refers to a flag; a flag is found under its own
    name, a shorthand under its letter, and the flags of [actual] are changed. *)
Record flags_wf s : Prop := {
  wf_fresh l : (fresh s <= l)%nat → flags s !! l = None;
  wf_formal k l : formal (fset s) !! k = Some l → ∃ fl, flags s !! l = Some fl ∧ Name fl = k;
  wf_shorthands c l : shorthands (fset s) !! c = Some l →
    ∃ fl, flags s !! l = Some fl ∧ Shorthand fl = String c "";
  wf_actual k l : actual (fset s) !! k = Some l → ∃ fl, flags s !! l = Some fl ∧ Changed_ fl = true
}.

(** What parsing leaves alone: the maps but [actual], and the flags but [Changed]. *)
Record same_static s s' : Prop := {
  st_formal : formal (fset s') = formal (fset s);
  st_shorthands : shorthands (fset s') = shorthands (fset s);
  st_normalize : normalizeNameFunc (fset s') = normalizeNameFunc (fset s);
  st_interspersed : interspersed (fset s') = interspersed (fset s);
  st_errorHandling : errorHandling (fset s') = errorHandling (fset s);
  st_CommandLine : is_CommandLine (fset s') = is_CommandLine (fset s);
  st_flags l : set_Changed false <$> flags s' !! l = set_Changed false <$> flags s !! l;
  st_os_Args : os_Args s' = os_Args s
}.

#[export] Instance same_static_preorder : PreOrder same_static.
Proof.
  split; [by split|]. intros a b c Hab Hbc. destruct Hab, Hbc. split; congruence.
Qed.

Lemma static_flag s s' l fl :
  same_static s s' → flags s !! l = Some fl →
  ∃ fl', flags s' !! l = Some fl' ∧ set_Changed false fl' = set_Changed false fl.
Proof.
  intros Hs Hl. pose proof (st_flags _ _ Hs l) as H. rewrite Hl in H.
  destruct (flags s' !! l) as [fl'|]; [|discriminate]. apply (inj Some) in H. by exists fl'.
Qed.

(** Fields of a flag that does not differ but in [Changed]. *)
Lemma static_Value fl fl' : set_Changed false fl' = set_Changed false fl → Flag_Value fl' = Flag_Value fl.
Proof. by destruct fl, fl'; intros [=]. Qed.
Lemma static_NoOptDefVal fl fl' :
  set_Changed false fl' = set_Changed false fl → NoOptDefVal fl' = NoOptDefVal fl.
Proof. by destruct fl, fl'; intros [=]. Qed.

Lemma load_flag_spec s l fl : flags s !! l = Some fl → load_flag l s = Ret fl s.
Proof. intros H. unfold load_flag. by rewrite H. Qed.

Lemma update_flag_spec s l fl g :
  flags s !! l = Some fl → update_flag l g s = Ret tt (set_flags (<[l := g fl]> (flags s)) s).
Proof. intros H. unfold update_flag. by run (load_flag_spec s l fl H). Qed.

(** ** Usage messages *)

(** Lines with a mark before the common column. *)
Definition line_ok (maxlen : nat) (line : string) : Prop :=
  ∃ i, IndexByte NUL line = Some i ∧ (i < maxlen)%nat.

Lemma usage_visit_ok acc fl :
  Forall (line_ok acc.2) acc.1 → Forall (line_ok (usage_visit acc fl).2) (usage_visit acc fl).1.
Proof.
  intros H. unfold usage_visit. case_match; [done|]. cbn [fst snd]. clear H0.
  set (maxlen := if decide _ then _ else _).
  assert (acc.2 <= maxlen)%nat by (unfold maxlen; case_decide; lia).
  assert (String.length (usage_head fl) <= maxlen)%nat as Hl by (unfold maxlen; case_decide; lia).
  apply Forall_app. split.
  - eapply Forall_impl; [done|]. intros line (i & Hi & ?). exists i. split; [done|lia].
  - apply Forall_singleton. unfold usage_head in *. rewrite length_append in Hl. cbn in Hl.
    rewrite append_assoc. change (String NUL "" +:+ usage_tail fl) with (String NUL (usage_tail fl)).
    destruct (IndexByte_append NUL (usage_line fl) (usage_tail fl)) as (i & Hi & ?).
    exists i. split; [done|lia].
Qed.

Lemma visit_usages_ok ls acc s :
  Forall (λ l, is_Some (flags s !! l)) ls → Forall (line_ok acc.2) acc.1 →
  returns (visit_usages acc ls) s (λ acc' s', s' = s ∧ Forall (line_ok acc'.2) acc'.1).
Proof.
  revert acc. induction ls as [|l ls IH]; intros acc Hls Hacc; [by apply returns_ret|].
  apply Forall_cons in Hls as [[fl Hl] Hls]. cbn. apply returns_bind. exists fl, s.
  split; [by apply load_flag_spec|]. apply IH; [done|]. by apply usage_visit_ok.
Qed.

Lemma print_usages_ok maxlen lines s :
  Forall (line_ok maxlen) lines → returns (print_usages maxlen lines) s (λ _ s', s' = s).
Proof.
  induction 1 as [|line lines (i & Hi & ?) _ IH]; [by apply returns_ret|].
  cbn. rewrite Hi, decide_False by lia. apply returns_bind. eapply returns_weaken; [apply IH|].
  intros x s' ->. by apply returns_ret.
Qed.

Lemma sortFlags_ok m s (P : Flag C → Prop) :
  (∀ k l, m !! k = Some l → ∃ fl, flags s !! l = Some fl ∧ P fl) →
  Forall (λ l, ∃ fl, flags s !! l = Some fl ∧ P fl) (sortFlags m).
Proof.
  intros H. unfold sortFlags. apply Forall_forall. intros l (k & _ & Hk)%list_elem_of_omap. by eapply H.
Qed.

(** Printing the usage never panics and changes nothing but what is written. *)
Lemma FlagUsages_ok s : flags_wf s → returns FlagUsages s (λ _ s', s' = s).
Proof.
  intros Hwf. unfold FlagUsages. apply returns_bind, returns_get, returns_bind.
  eapply returns_weaken; [apply visit_usages_ok; [|by apply Forall_nil]|].
  - eapply Forall_impl; [apply (sortFlags_ok _ s (λ _, True))|].
    + intros k l Hk. destruct (wf_formal _ Hwf k l Hk) as (fl & ? & _). eauto.
    + intros l (fl & ? & _). eauto.
  - intros [lines maxlen] s' [-> H]. by apply print_usages_ok.
Qed.

(** Only text is written. *)
Definition only_written s s' : Prop := ∃ w, s' = set_written w s.
Lemma only_written_refl s : only_written s s.
Proof. exists (written s). by destruct s. Qed.
Lemma only_written_trans a b c : only_written a b → only_written b c → only_written a c.
Proof. intros [w ->] [w' ->]. by exists w'. Qed.
Lemma only_written_static s s' : only_written s s' → same_static s s'.
Proof. intros [w ->]. by split. Qed.
Lemma only_written_wf s s' : only_written s s' → flags_wf s → flags_wf s'.
Proof. intros [w ->] []. by split. Qed.
Lemma Fprint_ok w t s : returns (Fprint w t) s (λ _ s', only_written s s').
Proof. unfold Fprint. apply returns_modify. by eexists. Qed.

Lemma PrintDefaults_ok s : flags_wf s → returns PrintDefaults s (λ _ s', only_written s s').
Proof.
  intros Hwf. unfold PrintDefaults. apply returns_bind. eapply returns_weaken; [by apply FlagUsages_ok|].
  intros u s' ->. apply returns_bind, returns_get, Fprint_ok.
Qed.

Lemma header_ok w t (m : M (State C) unit) s :
  flags_wf s → (∀ s', flags_wf s' → returns m s' (λ _ s'', only_written s' s'')) →
  returns (Fprint w t ;; m) s (λ _ s', only_written s s').
Proof.
  intros Hwf Hm. apply returns_bind. eapply returns_weaken; [apply Fprint_ok|].
  intros [] s' Hw. eapply returns_weaken; [apply Hm; by eapply only_written_wf|].
  intros [] s'' Hw'. by eapply only_written_trans.
Qed.

(** The arguments of the process have its name, which the usage of [CommandLine] prints. *)
Definition has_arg0 s : Prop := is_CommandLine (fset s) = true → os_Args s ≠ [].

Lemma usage_ok s : flags_wf s → has_arg0 s → returns usage s (λ _ s', only_written s s').
Proof.
  intros Hwf Harg. unfold usage. apply returns_bind, returns_get. case_match eqn:Hc.
  - unfold Usage. apply returns_bind, returns_get. specialize (Harg Hc). destruct (os_Args s); [done|].
    apply header_ok; [done|apply PrintDefaults_ok].
  - case_match.
    + apply returns_modify. by eexists.
    + unfold defaultUsage. apply returns_bind, returns_get. apply header_ok; [done|apply PrintDefaults_ok].
Qed.

Lemma failf_ok e s : flags_wf s → has_arg0 s → returns (failf e) s (λ e' s', e' = e ∧ only_written s s').
Proof.
  intros Hwf Harg. unfold failf. apply returns_bind, returns_get, returns_bind.
  eapply returns_weaken; [apply Fprint_ok|]. intros [] s' Hw. apply returns_bind.
  eapply returns_weaken; [apply usage_ok|].
  - by eapply only_written_wf.
  - destruct Hw as [w ->]. done.
  - intros [] s'' Hw'. apply returns_ret. split; [done|]. by eapply only_written_trans.
Qed.

(** ** Setting a flag while parsing *)

(** What a step of parsing an option keeps; [actual], [Changed], memory and the text
    written may change. *)
Record option_step s s' : Prop := {
  os_static : same_static s s';
  os_wf : flags_wf s';
  os_args : args (fset s') = args (fset s);
  os_dash : argsLenAtDash (fset s') = argsLenAtDash (fset s);
  os_parsed : parsed (fset s') = parsed (fset s)
}.

Lemma option_step_refl s : flags_wf s → option_step s s.
Proof. by split. Qed.
Lemma option_step_trans a b c : option_step a b → option_step b c → option_step a c.
Proof. intros [] []. split; try congruence. by etrans. Qed.
Lemma only_written_step s s' : flags_wf s → only_written s s' → option_step s s'.
Proof. intros Hwf Hw. split; [by apply only_written_static|by eapply only_written_wf|..]; by destruct Hw as [w ->]. Qed.

Lemma has_arg0_static s s' : same_static s s' → has_arg0 s → has_arg0 s'.
Proof. intros [] H Hc. unfold has_arg0 in *. rewrite st_os_Args0. apply H. congruence. Qed.

Lemma warn_deprecated_ok fl s : returns (warn_deprecated fl) s (λ _ s', only_written s s').
Proof.
  unfold warn_deprecated. case_decide; [apply returns_ret, only_written_refl|apply Fprint_ok].
Qed.

(** Changing one flag keeps a property of the flags that the change keeps. *)
Lemma insert_flag_keeps s l fl fl1 l' fl' (P : Flag C → Prop) :
  flags s !! l = Some fl → flags s !! l' = Some fl' → P fl' → (P fl → P fl1) →
  ∃ fl'', <[l := fl1]> (flags s) !! l' = Some fl'' ∧ P fl''.
Proof.
  intros Hl Hl' HP Hext. destruct (decide (l' = l)) as [->|Hne].
  - rewrite lookup_insert_eq. simplify_eq. eauto.
  - rewrite lookup_insert_ne by done. eauto.
Qed.

(** Marking a flag as visited, under some name. *)
Lemma mark_wf k s l fl :
  flags_wf s → flags s !! l = Some fl → flags_wf
    (set_flags (<[l := set_Changed true fl]> (flags s))
      (set_fset (set_actual (<[k := l]> (actual (fset s))) (fset s)) s)).
Proof.
  intros [Hf Hfo Hsh Hac] Hl.
  pose proof (λ l' fl' P, insert_flag_keeps s l fl (set_Changed true fl) l' fl' P Hl) as Hkeep. split; cbn.
  - intros l' Hl'. rewrite lookup_insert_ne; [by apply Hf|]. intros ->. rewrite Hf in Hl; done.
  - intros k' l' Hk. destruct (Hfo k' l' Hk) as (fl' & H1 & H2).
    by apply (Hkeep l' fl' (λ fl, Name fl = k')).
  - intros c l' Hc. destruct (Hsh c l' Hc) as (fl' & H1 & H2).
    by apply (Hkeep l' fl' (λ fl, Shorthand fl = String c "")).
  - intros k' l' [[<- <-]|[_ Hk]]%lookup_insert_Some.
    + exists (set_Changed true fl). by rewrite lookup_insert_eq.
    + destruct (Hac k' l' Hk) as (fl' & H1 & H2). by apply (Hkeep l' fl' (λ fl, Changed_ fl = true)).
Qed.

Lemma mark_ok s l fl :
  flags_wf s → flags s !! l = Some fl → option_step s
    (set_flags (<[l := set_Changed true fl]> (flags s))
      (set_fset (set_actual (<[normalizeFlagName (fset s) (Name fl) := l]> (actual (fset s))) (fset s)) s)).
Proof.
  intros Hwf Hl. split; [|by apply mark_wf|done..].
  split; try done. intros l'. cbn. destruct (decide (l' = l)) as [->|Hne].
  - by rewrite lookup_insert_eq, Hl.
  - by rewrite lookup_insert_ne.
Qed.

Lemma set_mem_step s m : flags_wf s → option_step s (set_mem m s).
Proof. intros []. by split. Qed.

(** A flag whose value accepts the text is set: only memory changes in a way that is
    seen later. *)
Lemma setFlag_accepts l fl v o s m :
  flags_wf s → flags s !! l = Some fl → Value_Set (Flag_Value fl) v (mem s) = Ret None m →
  returns (setFlag l v o) s (λ e s', e = None ∧ option_step s s' ∧ mem s' = m).
Proof.
  intros Hwf Hl Hv. unfold setFlag. apply returns_bind. exists fl, s.
  split; [by apply load_flag_spec|]. apply returns_bind. exists None, (set_mem m s).
  split. { unfold on_mem, zoom. by rewrite Hv. }
  apply returns_bind, returns_modify, returns_bind. eexists tt, _.
  split; [by apply update_flag_spec|]. set (s1 := set_flags _ _).
  assert (option_step s s1) as H1.
  { eapply option_step_trans; [by apply (set_mem_step s m)|]. subst s1.
    apply (mark_ok (set_mem m s) l fl); [|done]. by apply (set_mem_step s m). }
  assert (mem s1 = m) as Hm by done. clearbody s1. apply returns_bind.
  eapply returns_weaken; [apply warn_deprecated_ok|]. intros [] s2 H2. apply returns_bind.
  assert (option_step s s2) as H12.
  { eapply option_step_trans; [done|]. apply only_written_step; [apply H1|done]. }
  assert (mem s2 = m) as Hm2 by (by destruct H2 as [w ->]).
  eapply (returns_weaken _ _ (λ _ s3, only_written s2 s3)).
  { case_match; [apply Fprint_ok|apply returns_ret, only_written_refl]. }
  intros [] s3 H3. apply returns_ret. split; [done|]. split; [|by destruct H3 as [w ->]].
  eapply option_step_trans; [done|]. apply only_written_step; [apply H12|done].
Qed.

(** Values whose [Set] returns; it does for the types of [pflag]. *)
Definition value_returns (v : Value C) : Prop := ∀ x m, ∃ e m', Value_Set v x m = Ret e m'.
Definition values_return s : Prop := ∀ l fl, flags s !! l = Some fl → value_returns (Flag_Value fl).

Lemma own_value_returns (v : Value C) : (∀ g t, v ≠ flagValueWrapper g t) → value_returns v.
Proof.
  intros Hv x m. destruct v as [p|p|p|p|p|g t]; [..|by destruct (Hv g t)]; cbn;
    unfold stringValue_Set, intValue_Set, float32Value_Set, durationValue_Set, boolValue_Set;
    try destruct (_ : _ * option error) as [? ?]; eexists _, _; reflexivity.
Qed.

Lemma values_return_static s s' : same_static s s' → values_return s → values_return s'.
Proof.
  intros Hs Hv l fl' Hl'. pose proof (st_flags _ _ Hs l) as H. rewrite Hl' in H.
  destruct (flags s !! l) as [fl|] eqn:Hl; [|discriminate]. apply (inj Some) in H.
  rewrite (static_Value _ _ H). by eapply Hv.
Qed.

(** Setting a flag always returns. *)
Lemma setFlag_ok l v o s :
  flags_wf s → has_arg0 s → values_return s → is_Some (flags s !! l) →
  returns (setFlag l v o) s (λ _ s', option_step s s').
Proof.
  intros Hwf Harg Hv [fl Hl]. destruct (Hv l fl Hl v (mem s)) as (e & m & Hset).
  destruct e as [e|].
  - unfold setFlag. apply returns_bind. exists fl, s. split; [by apply load_flag_spec|].
    apply returns_bind. exists (Some e), (set_mem m s). split.
    { unfold on_mem, zoom. by rewrite Hset. }
    pose proof (set_mem_step s m Hwf) as H1. apply returns_bind. eapply returns_weaken.
    + apply failf_ok; [apply H1|]. eapply has_arg0_static; [apply H1|done].
    + intros e' s' [-> Hw]. apply returns_ret. eapply option_step_trans; [done|].
      apply only_written_step; [apply H1|done].
  - eapply returns_weaken; [by apply (setFlag_accepts l fl v o s m)|]. by intros e s' (_ & ? & _).
Qed.
End Facts.
