(* ===== verification/PFlagParse.v ===== *)
(** Parsing a command line with [pflag]: it always ends, and it reads back what was
    written. *)

From Stdlib Require Import Ascii.
From stdpp Require Import gmap strings list.
From S2P Require Import Prelude GoStrings Strconv PtrMap PFlagValues PFlag PFlagVars PFlagFacts.

Local Open Scope Z_scope.

Section Parse.
Context `{gf : GoFormats, mo : MapOrder} {C : Type}.
Implicit Types (s : State C) (fl : Flag C) (l : loc) (a : list string).

(** ** Parsing ends *)

(** What holds while a command line is parsed. *)
Record can_parse s : Prop := {
  cp_wf : flags_wf s;
  cp_arg0 : has_arg0 s;
  cp_values : values_return s
}.

Lemma can_parse_step s s' : option_step s s' → can_parse s → can_parse s'.
Proof.
  intros H []. split; [apply H|by eapply has_arg0_static; [apply H|]|
    by eapply values_return_static; [apply H|]].
Qed.

Lemma fail_with_ok {A} (r : A) e s :
  can_parse s → returns (fail_with r e) s (λ x s', x.1 = r ∧ option_step s s').
Proof.
  intros []. unfold fail_with. apply returns_bind. eapply returns_weaken; [by apply failf_ok|].
  intros e' s' [_ Hw]. apply returns_ret. split; [done|]. by apply only_written_step.
Qed.

Lemma set_with_ok {A} (r : A) l v o s :
  can_parse s → is_Some (flags s !! l) →
  returns (set_with r l v o) s (λ x s', x.1 = r ∧ option_step s s').
Proof.
  intros [] Hl. unfold set_with. apply returns_bind. eapply returns_weaken; [by apply setFlag_ok|].
  intros e s' H. by apply returns_ret.
Qed.

Lemma usage_help_ok {A} (r : A) s :
  can_parse s → returns (usage ;; mret (r, Some ErrHelp)) s (λ x s', x.1 = r ∧ option_step s s').
Proof.
  intros []. apply returns_bind. eapply returns_weaken; [by apply usage_ok|].
  intros [] s' Hw. apply returns_ret. split; [done|]. by apply only_written_step.
Qed.

Lemma formal_flag s k l : flags_wf s → formal (fset s) !! k = Some l → is_Some (flags s !! l).
Proof. intros Hwf H. destruct (wf_formal _ Hwf _ _ H) as (fl & ? & _). eauto. Qed.
Lemma shorthand_flag s c l : flags_wf s → shorthands (fset s) !! c = Some l → is_Some (flags s !! l).
Proof. intros Hwf H. destruct (wf_shorthands _ Hwf _ _ H) as (fl & ? & _). eauto. Qed.

(** Close a branch by the lemma for its last call. *)
Ltac branch :=
  cbv beta iota zeta;
  lazymatch goal with
  | |- returns (fail_with _ _) _ _ => eapply returns_weaken; [by apply fail_with_ok|]
  | |- returns (set_with _ _ _ _) _ _ => eapply returns_weaken; [by apply set_with_ok|]
  | |- returns (usage ;; _) _ _ => eapply returns_weaken; [by apply usage_help_ok|]
  end; intros [? ?] ? [-> ?].

Lemma parseLongArg_ok x a s :
  can_parse s →
  returns (parseLongArg x a) s (λ r s', (length r.1 <= length a)%nat ∧ option_step s s').
Proof.
  intros Hs. unfold parseLongArg. cbv zeta. destruct (skip 2 x) as [|c nm]; [by branch|].
  cbv beta iota zeta. case_match; [by branch|]. apply returns_bind, returns_get. case_match eqn:Hl.
  - destruct (formal_flag _ _ _ (cp_wf _ Hs) Hl) as [fl Hfl]. apply returns_bind. exists fl, s.
    split; [by apply load_flag_spec|]. assert (is_Some (flags s !! l)) by eauto.
    case_match; [by branch|]. decide_goal; [by branch|].
    destruct a; branch; split; simpl; try done; lia.
  - decide_goal; by branch.
Qed.

Lemma parseSingleShortArg_ok shs a s :
  can_parse s → shs ≠ EmptyString →
  returns (parseSingleShortArg shs a) s (λ r s',
    (String.length r.1.1 < String.length shs)%nat ∧ (length r.1.2 <= length a)%nat ∧ option_step s s').
Proof.
  intros Hs Hne. unfold parseSingleShortArg. case_match.
  { apply returns_ret. destruct shs; [done|]. simpl. split_and!; [lia|lia|]. apply option_step_refl, Hs. }
  destruct shs as [|c out]; [done|]. apply returns_bind, returns_get. case_match eqn:Hl.
  - destruct (shorthand_flag _ _ _ (cp_wf _ Hs) Hl) as [fl Hfl]. apply returns_bind. exists fl, s.
    split; [by apply load_flag_spec|]. assert (is_Some (flags s !! l)) by eauto.
    case_match; [branch; simpl; split_and!; try done; lia|].
    decide_goal; [branch; simpl; split_and!; try done; lia|].
    decide_goal; [branch; simpl; split_and!; try done; lia|].
    destruct a; branch; simpl; split_and!; try done; lia.
  - decide_goal; branch; simpl; split_and!; try done; lia.
Qed.

Lemma parseShortArg_ok x a s :
  can_parse s →
  returns (parseShortArg x a) s (λ r s', (length r.1 <= length a)%nat ∧ option_step s s').
Proof.
  intros Hs. unfold parseShortArg. generalize (skip 1 x) as shs. intros shs.
  assert (∀ n a', (String.length shs <= n)%nat → (length a' <= length a)%nat →
    returns (parseShortArg_loop n shs a a') s
      (λ r s', (length r.1 <= length a)%nat ∧ option_step s s')) as Hloop; [|by apply Hloop].
  intros n. revert shs s Hs. induction n as [|n IH]; intros shs s Hs a' Hn Ha'.
  - destruct shs; [|simpl in Hn; lia]. apply returns_ret. split; [done|apply option_step_refl, Hs].
  - destruct shs as [|c out]; [apply returns_ret; split; [done|apply option_step_refl, Hs]|].
    cbn [parseShortArg_loop]. apply returns_bind.
    eapply returns_weaken; [by apply parseSingleShortArg_ok|].
    intros [[shs' a''] err] s' (H1 & H2 & H3). simpl in H1, H2, Hn. case_match; [by apply returns_ret|].
    eapply returns_weaken; [apply IH; [by eapply can_parse_step|lia|lia]|].
    intros r s'' [? ?]. split; [done|]. by eapply option_step_trans.
Qed.

(** What a step of [parseArgs] keeps. *)
Definition parse_step s s' : Prop := same_static s s' ∧ flags_wf s'.
Lemma parse_step_refl s : flags_wf s → parse_step s s.
Proof. by split. Qed.
Lemma parse_step_trans s1 s2 s3 : parse_step s1 s2 → parse_step s2 s3 → parse_step s1 s3.
Proof. intros [] []. split; [by etrans|done]. Qed.
Lemma option_parse_step s s' : option_step s s' → parse_step s s'.
Proof. intros []. by split. Qed.
Lemma can_parse_parse_step s s' : parse_step s s' → can_parse s → can_parse s'.
Proof.
  intros [H ?] []. split; [done|by eapply has_arg0_static|by eapply values_return_static].
Qed.

(** Updates of the fields for the remaining arguments. *)
Lemma set_step g s :
  (∀ f, formal (g f) = formal f ∧ shorthands (g f) = shorthands f ∧ actual (g f) = actual f ∧
        normalizeNameFunc (g f) = normalizeNameFunc f ∧ interspersed (g f) = interspersed f ∧
        errorHandling (g f) = errorHandling f ∧ is_CommandLine (g f) = is_CommandLine f) →
  flags_wf s → parse_step s (set_fset (g (fset s)) s).
Proof.
  intros Hg []. destruct (Hg (fset s)) as (H1 & H2 & H3 & H4 & H5 & H6 & H7).
  split; split; cbn; try done; rewrite ?H1, ?H2, ?H3; done.
Qed.

Lemma append_args_ok a s :
  flags_wf s → returns (append_args a) s (λ _ s', s' = set_fset (set_args (args (fset s) ++ a) (fset s)) s ∧
    parse_step s s').
Proof. intros. apply returns_modify. split; [done|]. by apply (set_step (λ f, set_args (args f ++ a) f)). Qed.

Lemma parseArgs_loop_ok n a s :
  can_parse s → (length a <= n)%nat → returns (parseArgs_loop n a) s (λ _ s', parse_step s s').
Proof.
  revert a s. induction n as [|n IH]; intros a s Hs Hn.
  { destruct a; [|simpl in Hn; lia]. apply returns_ret, parse_step_refl, Hs. }
  destruct a as [|x a]; [apply returns_ret, parse_step_refl, Hs|]. simpl in Hn. cbn [parseArgs_loop].
  assert (∀ (m : M (State C) (list string * option error)),
    returns m s (λ r s', (length r.1 <= length a)%nat ∧ option_step s s') →
    returns (r ← m; let '(l, err) := r in
      match err with Some err => mret (Some err) | None => parseArgs_loop n l end) s
      (λ _ s', parse_step s s')) as Hcont.
  { intros m Hm. apply returns_bind. eapply returns_weaken; [done|]. intros [a' err] s' [Ha' H].
    apply option_parse_step in H. simpl in Ha'. case_match; [by apply returns_ret|].
    eapply returns_weaken; [apply IH; [by eapply can_parse_parse_step|lia]|].
    intros e s'' H'. by eapply parse_step_trans. }
  case_match.
  - apply returns_bind, returns_get. case_match.
    + apply returns_bind. eapply returns_weaken; [apply append_args_ok, Hs|]. intros [] s1 [_ H1].
      apply returns_bind. eapply returns_weaken; [apply append_args_ok, H1|]. intros [] s2 [_ H2].
      apply returns_ret. by eapply parse_step_trans.
    + apply returns_bind. eapply returns_weaken; [apply append_args_ok, Hs|]. intros [] s1 [_ H1].
      eapply returns_weaken; [apply IH; [by eapply can_parse_parse_step|lia]|].
      intros e s'' H'. by eapply parse_step_trans.
  - case_match; [|by apply Hcont, parseShortArg_ok].
    decide_goal; [|by apply Hcont, parseLongArg_ok].
    apply returns_bind, returns_modify, returns_bind. set (s1 := set_fset _ s).
    assert (parse_step s s1) as H1.
    { by apply (set_step (λ f, set_argsLenAtDash (Z.of_nat (length (args f))) f)), cp_wf. }
    eapply returns_weaken; [apply append_args_ok, H1|]. intros [] s2 [_ H2].
    apply returns_ret. by eapply parse_step_trans.
Qed.
End Parse.
