(* ===== verification/PFlagProps.v ===== *)
(** What parsing a command line with [pflag] does: it reads back every command line
    that is written out from flags, values and other arguments, and stops at the
    first argument that it does not understand. *)

From Stdlib Require Import Ascii.
From stdpp Require Import gmap strings list.
From S2P Require Import Prelude GoStrings Strconv PtrMap PFlagValues PFlag PFlagVars PFlagFacts PFlagParse.

Local Open Scope Z_scope.

(** ** Command lines *)

(** One part of a command line: a flag by its name or its shorthand with a value in
    one of the forms that [pflag] reads, or an argument that is no flag. *)
Inductive item : Type :=
| Long_eq (n v : string)          (* --n=v *)
| Long_next (n v : string)        (* --n v *)
| Long_opt (n : string)           (* --n, for a flag with a default without value *)
| Short_eq (c : ascii) (v : string)     (* -c=v *)
| Short_join (c : ascii) (v : string)   (* -cv *)
| Short_next (c : ascii) (v : string)   (* -c v *)
| Short_opt (c : ascii)                 (* -c *)
| Positional (a : string).

Definition words (it : item) : list string :=
  match it with
  | Long_eq n v => ["--" +:+ n +:+ "=" +:+ v]
  | Long_next n v => ["--" +:+ n; v]
  | Long_opt n => ["--" +:+ n]
  | Short_eq c v => ["-" +:+ String c (String "=" v)]
  | Short_join c v => ["-" +:+ String c v]
  | Short_next c v => ["-" +:+ String c ""; v]
  | Short_opt c => ["-" +:+ String c ""]
  | Positional a => [a]
  end.

(** A command line: the items, and what follows a [--]. *)
Definition unparse (its : list item) (tail : option (list string)) : list string :=
  concat (words <$> its) ++ match tail with Some l => "--" :: l | None => [] end.
Definition positional (it : item) : list string :=
  match it with Positional a => [a] | _ => [] end.
Definition positionals (its : list item) : list string := concat (positional <$> its).

(** Names that can follow two dashes. *)
Definition name_ok (n : string) : Prop :=
  n ≠ "" ∧ HasPrefix n "-" = false ∧ has_byte "=" n = false.
Definition syntax_ok (it : item) : Prop :=
  match it with
  | Long_eq n _ | Long_next n _ | Long_opt n => name_ok n
  | Short_eq c v => c ≠ "-"%char ∧ v ≠ ""
  | Short_join c v =>
      c ≠ "-"%char ∧ v ≠ "" ∧ HasPrefix v "=" = false ∧ HasPrefix (String c v) "test." = false
  | Short_next c _ | Short_opt c => c ≠ "-"%char
  | Positional a => a = "-" ∨ HasPrefix a "-" = false
  end.

Section Spec.
Context `{gf : GoFormats, mo : MapOrder} {C : Type}.
Implicit Types (s : State C) (fl : Flag C) (l : loc) (m : Mem C).

(** The flag of an item. *)
Definition flag_of s (it : item) : option loc :=
  match it with
  | Long_eq n _ | Long_next n _ | Long_opt n => formal (fset s) !! normalizeFlagName (fset s) n
  | Short_eq c _ | Short_join c _ | Short_next c _ | Short_opt c => shorthands (fset s) !! c
  | Positional _ => None
  end.
(** The text that it is set to; [None] when the form does not fit the flag: without a
    value exactly the flags that have a default [no] for that. *)
Definition text_of (it : item) (no : string) : option string :=
  match it with
  | Long_eq _ v | Short_eq _ v => Some v
  | Long_next _ v | Short_join _ v | Short_next _ v =>
      if decide (no = "") then Some v else None
  | Long_opt _ | Short_opt _ => if decide (no = "") then None else Some no
  | Positional _ => None
  end.
(** The memory after an item, when the flag exists and its value accepts the text. *)
Definition apply_item s (it : item) m : option (Mem C) :=
  match it with
  | Positional _ => Some m
  | _ =>
      l ← flag_of s it; fl ← flags s !! l; v ← text_of it (NoOptDefVal fl);
      match Value_Set (Flag_Value fl) v m with
      | Ret None m' => Some m'
      | _ => None
      end
  end.
Fixpoint apply_items s (its : list item) m : option (Mem C) :=
  match its with
  | [] => Some m
  | it :: its => m' ← apply_item s it m; apply_items s its m'
  end.

(** *** Facts about the specification *)
Lemma flag_of_static s s' it : same_static s s' → flag_of s' it = flag_of s it.
Proof.
  intros []. unfold flag_of, normalizeFlagName, GetNormalizeFunc.
  by destruct it; rewrite ?st_formal, ?st_shorthands, ?st_normalize.
Qed.

Lemma apply_item_static s s' it m : same_static s s' → apply_item s' it m = apply_item s it m.
Proof.
  intros Hs. unfold apply_item. rewrite (flag_of_static _ _ _ Hs).
  assert (∀ l, (fl ← flags s' !! l; v ← text_of it (NoOptDefVal fl);
      match Value_Set (Flag_Value fl) v m with Ret None m' => Some m' | _ => None end) =
    (fl ← flags s !! l; v ← text_of it (NoOptDefVal fl);
      match Value_Set (Flag_Value fl) v m with Ret None m' => Some m' | _ => None end)) as H.
  { intros l. pose proof (st_flags _ _ Hs l) as Hl.
    destruct (flags s' !! l) as [fl'|], (flags s !! l) as [fl|]; try discriminate; [|done].
    apply (inj Some) in Hl. cbn. by rewrite (static_NoOptDefVal _ _ Hl), (static_Value _ _ Hl). }
  destruct it; try done; destruct (flag_of s _); try done; apply H.
Qed.

Lemma apply_items_static s s' its m : same_static s s' → apply_items s' its m = apply_items s its m.
Proof.
  intros Hs. revert m. induction its as [|it its IH]; intros m; [done|]. cbn.
  rewrite (apply_item_static _ _ _ _ Hs). destruct (apply_item s it m); [cbn; apply IH|done].
Qed.

Lemma apply_items_app s its its' m :
  apply_items s (its ++ its') m = m' ← apply_items s its m; apply_items s its' m'.
Proof.
  revert m. induction its as [|it its IH]; intros m; [done|]. cbn.
  destruct (apply_item s it m); [cbn; apply IH|done].
Qed.

(** ** Parsing one item *)

(** An item that is accepted is consumed by one round of the loop. *)
Definition consumed s (it : item) n (rest : list string) m : Prop :=
  ∃ s', parseArgs_loop (S n) (words it ++ rest) s = parseArgs_loop n rest s' ∧
    option_step s s' ∧ mem s' = m.

(** Setting a flag, as the last call of the parsing functions. *)
Lemma set_with_accepts {A} (r : A) l fl v o s m :
  flags_wf s → flags s !! l = Some fl → Value_Set (Flag_Value fl) v (mem s) = Ret None m →
  ∃ s', set_with r l v o s = Ret (r, None) s' ∧ option_step s s' ∧ mem s' = m.
Proof.
  intros Hwf Hl Hv. destruct (setFlag_accepts l fl v o s m Hwf Hl Hv) as (e & s' & E & -> & H1 & H2).
  exists s'. split; [|done]. unfold set_with. by run E.
Qed.

Lemma prefix_dashes t : HasPrefix ("--" +:+ t) "-" = true ∧ HasPrefix ("--" +:+ t) "--" = true.
Proof. by destruct t. Qed.

(** What the loop does with the outcome of an option. *)
Definition continue_loop (n : nat) (r : list string * option error) : M (State C) (option error) :=
  match r.2 with
  | Some err => mret (Some err)
  | None => parseArgs_loop n r.1
  end.

Lemma loop_long n t rest s :
  t ≠ "" → parseArgs_loop (S n) (("--" +:+ t) :: rest) s =
    mbind (continue_loop n) (parseLongArg ("--" +:+ t) rest) s.
Proof.
  intros Ht. cbn [parseArgs_loop]. destruct (prefix_dashes t) as [-> ->].
  rewrite (bool_decide_eq_false_2 (_ = "-")) by discriminate. cbn [negb orb].
  rewrite decide_False by (intros [=]; by subst). apply bind_ext. by intros [? []].
Qed.

Lemma loop_short n c t rest s :
  c ≠ "-"%char → parseArgs_loop (S n) (("-" +:+ String c t) :: rest) s =
    mbind (continue_loop n) (parseShortArg ("-" +:+ String c t) rest) s.
Proof.
  intros Hc. cbn [parseArgs_loop].
  assert (HasPrefix ("-" +:+ String c t) "-" = true) as -> by done.
  assert (HasPrefix ("-" +:+ String c t) "--" = false) as ->.
  { unfold HasPrefix. change ("-" +:+ String c t) with (String "-" (String c t)).
    cbn [String.prefix]. destruct (ascii_dec "-" "-"); [|done].
    destruct (ascii_dec "-" c); [congruence|done]. }
  rewrite (bool_decide_eq_false_2 (_ = "-")) by discriminate. cbn [negb orb].
  apply bind_ext. by intros [? []].
Qed.

(** A long argument whose name is known. *)
Lemma parseLongArg_known s nm t l fl a :
  name_ok nm → formal (fset s) !! normalizeFlagName (fset s) nm = Some l → flags s !! l = Some fl →
  (cut "=" (nm +:+ t)).1 = nm →
  parseLongArg ("--" +:+ nm +:+ t) a s =
    match (cut "=" (nm +:+ t)).2 with
    | Some value => set_with a l value ("--" +:+ nm +:+ t) s
    | None =>
        if decide (NoOptDefVal fl = "") then
          match a with
          | value :: a => set_with a l value ("--" +:+ nm +:+ t) s
          | [] => fail_with a (Errorf ("flag needs an argument: " +:+ ("--" +:+ nm +:+ t))) s
          end
        else set_with a l (NoOptDefVal fl) ("--" +:+ nm +:+ t) s
    end.
Proof.
  intros (Hne & Hdash & Heq) Hl Hfl Hcut. unfold parseLongArg.
  change (skip 2 ("--" +:+ nm +:+ t)) with (nm +:+ t). cbv zeta. rewrite Hcut.
  destruct nm as [|c nm]; [done|].
  assert (bool_decide (c = "-"%char) = false) as E1.
  { apply bool_decide_eq_false_2. intros ->. by destruct nm. }
  assert (bool_decide (c = "="%char) = false) as E2.
  { cbn in Heq. apply orb_false_iff in Heq as [Heq _]. apply bool_decide_eq_false in Heq.
    apply bool_decide_eq_false_2. congruence. }
  change (String c nm +:+ t) with (String c (nm +:+ t)). cbv iota. rewrite E1, E2. cbn [orb].
  rewrite bind_unfold. cbn [get]. rewrite Hl, bind_unfold, (load_flag_spec s l fl Hfl).
  repeat case_match; try done; repeat decide_goal; done.
Qed.

(** A shorthand that is known, at the end of its argument. *)
Lemma parseShortArg_known s c t l fl a :
  shorthands (fset s) !! c = Some l → flags s !! l = Some fl → HasPrefix (String c t) "test." = false →
  parseSingleShortArg (String c t) a s =
    (if bool_decide ((1 < String.length t)%nat) && HasPrefix t "=" then
       set_with ("", a) l (skip 1 t) (String c t)
     else if decide (NoOptDefVal fl = "") then
       if decide (t = "") then
         match a with
         | value :: a => set_with ("", a) l value (String c t)
         | [] => fail_with ("", a)
             (Errorf ("flag needs an argument: " +:+ QuoteByte c +:+ " in -" +:+ String c t))
         end
       else set_with ("", a) l t (String c t)
     else set_with (t, a) l (NoOptDefVal fl) (String c t)) s.
Proof.
  intros Hl Hfl Ht. unfold parseSingleShortArg. rewrite Ht. rewrite bind_unfold. cbn [get].
  rewrite Hl, bind_unfold, (load_flag_spec s l fl Hfl).
  replace (bool_decide (2 < String.length (String c t))%nat) with (bool_decide (1 < String.length t)%nat)
    by (apply bool_decide_ext; cbn; lia).
  case_match; [done|]. destruct (decide (NoOptDefVal fl = "")) as [E|E].
  - rewrite decide_False by auto. destruct (decide (t = "")) as [->|Hne].
    + by rewrite decide_False by (cbn; lia).
    + rewrite decide_True; [done|]. destruct t; [done|]. cbn. lia.
  - by rewrite decide_True.
Qed.

(** The whole argument, when it is used up. *)
Lemma parseShortArg_done s c t a a' s' :
  parseSingleShortArg (String c t) a s = Ret ("", a', None) s' →
  parseShortArg ("-" +:+ String c t) a s = Ret (a', None) s'.
Proof.
  intros H. unfold parseShortArg. change (skip 1 ("-" +:+ String c t)) with (String c t).
  cbn [String.length parseShortArg_loop]. run H. by destruct (String.length t).
Qed.

Definition is_option (it : item) : Prop := match it with Positional _ => False | _ => True end.

Lemma apply_item_inv s it m m' :
  is_option it → apply_item s it m = Some m' →
  ∃ l fl v, flag_of s it = Some l ∧ flags s !! l = Some fl ∧ text_of it (NoOptDefVal fl) = Some v ∧
    Value_Set (Flag_Value fl) v m = Ret None m'.
Proof.
  intros Hit Happ.
  assert ((l ← flag_of s it; fl ← flags s !! l; v ← text_of it (NoOptDefVal fl);
    match Value_Set (Flag_Value fl) v m with Ret None m' => Some m' | _ => None end) = Some m') as H
    by (by destruct it).
  apply bind_Some in H as (l & Hl & H). apply bind_Some in H as (fl & Hfl & H).
  apply bind_Some in H as (v & Hv & H). exists l, fl, v. split_and!; try done.
  by destruct (Value_Set (Flag_Value fl) v m) as [[]| | |]; simplify_eq.
Qed.

(** The forms of a long argument. *)
Lemma cut_name nm v : name_ok nm →
  cut "=" (nm +:+ "=" +:+ v) = (nm, Some v) ∧ cut "=" (nm +:+ "") = (nm, None).
Proof.
  intros (_ & _ & Heq). split; [by apply cut_append|]. rewrite append_empty_r.
  by apply has_byte_false_cut.
Qed.

Lemma long_parsed s it nm l fl v m rest :
  flags_wf s → name_ok nm → formal (fset s) !! normalizeFlagName (fset s) nm = Some l →
  flags s !! l = Some fl → text_of it (NoOptDefVal fl) = Some v → Value_Set (Flag_Value fl) v (mem s) = Ret None m →
  it = Long_eq nm v ∨ it = Long_next nm v ∨ it = Long_opt nm →
  ∃ s' t, words it ++ rest = ("--" +:+ nm +:+ t) :: (if it is Long_next _ _ then v :: rest else rest) ∧
    parseLongArg ("--" +:+ nm +:+ t) (if it is Long_next _ _ then v :: rest else rest) s = Ret (rest, None) s' ∧
    option_step s s' ∧ mem s' = m.
Proof.
  intros Hwf Hnm Hl Hfl Htx Hset Hit. destruct (cut_name nm v Hnm) as [Hc1 Hc2].
  assert (∀ o, ∃ s', set_with rest l v o s = Ret (rest, None) s' ∧ option_step s s' ∧ mem s' = m) as Hgo
    by (intros o; by eapply set_with_accepts).
  destruct Hit as [-> |[-> | ->]]; cbn in Htx.
  - destruct (Hgo ("--" +:+ nm +:+ "=" +:+ v)) as (s' & E & H). exists s', ("=" +:+ v). split; [done|].
    split; [|done]. rewrite (parseLongArg_known s nm _ l fl); try done; by rewrite Hc1.
  - destruct (decide (NoOptDefVal fl = "")); [|done].
    destruct (Hgo ("--" +:+ nm +:+ "")) as (s' & E & H). exists s', "". split; [by rewrite append_empty_r|].
    split; [|done]. rewrite (parseLongArg_known s nm _ l fl); try done; rewrite Hc2; [|done].
    cbn [snd]. by rewrite decide_True.
  - destruct (decide (NoOptDefVal fl = "")); [done|]. simplify_eq.
    destruct (Hgo ("--" +:+ nm +:+ "")) as (s' & E & H). exists s', "". split; [by rewrite append_empty_r|].
    split; [|done]. rewrite (parseLongArg_known s nm _ l fl); try done; rewrite Hc2; [|done].
    cbn [snd]. by rewrite decide_False.
Qed.

(** The forms of a short argument. *)
Lemma short_parsed s it c l fl v m rest :
  flags_wf s → syntax_ok it → shorthands (fset s) !! c = Some l →
  flags s !! l = Some fl → text_of it (NoOptDefVal fl) = Some v → Value_Set (Flag_Value fl) v (mem s) = Ret None m →
  it = Short_eq c v ∨ it = Short_join c v ∨ it = Short_next c v ∨ it = Short_opt c →
  ∃ s' t, words it ++ rest = ("-" +:+ String c t) :: (if it is Short_next _ _ then v :: rest else rest) ∧
    parseShortArg ("-" +:+ String c t) (if it is Short_next _ _ then v :: rest else rest) s =
      Ret (rest, None) s' ∧
    option_step s s' ∧ mem s' = m.
Proof.
  intros Hwf Hok Hl Hfl Htx Hset Hit.
  assert (∀ o, ∃ s', set_with ("", rest) l v o s = Ret ("", rest, None) s' ∧ option_step s s' ∧ mem s' = m)
    as Hgo by (intros o; by eapply set_with_accepts).
  destruct Hit as [-> |[-> |[-> | ->]]]; cbn in Htx.
  - destruct (Hgo (String c ("=" +:+ v))) as (s' & E & H). exists s', ("=" +:+ v). split; [done|].
    split; [|done]. apply parseShortArg_done. rewrite (parseShortArg_known s c _ l fl) by (try done; by destruct c as [[][][][][][][][]]).
    rewrite (bool_decide_eq_true_2 (1 < _)%nat). { by destruct v. }
    destruct Hok as [_ Hv]. destruct v; [done|]. rewrite length_append. cbn. lia.
  - destruct (decide (NoOptDefVal fl = "")); [|done]. destruct Hok as (_ & Hv & Heq & Ht).
    destruct (Hgo (String c v)) as (s' & E & H). exists s', v. split; [done|].
    split; [|done]. apply parseShortArg_done. rewrite (parseShortArg_known s c _ l fl) by done.
    by rewrite Heq, andb_false_r, decide_True, decide_False by done.
  - destruct (decide (NoOptDefVal fl = "")); [|done].
    destruct (Hgo (String c "")) as (s' & E & H). exists s', "". split; [done|].
    split; [|done]. apply parseShortArg_done. rewrite (parseShortArg_known s c _ l fl) by (try done; by destruct c as [[][][][][][][][]]).
    by rewrite (bool_decide_eq_false_2 (1 < _)%nat), !decide_True by first [done|cbn; lia].
  - destruct (decide (NoOptDefVal fl = "")); [done|]. simplify_eq.
    destruct (Hgo (String c "")) as (s' & E & H). exists s', "". split; [done|].
    split; [|done]. apply parseShortArg_done. rewrite (parseShortArg_known s c _ l fl) by (try done; by destruct c as [[][][][][][][][]]).
    by rewrite (bool_decide_eq_false_2 (1 < _)%nat), decide_False by first [done|cbn; lia].
Qed.

(** What parsing changes besides memory: the arguments that are no flags are
    appended. *)
Record item_step (pos : list string) s s' : Prop := {
  is_step : parse_step s s';
  is_args : args (fset s') = args (fset s) ++ pos;
  is_dash : argsLenAtDash (fset s') = argsLenAtDash (fset s);
  is_parsed : parsed (fset s') = parsed (fset s)
}.
Lemma option_item_step s s' : option_step s s' → item_step [] s s'.
Proof. intros H. split; [by apply option_parse_step|rewrite app_nil_r|..]; by destruct H. Qed.
Lemma item_step_trans pos pos' s1 s2 s3 :
  item_step pos s1 s2 → item_step pos' s2 s3 → item_step (pos ++ pos') s1 s3.
Proof.
  intros [H1 H2 H3 H4] [H1' H2' H3' H4'].
  split; [by eapply parse_step_trans|by rewrite app_assoc, <-H2|by rewrite H3'|by rewrite H4'].
Qed.

Lemma item_parsed s it n rest m :
  flags_wf s → interspersed (fset s) = true → syntax_ok it → apply_item s it (mem s) = Some m →
  ∃ s', parseArgs_loop (S n) (words it ++ rest) s = parseArgs_loop n rest s' ∧
    item_step (positional it) s s' ∧ mem s' = m.
Proof.
  intros Hwf Hint Hok Happ.
  assert (is_option it ∨ ∃ a, it = Positional a) as [Hit|[a ->]] by (destruct it; eauto; by left).
  - destruct (apply_item_inv _ _ _ _ Hit Happ) as (l & fl & v & Hl & Hfl & Htx & Hset).
    assert (positional it = []) as -> by (by destruct it).
    assert ((∃ nm, name_ok nm ∧ (it = Long_eq nm v ∨ it = Long_next nm v ∨ it = Long_opt nm)) ∨
      ∃ c, c ≠ "-"%char ∧ (it = Short_eq c v ∨ it = Short_join c v ∨ it = Short_next c v ∨ it = Short_opt c))
      as [(nm & Hnm & Hform)|(c & Hc & Hform)].
    { destruct it as [nm x|nm x|nm|c x|c x|c x|c|a]; try done; cbn in Htx; repeat case_decide;
        simplify_eq; first [left; exists nm; split; [exact Hok|]; by auto 10|
        right; exists c; split; [apply Hok || exact Hok|]; by auto 10]. }
    + assert (flag_of s it = formal (fset s) !! normalizeFlagName (fset s) nm) as Hl'
        by (by destruct Hform as [-> |[-> | ->]]). rewrite Hl' in Hl.
      destruct (long_parsed s it nm l fl v m rest) as (s' & t & Hw & Hp & Hst & Hm); try done.
      exists s'. split; [|split; [by apply option_item_step|done]]. rewrite Hw, loop_long.
      2: { destruct Hnm as (? & _). by destruct nm. }
      by run Hp.
    + assert (flag_of s it = shorthands (fset s) !! c) as Hl'
        by (by destruct Hform as [-> |[-> |[-> | ->]]]). rewrite Hl' in Hl.
      destruct (short_parsed s it c l fl v m rest) as (s' & t & Hw & Hp & Hst & Hm); try done.
      exists s'. split; [|split; [by apply option_item_step|done]]. rewrite Hw, loop_short by done.
      by run Hp.
  - cbn in Happ. simplify_eq. cbn [words app parseArgs_loop]. cbn in Hok.
    replace (negb (HasPrefix a "-") || bool_decide (a = "-")) with true.
    2: { destruct Hok as [->|Hp]; [done|by rewrite Hp]. }
    rewrite bind_unfold. cbn [get]. rewrite Hint. cbn [negb].
    destruct (append_args_ok [a] s Hwf) as ([] & s' & E & -> & Hst). run E.
    eexists. split; [done|]. split; [|done]. by split.
Qed.

Lemma items_parsed its s n rest m :
  flags_wf s → interspersed (fset s) = true → Forall syntax_ok its → apply_items s its (mem s) = Some m →
  ∃ s', parseArgs_loop (length its + n) (concat (words <$> its) ++ rest) s = parseArgs_loop n rest s' ∧
    item_step (positionals its) s s' ∧ mem s' = m.
Proof.
  revert s. induction its as [|it its IH]; intros s Hwf Hint Hok Happ.
  { cbn in Happ. simplify_eq. exists s. split; [done|]. split; [|done].
    apply option_item_step, option_step_refl, Hwf. }
  apply Forall_cons in Hok as [Hit Hok]. cbn in Happ. apply bind_Some in Happ as (m1 & H1 & Happ).
  destruct (item_parsed s it (length its + n) (concat (words <$> its) ++ rest) m1)
    as (s1 & E1 & Hs1 & <-); try done.
  destruct (IH s1) as (s2 & E2 & Hs2 & <-); [apply Hs1| |done| |].
  - rewrite (st_interspersed _ _ (proj1 (is_step _ _ _ Hs1))). done.
  - by rewrite (apply_items_static _ _ _ _ (proj1 (is_step _ _ _ Hs1))).
  - exists s2. split; [|split; [by eapply item_step_trans|done]].
    cbn [fmap list_fmap concat length Nat.add]. rewrite <-app_assoc, E1. exact E2.
Qed.

(** The state in which [Parse] starts its loop. *)
Definition parse_start s : State C := set_fset (set_args [] (set_parsed true (fset s))) s.
Lemma parse_start_wf s : flags_wf s → flags_wf (parse_start s).
Proof. intros []. by split. Qed.
Lemma parse_start_step s : same_static s (parse_start s).
Proof. by split. Qed.

Lemma Parse_unfold (l : list string) s :
  Parse l s = mbind (λ err : option error, match err with
    | None => mret None
    | Some err => s ← get; match errorHandling (fset s) with
        | ContinueOnError => mret (Some err) | ExitOnError => fatal | PanicOnError => panic (Error err) end
    end) (parseArgs l) (parse_start s).
Proof. done. Qed.

Lemma words_length it : (1 <= length (words it))%nat.
Proof. destruct it; cbn; lia. Qed.
Lemma unparse_length its tail :
  (length its + match tail with Some _ => 1 | None => 0 end <= length (unparse its tail))%nat.
Proof.
  unfold unparse. rewrite length_app. apply Nat.add_le_mono; [|by destruct tail; cbn; lia].
  induction its as [|it its IH]; cbn; [lia|]. rewrite length_app. pose proof (words_length it). lia.
Qed.

(** *** Arguments that are refused *)

(** The first words of [l] are refused, with an error, leaving the memory [m']: a flag
    that does not exist, one that lacks its value, or a value that is not accepted. *)
Inductive refused s m : list string → error → Mem C → Prop :=
| refused_unknown n rest :
    name_ok n → formal (fset s) !! normalizeFlagName (fset s) n = None → n ≠ "help" →
    refused s m (("--" +:+ n) :: rest) (Errorf ("unknown flag: --" +:+ n)) m
| refused_missing n l fl :
    name_ok n → formal (fset s) !! normalizeFlagName (fset s) n = Some l → flags s !! l = Some fl →
    NoOptDefVal fl = "" →
    refused s m ["--" +:+ n] (Errorf ("flag needs an argument: --" +:+ n)) m
| refused_value n v rest l fl err m' :
    name_ok n → formal (fset s) !! normalizeFlagName (fset s) n = Some l → flags s !! l = Some fl →
    Value_Set (Flag_Value fl) v m = Ret (Some err) m' →
    refused s m (("--" +:+ n +:+ "=" +:+ v) :: rest)
      (Errorf ("invalid argument " +:+ Quote v +:+ " for " +:+ ("--" +:+ n +:+ "=" +:+ v) +:+ ": " +:+ Error err)) m'.

Lemma refused_static s s' m (l : list string) err m' : same_static s s' → refused s m l err m' → refused s' m l err m'.
Proof.
  intros Hs H. assert (∀ n, formal (fset s') !! normalizeFlagName (fset s') n =
    formal (fset s) !! normalizeFlagName (fset s) n) as Hn.
  { intros n. apply (flag_of_static _ _ (Long_opt n) Hs). }
  destruct H as [n rest|n loc fl ?? Hfl|n v rest loc fl e m' ?? Hfl].
  - apply refused_unknown; [done|by rewrite Hn|done].
  - destruct (static_flag _ _ _ _ Hs Hfl) as (fl' & Hfl' & Heq).
    eapply refused_missing; [done|by rewrite Hn|done|by rewrite (static_NoOptDefVal _ _ Heq)].
  - destruct (static_flag _ _ _ _ Hs Hfl) as (fl' & Hfl' & Heq).
    eapply refused_value; [done|by rewrite Hn|done|by rewrite (static_Value _ _ Heq)].
Qed.

Lemma fail_with_spec {A} (r : A) e s :
  flags_wf s → has_arg0 s → ∃ s', fail_with r e s = Ret (r, Some e) s' ∧ option_step s s' ∧ mem s' = mem s.
Proof.
  intros Hwf Harg. destruct (failf_ok e s Hwf Harg) as (e' & s' & E & -> & Hw). exists s'.
  split; [unfold fail_with; by run E|]. split; [by apply only_written_step|by destruct Hw as [w ->]].
Qed.

Lemma refused_stops s (l : list string) err m' n :
  flags_wf s → has_arg0 s → refused s (mem s) l err m' →
  ∃ s', parseArgs_loop (S n) l s = Ret (Some err) s' ∧ parse_step s s' ∧ mem s' = m'.
Proof.
  intros Hwf Harg H.
  assert (∃ s' t a, l = ("--" +:+ t) :: a ∧ t ≠ "" ∧ parseLongArg ("--" +:+ t) a s = Ret (a, Some err) s' ∧
    option_step s s' ∧ mem s' = m') as (s' & t & a & -> & Ht & E & Hs & Hm).
  { destruct H as [nm rest Hnm Hl Hhelp|nm loc fl Hnm Hl Hfl Hno|nm v rest loc fl e m' Hnm Hl Hfl Hset].
    - destruct (fail_with_spec rest (Errorf ("unknown flag: --" +:+ nm)) s Hwf Harg) as (s' & E & Hs & Hm).
      exists s', nm, rest. split; [done|]. split; [by destruct Hnm|]. split; [|done]. rewrite <-E.
      destruct (cut_name nm "" Hnm) as [_ Hc]. rewrite append_empty_r in Hc.
      destruct Hnm as (Hne & Hdash & Heq). unfold parseLongArg.
      change (skip 2 ("--" +:+ nm)) with nm. cbv zeta. rewrite Hc. destruct nm as [|c nm]; [done|].
      replace (bool_decide (c = "-"%char) || bool_decide (c = "="%char)) with false.
      2: { symmetry. apply orb_false_iff. split; apply bool_decide_eq_false_2; intros ->.
           - by destruct nm. - cbn in Heq. by rewrite bool_decide_eq_true_2 in Heq. }
      rewrite bind_unfold. cbn [get fst]. rewrite Hl. by rewrite decide_False.
    - destruct (fail_with_spec (@nil string) (Errorf ("flag needs an argument: --" +:+ nm)) s Hwf Harg) as (s' & E & Hs & Hm).
      exists s', nm, []. split; [done|]. split; [by destruct Hnm|]. split; [|done]. rewrite <-E.
      destruct (cut_name nm "" Hnm) as [_ Hc].
      rewrite <-(append_empty_r nm), (parseLongArg_known s nm "" loc fl), Hc; try done.
      + cbn [snd]. by rewrite decide_True, append_empty_r.
      + by rewrite Hc.
    - destruct (cut_name nm v Hnm) as [Hc _].
      set (e' := Errorf _). set (s1 := set_mem m' s).
      assert (option_step s s1) as H1 by by apply set_mem_step.
      destruct (failf_ok e' s1) as (e2 & s' & E & -> & Hw); [apply H1|eapply has_arg0_static; [apply H1|done]|].
      exists s', (nm +:+ "=" +:+ v), rest. split; [done|]. split; [by destruct nm|].
      split; [|split; [eapply option_step_trans; [done|apply only_written_step; [apply H1|done]]|
        by destruct Hw as [w ->]]].
      rewrite (parseLongArg_known s nm _ loc fl), Hc; try done; [|by rewrite Hc]. cbn [snd].
      unfold set_with, setFlag. rewrite bind_unfold, bind_unfold, (load_flag_spec s loc fl Hfl).
      rewrite bind_unfold. unfold on_mem at 1, zoom. rewrite Hset. rewrite bind_unfold. fold s1.
      subst e'. by rewrite E. }
  exists s'. rewrite loop_long by done. run E. split; [done|]. split; [by apply option_parse_step|done].
Qed.

(** ** The properties *)

(** C27: parsing reads back what was written: for any flags by name or shorthand, in any
    of the forms that [pflag] knows, whose values are accepted one after the other,
    mixed with other arguments and followed by [--] and anything, [Parse] returns
    without an error; each flag's variable has been set in that order, and the other
    arguments are left in order, with the position of the [--]. *)
Theorem parse_unparse s its tail m :
  flags_wf s → interspersed (fset s) = true → Forall syntax_ok its → apply_items s its (mem s) = Some m →
  ∃ s', Parse (unparse its tail) s = Ret None s' ∧ mem s' = m ∧
    Args (fset s') = positionals its ++ default [] tail ∧ Parsed (fset s') = true ∧
    ArgsLenAtDash (fset s') =
      match tail with Some _ => Z.of_nat (length (positionals its)) | None => ArgsLenAtDash (fset s) end ∧
    flags_wf s' ∧ same_static s s'.
Proof.
  intros Hwf Hint Hok Happ. pose proof (unparse_length its tail) as Hlen.
  destruct (items_parsed its (parse_start s) (length (unparse its tail) - length its)
    (match tail with Some l => "--" :: l | None => [] end) m) as (s1 & E & Hs & Hm); try done.
  { by apply parse_start_wf. }
  { by rewrite (apply_items_static _ _ _ _ (parse_start_step s)). }
  replace (length its + (length (unparse its tail) - length its))%nat with (length (unparse its tail))
    in E by lia.
  change (parseArgs_loop (length (unparse its tail)) (unparse its tail) (parse_start s) =
    parseArgs_loop (length (unparse its tail) - length its)
      (match tail with Some l => "--" :: l | None => [] end) s1) in E.
  assert (∃ s2, parseArgs (unparse its tail) (parse_start s) = Ret None s2 ∧
    mem s2 = m ∧ Args (fset s2) = positionals its ++ default [] tail ∧ Parsed (fset s2) = true ∧
    ArgsLenAtDash (fset s2) =
      match tail with Some _ => Z.of_nat (length (positionals its)) | None => ArgsLenAtDash (fset s) end ∧
    parse_step s1 s2) as (s2 & E2 & H1 & H2 & H3 & H4 & [H5 H6]).
  { unfold parseArgs. rewrite E. destruct Hs as [[Hst Hwf1] Ha Hd Hp]. destruct tail as [l|].
    - destruct (length (unparse its (Some l)) - length its)%nat as [|n] eqn:Hn; [lia|].
      cbn [parseArgs_loop]. rewrite (bool_decide_eq_false_2 (_ = "-")) by discriminate.
      change (HasPrefix "--" "-") with true. change (HasPrefix "--" "--") with true. cbn [negb orb].
      rewrite decide_True by done. rewrite bind_unfold. cbn [on_set modify].
      set (s2 := set_fset _ s1).
      assert (parse_step s1 s2) as Hs2.
      { by apply (set_step (λ f, set_argsLenAtDash (Z.of_nat (length (args f))) f)). }
      destruct (append_args_ok l s2 (proj2 Hs2)) as ([] & s3 & E3 & Heq & Hs3). run E3.
      exists s3. split; [reflexivity|]. assert (parse_step s1 s3) by by eapply parse_step_trans.
      split_and!; try done; rewrite Heq; try done; cbn; by rewrite Ha.
    - exists s1. split; [by destruct (_ - _)%nat|]. rewrite app_nil_r. by split_and!. }
  exists s2. split; [by rewrite Parse_unfold; run E2|]. split_and!; try done.
  etrans; [apply parse_start_step|]. etrans; [apply Hs|done].
Qed.

(** Parsing stops at the first flag that does not exist, lacks its value or is given
    a value that is not accepted: a set that exits on errors ends the process there,
    the other kinds report that error; the flags before have been set, and nothing
    after. *)
Theorem Parse_rejects s its (l : list string) err m m' :
  flags_wf s → has_arg0 s → interspersed (fset s) = true → Forall syntax_ok its →
  apply_items s its (mem s) = Some m → refused s m l err m' →
  ∃ s', mem s' = m' ∧
    Parse (concat (words <$> its) ++ l) s =
      match errorHandling (fset s) with
      | ContinueOnError => Ret (Some err) s'
      | ExitOnError => Exit s'
      | PanicOnError => Panic (Error err) s'
      end.
Proof.
  intros Hwf Harg Hint Hok Happ Href.
  assert (l ≠ []) as Hne by (by destruct Href).
  assert (∃ n, length (concat (words <$> its) ++ l) = (length its + S n)%nat) as [n Hn].
  { pose proof (unparse_length its None) as Hl. unfold unparse in Hl. rewrite app_nil_r in Hl.
    rewrite length_app. destruct l; [done|]. cbn [length] in *.
    eexists (length (concat (words <$> its)) - length its + length l)%nat. lia. }
  destruct (items_parsed its (parse_start s) (S n) l m) as (s1 & E & [[Hs Hwf1] _ _ _] & <-); try done.
  { by apply parse_start_wf. }
  { by rewrite (apply_items_static _ _ _ _ (parse_start_step s)). }
  destruct (refused_stops s1 l err m' n) as (s2 & E2 & [Hs2 _] & Hm2); [done| | |].
  { eapply has_arg0_static; [|done]. etrans; [apply parse_start_step|done]. }
  { eapply refused_static; [|done]. etrans; [apply parse_start_step|done]. }
  exists s2. split; [done|]. rewrite Parse_unfold. unfold parseArgs. rewrite Hn, bind_unfold, E, E2.
  rewrite bind_unfold. cbn [get]. rewrite (st_errorHandling _ _ Hs2), (st_errorHandling _ _ Hs).
  by destruct (errorHandling _).
Qed.

(** C28: parsing ends, whatever the command line: if the values' own [Set] returns,
    [Parse] returns when the set continues on errors; for a set that exits or panics
    on errors it returns without an error, or does that; the invariant and the flags
    (but for [Changed] and the values) are kept. *)
Theorem Parse_ends s (l : list string) :
  flags_wf s → has_arg0 s → values_return s →
  ∃ s', flags_wf s' ∧ same_static s s' ∧
    (Parse l s = Ret None s' ∨ ∃ err,
      Parse l s = match errorHandling (fset s) with
                  | ContinueOnError => Ret (Some err) s'
                  | ExitOnError => Exit s'
                  | PanicOnError => Panic (Error err) s'
                  end).
Proof.
  intros Hwf Harg Hv.
  destruct (parseArgs_loop_ok (length l) l (parse_start s)) as (e & s' & E & [Hs Hwf']); [|done|].
  { split; [by apply parse_start_wf|done|done]. }
  exists s'. split; [done|]. split; [by etrans; [apply parse_start_step|]|]. rewrite Parse_unfold.
  change (parseArgs_loop (length l) l) with (parseArgs (C:=C) l) in E. rewrite bind_unfold, E.
  destruct e as [e|]; [right; exists e|by left]. rewrite bind_unfold. cbn [get].
  rewrite (st_errorHandling _ _ Hs). by destruct (errorHandling _).
Qed.
End Spec.
