(* ===== verification/PFlagAdd.v ===== *)
(** Defining flags with [pflag]: when [AddFlag] panics, that every operation keeps the
    invariant of the set, and what a set contains after flags were added to it. *)

From Stdlib Require Import Ascii.
From stdpp Require Import gmap strings list.
From S2P Require Import Prelude GoStrings Strconv PtrMap PFlagValues PFlag PFlagVars PFlagFacts.

Local Open Scope Z_scope.

Section Add.
Context `{gf : GoFormats, mo : MapOrder} {C : Type}.
Implicit Types (s : State C) (fl : Flag C) (l : loc).

(** ** The invariant *)

(** Changing a flag at a location that is in use, but not what the maps rely on. *)
Lemma update_wf s l fl g :
  flags_wf s → flags s !! l = Some fl → Name (g fl) = Name fl → Shorthand (g fl) = Shorthand fl →
  (Changed_ fl = true → Changed_ (g fl) = true) →
  flags_wf (set_flags (<[l := g fl]> (flags s)) s).
Proof.
  intros [Hf Hfo Hsh Hac] Hl Hn Hs Hc.
  pose proof (λ l' fl' P, insert_flag_keeps s l fl (g fl) l' fl' P Hl) as Hkeep.
  split; cbn.
  - intros l' Hl'. rewrite lookup_insert_ne; [by apply Hf|]. intros ->. rewrite Hf in Hl; done.
  - intros k l' Hk. destruct (Hfo k l' Hk) as (fl' & H1 & H2).
    eapply (Hkeep l' fl' (λ fl, Name fl = k)); [done|done|congruence].
  - intros c l' Hc'. destruct (Hsh c l' Hc') as (fl' & H1 & H2).
    eapply (Hkeep l' fl' (λ fl, Shorthand fl = String c "")); [done|done|congruence].
  - intros k l' Hk. destruct (Hac k l' Hk) as (fl' & H1 & H2).
    by apply (Hkeep l' fl' (λ fl, Changed_ fl = true)).
Qed.

Lemma new_flag_wf fl s :
  flags_wf s → ∃ s', new_flag fl s = Ret (fresh s) s' ∧ flags_wf s' ∧ fset s' = fset s ∧ mem s' = mem s ∧
    flags s' = <[fresh s := fl]> (flags s) ∧ written s' = written s ∧ os_Args s' = os_Args s.
Proof.
  intros [Hf Hfo Hsh Hac]. eexists. split; [reflexivity|]. split; [|done].
  assert (∀ l fl', flags s !! l = Some fl' → <[fresh s := fl]> (flags s) !! l = Some fl') as Hkeep.
  { intros l fl' Hl. rewrite lookup_insert_ne; [done|]. intros <-. by rewrite Hf in Hl. }
  split; cbn.
  - intros l Hl. rewrite lookup_insert_ne by lia. apply Hf. lia.
  - intros k l Hk. destruct (Hfo k l Hk) as (fl' & H1 & H2). eauto.
  - intros c l Hc. destruct (Hsh c l Hc) as (fl' & H1 & H2). eauto.
  - intros k l Hk. destruct (Hac k l Hk) as (fl' & H1 & H2). eauto.
Qed.

(** ** Adding a flag *)

(** What a set contains under a name, or a letter. *)
Definition registered s (n : string) (v : Value C) (no : string) : Prop :=
  ∃ l fl, formal (fset s) !! normalizeFlagName (fset s) n = Some l ∧ flags s !! l = Some fl ∧
    Flag_Value fl = v ∧ NoOptDefVal fl = no.
Definition letters s : gset ascii := dom (shorthands (fset s)).
Definition names s : gset string := dom (formal (fset s)).

(** A flag at [l] of which the maps do not know yet. *)
Definition loose s l : Prop :=
  (∀ k, formal (fset s) !! k ≠ Some l) ∧ (∀ c, shorthands (fset s) !! c ≠ Some l) ∧
  (∀ k, actual (fset s) !! k ≠ Some l).

Definition letter_of (fl : Flag C) : option ascii :=
  match Shorthand fl with String c EmptyString => Some c | _ => None end.

(** The state after a flag was added. *)
Record flag_added l fl s s' : Prop := {
  fa_wf : flags_wf s';
  fa_formal : formal (fset s') = <[normalizeFlagName (fset s) (Name fl) := l]> (formal (fset s));
  fa_shorthands : shorthands (fset s') =
    match letter_of fl with Some c => <[c := l]> (shorthands (fset s)) | None => shorthands (fset s) end;
  fa_flags : flags s' = <[l := set_Name (normalizeFlagName (fset s) (Name fl)) fl]> (flags s);
  fa_set : normalizeNameFunc (fset s') = normalizeNameFunc (fset s) ∧
    interspersed (fset s') = interspersed (fset s) ∧ errorHandling (fset s') = errorHandling (fset s) ∧
    is_CommandLine (fset s') = is_CommandLine (fset s) ∧ actual (fset s') = actual (fset s);
  fa_mem : mem s' = mem s;
  fa_os_Args : os_Args s' = os_Args s
}.

(** Entering a flag under a new name; no other name may have it. *)
Lemma set_Name_wf s l fl n f :
  flags_wf s → flags s !! l = Some fl → (∀ k, formal (fset s) !! k ≠ Some l) →
  formal f = <[n := l]> (formal (fset s)) → actual f = actual (fset s) →
  (∀ c l', shorthands f !! c = Some l' → shorthands (fset s) !! c = Some l' ∨ l' = l ∧ Shorthand fl = String c "") →
  flags_wf (set_fset f (set_flags (<[l := set_Name n fl]> (flags s)) s)).
Proof.
  intros [Hf Hfo Hsh Hac] Hl Hl1 Ef Ea Hnew.
  pose proof (λ l' fl' P, insert_flag_keeps s l fl (set_Name n fl) l' fl' P Hl) as Hkeep.
  split; cbn; rewrite ?Ef, ?Ea.
  - intros l' Hl'. rewrite lookup_insert_ne; [by apply Hf|]. intros ->. rewrite Hf in Hl; done.
  - intros k l' [[<- <-]|[_ Hk]]%lookup_insert_Some.
    + eexists. by rewrite lookup_insert_eq.
    + destruct (Hfo k l' Hk) as (fl' & H1 & H2). exists fl'. rewrite lookup_insert_ne; [done|].
      intros ->. by destruct (Hl1 k).
  - intros c l' [Hc|[-> Hc]]%Hnew.
    + destruct (Hsh c l' Hc) as (fl' & H1 & H2). by apply (Hkeep l' fl' (λ fl, Shorthand fl = String c "")).
    + eexists. by rewrite lookup_insert_eq.
  - intros k l' Hk. destruct (Hac k l' Hk) as (fl' & H1 & H2). by apply (Hkeep l' fl' (λ fl, Changed_ fl = true)).
Qed.

(** A flag can be added when its name, and its letter if it has one, are not taken. *)
Definition can_add s fl : Prop :=
  normalizeFlagName (fset s) (Name fl) ∉ names s ∧
  match Shorthand fl with
  | EmptyString => True
  | String c EmptyString => c ∉ letters s
  | _ => False
  end.

Lemma AddFlag_adds l fl s :
  flags_wf s → flags s !! l = Some fl → loose s l → can_add s fl →
  ∃ s', AddFlag l s = Ret tt s' ∧ flag_added l fl s s'.
Proof.
  intros Hwf Hl Hloose [Hn Hsh]. unfold AddFlag. rewrite bind_unfold. cbn [get].
  run (load_flag_spec s l fl Hl). cbv zeta. set (n := normalizeFlagName _ _) in *.
  assert (formal (fset s) !! n = None) as Hnone by by apply not_elem_of_dom.
  rewrite Hnone. run (update_flag_spec s l fl (set_Name n) Hl). rewrite bind_unfold. cbn [on_set modify].
  destruct (Shorthand fl) as [|c [|]] eqn:E; [| |done].
  - eexists. split; [reflexivity|].
    split; try done; [|by unfold letter_of; rewrite E].
    apply (set_Name_wf s l fl n); try done; [apply Hloose|by left].
  - assert (shorthands (fset s) !! c = None) as -> by by apply not_elem_of_dom.
    eexists. split; [reflexivity|]. split; try done; [|by unfold letter_of; rewrite E].
    apply (set_Name_wf s l fl n); try done; [apply Hloose|].
    cbn. intros c' l' [[<- <-]|[_ Hc]]%lookup_insert_Some; [by right|by left].
Qed.

Lemma AddFlag_panics l fl s :
  flags_wf s → flags s !! l = Some fl → ¬ can_add s fl → ∃ msg s', AddFlag l s = Panic msg s'.
Proof.
  intros Hwf Hl Hno. unfold AddFlag. rewrite bind_unfold. cbn [get].
  run (load_flag_spec s l fl Hl). cbv zeta. unfold can_add in Hno. set (n := normalizeFlagName _ _) in *.
  destruct (formal (fset s) !! n) as [l'|] eqn:Hn; [by eexists _, _|].
  assert (n ∉ names s) as Hn' by by apply not_elem_of_dom.
  run (update_flag_spec s l fl (set_Name n) Hl). rewrite bind_unfold. cbn [on_set modify].
  destruct (Shorthand fl) as [|c [|]] eqn:E; [tauto| |by eexists _, _].
  destruct (shorthands (fset s) !! c) as [old|] eqn:Hc.
  - destruct (wf_shorthands _ Hwf c old Hc) as (fo & Hfo & _). rewrite bind_unfold.
    destruct (decide (old = l)) as [->|Hne].
    + erewrite load_flag_spec; [by eexists _, _|]. cbn. by rewrite lookup_insert_eq.
    + erewrite load_flag_spec; [by eexists _, _|]. cbn. by rewrite lookup_insert_ne.
  - destruct Hno. split; [done|]. by apply not_elem_of_dom.
Qed.

(** *** A new flag *)
Lemma fresh_loose s : flags_wf s → loose s (fresh s).
Proof.
  intros [Hf Hfo Hsh Hac]. assert (flags s !! fresh s = None) as Hn by by apply Hf. split_and!; intros k Hk.
  - destruct (Hfo _ _ Hk) as (fl & H & _). congruence.
  - destruct (Hsh _ _ Hk) as (fl & H & _). congruence.
  - destruct (Hac _ _ Hk) as (fl & H & _). congruence.
Qed.

(** What adding flags keeps of a set: the way names are looked up, and the flags that
    it has. *)
Record extended s s' : Prop := {
  ex_wf : flags_wf s';
  ex_normalize : normalizeNameFunc (fset s') = normalizeNameFunc (fset s);
  ex_set : interspersed (fset s') = interspersed (fset s) ∧ errorHandling (fset s') = errorHandling (fset s) ∧
    is_CommandLine (fset s') = is_CommandLine (fset s);
  ex_formal k l : formal (fset s) !! k = Some l → formal (fset s') !! k = Some l;
  ex_flags l fl : flags s !! l = Some fl → flags s' !! l = Some fl;
  ex_os_Args : os_Args s' = os_Args s
}.

Lemma normalize_same f f' n : normalizeNameFunc f' = normalizeNameFunc f → normalizeFlagName f' n = normalizeFlagName f n.
Proof. intros H. unfold normalizeFlagName, GetNormalizeFunc. by rewrite H. Qed.

Lemma extended_refl s : flags_wf s → extended s s.
Proof. by split. Qed.
#[export] Instance extended_trans : Transitive extended.
Proof.
  intros s1 s2 s3 [H1 H2 H3 H4 H5 H6] [H1' H2' H3' H4' H5' H6'].
  split; [done|congruence| |auto|auto|congruence].
  destruct_and!. split_and!; congruence.
Qed.

Lemma extended_registered s s' n v no : extended s s' → registered s n v no → registered s' n v no.
Proof.
  intros [H1 H2 H3 H4 H5 H6] (l & fl & Hk & Hl & Hv & Hno). exists l, fl.
  rewrite (normalize_same (fset s)) by done. auto.
Qed.

(** What holds of every flag of the heap. *)
Definition heap_all (P : Flag C → Prop) s : Prop := ∀ l fl, flags s !! l = Some fl → P fl.

(** The state with one more flag [fl], which was not there before. *)
Record grown fl s s' : Prop := {
  gr_wf : flags_wf s';
  gr_formal : formal (fset s') = <[Name fl := fresh s]> (formal (fset s));
  gr_shorthands : shorthands (fset s') =
    match letter_of fl with Some c => <[c := fresh s]> (shorthands (fset s)) | None => shorthands (fset s) end;
  gr_flags : flags s' = <[fresh s := fl]> (flags s);
  gr_set : normalizeNameFunc (fset s') = normalizeNameFunc (fset s) ∧
    interspersed (fset s') = interspersed (fset s) ∧ errorHandling (fset s') = errorHandling (fset s) ∧
    is_CommandLine (fset s') = is_CommandLine (fset s);
  gr_mem : mem s' = mem s;
  gr_os_Args : os_Args s' = os_Args s
}.

Lemma new_flag_grown fl s :
  flags_wf s → can_add s fl →
  ∃ s', (l ← new_flag fl; AddFlag l ;; mret l) s = Ret (fresh s) s' ∧
    grown (set_Name (normalizeFlagName (fset s) (Name fl)) fl) s s'.
Proof.
  intros Hwf Hcan. destruct (new_flag_wf fl s Hwf) as (s1 & E1 & Hwf1 & Hset & Hmem & Hfl & _ & Hargs).
  assert (flags s1 !! fresh s = Some fl) as Hl by by rewrite Hfl, lookup_insert_eq.
  assert (loose s1 (fresh s)) as Hloose.
  { destruct (fresh_loose s Hwf) as (H1 & H2 & H3). unfold loose. by rewrite Hset. }
  destruct (AddFlag_adds (fresh s) fl s1 Hwf1 Hl Hloose) as (s2 & E2 & [H1 H2 H3 H4 H5 H6 H7]).
  { unfold can_add, names, letters in *. by rewrite Hset. }
  rewrite Hset in *. destruct H5 as (Hn & Hi & He & Hc & Ha).
  exists s2. split; [by run E1; run E2|].
  split; try done; [by rewrite H4, Hfl, insert_insert_eq|congruence..].
Qed.

Lemma update_grown fl g s s' :
  flags_wf s → grown fl s s' → Name (g fl) = Name fl → Shorthand (g fl) = Shorthand fl →
  Changed_ (g fl) = Changed_ fl →
  ∃ s'', update_flag (fresh s) g s' = Ret tt s'' ∧ grown (g fl) s s''.
Proof.
  intros Hwf [H1 H2 H3 H4 H5 H6 H7] Hn Hs Hc.
  assert (flags s' !! fresh s = Some fl) as Hl by by rewrite H4, lookup_insert_eq.
  eexists. split; [by apply update_flag_spec|].
  split; cbn; try done; [|by rewrite Hn|by unfold letter_of; rewrite Hs|by rewrite H4, insert_insert_eq].
  apply update_wf; try done. congruence.
Qed.

(** A flag that was defined, with the value [v], the shorthand [sh] and what it stands
    for without a value. *)
Record added (n : string) (v : Value C) (no sh : string) s s' : Prop := {
  ad_extended : extended s s';
  ad_registered : registered s' n v no;
  ad_names : names s' = {[normalizeFlagName (fset s) n]} ∪ names s;
  ad_mem : mem s' = mem s;
  ad_heap P : heap_all P s →
    (∀ fl, Name fl = normalizeFlagName (fset s) n → Flag_Value fl = v → Shorthand fl = sh → P fl) →
    heap_all P s'
}.

Lemma grown_added fl n s s' :
  flags_wf s → normalizeFlagName (fset s) n ∉ names s → Name fl = normalizeFlagName (fset s) n →
  grown fl s s' →
  added n (Flag_Value fl) (NoOptDefVal fl) (Shorthand fl) s s' ∧
  letters s' = match letter_of fl with Some c => {[c]} ∪ letters s | None => letters s end.
Proof.
  intros Hwf Hn Hname [H1 H2 H3 H4 (N1 & N2 & N3 & N4) H6 H7].
  assert (∀ n, normalizeFlagName (fset s') n = normalizeFlagName (fset s) n) as Hnorm
    by by intros; apply normalize_same.
  split; [split; [split; [done|done|done| | |done]| | |done|]|].
  - intros k l Hk. rewrite H2, lookup_insert_ne; [done|]. intros <-. apply Hn.
    rewrite <-Hname. by apply elem_of_dom_2 in Hk.
  - intros l fl' Hl. rewrite H4, lookup_insert_ne; [done|]. intros <-. by rewrite (wf_fresh _ Hwf) in Hl.
  - exists (fresh s), fl. by rewrite Hnorm, H2, H4, <-Hname, !lookup_insert_eq.
  - unfold names. by rewrite H2, dom_insert_L, Hname.
  - intros P HP Hfl l fl' Hl'. rewrite H4 in Hl'.
    apply lookup_insert_Some in Hl' as [[<- <-]|[_ Hl']]; [by apply Hfl|by eapply HP].
  - unfold letters. rewrite H3. destruct (letter_of fl); [by rewrite dom_insert_L|done].
Qed.

(** *** Flags of each type *)
Lemma VarPF_grown v n u s :
  flags_wf s → normalizeFlagName (fset s) n ∉ names s →
  ∃ s', VarPF v n "" u s = Ret (fresh s) s' ∧
    grown (mkFlag (normalizeFlagName (fset s) n) "" u v (Value_String v (mem s)) false "" "" false "" ∅) s s'.
Proof.
  intros Hwf Hn.
  destruct (new_flag_grown (mkFlag n "" u v (Value_String v (mem s)) false "" "" false "" ∅) s Hwf)
    as (s' & E & H); [by split|]. by exists s'.
Qed.

Lemma VarP_added v n u s :
  flags_wf s → normalizeFlagName (fset s) n ∉ names s →
  ∃ s', VarP v n "" u s = Ret tt s' ∧ added n v "" "" s s' ∧ letters s' = letters s.
Proof.
  intros Hwf Hn. destruct (VarPF_grown v n u s Hwf Hn) as (s' & E & H). exists s'.
  split; [unfold VarP; by run E|]. by eapply grown_added in H.
Qed.

(** The default value of a variable is written back to it. *)
Lemma store_default {A} (p : Ref C A) (v : Value C) s :
  store p (load p (mem s)) (mem s) = mem s →
  on_mem (store_ref p (load p (mem s)) ;; mret v) s = Ret v s.
Proof.
  intros Hst. unfold on_mem, zoom. rewrite bind_unfold. cbn [store_ref modify]. rewrite Hst. by destruct s.
Qed.

(** The calls that define a flag of each type for a variable with its current value as
    the default. *)
Definition define_flag (v : Value C) (n u : string) : M (State C) unit := λ s,
  match v with
  | stringValue p => StringVar p n (load p (mem s)) u s
  | intValue p => IntVar p n (load p (mem s)) u s
  | float32Value p => Float32Var p n (load p (mem s)) u s
  | durationValue p => DurationVar p n (load p (mem s)) u s
  | boolValue p => BoolVar p n (load p (mem s)) u s
  | flagValueWrapper _ _ => Ret tt s
  end.
Definition without_value (v : Value C) : string := if is_boolFlag v then "true" else "".

(** Storing what was loaded changes nothing. *)
Definition own_variable (v : Value C) (m : Mem C) : Prop :=
  match v with
  | stringValue p => store p (load p m) m = m
  | intValue p => store p (load p m) m = m
  | float32Value p => store p (load p m) m = m
  | durationValue p => store p (load p m) m = m
  | boolValue p => store p (load p m) m = m
  | flagValueWrapper _ _ => False
  end.

Lemma define_flag_added v n u s :
  flags_wf s → normalizeFlagName (fset s) n ∉ names s → own_variable v (mem s) →
  ∃ s', define_flag v n u s = Ret tt s' ∧ added n v (without_value v) "" s s' ∧ letters s' = letters s.
Proof.
  intros Hwf Hn Hst. destruct v as [p|p|p|p|p|]; cbn in Hst; [..|done]; unfold define_flag.
  - unfold StringVar. run (store_default p (stringValue p) s Hst). by apply VarP_added.
  - unfold IntVar. run (store_default p (intValue p) s Hst). by apply VarP_added.
  - unfold Float32Var. run (store_default p (float32Value p) s Hst). by apply VarP_added.
  - unfold DurationVar. run (store_default p (durationValue p) s Hst). by apply VarP_added.
  - unfold BoolVar, BoolVarP. run (store_default p (boolValue p) s Hst).
    destruct (VarPF_grown (boolValue p) n u s Hwf Hn) as (s1 & E & H). run E.
    destruct (update_grown _ (set_NoOptDefVal "true") s s1 Hwf H) as (s2 & E2 & H2); [done..|].
    exists s2. split; [done|]. by eapply grown_added in H2.
Qed.

(** Several flags, one after the other. *)
Lemma define_flags_added (l : list (string * Value C * string)) s :
  flags_wf s → NoDup ((λ d, normalizeFlagName (fset s) d.1.1) <$> l) →
  Forall (λ d, normalizeFlagName (fset s) d.1.1 ∉ names s) l → Forall (λ d, own_variable d.1.2 (mem s)) l →
  ∃ s', for_each (λ d, define_flag d.1.2 d.1.1 d.2) l s = Ret tt s' ∧ extended s s' ∧
    Forall (λ d, registered s' d.1.1 d.1.2 (without_value d.1.2)) l ∧
    names s' = list_to_set ((λ d, normalizeFlagName (fset s) d.1.1) <$> l) ∪ names s ∧
    letters s' = letters s ∧ mem s' = mem s ∧
    (∀ P : Flag C → Prop, heap_all P s → (∀ d fl, d ∈ l → Name fl = normalizeFlagName (fset s) d.1.1 →
       Flag_Value fl = d.1.2 → Shorthand fl = "" → P fl) → heap_all P s').
Proof.
  revert s. induction l as [|d l IH]; intros s Hwf Hnd Hnew Hown.
  { exists s. split; [done|]. split; [by apply extended_refl|]. split; [by apply Forall_nil|].
    split; [set_solver|done]. }
  apply Forall_cons in Hnew as [Hd Hnew], Hown as [Hdo Hown]. rewrite fmap_cons in Hnd.
  apply NoDup_cons in Hnd as [Hdl Hnd].
  destruct (define_flag_added d.1.2 d.1.1 d.2 s Hwf Hd Hdo) as (s1 & E1 & [A1 A2 A3 A4 A5] & A6).
  assert (∀ n, normalizeFlagName (fset s1) n = normalizeFlagName (fset s) n) as Hnorm
    by by intros; apply normalize_same, A1.
  assert ((λ d : string * Value C * string, normalizeFlagName (fset s1) d.1.1) <$> l =
    (λ d, normalizeFlagName (fset s) d.1.1) <$> l) as Hmap by (apply list_fmap_ext; intros; apply Hnorm).
  destruct (IH s1) as (s2 & E2 & B1 & B2 & B3 & B4 & B5 & B6).
  { apply A1. } { by rewrite Hmap. }
  { rewrite Forall_forall in Hnew |- *. intros e He. rewrite Hnorm, A3, elem_of_union, elem_of_singleton.
    intros [Heq|Hin]; [|by eapply Hnew]. apply Hdl. rewrite <-Heq.
    apply list_elem_of_fmap. by exists e. }
  { by rewrite A4. }
  exists s2. split; [cbn; by run E1|]. split; [by etrans|]. split; [apply Forall_cons; split; [|done]|].
  - by eapply extended_registered.
  - split; [rewrite B3, Hmap, A3; cbn; set_solver|]. split; [congruence|]. split; [congruence|].
    intros P HP Hl. apply B6; [apply A5; [done|]|].
    + intros fl. apply Hl. by left.
    + intros e fl He. rewrite Hnorm. apply Hl. by right.
Qed.
End Add.
