(* ===== verification/PFlagOps.v ===== *)
(** [InitFlags] ([util/flags.go]): names with underscores, the flags of Go's own package,
    and the command line of the process; then the other methods of a set of flags: they
    keep its invariant, and what is set is read back by the typed getters. *)

From Stdlib Require Import Ascii QArith.
From stdpp Require Import gmap strings list relations sorting pretty.
From S2P Require Import Prelude GoStrings GoTime Strconv PtrMap PFlagValues PFlag PFlagVars PFlagFacts.
From S2P Require Import PFlagParse PFlagProps PFlagAdd.

Local Open Scope Z_scope.

Lemma WordSep_dash n : has_byte "_" (WordSepNormalizeFunc n) = false.
Proof.
  unfold WordSepNormalizeFunc. rewrite Contains_byte. case_match eqn:E; [by apply replace_byte_gone|done].
Qed.
Lemma WordSep_id n : has_byte "_" n = false → WordSepNormalizeFunc n = n.
Proof. intros H. unfold WordSepNormalizeFunc. by rewrite Contains_byte, H. Qed.
Lemma WordSep_idemp n : WordSepNormalizeFunc (WordSepNormalizeFunc n) = WordSepNormalizeFunc n.
Proof. apply WordSep_id, WordSep_dash. Qed.

Section Init.
Context `{gf : GoFormats, mo : MapOrder} {C : Type}.
Implicit Types (s : State C) (fl : Flag C).

(** ** Renaming *)
Lemma set_Name_id fl k : Name fl = k → set_Name k fl = fl.
Proof. intros <-. by destruct fl. Qed.

Lemma renormalize_same k s :
  flags_wf s → (∀ n, n ∈ names s → normalizeFlagName (fset s) n = n) → renormalize k s = Ret tt s.
Proof.
  intros Hwf Hn. unfold renormalize. rewrite bind_unfold. cbn [get].
  destruct (formal (fset s) !! k) as [l|] eqn:Hk; [|done].
  destruct (wf_formal _ Hwf k l Hk) as (fl & Hl & Hname).
  rewrite bind_unfold. cbn [on_set modify]. cbv zeta. rewrite Hn by by apply elem_of_dom_2 in Hk.
  rewrite bind_unfold. cbn [on_set modify]. erewrite update_flag_spec by exact Hl.
  rewrite set_Name_id by done. f_equal. cbn. rewrite insert_delete_id by done.
  destruct s as [f h ? ? ? ?], f; cbn in *. unfold set_flags, set_fset, set_formal. cbn.
  by rewrite insert_id.
Qed.

(** A set whose names are normalised already is not changed, whichever keys are
    visited. *)
Lemma SetNormalizeFunc_same n ks s :
  flags_wf s → (∀ k, k ∈ names s → n k = k) →
  SetNormalizeFunc n ks s = Ret tt (set_fset (set_normalizeNameFunc (Some n) (fset s)) s).
Proof.
  intros Hwf Hn. unfold SetNormalizeFunc. rewrite bind_unfold. cbn [on_set modify].
  set (s1 := set_fset _ s). assert (flags_wf s1) as Hwf1 by (destruct Hwf; by split).
  induction ks as [|k ks IH]; [done|]. cbn [for_each].
  assert (renormalize k s1 = Ret tt s1) as E by by apply renormalize_same. by run E.
Qed.

(** ** Flags of Go's package *)

(** A set of Go flags has them under their names. *)
Definition go_set_ok (goflags : gmap string (GoFlag C)) : Prop :=
  ∀ k g, goflags !! k = Some g → go_Name g = k.

(** The letters of the set come from Go flags with these names. *)
Definition letters_from (ks : list string) s : Prop := ∀ c, c ∈ letters s → String c "" ∈ ks.

Lemma single_char n : String.length n = 1%nat → ∃ c, n = String c "".
Proof. destruct n as [|c [|]]; try done. eauto. Qed.

Lemma AddGoFlag_ok g ks s :
  flags_wf s → letters_from ks s → go_Name g ∉ ks →
  ∃ s', AddGoFlag g s = Ret tt s' ∧ extended s s' ∧ letters_from (ks ++ [go_Name g]) s' ∧ mem s' = mem s ∧
    (∀ P : Flag C → Prop, heap_all P s → (∀ fl, Flag_Value fl = wrapFlagValue (go_Value g) → P fl) →
       heap_all P s').
Proof.
  intros Hwf Hlet Hk. unfold AddGoFlag. rewrite bind_unfold. cbn [get].
  destruct (Lookup (fset s) (go_Name g)) eqn:Hl.
  { exists s. split; [done|]. split; [by apply extended_refl|]. split; [|done].
    intros c Hc%Hlet. set_solver. }
  assert (normalizeFlagName (fset s) (go_Name g) ∉ names s) as Hn by by apply not_elem_of_dom.
  set (fl := PFlagFromGoFlag g (mem s)).
  assert (can_add s fl) as Hcan.
  { split; [done|]. cbn. case_decide as Hlen; [|done]. destruct (single_char _ Hlen) as [c Hc].
    rewrite Hc in *. intros Hin. by apply Hk, Hlet. }
  destruct (new_flag_grown fl s Hwf Hcan) as (s' & E & H).
  apply (grown_added _ (go_Name g)) in H as [[A1 A2 A3 A4 A5] A6]; [|done..].
  exists s'. split; [|split; [done|split; [|split; [done|auto]]]].
  - m_unfold. destruct (new_flag fl s) as [l s1| | |]; try done.
    by destruct (AddFlag l s1) as [[] s2| | |]; simplify_eq.
  - intros c. rewrite A6. destruct (letter_of _) as [c'|] eqn:Hm; [|intros Hc%Hlet; set_solver].
    intros [->%elem_of_singleton|Hc%Hlet]%elem_of_union; [|set_solver].
    apply elem_of_app. right. apply list_elem_of_singleton.
    unfold letter_of in Hm. cbn in Hm. case_decide; [|done].
    by destruct (go_Name g) as [|? []]; simplify_eq.
Qed.

Lemma AddGoFlagSet_ok goflags s :
  flags_wf s → letters s = ∅ → go_set_ok goflags →
  ∃ s', AddGoFlagSet (Some goflags) s = Ret tt s' ∧ extended s s' ∧ mem s' = mem s ∧
    (∀ P : Flag C → Prop, heap_all P s → (∀ k g fl, goflags !! k = Some g →
       Flag_Value fl = wrapFlagValue (go_Value g) → P fl) → heap_all P s').
Proof.
  intros Hwf Hlet Hok. unfold AddGoFlagSet.
  assert (NoDup (sorted_keys goflags)) as Hnd.
  { unfold sorted_keys. rewrite merge_sort_Permutation. apply NoDup_fst_map_to_list. }
  assert (∀ k, k ∈ sorted_keys goflags → is_Some (goflags !! k)) as Hin.
  { intros k. unfold sorted_keys. rewrite merge_sort_Permutation. intros ([k' g] & -> & Hkg)%list_elem_of_fmap.
    apply elem_of_map_to_list in Hkg. by exists g. }
  assert (letters_from [] s) as Hfrom by (intros c; rewrite Hlet; set_solver).
  assert (∀ k, k ∈ ([] : list string) → k ∈ sorted_keys goflags → False) as Hdis by set_solver.
  revert Hwf Hfrom Hdis. clear Hlet. generalize (@nil string) as ds. revert s Hnd Hin.
  induction (sorted_keys goflags) as [|k ks IH]; intros s Hnd Hin ds Hwf Hfrom Hdis.
  { exists s. split; [done|]. split; [by apply extended_refl|done]. }
  apply NoDup_cons in Hnd as [Hk Hnd]. destruct (Hin k) as [g Hg]; [left|].
  pose proof (Hok k g Hg) as Hname.
  destruct (AddGoFlag_ok g ds s Hwf Hfrom) as (s1 & E1 & A1 & A2 & A3 & A4).
  { rewrite Hname. intros Hds. apply (Hdis k Hds). left. }
  destruct (IH s1 Hnd) with (ds := ds ++ [go_Name g]) as (s2 & E2 & B1 & B2 & B3).
  - intros k' Hk'. apply Hin. by right.
  - apply A1.
  - done.
  - intros k' [Hk'|Hk'%list_elem_of_singleton]%elem_of_app Hks; [apply (Hdis k' Hk'); by right|].
    subst k'. rewrite Hname in Hks. by destruct Hk.
  - exists s2. split; [|split; [by etrans|split; [congruence|eauto]]].
    cbn [omap list_omap]. rewrite Hg. cbn [for_each]. by run E1.
Qed.

(** ** The command line of the process *)

(** The set whose names are looked up with dashes for underscores. *)
Definition with_dashes s : State C :=
  set_fset (set_normalizeNameFunc (Some WordSepNormalizeFunc) (fset s)) s.

(** [InitFlags] up to the parsing. *)
Definition normalize_and_import (ks : list string) (goflags : gmap string (GoFlag C)) : M (State C) unit :=
  SetNormalizeFunc WordSepNormalizeFunc ks ;;
  AddGoFlagSet (Some goflags).

Lemma InitFlags_split ks goflags s :
  InitFlags ks goflags s = (normalize_and_import ks goflags ;; Parse_CommandLine) s.
Proof.
  unfold InitFlags, normalize_and_import. rewrite !bind_unfold.
  by destruct (SetNormalizeFunc WordSepNormalizeFunc ks s).
Qed.

(** The state from which the command line is parsed. *)
Lemma InitFlags_setup goflags ks s :
  flags_wf s → (∀ k, k ∈ names s → has_byte "_" k = false) → letters s = ∅ → go_set_ok goflags →
  ∃ s1, normalize_and_import ks goflags s = Ret tt s1 ∧ extended (with_dashes s) s1 ∧
    mem s1 = mem s ∧
    (∀ P : Flag C → Prop, heap_all P s → (∀ k g fl, goflags !! k = Some g →
       Flag_Value fl = wrapFlagValue (go_Value g) → P fl) → heap_all P s1).
Proof.
  intros Hwf Hn Hlet Hgo. unfold normalize_and_import.
  assert (SetNormalizeFunc WordSepNormalizeFunc ks s = Ret tt (with_dashes s)) as E.
  { apply SetNormalizeFunc_same; [done|]. intros k Hk. by apply WordSep_id, Hn. }
  destruct (AddGoFlagSet_ok goflags (with_dashes s)) as (s1 & E1 & H1 & H2 & H3).
  { destruct Hwf. by split. } { done. } { done. }
  exists s1. split; [by run E|]. done.
Qed.

Lemma registered_with_dashes s n v no :
  normalizeNameFunc (fset s) = None → has_byte "_" n = false → registered s n v no →
  registered (with_dashes s) n v no.
Proof.
  intros Hnone Hn (l & fl & Hk & H). exists l, fl. split; [|done]. cbn.
  unfold normalizeFlagName, GetNormalizeFunc in *. rewrite Hnone in Hk. cbn. by rewrite WordSep_id.
Qed.
End Init.

(** * The other methods *)

Section Ops.
Context `{gf : GoFormats, mo : MapOrder} {C : Type}.
Implicit Types (s : State C) (fl : Flag C).

(** ** The invariant *)

(** A call of a method that changes the set or its flags.  [Var] and [StringVar] are
    [VarP] and [StringVarP] with an empty shorthand, [String] is [StringP] with one, and so
    on.  In between a program may make flags of its own. *)
Inductive call : Type :=
| Call_new (fl : Flag C)
| Call_VarPF (v : Value C) (n sh u : string)
| Call_VarP (v : Value C) (n sh u : string)
| Call_StringVarP (p : Ref C string) (n sh v u : string)
| Call_IntVarP (p : Ref C Z) (n sh : string) (v : Z) (u : string)
| Call_Float32VarP (p : Ref C Q) (n sh : string) (v : Q) (u : string)
| Call_DurationVarP (p : Ref C Duration) (n sh : string) (v : Duration) (u : string)
| Call_BoolVarP (p : Ref C bool) (n sh : string) (v : bool) (u : string)
| Call_StringP (n sh v u : string)
| Call_IntP (n sh : string) (v : Z) (u : string)
| Call_Float32P (n sh : string) (v : Q) (u : string)
| Call_DurationP (n sh : string) (v : Duration) (u : string)
| Call_BoolP (n sh : string) (v : bool) (u : string)
| Call_AddFlag (l : loc)
| Call_AddFlagSet (newSet : option FlagSet)
| Call_AddGoFlag (g : GoFlag C)
| Call_AddGoFlagSet (newSet : option (gmap string (GoFlag C)))
| Call_SetNormalizeFunc (n : string → string) (ks : list string)
| Call_MarkDeprecated (n u : string)
| Call_MarkShorthandDeprecated (n u : string)
| Call_MarkHidden (n : string)
| Call_SetAnnotation (n k : string) (l : list string)
| Call_Set (n v : string)
| Call_Parse (l : list string)
| Call_Init (n : string) (e : ErrorHandling)
| Call_SetOutput (w : writer)
| Call_SetInterspersed (b : bool).

Definition run_call (c : call) : M (State C) unit :=
  match c with
  | Call_new fl => new_flag fl ;; mret tt
  | Call_VarPF v n sh u => VarPF v n sh u ;; mret tt
  | Call_VarP v n sh u => VarP v n sh u
  | Call_StringVarP p n sh v u => StringVarP p n sh v u
  | Call_IntVarP p n sh v u => IntVarP p n sh v u
  | Call_Float32VarP p n sh v u => Float32VarP p n sh v u
  | Call_DurationVarP p n sh v u => DurationVarP p n sh v u
  | Call_BoolVarP p n sh v u => BoolVarP p n sh v u
  | Call_StringP n sh v u => StringP n sh v u ;; mret tt
  | Call_IntP n sh v u => IntP n sh v u ;; mret tt
  | Call_Float32P n sh v u => Float32P n sh v u ;; mret tt
  | Call_DurationP n sh v u => DurationP n sh v u ;; mret tt
  | Call_BoolP n sh v u => BoolP n sh v u ;; mret tt
  | Call_AddFlag l => AddFlag l
  | Call_AddFlagSet newSet => AddFlagSet newSet
  | Call_AddGoFlag g => AddGoFlag g
  | Call_AddGoFlagSet newSet => AddGoFlagSet newSet
  | Call_SetNormalizeFunc n ks => SetNormalizeFunc n ks
  | Call_MarkDeprecated n u => MarkDeprecated n u ;; mret tt
  | Call_MarkShorthandDeprecated n u => MarkShorthandDeprecated n u ;; mret tt
  | Call_MarkHidden n => MarkHidden n ;; mret tt
  | Call_SetAnnotation n k l => SetAnnotation n k l ;; mret tt
  | Call_Set n v => Set_ n v ;; mret tt
  | Call_Parse l => Parse l ;; mret tt
  | Call_Init n e => on_set (Init n e)
  | Call_SetOutput w => SetOutput w
  | Call_SetInterspersed b => SetInterspersed b
  end.

(** What code leaves when it returns. *)
Definition keeps_wf {A} (m : M (State C) A) s : Prop := ∀ a s', m s = Ret a s' → flags_wf s'.

Lemma keeps_bind {A B} (m : M (State C) A) (f : A → M (State C) B) s :
  keeps_wf m s → (∀ a s', m s = Ret a s' → flags_wf s' → keeps_wf (f a) s') → keeps_wf (mbind f m) s.
Proof.
  intros Hm Hf b s'. rewrite bind_unfold. destruct (m s) as [a s1| | |] eqn:E; try done.
  intros H. by eapply (Hf a s1 eq_refl (Hm a s1 E)).
Qed.
Lemma keeps_ret {A} (a : A) s : flags_wf s → keeps_wf (mret a) s.
Proof. by intros H a' s' [= _ <-]. Qed.
Lemma keeps_unit {A} (m : M (State C) A) s : keeps_wf m s → keeps_wf (m ;; mret tt) s.
Proof. intros H. apply keeps_bind; [done|]. intros. by apply keeps_ret. Qed.

Lemma update_keeps l g s :
  flags_wf s → (∀ fl, Name (g fl) = Name fl ∧ Shorthand (g fl) = Shorthand fl ∧
    (Changed_ fl = true → Changed_ (g fl) = true)) → keeps_wf (update_flag l g) s.
Proof.
  intros Hwf Hg a s' E. unfold update_flag, load_flag in E. rewrite bind_unfold in E.
  destruct (flags s !! l) as [fl|] eqn:Hl; [|done]. destruct (Hg fl) as (H1 & H2 & H3).
  injection E as <- <-. by apply update_wf.
Qed.

Lemma update_some_keeps l g s :
  flags_wf s → (∀ fl, Name (g fl) = Name fl ∧ Shorthand (g fl) = Shorthand fl ∧
    (Changed_ fl = true → Changed_ (g fl) = true)) →
  keeps_wf (update_flag l g ;; mret (@None error)) s.
Proof. intros. apply keeps_bind; [by apply update_keeps|]. intros. by apply keeps_ret. Qed.

Lemma add_new_keeps fl s :
  flags_wf s → keeps_wf (l ← new_flag fl; AddFlag l ;; mret l) s.
Proof.
  intros Hwf a s' E. destruct (new_flag_wf fl s Hwf) as (s1 & E1 & Hwf1 & Hset & _ & Hfl & _).
  assert (flags s1 !! fresh s = Some fl) as Hl by by rewrite Hfl, lookup_insert_eq.
  rewrite (bind_Ret _ _ _ _ _ E1), bind_unfold in E.
  assert (can_add s1 fl ∨ ¬ can_add s1 fl) as [Hcan|Hno].
  { unfold can_add. destruct (decide (normalizeFlagName (fset s1) (Name fl) ∈ names s1)); [right; tauto|].
    destruct (Shorthand fl) as [|c [|]]; [by left| |right; tauto].
    destruct (decide (c ∈ letters s1)); [right; tauto|by left]. }
  - destruct (AddFlag_adds (fresh s) fl s1 Hwf1 Hl) as (s2 & E2 & H2); [|done|].
    { destruct (fresh_loose s Hwf) as (H1 & H2 & H3). unfold loose. by rewrite Hset. }
    rewrite E2 in E. injection E as _ <-. apply H2.
  - destruct (AddFlag_panics (fresh s) fl s1 Hwf1 Hl Hno) as (msg & s2 & E2). by rewrite E2 in E.
Qed.

Lemma VarPF_keeps v n sh u s : flags_wf s → keeps_wf (VarPF v n sh u) s.
Proof.
  intros Hwf l s1 E. unfold VarPF in E. rewrite bind_unfold in E. cbn [get] in E. by eapply add_new_keeps in E.
Qed.
Lemma VarP_keeps v n sh u s : flags_wf s → keeps_wf (VarP v n sh u) s.
Proof. intros Hwf. by apply keeps_unit, VarPF_keeps. Qed.

(** Code on the memory alone, and the calls that store a default value first. *)
Lemma on_mem_keeps {A} (m : M (Mem C) A) s : flags_wf s → keeps_wf (on_mem m) s.
Proof.
  intros Hwf a s'. unfold on_mem, zoom. destruct (m (mem s)); [|done..]. intros [= _ <-]. by apply set_mem_step.
Qed.
Lemma VarP_after_keeps (m : M (Mem C) (Value C)) n sh u s :
  flags_wf s → keeps_wf (v ← on_mem m; VarP v n sh u) s.
Proof. intros Hwf. apply keeps_bind; [by apply on_mem_keeps|]. intros. by apply VarP_keeps. Qed.
Lemma BoolVarP_keeps p n sh v u s : flags_wf s → keeps_wf (BoolVarP p n sh v u) s.
Proof.
  intros Hwf. unfold BoolVarP. apply keeps_bind; [by apply on_mem_keeps|]. intros val s1 _ Hwf1.
  apply keeps_bind; [by apply VarPF_keeps|]. intros l s2 _ Hwf2. by apply update_keeps.
Qed.
Lemma new_variable_keeps {A} (m : M (Mem C) (Ref C A)) (f : Ref C A → M (State C) unit) s :
  flags_wf s → (∀ p s', flags_wf s' → keeps_wf (f p) s') → keeps_wf ((p ← on_mem m; f p ;; mret p) ;; mret tt) s.
Proof.
  intros Hwf Hf. apply keeps_unit, keeps_bind; [by apply on_mem_keeps|]. intros p s1 _ Hwf1.
  apply keeps_bind; [by apply Hf|]. intros. by apply keeps_ret.
Qed.

(** *** Adding flags that exist already *)

(** If the set has the flag at [l], then under a name that is normal. *)
Definition settled s (l : loc) : Prop := ∀ k, formal (fset s) !! k = Some l → normalizeFlagName (fset s) k = k.

(** A settled flag is added only if the set does not have it yet. *)
Lemma AddFlag_Ret l s a s' : flags_wf s → settled s l → AddFlag l s = Ret a s' →
  flags_wf s' ∧ normalizeNameFunc (fset s') = normalizeNameFunc (fset s) ∧
  ∃ n, formal (fset s') = <[n := l]> (formal (fset s)).
Proof.
  intros Hwf Hset E. unfold AddFlag in E. rewrite bind_unfold in E. cbn [get] in E.
  destruct (flags s !! l) as [fl|] eqn:Hl; [|unfold load_flag in E; rewrite bind_unfold in E; by rewrite Hl in E].
  run (load_flag_spec s l fl Hl) in E. cbv zeta in E. set (n := normalizeFlagName _ _) in *.
  destruct (formal (fset s) !! n) as [l'|] eqn:Hn; [done|].
  assert (∀ k, formal (fset s) !! k ≠ Some l) as Hno.
  { intros k Hk. destruct (wf_formal _ Hwf k l Hk) as (fl' & Hl' & Hname). simplify_eq.
    assert (n = Name fl) as Hnn by (apply Hset, Hk). congruence. }
  run (update_flag_spec s l fl (set_Name n) Hl) in E. rewrite bind_unfold in E. cbn [on_set modify] in E.
  destruct (Shorthand fl) as [|c [|]] eqn:Hsh; [| |done].
  - injection E as _ <-. split; [|split; [done|by exists n]].
    apply (set_Name_wf s l fl n); try done. by left.
  - destruct (shorthands (fset s) !! c) as [old|] eqn:Hc.
    { cbn in E. rewrite ?Hc in E. apply bind_Ret_inv in E as (o & s1 & _ & E).
      apply bind_Ret_inv in E as ([] & s2 & _ & E). done. }
    cbn in E. rewrite ?Hc in E. injection E as _ <-. split; [|split; [done|by exists n]].
    apply (set_Name_wf s l fl n); try done.
    cbn. intros c' l' [[<- <-]|[_ Hc']]%lookup_insert_Some; [by right|by left].
Qed.

(** The flags of another set, which shares the heap. *)
Lemma NoDup_omap {A B} (f : A → option B) (l : list A) :
  (∀ x y z, f x = Some z → f y = Some z → x = y) → NoDup l → NoDup (omap f l).
Proof.
  intros Hf. induction 1 as [|x l Hx _ IH]; [constructor|]. cbn. destruct (f x) as [z|] eqn:E; [|done].
  constructor; [|done]. intros (y & Hy & Ey)%list_elem_of_omap. by rewrite (Hf x y z E Ey) in Hx.
Qed.
Lemma sortFlags_NoDup f s : flags_wf (set_fset f s) → NoDup (sortFlags (formal f)).
Proof.
  intros Hwf. unfold sortFlags. apply NoDup_omap.
  - intros k k' l Hk Hk'. destruct (wf_formal _ Hwf k l Hk) as (fl & Hl & <-), (wf_formal _ Hwf k' l Hk') as (fl' & Hl' & <-).
    congruence.
  - unfold sorted_keys. rewrite merge_sort_Permutation. apply NoDup_fst_map_to_list.
Qed.

Lemma AddFlagSet_keeps newSet s :
  flags_wf s → (∀ f, newSet = Some f → flags_wf (set_fset f s) ∧ ∀ k l, formal f !! k = Some l → settled s l) →
  keeps_wf (AddFlagSet newSet) s.
Proof.
  intros Hwf Hnew. destruct newSet as [f|]; [|by apply keeps_ret]. destruct (Hnew f eq_refl) as [Hf Hs]. clear Hnew.
  assert (Forall (settled s) (sortFlags (formal f))) as Hall.
  { apply Forall_forall. intros l (k & _ & Hk)%list_elem_of_omap. by eapply Hs. }
  apply sortFlags_NoDup in Hf. clear Hs. unfold AddFlagSet.
  revert s Hwf Hall. induction Hf as [|l ls Hl _ IH]; intros s Hwf Hall; [by apply keeps_ret|].
  apply Forall_cons in Hall as [Hsl Hall]. cbn [for_each]. intros a s'. rewrite bind_unfold, bind_unfold. cbn [get].
  rewrite bind_unfold. unfold load_flag. destruct (flags s !! l) as [fl|] eqn:Hfl; [|done].
  destruct (Lookup (fset s) (Name fl)) as [l'|]; [by apply (IH s Hwf Hall)|].
  destruct (AddFlag l s) as [[] s1| | |] eqn:E; [|done..].
  destruct (AddFlag_Ret l s tt s1 Hwf Hsl E) as (Hwf1 & Hnorm & n & Hform). apply (IH s1 Hwf1).
  rewrite Forall_forall in Hall |- *. intros l2 Hl2 k Hk. rewrite (normalize_same (fset s)) by done.
  rewrite Hform in Hk. apply lookup_insert_Some in Hk as [[_ <-]|[_ Hk]]; [done|]. by apply (Hall l2).
Qed.

Lemma AddGoFlag_keeps g s : flags_wf s → keeps_wf (AddGoFlag g) s.
Proof.
  intros Hwf [] s' E. unfold AddGoFlag in E. rewrite bind_unfold in E. cbn [get] in E.
  destruct (Lookup _ _); [by injection E as <-|].
  apply (add_new_keeps (PFlagFromGoFlag g (mem s)) s Hwf (fresh s)).
  m_unfold. destruct (new_flag _ s) as [l s1| | |] eqn:E1; try done. injection E1 as <- <-. by rewrite E.
Qed.

Lemma renormalize_keeps k s : flags_wf s → keeps_wf (renormalize k) s.
Proof.
  intros Hwf [] s' E. unfold renormalize in E. rewrite bind_unfold in E. cbn [get] in E.
  destruct (formal (fset s) !! k) as [l|] eqn:Hk; [|by injection E as <-].
  destruct (wf_formal _ Hwf k l Hk) as (fl & Hl & Hname).
  rewrite bind_unfold in E. cbn [on_set modify] in E. cbv zeta in E. rewrite bind_unfold in E.
  cbn [on_set modify] in E. set (n := normalizeFlagName (fset s) k) in *.
  erewrite update_flag_spec in E by exact Hl. injection E as <-.
  destruct Hwf as [Hf Hfo Hsh Hac]. cbn.
  pose proof (λ l' fl' P, insert_flag_keeps s l fl (set_Name n fl) l' fl' P Hl) as Hkeep.
  split; cbn.
  - intros l' Hl'. rewrite lookup_insert_ne; [by apply Hf|]. intros ->. rewrite Hf in Hl; done.
  - intros k' l'. rewrite lookup_insert_Some, lookup_delete_Some. intros [[<- <-]|(Hne & Hne' & Hk')].
    + eexists. by rewrite lookup_insert_eq.
    + destruct (Hfo k' l' Hk') as (fl' & Hl' & Hn'). exists fl'. rewrite lookup_insert_ne; [done|].
      intros ->. congruence.
  - intros c l' Hc. destruct (Hsh c l' Hc) as (fl' & H1 & H2).
    by apply (Hkeep l' fl' (λ fl, Shorthand fl = String c "")).
  - intros k' l' Hk'. destruct (Hac k' l' Hk') as (fl' & H1 & H2).
    by apply (Hkeep l' fl' (λ fl, Changed_ fl = true)).
Qed.

Lemma SetNormalizeFunc_keeps n ks s : flags_wf s → keeps_wf (SetNormalizeFunc n ks) s.
Proof.
  intros Hwf. unfold SetNormalizeFunc. apply keeps_bind; [intros a s' [= _ <-]; destruct Hwf; by split|].
  intros [] s1 _ Hwf1. revert s1 Hwf1. induction ks as [|k ks IH]; intros s1 Hwf1; [by apply keeps_ret|].
  cbn. apply keeps_bind; [by apply renormalize_keeps|]. intros [] s2 _ Hwf2. by apply IH.
Qed.

Lemma Set_keeps n v s : flags_wf s → keeps_wf (Set_ n v) s.
Proof.
  intros Hwf e s' E. unfold Set_ in E. rewrite bind_unfold in E. cbn [get] in E. cbv zeta in E.
  destruct (formal (fset s) !! normalizeFlagName (fset s) n) as [l|] eqn:Hk; [|by injection E as _ <-].
  destruct (wf_formal _ Hwf _ _ Hk) as (fl & Hl & Hname). run (load_flag_spec s l fl Hl) in E.
  rewrite bind_unfold in E. unfold on_mem, zoom in E.
  destruct (Value_Set (Flag_Value fl) v (mem s)) as [[err|] m| | |]; try done.
  { injection E as _ <-. by apply set_mem_step. }
  rewrite bind_unfold in E. cbn [on_set modify] in E.
  set (s1 := set_fset _ _) in E. run (update_flag_spec s1 l fl (set_Changed true) Hl) in E.
  destruct (warn_deprecated_ok fl (set_flags (<[l := set_Changed true fl]> (flags s1)) s1)) as ([] & s2 & E2 & H2).
  run E2 in E. injection E as _ <-. eapply only_written_wf; [done|].
  apply (mark_wf _ (set_mem m s) l fl); [|done]. by apply set_mem_step.
Qed.

Lemma AddGoFlagSet_keeps newSet s : flags_wf s → keeps_wf (AddGoFlagSet newSet) s.
Proof.
  intros Hwf. destruct newSet as [m|]; [|by apply keeps_ret]. unfold AddGoFlagSet.
  revert s Hwf. induction (omap _ _) as [|g gs IH]; intros s Hwf; [by apply keeps_ret|]. cbn [for_each].
  apply keeps_bind; [by apply AddGoFlag_keeps|]. intros _ s1 _ Hwf1. by apply IH.
Qed.

(** A parse is within its contract when the process has a name and the values' own
    [Set] returns.  A flag that the set has already may be added again only if its name is
    normal ([AddFlag_again_breaks]); another set shares the heap and has the invariant. *)
Definition legal (c : call) s : Prop :=
  match c with
  | Call_Parse _ => has_arg0 s ∧ values_return s
  | Call_AddFlag l => settled s l
  | Call_AddFlagSet (Some f) => flags_wf (set_fset f s) ∧ ∀ k l, formal f !! k = Some l → settled s l
  | _ => True
  end.

Lemma run_call_keeps c s : flags_wf s → legal c s → keeps_wf (run_call c) s.
Proof.
  intros Hwf Hc.
  destruct c; cbn [run_call];
    try (by apply VarP_after_keeps); try (by apply BoolVarP_keeps);
    try (apply new_variable_keeps; [done|]; intros; by (apply VarP_after_keeps || apply BoolVarP_keeps)).
  - apply keeps_unit. intros l s1 E. destruct (new_flag_wf fl s Hwf) as (s2 & E2 & Hwf2 & _). rewrite E in E2.
    by injection E2 as _ ->.
  - by apply keeps_unit, VarPF_keeps.
  - by apply VarP_keeps.
  - intros a s1 E. by apply (AddFlag_Ret l s a s1 Hwf Hc) in E as [? _].
  - apply AddFlagSet_keeps; [done|]. by intros f ->.
  - by apply AddGoFlag_keeps.
  - by apply AddGoFlagSet_keeps.
  - by apply SetNormalizeFunc_keeps.
  - apply keeps_unit. unfold MarkDeprecated. apply keeps_bind; [by intros ? ? [= _ <-]|].
    intros s0 s1 [= <- <-] _. case_match; [|by apply keeps_ret]. case_decide; [by apply keeps_ret|].
    by apply update_some_keeps.
  - apply keeps_unit. unfold MarkShorthandDeprecated. apply keeps_bind; [by intros ? ? [= _ <-]|].
    intros s0 s1 [= <- <-] _. case_match; [|by apply keeps_ret]. case_decide; [by apply keeps_ret|].
    by apply update_some_keeps.
  - apply keeps_unit. unfold MarkHidden. apply keeps_bind; [by intros ? ? [= _ <-]|].
    intros s0 s1 [= <- <-] _. case_match; [|by apply keeps_ret]. by apply update_some_keeps.
  - apply keeps_unit. unfold SetAnnotation. apply keeps_bind; [by intros ? ? [= _ <-]|].
    intros s0 s1 [= <- <-] _. cbv zeta. case_match; [|by apply keeps_ret]. by apply update_some_keeps.
  - apply keeps_unit. by apply Set_keeps.
  - apply keeps_unit. intros e s1 E. destruct Hc as [Harg Hv].
    destruct (Parse_ends s l Hwf Harg Hv) as (s2 & Hwf2 & _ & [E2|[err E2]]); rewrite E2 in E.
    + by injection E as _ <-.
    + destruct (errorHandling (fset s)); try done. by injection E as _ <-.
  - intros [] s1 [= <-]. destruct Hwf. by split.
  - intros [] s1 [= <-]. destruct Hwf. by split.
  - intros [] s1 [= <-]. destruct Hwf. by split.
Qed.

(** ** Setting and reading *)
Lemma Set_accepts n v no x m s :
  flags_wf s → registered s n v no → Value_Set v x (mem s) = Ret None m →
  ∃ s', Set_ n x s = Ret None s' ∧ mem s' = m ∧ flags_wf s' ∧ registered s' n v no.
Proof.
  intros Hwf (l & fl & Hk & Hl & Hv & Hno) Hset.
  unfold Set_. rewrite bind_unfold. cbn [get]. cbv zeta. rewrite Hk. run (load_flag_spec s l fl Hl).
  rewrite (bind_Ret _ _ _ None (set_mem m s)). 2: { unfold on_mem, zoom. by rewrite Hv, Hset. }
  rewrite bind_unfold. cbn [on_set modify]. set (s1 := set_fset _ _).
  run (update_flag_spec s1 l fl (set_Changed true) Hl).
  destruct (warn_deprecated_ok fl (set_flags (<[l := set_Changed true fl]> (flags s1)) s1))
    as ([] & s2 & E2 & w & ->). run E2. eexists. split; [reflexivity|]. split; [done|]. split.
  - eapply only_written_wf; [by eexists|]. apply (mark_wf _ (set_mem m s) l fl); [|done].
    by apply set_mem_step.
  - exists l, (set_Changed true fl). cbn. by rewrite lookup_insert_eq.
Qed.

Lemma getFlagType_registered {A} n v no (conv : string → A * option error) s :
  registered s n v no →
  getFlagType n (Value_Type v) conv s =
    Ret (match (conv (Value_String v (mem s))).2 with
         | Some err => inl err | None => inr (conv (Value_String v (mem s))).1 end) s.
Proof.
  intros (l & fl & Hk & Hl & Hv & Hno). unfold getFlagType, Lookup, lookup_. rewrite bind_unfold. cbn [get].
  rewrite Hk. run (load_flag_spec s l fl Hl). rewrite Hv. rewrite decide_False by auto.
  cbv zeta. by destruct (conv _) as [y []].
Qed.

(** ** The properties *)

(** The calls that a program makes, each within its contract. *)
Definition may_call s s' : Prop := ∃ c, legal c s ∧ run_call c s = Ret tt s'.

(** C29: the methods that change a set of flags keep its invariant whenever they return, in
    any sequence of calls: the pointers of the three maps refer to flags, a flag is found
    under its own name, a shorthand under its letter, and the flags that were visited are
    changed.  AddFlag and AddFlagSet do so for flags that the set does not have yet or has
    under names that are normal (and another set that shares the heap and has the
    invariant); Parse when the process has a name and the [Set] of each value returns. *)
Theorem flags_wf_kept s s' : flags_wf s → rtc may_call s s' → flags_wf s'.
Proof.
  intros Hwf Hr. eapply (rtc_invariant may_call flags_wf); [|exact Hr|done].
  intros a b Ha (c & Hc & E). by apply (run_call_keeps c a Ha Hc tt).
Qed.

(** What is set is read: for a flag of a type with a canonical text, setting the
    text of a value succeeds and the typed getter answers that value; an integer that
    does not fit 64 bits is refused with an error, but the nearest one that fits is
    stored all the same. *)
Theorem get_set s n :
  flags_wf s →
  (∀ p no z, registered s n (intValue p) no → ref_ok p (mem s) → is_int64 z →
     ∃ s', Set_ n (pretty z) s = Ret None s' ∧ GetInt n s' = Ret (z, None) s') ∧
  (∀ p no b, registered s n (boolValue p) no → ref_ok p (mem s) →
     ∃ s', Set_ n (FormatBool b) s = Ret None s' ∧ GetBool n s' = Ret (b, None) s') ∧
  (∀ p no x, registered s n (stringValue p) no → ref_ok p (mem s) →
     ∃ s', Set_ n x s = Ret None s' ∧ GetString n s' = Ret (x, None) s') ∧
  (∀ p no x, registered s n (intValue p) no → ref_ok p (mem s) → HasPrefix x "-" = false →
     HasPrefix x "+" = false → ParseUint x 0 = OutOfRange →
     ∃ s' e, Set_ n x s = Ret (Some e) s' ∧ GetInt n s' = Ret (max_int64, None) s').
Proof.
  intros Hwf. split; [|split; [|split]].
  - intros p no z Hreg Hp Hz.
    destruct (Set_accepts n (intValue p) no (pretty z) (store p z (mem s)) s Hwf Hreg) as (s' & E & Hm & _ & Hreg').
    { cbn. unfold intValue_Set, ParseInt. rewrite parse_int_pretty by auto. done. }
    exists s'. split; [done|]. unfold GetInt, getter.
    rewrite bind_unfold. change "int" with (Value_Type (intValue p)).
    rewrite (getFlagType_registered _ _ _ _ _ Hreg'). cbn. unfold intValue_String. rewrite Hm, Hp.
    unfold intConv, Atoi. by rewrite parse_int_pretty by auto.
  - intros p no b Hreg Hp.
    destruct (Set_accepts n (boolValue p) no (FormatBool b) (store p b (mem s)) s Hwf Hreg) as (s' & E & Hm & _ & Hreg').
    { by destruct b. }
    exists s'. split; [done|]. unfold GetBool, getter.
    rewrite bind_unfold. change "bool" with (Value_Type (boolValue p)).
    rewrite (getFlagType_registered _ _ _ _ _ Hreg'). cbn. unfold boolValue_String. rewrite Hm, Hp.
    by destruct b.
  - intros p no x Hreg Hp.
    destruct (Set_accepts n (stringValue p) no x (store p x (mem s)) s Hwf Hreg) as (s' & E & Hm & _ & Hreg'); [done|].
    exists s'. split; [done|]. unfold GetString, getter.
    rewrite bind_unfold. change "string" with (Value_Type (stringValue p)).
    rewrite (getFlagType_registered _ _ _ _ _ Hreg'). cbn. unfold stringValue_String. by rewrite Hm, Hp.
  - intros p no x Hreg Hp Hminus Hplus Hx.
    assert (ParseInt x 0 = (max_int64, Some (rangeError "ParseInt" x))) as Hpi.
    { unfold ParseInt, parse_int. destruct x as [|c x]; [done|].
      assert (∀ (A : Type) (a b d : A), match c with "+"%char => a | "-"%char => b | _ => d end = d) as Hsign.
      { intros A a b d. destruct c as [[][][][][][][][]]; try reflexivity.
        - by destruct x. - by destruct x. }
      rewrite Hsign. rewrite Hx. done. }
    pose proof Hreg as (l & fl & Hk & Hl & Hv & Hno).
    set (s' := set_mem (store p max_int64 (mem s)) s).
    assert (registered s' n (intValue p) no) as Hreg' by exact Hreg.
    exists s', (rangeError "ParseInt" x). split.
    + unfold Set_. rewrite bind_unfold. cbn [get]. cbv zeta. rewrite Hk. run (load_flag_spec s l fl Hl).
      rewrite bind_unfold. unfold on_mem, zoom. rewrite Hv. cbn. unfold intValue_Set. by rewrite Hpi.
    + unfold GetInt, getter. rewrite bind_unfold. change "int" with (Value_Type (intValue p)).
      rewrite (getFlagType_registered _ _ _ _ _ Hreg'). cbn. unfold intValue_String. rewrite Hp.
      unfold intConv, Atoi. by rewrite parse_int_pretty by (auto; unfold is_int64, min_int64, max_int64; lia).
Qed.
End Ops.

(** ** Witnesses *)
Module Sample.
#[local] Existing Instance order_up.
#[local] Instance formats : GoFormats := {|
  Quote s := "'" +:+ s +:+ "'";
  QuoteByte c := String c "";
  ParseFloat32 s := (0%Q, None);
  FormatFloat32 q := "0";
  ParseDuration s := (0, None);
  Duration_String d := "0s"
|}.

(** A set with an integer flag that has a letter, and a boolean flag. *)
Definition port_ref : Ref (Z * bool) Z := field_ref fst (λ x c, (x, c.2)).
Definition verbose_ref : Ref (Z * bool) bool := field_ref snd (λ x c, (c.1, x)).
Definition empty : State (Z * bool) := mkState (CommandLine "prog") ∅ 0%nat (mkMem (80, false) []) [] ["prog"].
Definition define_port : call := Call_VarPF (intValue port_ref) "port" "p" "the port".
Definition define_verbose : call := Call_VarPF (boolValue verbose_ref) "verbose" "" "talk more".
Definition set1 : State (Z * bool) := final (run_call define_port empty).
Definition set2 : State (Z * bool) := final (run_call define_verbose set1).

Lemma empty_wf : flags_wf empty.
Proof. split; cbn; try done; intros ? ?; by rewrite lookup_empty. Qed.
Lemma set1_wf : flags_wf set1.
Proof. apply (run_call_keeps define_port empty empty_wf I tt). reflexivity. Qed.
Lemma set2_wf : flags_wf set2.
Proof. apply (run_call_keeps define_verbose set1 set1_wf I tt). vm_compute. reflexivity. Qed.
Lemma set2_arg0 : has_arg0 set2.
Proof. intros _. discriminate. Qed.
Lemma set2_values : values_return set2.
Proof.
  intros l fl. assert (flags set2 = <[1%nat := default (mkFlag "" "" "" (intValue port_ref) "" false "" "" false "" ∅) (flags set2 !! 1%nat)]>
    {[0%nat := default (mkFlag "" "" "" (intValue port_ref) "" false "" "" false "" ∅) (flags set2 !! 0%nat)]}) as ->
    by (vm_compute; reflexivity).
  intros [[_ <-]|[_ [_ <-]%lookup_singleton_Some]]%lookup_insert_Some; by apply own_value_returns.
Qed.

Definition items : list item := [Long_eq "port" "8080"; Positional "x"; Short_join "p" "90"].

(** A run: a flag of the program's own is added, names are normalised, a flag is hidden and
    one is set, and a command line is parsed. *)
Definition own_flag : Flag (Z * bool) :=
  mkFlag "dry_run" "n" "do nothing" (boolValue verbose_ref) "false" false "true" "" false "" ∅.
Definition set3 : State (Z * bool) := final (run_call (Call_new own_flag) set1).
Definition set4 : State (Z * bool) := final (run_call (Call_AddFlag 1%nat) set3).
Definition set5 : State (Z * bool) :=
  final (run_call (Call_SetNormalizeFunc WordSepNormalizeFunc ["dry_run"; "port"]) set4).
Definition set6 : State (Z * bool) := final (run_call (Call_MarkHidden "dry_run") set5).
Definition set7 : State (Z * bool) := final (run_call (Call_Set "port" "8080") set6).

Lemma flags_wf_kept_witness : flags_wf set7 ∧ formal (fset set7) !! "dry-run" = Some 1%nat.
Proof.
  split; [|vm_compute; reflexivity].
  refine (flags_wf_kept set1 set7 set1_wf _).
  eapply rtc_l; [|eapply rtc_l; [|eapply rtc_l; [|eapply rtc_l; [|eapply rtc_once]]]].
  - exists (Call_new own_flag). split; [exact I|]. instantiate (1 := set3). vm_compute. reflexivity.
  - exists (Call_AddFlag 1%nat). split; [|instantiate (1 := set4); vm_compute; reflexivity]. intros k _. reflexivity.
  - exists (Call_SetNormalizeFunc WordSepNormalizeFunc ["dry_run"; "port"]). split; [exact I|].
    instantiate (1 := set5). vm_compute. reflexivity.
  - exists (Call_MarkHidden "dry_run"). split; [exact I|]. instantiate (1 := set6). vm_compute. reflexivity.
  - exists (Call_Set "port" "8080"). split; [exact I|]. vm_compute. reflexivity.
Defined.

(** The contract of AddFlag is needed: with a function that changes names again each time,
    adding a flag twice succeeds, and then the set has it under a name that is not its
    own. *)
Definition bare_flag : Flag (Z * bool) := mkFlag "dry_run" "" "do nothing" (boolValue verbose_ref) "false" false "true" "" false "" ∅.
Definition longer (n : string) : string := n +:+ "x".
Definition added_twice : M (State (Z * bool)) unit :=
  run_call (Call_SetNormalizeFunc longer []) ;; run_call (Call_new bare_flag) ;;
  run_call (Call_AddFlag 0%nat) ;; run_call (Call_AddFlag 0%nat).
Theorem AddFlag_again_breaks : ∃ s, added_twice empty = Ret tt s ∧ ¬ flags_wf s.
Proof.
  exists (final (added_twice empty)). split; [vm_compute; reflexivity|]. intros Hwf.
  destruct (wf_formal _ Hwf "dry_runx" 0%nat) as (fl & Hl & Hn); [vm_compute; reflexivity|].
  vm_compute in Hl. injection Hl as <-. discriminate.
Qed.

Lemma get_set_witness :
  ∃ s', Set_ "port" "-5" set2 = Ret None s' ∧ GetInt "port" s' = Ret (-5, None) s'.
Proof.
  refine (proj1 (get_set set2 "port" set2_wf) port_ref "" (-5) _ _ _).
  - exists 0%nat, (default (mkFlag "" "" "" (intValue port_ref) "" false "" "" false "" ∅) (flags set2 !! 0%nat)).
    vm_compute. repeat split; reflexivity.
  - intros a. reflexivity.
  - vm_compute. split; discriminate.
Defined.

Lemma parse_unparse_witness :
  ∃ s', Parse ["--port=8080"; "x"; "-p90"; "--"; "-p"] set2 = Ret None s' ∧
    object (mem s') = (90, false) ∧ Args (fset s') = ["x"; "-p"] ∧ ArgsLenAtDash (fset s') = 1.
Proof.
  destruct (parse_unparse set2 items (Some ["-p"]) (mkMem (90, false) []) set2_wf) as (s' & E & Hm & Ha & _ & Hd & _).
  - reflexivity.
  - repeat (apply Forall_cons; split); try by apply Forall_nil.
    all: repeat split; try discriminate; by right.
  - vm_compute. reflexivity.
  - exists s'. split; [exact E|]. split; [rewrite Hm; reflexivity|]. split; [exact Ha|exact Hd].
Defined.

Lemma Parse_rejects_witness :
  ∃ s', Parse ["--port=8080"; "x"; "-p90"; "--prot"; "1"] set2 = Exit s' ∧ object (mem s') = (90, false).
Proof.
  destruct (Parse_rejects set2 items ["--prot"; "1"] (Errorf "unknown flag: --prot") (mkMem (90, false) [])
    (mkMem (90, false) []) set2_wf set2_arg0) as (s' & Hm & E).
  - reflexivity.
  - repeat (apply Forall_cons; split); try by apply Forall_nil.
    all: repeat split; try discriminate; by right.
  - vm_compute. reflexivity.
  - apply (refused_unknown set2 _ "prot"); [repeat split; discriminate|vm_compute; reflexivity|discriminate].
  - exists s'. split; [exact E|]. by rewrite Hm.
Defined.

Lemma Parse_ends_witness :
  ∃ s', flags_wf s' ∧ (Parse ["-p"; "--verbose"; "-x"] set2 = Ret None s' ∨ Parse ["-p"; "--verbose"; "-x"] set2 = Exit s').
Proof.
  destruct (Parse_ends set2 ["-p"; "--verbose"; "-x"] set2_wf set2_arg0 set2_values) as (s' & Hwf & _ & [E|[err E]]).
  - exists s'. split; [exact Hwf|]. left. exact E.
  - exists s'. split; [exact Hwf|]. right. exact E.
Defined.
End Sample.
