(* ===== verification/Backoff.v ===== *)
(** [util/flowcontrol/backoff.go]: the per-key backoff windows.

    Every method runs under the embedded mutex, so it is one transition of the
    state.  A reading of [p.Clock.Now()] is an argument ([now]) of the method
    that takes it.  Entries live behind pointers ([PtrMap.v]). *)

From stdpp Require Import gmap strings list.
From S2P Require Import Prelude GoTime PtrMap.

Local Open Scope Z_scope.

Record backoffEntry := mkBackoffEntry { backoff : Duration; lastUpdate : Time }.

Record Backoff := mkBackoff {
  defaultDuration : Duration;
  maxDuration : Duration;
  perItemBackoff : ptrmap backoffEntry
}.

(** [NewBackOff] (and [NewFakeBackOff], which differs in the clock only). *)
Definition NewBackOff (initial max : Duration) : Backoff := mkBackoff initial max ptr_empty.

Definition set_perItemBackoff (m : ptrmap backoffEntry) (p : Backoff) : Backoff :=
  mkBackoff (defaultDuration p) (maxDuration p) m.

(** Code on the map inside the struct. *)
Definition on_items {A} (m : M (ptrmap backoffEntry) A) : M Backoff A :=
  zoom perItemBackoff set_perItemBackoff m.

(** [hasExpired]; the product is an [int64] one. *)
Definition hasExpired (eventTime lastUpdate : Time) (maxDuration : Duration) : bool :=
  bool_decide (wrap64 (maxDuration * 2) < Sub eventTime lastUpdate).

Definition Get (id : string) : M Backoff Duration :=
  entry ← on_items (ptr_lookup id);
  match entry with
  | Some _ => e ← on_items (ptr_load entry); mret (backoff e)
  | None => mret 0
  end.

(** [initEntryUnsafe]. *)
Definition initEntryUnsafe (id : string) : M Backoff loc :=
  d ← gets defaultDuration;
  on_items (entry ← ptr_new (mkBackoffEntry d zero_Time); ptr_set id entry ;; mret entry).

Definition Next (id : string) (eventTime now : Time) : M Backoff unit :=
  entry ← on_items (ptr_lookup id);
  maxD ← gets maxDuration;
  renew ← match entry with
          | None => mret true
          | Some _ =>
              e ← on_items (ptr_load entry);
              mret (hasExpired eventTime (lastUpdate e) maxD)
          end;
  entry ← (if renew : bool then l ← initEntryUnsafe id; mret (Some l) else mret entry);
  e ← on_items (ptr_load entry);
  on_items (ptr_store entry (mkBackoffEntry (backoff e) now)).

Definition Reset (id : string) : M Backoff unit := on_items (ptr_delete id).

Definition IsInBackOffSince (id : string) (eventTime now : Time) : M Backoff bool :=
  entry ← on_items (ptr_lookup id);
  maxD ← gets maxDuration;
  match entry with
  | None => mret false
  | Some _ =>
      e ← on_items (ptr_load entry);
      if hasExpired eventTime (lastUpdate e) maxD then mret false
      else mret (bool_decide (Sub now eventTime < backoff e))
  end.

Definition IsInBackOffSinceUpdate (id : string) (eventTime : Time) : M Backoff bool :=
  entry ← on_items (ptr_lookup id);
  maxD ← gets maxDuration;
  match entry with
  | None => mret false
  | Some _ =>
      e ← on_items (ptr_load entry);
      if hasExpired eventTime (lastUpdate e) maxD then mret false
      else mret (bool_decide (Sub eventTime (lastUpdate e) < backoff e))
  end.

(** The body of [GC]'s loop for one key of the map. *)
Definition GC_body (now : Time) (maxD : Duration) (id : string) : M Backoff unit :=
  entry ← on_items (ptr_lookup id);
  e ← on_items (ptr_load entry);
  if decide (wrap64 (maxD * 2) < Sub now (lastUpdate e))
  then on_items (ptr_delete id) else mret tt.

Definition GC `{!MapOrder} (now : Time) : M Backoff unit :=
  ids ← gets (λ p, map_range (table (perItemBackoff p)));
  maxD ← gets maxDuration;
  for_each (GC_body now maxD) ids.

Definition DeleteEntry (id : string) : M Backoff unit := on_items (ptr_delete id).

(** ** The entries as a map of values *)

Definition entries (p : Backoff) : gmap string backoffEntry := view (perItemBackoff p).

Definition backoff_wf (p : Backoff) : Prop := ptr_wf (perItemBackoff p).

(** What [Next] does to the entries. *)
Definition next_entries (p : Backoff) (id : string) (eventTime now : Time)
    : gmap string backoffEntry :=
  let b := match entries p !! id with
           | Some e => if hasExpired eventTime (lastUpdate e) (maxDuration p)
                       then defaultDuration p else backoff e
           | None => defaultDuration p
           end in
  <[id := mkBackoffEntry b now]> (entries p).

(** [p'] differs from [p] in the entries only, which are [es]. *)
Record becomes (p p' : Backoff) (es : gmap string backoffEntry) : Prop := {
  bec_wf : backoff_wf p';
  bec_entries : entries p' = es;
  bec_default : defaultDuration p' = defaultDuration p;
  bec_max : maxDuration p' = maxDuration p
}.

Lemma NewBackOff_wf initial max : backoff_wf (NewBackOff initial max).
Proof. apply ptr_wf_empty. Qed.
#[export] Hint Resolve NewBackOff_wf : go.

Lemma entries_New initial max : entries (NewBackOff initial max) = ∅.
Proof. apply view_empty. Qed.

(** Looking up and reading an entry. *)
Lemma entry_cases p id :
  backoff_wf p →
  (table (perItemBackoff p) !! id = None ∧ entries p !! id = None) ∨
  (∃ l e, table (perItemBackoff p) !! id = Some l ∧ heap (perItemBackoff p) !! l = Some e ∧
          entries p !! id = Some e).
Proof. apply ptr_lookup_view. Qed.

Lemma set_perItemBackoff_id p : set_perItemBackoff (perItemBackoff p) p = p.
Proof. by destruct p. Qed.

Lemma on_items_lookup id p :
  on_items (ptr_lookup id) p = Ret (table (perItemBackoff p) !! id) p.
Proof. unfold on_items, zoom, ptr_lookup, gets. by rewrite set_perItemBackoff_id. Qed.

Lemma on_items_load l e p :
  heap (perItemBackoff p) !! l = Some e → on_items (ptr_load (Some l)) p = Ret e p.
Proof.
  intros He. unfold on_items, zoom, ptr_load. simpl. by rewrite He, set_perItemBackoff_id.
Qed.

Lemma Get_spec p id :
  backoff_wf p →
  Get id p = Ret (match entries p !! id with Some e => backoff e | None => 0 end) p.
Proof.
  intros Hwf. unfold Get. run (on_items_lookup id p).
  destruct (entry_cases p id Hwf) as [[-> ->]|(l & e & -> & He & ->)]; [done|].
  by run (on_items_load l e p He).
Qed.

Lemma on_items_store id l e p :
  backoff_wf p → table (perItemBackoff p) !! id = Some l →
  ∃ p', on_items (ptr_store (Some l) e) p = Ret tt p' ∧ becomes p p' (<[id := e]> (entries p)).
Proof.
  intros Hwf Hl. destruct (ptr_store_view (perItemBackoff p) id l e Hwf Hl)
    as (m' & Hs & Hwf' & _ & Hv). unfold on_items, zoom. rewrite Hs.
  eexists. split; [done|]. by split.
Qed.

Lemma initEntryUnsafe_spec id p :
  backoff_wf p →
  ∃ p' l, initEntryUnsafe id p = Ret l p' ∧ table (perItemBackoff p') !! id = Some l ∧
    heap (perItemBackoff p') !! l = Some (mkBackoffEntry (defaultDuration p) zero_Time) ∧
    becomes p p' (<[id := mkBackoffEntry (defaultDuration p) zero_Time]> (entries p)).
Proof.
  intros Hwf. destruct (ptr_put_new_view (perItemBackoff p) id
    (mkBackoffEntry (defaultDuration p) zero_Time) Hwf) as (m' & l & Hn & Hwf' & Ht & Hh & Hv).
  unfold initEntryUnsafe. rewrite (bind_Ret _ _ _ (defaultDuration p) p) by done.
  unfold on_items, zoom. rewrite Hn. eexists _, _. split; [done|]. by split_and!.
Qed.

(** The rest of [Next] when the entry is made anew. *)
Lemma renew_spec id now p :
  backoff_wf p →
  ∃ p', (entry ← (l ← initEntryUnsafe id; mret (Some l));
         e ← on_items (ptr_load entry);
         on_items (ptr_store entry (mkBackoffEntry (backoff e) now))) p = Ret tt p' ∧
    becomes p p' (<[id := mkBackoffEntry (defaultDuration p) now]> (entries p)).
Proof.
  intros Hwf. destruct (initEntryUnsafe_spec id p Hwf) as (p1 & l & Hi & Ht & Hh & [Hwf1 He1 Hd1 Hm1]).
  rewrite (bind_Ret _ _ p (Some l) p1) by by run Hi.
  run (on_items_load _ _ _ Hh). simpl.
  edestruct (on_items_store id l) as (p2 & -> & [Hwf2 He2 Hd2 Hm2]); [done..|].
  eexists. split; [done|]. split; [done| |congruence..].
  rewrite He2, He1. apply insert_insert_eq.
Qed.

Lemma Next_spec id eventTime now p :
  backoff_wf p →
  ∃ p', Next id eventTime now p = Ret tt p' ∧ becomes p p' (next_entries p id eventTime now).
Proof.
  intros Hwf. unfold Next. run (on_items_lookup id p).
  rewrite (bind_Ret _ _ _ (maxDuration p) p) by done.
  pose proof (renew_spec id now p Hwf) as Hinit.
  unfold next_entries.
  destruct (entry_cases p id Hwf) as [[-> ->]|(l & e & Ht & He & ->)].
  - rewrite (bind_Ret _ _ _ true p) by done. exact Hinit.
  - rewrite Ht. rewrite (bind_Ret _ _ p (hasExpired eventTime (lastUpdate e) (maxDuration p)) p)
      by by run (on_items_load l e p He).
    destruct (hasExpired _ _ _); [exact Hinit|].
    rewrite (bind_Ret _ _ _ (Some l) p) by done.
    run (on_items_load l e p He). by apply on_items_store.
Qed.

(** The test both queries share. *)
Lemma query_spec id eventTime p (f : backoffEntry → bool) :
  backoff_wf p →
  (entry ← on_items (ptr_lookup id);
   maxD ← gets maxDuration;
   match entry with
   | None => mret false
   | Some _ =>
       e ← on_items (ptr_load entry);
       if hasExpired eventTime (lastUpdate e) maxD then mret false else mret (f e)
   end) p =
  Ret (match entries p !! id with
       | None => false
       | Some e => negb (hasExpired eventTime (lastUpdate e) (maxDuration p)) && f e
       end) p.
Proof.
  intros Hwf. run (on_items_lookup id p).
  rewrite (bind_Ret _ _ _ (maxDuration p) p) by done.
  destruct (entry_cases p id Hwf) as [[-> ->]|(l & e & -> & He & ->)]; [done|].
  run (on_items_load l e p He). by destruct (hasExpired _ _ _).
Qed.

Lemma IsInBackOffSinceUpdate_spec id eventTime p :
  backoff_wf p →
  IsInBackOffSinceUpdate id eventTime p =
  Ret (match entries p !! id with
       | None => false
       | Some e => negb (hasExpired eventTime (lastUpdate e) (maxDuration p)) &&
                   bool_decide (Sub eventTime (lastUpdate e) < backoff e)
       end) p.
Proof. apply query_spec. Qed.

Lemma IsInBackOffSince_spec id eventTime now p :
  backoff_wf p →
  IsInBackOffSince id eventTime now p =
  Ret (match entries p !! id with
       | None => false
       | Some e => negb (hasExpired eventTime (lastUpdate e) (maxDuration p)) &&
                   bool_decide (Sub now eventTime < backoff e)
       end) p.
Proof. apply query_spec. Qed.

Lemma delete_spec id p :
  backoff_wf p →
  ∃ p', on_items (ptr_delete id) p = Ret tt p' ∧ becomes p p' (delete id (entries p)).
Proof.
  intros Hwf. destruct (ptr_delete_view (perItemBackoff p) id Hwf) as (m' & Hd & Hwf' & Hv).
  unfold on_items, zoom. rewrite Hd. eexists. split; [done|]. by split.
Qed.
