(* ===== verification/BackoffProps.v ===== *)
(** The properties of the backoff windows: the length of a window over the
    lifetime of the object, when a caller is inside one, and what the garbage
    collection removes, whatever the order of the map's iteration. *)

From stdpp Require Import gmap strings list.
From S2P Require Import Prelude GoTime PtrMap Backoff.

Local Open Scope Z_scope.

(** ** Sequences of calls *)

Inductive op : Type :=
| ONext (id : string) (eventTime now : Time)
| OReset (id : string)
| ODeleteEntry (id : string)
| OGC (now : Time)
| OIsInBackOffSince (id : string) (eventTime now : Time)
| OIsInBackOffSinceUpdate (id : string) (eventTime : Time).

Definition run_op `{!MapOrder} (c : op) : M Backoff unit :=
  match c with
  | ONext id t now => Next id t now
  | OReset id => Reset id
  | ODeleteEntry id => DeleteEntry id
  | OGC now => GC now
  | OIsInBackOffSince id t now => IsInBackOffSince id t now ;; mret tt
  | OIsInBackOffSinceUpdate id t => IsInBackOffSinceUpdate id t ;; mret tt
  end.

Definition run_ops `{!MapOrder} (cs : list op) (p : Backoff) : Backoff :=
  foldl (λ p c, final (run_op c p)) p cs.

(** The entries [GC] keeps. *)
Definition fresh_entry (now : Time) (maxD : Duration) (e : backoffEntry) : Prop :=
  Sub now (lastUpdate e) ≤ wrap64 (maxD * 2).
#[export] Instance fresh_entry_dec now maxD e : Decision (fresh_entry now maxD e).
Proof. unfold fresh_entry. apply _. Defined.

(** All entries have the window the object was made with. *)
Definition flat (p : Backoff) : Prop :=
  backoff_wf p ∧ ∀ id e, entries p !! id = Some e → backoff e = defaultDuration p.

Section Facts.
Context `{!MapOrder}.

Lemma GC_body_spec now maxD id e p :
  backoff_wf p → entries p !! id = Some e →
  ∃ p', GC_body now maxD id p = Ret tt p' ∧
    becomes p p' (if decide (fresh_entry now maxD e) then entries p else delete id (entries p)).
Proof.
  intros Hwf He. unfold GC_body. run (on_items_lookup id p).
  destruct (entry_cases p id Hwf) as [[_ ?]|(l & e' & Ht & Hl & He')]; [congruence|].
  rewrite He in He'. injection He' as <-.
  rewrite Ht, (bind_Ret _ _ _ _ _ (on_items_load l e p Hl)). unfold fresh_entry.
  case_decide; case_decide; try lia; [by apply delete_spec|].
  exists p. split; [done|]. by split.
Qed.

Lemma GC_loop now maxD ids p :
  NoDup ids → backoff_wf p → (∀ id, id ∈ ids → is_Some (entries p !! id)) →
  ∃ p' es, for_each (GC_body now maxD) ids p = Ret tt p' ∧ becomes p p' es ∧
    ∀ id, es !! id = e ← entries p !! id;
                     if decide (id ∈ ids ∧ ¬ fresh_entry now maxD e) then None else Some e.
Proof.
  revert p. induction ids as [|id ids IH]; intros p Hnd Hwf Hin; simpl.
  - exists p, (entries p). split_and!; [done|by split|]. intros id.
    by destruct (entries p !! id).
  - apply NoDup_cons in Hnd as [Hid Hnd]. destruct (Hin id) as [e He]; [set_solver|].
    destruct (GC_body_spec now maxD id e p Hwf He) as (p1 & Hb & [Hwf1 He1 Hd1 Hm1]).
    run Hb.
    assert (∀ id', id' ≠ id → entries p1 !! id' = entries p !! id') as Hother.
    { intros id' ?. rewrite He1. case_decide; [done|]. by rewrite lookup_delete_ne. }
    destruct (IH p1 Hnd Hwf1) as (p2 & es & Hl & [Hwf2 He2 Hd2 Hm2] & Hes).
    { intros id' Hid'. rewrite Hother by set_solver. apply Hin. set_solver. }
    exists p2, es. split_and!; [done|split; congruence|]. intros id'. rewrite Hes.
    destruct (decide (id' = id)) as [->|Hne].
    + rewrite He1, He. simpl. case_decide as Hf.
      * rewrite He. simpl. rewrite !decide_False by tauto. done.
      * rewrite lookup_delete_eq. simpl. rewrite decide_True by set_solver. done.
    + rewrite Hother by done. destruct (entries p !! id') as [e'|]; simpl; [|done].
      apply decide_ext. set_solver.
Qed.

Lemma GC_spec now p :
  backoff_wf p →
  ∃ p', GC now p = Ret tt p' ∧
    becomes p p' (filter (λ '(_, e), fresh_entry now (maxDuration p) e) (entries p)).
Proof.
  intros Hwf. unfold GC. rewrite (bind_Ret _ _ _ _ p) by done.
  rewrite (bind_Ret _ _ _ (maxDuration p) p) by done.
  set (ids := map_range _).
  assert (∀ id, id ∈ ids ↔ is_Some (entries p !! id)) as Hids.
  { intros id. unfold ids. rewrite elem_of_map_range, <-!not_eq_None_Some.
    by rewrite (ptr_view_None _ _ Hwf). }
  destruct (GC_loop now (maxDuration p) ids p) as (p' & es & -> & [? ? ? ?] & Hes);
    [apply NoDup_map_range|done|by intros id ?%Hids|].
  exists p'. split; [done|]. split; [done| |done..].
  rewrite bec_entries. apply map_eq. intros id. rewrite Hes, map_lookup_filter.
  destruct (entries p !! id) as [e|] eqn:E; simpl; [|done].
  assert (id ∈ ids) by (apply Hids; eauto).
  case_decide; case_guard; naive_solver.
Qed.

Lemma flat_becomes p p' es :
  becomes p p' es → (∀ id e, es !! id = Some e → backoff e = defaultDuration p) → flat p'.
Proof. intros [Hwf He Hd Hm] Hes. split; [done|]. intros id e. rewrite He, Hd. apply Hes. Qed.

Lemma flat_run_op c p : flat p → flat (final (run_op c p)).
Proof.
  intros [Hwf Hf]. destruct c as [id t now|id|id|now|id t now|id t]; cbn [run_op].
  - destruct (Next_spec id t now p Hwf) as (p' & -> & Hb). apply (flat_becomes _ _ _ Hb).
    intros id' e. unfold next_entries. rewrite lookup_insert_Some.
    intros [[_ <-]|[_ ?]]; [|eauto]. simpl.
    destruct (entries p !! id) eqn:E; [destruct (hasExpired _ _ _)|]; eauto.
  - destruct (delete_spec id p Hwf) as (p' & Hd & Hb). unfold Reset. rewrite Hd.
    apply (flat_becomes _ _ _ Hb). intros id' e. rewrite lookup_delete_Some. naive_solver.
  - destruct (delete_spec id p Hwf) as (p' & Hd & Hb). unfold DeleteEntry. rewrite Hd.
    apply (flat_becomes _ _ _ Hb). intros id' e. rewrite lookup_delete_Some. naive_solver.
  - destruct (GC_spec now p Hwf) as (p' & -> & Hb). apply (flat_becomes _ _ _ Hb).
    intros id' e. rewrite map_lookup_filter_Some. naive_solver.
  - by run (IsInBackOffSince_spec id t now p Hwf).
  - by run (IsInBackOffSinceUpdate_spec id t p Hwf).
Qed.

Lemma default_run_op c p : backoff_wf p → flat p →
  defaultDuration (final (run_op c p)) = defaultDuration p.
Proof.
  intros Hwf _. destruct c as [id t now|id|id|now|id t now|id t]; cbn [run_op].
  - by destruct (Next_spec id t now p Hwf) as (p' & -> & [? ? ? ?]).
  - destruct (delete_spec id p Hwf) as (p' & Hd & [? ? ? ?]). unfold Reset. by rewrite Hd.
  - destruct (delete_spec id p Hwf) as (p' & Hd & [? ? ? ?]). unfold DeleteEntry. by rewrite Hd.
  - by destruct (GC_spec now p Hwf) as (p' & -> & [? ? ? ?]).
  - by run (IsInBackOffSince_spec id t now p Hwf).
  - by run (IsInBackOffSinceUpdate_spec id t p Hwf).
Qed.

(** ** The properties *)

(** The window never grows: after any calls on a fresh [Backoff], the window of
    a key is the initial duration if the key has an entry and zero otherwise.
    It is neither doubled by [Next] nor capped at the maximum. *)
Theorem backoff_is_flat initial max cs id :
  let p := run_ops cs (NewBackOff initial max) in
  Get id p = Ret (if decide (is_Some (entries p !! id)) then initial else 0) p.
Proof.
  intros p.
  assert (flat p ∧ defaultDuration p = initial) as [[Hwf Hf] Hd].
  { unfold p, run_ops. apply foldl_invariant.
    - intros q c [Hq Hd] _. split; [by apply flat_run_op|].
      rewrite default_run_op; [done|apply Hq|done].
    - split; [|done]. split; [apply NewBackOff_wf|]. intros ??.
      by rewrite entries_New, lookup_empty. }
  rewrite Get_spec by done. f_equal.
  destruct (entries p !! id) as [e|] eqn:E.
  - rewrite decide_True by done. rewrite <-Hd. by eapply Hf.
  - rewrite decide_False; [done|]. by intros [? ?].
Qed.

(** After [Next] at [now], a caller at [t] is in the window of the key exactly
    when less than the window's length has passed since [now], and not more
    than twice the maximum; other keys are untouched. *)
Theorem window_after_Next id eventTime now t p b :
  backoff_wf p → 0 ≤ maxDuration p → maxDuration p * 2 < max_int64 →
  b = backoff (default (mkBackoffEntry 0 0) (next_entries p id eventTime now !! id)) →
  0 ≤ b ≤ max_int64 →
  ∃ p', Next id eventTime now p = Ret tt p' ∧
    IsInBackOffSinceUpdate id t p' =
      Ret (bool_decide (t - now < b ∧ t - now ≤ maxDuration p * 2)) p' ∧
    ∀ id', id' ≠ id → entries p' !! id' = entries p !! id'.
Proof.
  intros Hwf H0 Hmax Hb Hb0. destruct (Next_spec id eventTime now p Hwf) as (p' & Hn & Hbec).
  exists p'. split; [done|]. destruct Hbec as [Hwf' He Hd Hm]. split.
  - rewrite IsInBackOffSinceUpdate_spec by done. rewrite He, Hm. f_equal.
    unfold next_entries in *. rewrite lookup_insert_eq in *. simpl in *. rewrite <-Hb.
    unfold hasExpired. rewrite wrap64_id by (unfold is_int64, min_int64; lia).
    rewrite <-bool_decide_not, <-bool_decide_and. apply bool_decide_ext.
    rewrite Sub_lt, Sub_gt; unfold is_int64, min_int64, max_int64 in *; lia.
  - intros id' Hne. rewrite He. unfold next_entries. by rewrite lookup_insert_ne.
Qed.

(** Garbage collection, in any iteration order of the map, keeps exactly the
    entries updated within twice the maximum duration. *)
Theorem GC_keeps_fresh now p :
  backoff_wf p → 0 ≤ maxDuration p → maxDuration p * 2 < max_int64 →
  ∃ p', GC now p = Ret tt p' ∧ backoff_wf p' ∧
    ∀ id e, entries p' !! id = Some e ↔
            entries p !! id = Some e ∧ now - lastUpdate e ≤ maxDuration p * 2.
Proof.
  intros Hwf H0 Hmax. destruct (GC_spec now p Hwf) as (p' & Hg & [Hwf' He _ _]).
  exists p'. split_and!; [done..|]. intros id e. rewrite He, map_lookup_filter_Some.
  unfold fresh_entry. rewrite wrap64_id by (unfold is_int64, min_int64; lia).
  pose proof (Sub_gt now (lastUpdate e) (maxDuration p * 2)) as HS.
  unfold is_int64, min_int64, max_int64 in *. split; intros [? ?]; (split; [done|]); lia.
Qed.
End Facts.

(** ** Witnesses *)

Definition p1 : Backoff := final (Next "k" 0 7 (NewBackOff (5 * Second) (30 * Second))).

Lemma p1_wf : backoff_wf p1.
Proof.
  destruct (Next_spec "k" 0 7 _ (NewBackOff_wf (5 * Second) (30 * Second))) as (p & Hp & []).
  unfold p1. by rewrite Hp.
Qed.
#[export] Hint Resolve p1_wf : go.

Lemma window_after_Next_witness :
  ∃ p', Next "k" 10 Second p1 = Ret tt p' ∧
    IsInBackOffSinceUpdate "k" (2 * Second) p' =
      Ret (bool_decide (2 * Second - Second < 5 * Second ∧
                        2 * Second - Second ≤ 30 * Second * 2)) p' ∧
    ∀ id', id' ≠ "k" → entries p' !! id' = entries p1 !! id'.
Proof.
  apply (window_after_Next "k" 10 Second (2 * Second) p1 (5 * Second)).
  - auto with go.
  - vm_compute. discriminate.
  - vm_compute. reflexivity.
  - vm_compute. reflexivity.
  - split; vm_compute; discriminate.
Defined.

Lemma GC_keeps_fresh_witness :
  ∃ p', GC (H := order_down) (90 * Second) p1 = Ret tt p' ∧ backoff_wf p' ∧
    ∀ id e, entries p' !! id = Some e ↔
            entries p1 !! id = Some e ∧ 90 * Second - lastUpdate e ≤ 30 * Second * 2.
Proof.
  apply (GC_keeps_fresh (H := order_down) (90 * Second) p1).
  - auto with go.
  - vm_compute. discriminate.
  - vm_compute. reflexivity.
Defined.
