(* ===== verification/GoURL.v ===== *)
(** Go's packages [path] and [net/url] (of Go 1.6) as the client of the API server uses
    them: joining paths, the values of a query and their text, and writing and reading
    URLs. *)

From Stdlib Require Import Ascii.
From stdpp Require Import gmap strings list sorting.
From S2P Require Import Prelude GoStrings Strconv.

Local Open Scope Z_scope.

(** * path *)

(** [strings.Split s c] for a single byte. *)
Fixpoint Split (c : ascii) (s : string) : list string :=
  match s with
  | EmptyString => [""]
  | String d s' =>
      if decide (d = c) then "" :: Split c s'
      else match Split c s' with
           | [] => [String d ""]
           | p :: ps => String d p :: ps
           end
  end.

Definition slash : ascii := "/".

(** One segment of a path, on the stack of those before it. *)
Definition clean_segment (rooted : bool) (stack : list string) (seg : string) : list string :=
  if decide (seg = "" ∨ seg = ".") then stack
  else if decide (seg = "..") then
    match stack with
    | [] => if rooted then [] else [".."]
    | top :: stack' => if decide (top = "..") then ".." :: stack else stack'
    end
  else seg :: stack.

(** [path.Clean]. *)
Definition Clean (p : string) : string :=
  let rooted := HasPrefix p "/" in
  let out := join "/" (reverse (foldl (clean_segment rooted) [] (Split slash p))) in
  if rooted then String slash out else if decide (out = "") then "." else out.

(** [path.Join]. *)
Fixpoint Join (elem : list string) : string :=
  match elem with
  | [] => ""
  | e :: elem' => if decide (e = "") then Join elem' else Clean (join "/" elem)
  end.

(** The text before the last of a byte and behind it. *)
Fixpoint cut_last (c : ascii) (s : string) : option (string * string) :=
  match s with
  | EmptyString => None
  | String d s' =>
      match cut_last c s' with
      | Some p => Some (String d p.1, p.2)
      | None => if decide (d = c) then Some ("", s') else None
      end
  end.

(** [path.Dir], [path.Base] and [filepath.IsAbs]. *)
Definition Dir (p : string) : string :=
  Clean match cut_last slash p with Some (dir, _) => dir +:+ "/" | None => "" end.
Fixpoint trim_slashes (p : string) : string :=
  match p with
  | EmptyString => ""
  | String c p' => let t := trim_slashes p' in if decide (c = slash ∧ t = "") then "" else String c t
  end.
Definition Base (p : string) : string :=
  if decide (p = "") then "."
  else
    let t := trim_slashes p in
    let b := match cut_last slash t with Some (_, b) => b | None => t end in
    if decide (b = "") then "/" else b.
Definition IsAbs (p : string) : bool := HasPrefix p "/".

(** * net *)

Definition JoinHostPort (host port : string) : string :=
  if Contains host ":" || Contains host "%" then "[" +:+ host +:+ "]:" +:+ port else host +:+ ":" +:+ port.

(** * url.Values *)

Definition byte_value (c : ascii) : Z := Z.of_nat (nat_of_ascii c).

Definition is_alnum (c : ascii) : bool :=
  let n := byte_value c in
  bool_decide (48 <= n <= 57) || bool_decide (65 <= n <= 90) || bool_decide (97 <= n <= 122).

(** The parts of a URL, which differ in the bytes that they hold as they are. *)
Inductive encoding : Type :=
| encodePath | encodeHost | encodeZone | encodeUserPassword | encodeQueryComponent | encodeFragment.
#[global] Instance encoding_eq_dec : EqDecision encoding.
Proof. solve_decision. Defined.

Definition in_host (mode : encoding) : bool := match mode with encodeHost | encodeZone => true | _ => false end.
Definition shouldEscape (c : ascii) (mode : encoding) : bool :=
  if is_alnum c then false
  else if in_host mode && bool_decide (c ∈ ["!"; "$"; "&"; "'"; "("; ")"; "*"; "+"; ","; ";"; "="; ":"; "["; "]"; "<"; ">"; "034"]%char)
  then false
  else if decide (c ∈ ["-"; "_"; "."; "~"]%char) then false
  else if decide (c ∈ ["$"; "&"; "+"; ","; "/"; ":"; ";"; "="; "?"; "@"]%char) then
    match mode with
    | encodePath => bool_decide (c = "?"%char)
    | encodeUserPassword => bool_decide (c ∈ ["@"; "/"; "?"; ":"]%char)
    | encodeFragment => false
    | _ => true
    end
  else true.
Definition hex (n : Z) : ascii := ascii_of_nat (Z.to_nat (if decide (n < 10) then 48 + n else 55 + n)).
Definition unhex (c : ascii) : option Z :=
  match digit c with Some n => if decide (n < 16) then Some n else None | None => None end.

Definition percent (c : ascii) (s : string) : string :=
  String "%" (String (hex (byte_value c / 16)) (String (hex (byte_value c mod 16)) s)).

Fixpoint escape (mode : encoding) (s : string) : string :=
  match s with
  | EmptyString => ""
  | String c s' =>
      if shouldEscape c mode then
        if decide (c = " "%char ∧ mode = encodeQueryComponent) then String "+" (escape mode s')
        else percent c (escape mode s')
      else String c (escape mode s')
  end.

Section Errors.
Context {gf : GoFormats}.

Definition EscapeError (s : string) : string := "invalid URL escape " +:+ Quote s.
Definition InvalidHostError (s : string) : string := "invalid character " +:+ Quote s +:+ " in host name".

(** A byte in front of text without an error. *)
Definition cons_byte (c : ascii) (r : string + string) : string + string :=
  match r with inl err => inl err | inr s => inr (String c s) end.

(** The byte [v] may not be written as the escape [esc]. *)
Definition bad_escape (mode : encoding) (v : Z) (esc : string) : bool :=
  negb (bool_decide (esc = "%25")) &&
  match mode with
  | encodeHost => bool_decide (v < 128)
  | encodeZone => negb (bool_decide (v = 32)) && shouldEscape (ascii_of_nat (Z.to_nat v)) encodeHost
  | _ => false
  end.
Definition bad_host_byte (mode : encoding) (c : ascii) : bool :=
  in_host mode && bool_decide (byte_value c < 128) && shouldEscape c mode.

(** [inl] is the text of the error. *)
Fixpoint unescape (mode : encoding) (s : string) : string + string :=
  match s with
  | EmptyString => inr ""
  | String "%" (String h (String l s')) =>
      match unhex h, unhex l with
      | Some hi, Some lo =>
          if bad_escape mode (16 * hi + lo) (String "%" (String h (String l "")))
          then inl (EscapeError (String "%" (String h (String l ""))))
          else cons_byte (ascii_of_nat (Z.to_nat (16 * hi + lo))) (unescape mode s')
      | _, _ => inl (EscapeError (String "%" (String h (String l ""))))
      end
  | String "%" s' => inl (EscapeError s)
  | String c s' =>
      if bad_host_byte mode c then inl (InvalidHostError (String c ""))
      else cons_byte (if decide (c = "+"%char ∧ mode = encodeQueryComponent) then " "%char else c) (unescape mode s')
  end.
End Errors.

Definition QueryEscape : string → string := escape encodeQueryComponent.

Abbreviation Values := (gmap string (list string)).

(** [Values.Add] and [Values.Set]. *)
Definition Values_Add (k x : string) (v : Values) : Values := <[k := default [] (v !! k) ++ [x]]> v.
Definition Values_Set (k x : string) (v : Values) : Values := <[k := [x]]> v.

(** The keys and values in the order of [Values.Encode]. *)
Definition pairs (v : Values) : list (string * string) :=
  k ← sorted_keys v; pair k <$> default [] (v !! k).
Definition encode_pair (p : string * string) : string := QueryEscape p.1 +:+ "=" +:+ QueryEscape p.2.
Definition Encode (v : Values) : string := join "&" (encode_pair <$> pairs v).

(** The pieces of a query. *)
Fixpoint pieces (s : string) : list string :=
  match s with
  | EmptyString => [""]
  | String d s' =>
      if decide (d = "&"%char ∨ d = ";"%char) then "" :: pieces s'
      else match pieces s' with
           | [] => [String d ""]
           | p :: ps => String d p :: ps
           end
  end.

(** * url.URL *)

Record Userinfo := mkUserinfo { username : string; password : option string }.
Record URL := mkURL {
  Scheme : string;
  Opaque : string;
  User : option Userinfo;
  Host : string;
  Path : string;
  RawPath : string;
  RawQuery : string;
  Fragment : string
}.
Definition empty_URL : URL := mkURL "" "" None "" "" "" "" "".
#[global] Instance Userinfo_eq_dec : EqDecision Userinfo.
Proof. solve_decision. Defined.
#[global] Instance URL_eq_dec : EqDecision URL.
Proof. solve_decision. Defined.

Definition set_Path (p : string) (u : URL) : URL :=
  mkURL (Scheme u) (Opaque u) (User u) (Host u) p (RawPath u) (RawQuery u) (Fragment u).
Definition set_RawQuery (q : string) (u : URL) : URL :=
  mkURL (Scheme u) (Opaque u) (User u) (Host u) (Path u) (RawPath u) q (Fragment u).
Definition set_Fragment (f : string) (u : URL) : URL :=
  mkURL (Scheme u) (Opaque u) (User u) (Host u) (Path u) (RawPath u) (RawQuery u) f.

Section URL.
Context {gf : GoFormats}.

(** [url.ParseQuery] without its error, which [URL.Query] drops: the text is cut at each
    [&] and [;], and pieces that are not well formed are left out. *)
Definition QueryUnescape : string → string + string := unescape encodeQueryComponent.
Definition parse_piece (v : Values) (piece : string) : Values :=
  if decide (piece = "") then v
  else
    let kv := cut "=" piece in
    match QueryUnescape kv.1, QueryUnescape (default "" kv.2) with
    | inr k, inr x => Values_Add k x v
    | _, _ => v
    end.
Definition ParseQuery (s : string) : Values := foldl parse_piece ∅ (pieces s).
Definition URL_Query (u : URL) : Values := ParseQuery (RawQuery u).

(** ** Writing *)

Definition validEncoded_byte (c : ascii) : bool :=
  bool_decide (c ∈ ["!"; "$"; "&"; "'"; "("; ")"; "*"; "+"; ","; ";"; "="; ":"; "@"; "["; "]"; "%"]%char)
  || negb (shouldEscape c encodePath).
Fixpoint validEncoded (s : string) : bool :=
  match s with EmptyString => true | String c s' => validEncoded_byte c && validEncoded s' end.

Definition EscapedPath (u : URL) : string :=
  if decide (RawPath u ≠ "" ∧ validEncoded (RawPath u) = true ∧ unescape encodePath (RawPath u) = inr (Path u))
  then RawPath u
  else if decide (Path u = "*") then "*"
  else escape encodePath (Path u).

Definition Userinfo_String (ui : Userinfo) : string :=
  escape encodeUserPassword (username ui) +:+
  match password ui with Some p => ":" +:+ escape encodeUserPassword p | None => "" end.

(** [URL.String]. *)
Definition URL_String (u : URL) : string :=
  (if decide (Scheme u = "") then "" else Scheme u +:+ ":") +:+
  (if decide (Opaque u ≠ "") then Opaque u
   else
     (if decide (Scheme u ≠ "" ∨ Host u ≠ "" ∨ User u ≠ None) then
        "//" +:+ (match User u with Some ui => Userinfo_String ui +:+ "@" | None => "" end) +:+ escape encodeHost (Host u)
      else "") +:+
     (if decide (EscapedPath u ≠ "" ∧ HasPrefix (EscapedPath u) "/" = false ∧ Host u ≠ "") then "/" else "") +:+
     EscapedPath u) +:+
  (if decide (RawQuery u = "") then "" else "?" +:+ RawQuery u) +:+
  (if decide (Fragment u = "") then "" else "#" +:+ escape encodeFragment (Fragment u)).

(** ** Reading

    Errors are texts, as everywhere in this file. *)

Definition is_alpha (c : ascii) : bool :=
  let n := byte_value c in bool_decide (65 <= n <= 90) || bool_decide (97 <= n <= 122).
Definition scheme_byte (c : ascii) : bool := is_alnum c || bool_decide (c ∈ ["+"; "-"; "."]%char).

(** The text before the first colon and behind it, if all before it may be in a scheme. *)
Fixpoint scheme_cut (s : string) : option (string * string) :=
  match s with
  | EmptyString => None
  | String c s' =>
      if decide (c = colon) then Some ("", s')
      else if scheme_byte c then (λ p, (String c p.1, p.2)) <$> scheme_cut s' else None
  end.
Definition getscheme (rawurl : string) : string + (string * string) :=
  match rawurl with
  | EmptyString => inr ("", rawurl)
  | String c _ =>
      if decide (c = colon) then inl "missing protocol scheme"
      else if is_alpha c then inr (default ("", rawurl) (scheme_cut rawurl)) else inr ("", rawurl)
  end.

(** The text before the first of a text, and from it on. *)
Fixpoint cut_at (sep s : string) : option (string * string) :=
  if HasPrefix s sep then Some ("", s)
  else match s with
       | EmptyString => None
       | String c s' => (λ p, (String c p.1, p.2)) <$> cut_at sep s'
       end.

Definition is_digit (c : ascii) : bool := bool_decide (48 <= byte_value c <= 57).
Fixpoint all_bytes (P : ascii → bool) (s : string) : bool :=
  match s with EmptyString => true | String c s' => P c && all_bytes P s' end.
Definition validOptionalPort (port : string) : bool :=
  match port with
  | EmptyString => true
  | String c digits => bool_decide (c = colon) && all_bytes is_digit digits
  end.

(** Both without an error. *)
Definition both {A B} (a : string + A) (b : string + B) : string + (A * B) :=
  match a with
  | inl err => inl err
  | inr a => match b with inl err => inl err | inr b => inr (a, b) end
  end.

Definition parseHost (host : string) : string + string :=
  if HasPrefix host "[" then
    match cut_last "]" host with
    | None => inl "missing ']' in host"
    | Some (inside, colonPort) =>
        if validOptionalPort colonPort then
          match cut_at "%25" inside with
          | Some (host1, zone) =>
              match both (unescape encodeHost host1)
                      (both (unescape encodeZone zone) (unescape encodeHost ("]" +:+ colonPort))) with
              | inl err => inl err
              | inr (host1, (host2, host3)) => inr (host1 +:+ host2 +:+ host3)
              end
          | None => unescape encodeHost host
          end
        else inl ("invalid port " +:+ Quote colonPort +:+ " after host")
    end
  else unescape encodeHost host.

Definition parseUserinfo (userinfo : string) : string + Userinfo :=
  match cut ":" userinfo with
  | (name, None) =>
      match unescape encodeUserPassword name with
      | inl err => inl err
      | inr name => inr (mkUserinfo name None)
      end
  | (name, Some pass) =>
      match both (unescape encodeUserPassword name) (unescape encodeUserPassword pass) with
      | inl err => inl err
      | inr (name, pass) => inr (mkUserinfo name (Some pass))
      end
  end.
Definition parseAuthority (authority : string) : string + (option Userinfo * string) :=
  match cut_last "@" authority with
  | None => match parseHost authority with inl err => inl err | inr host => inr (None, host) end
  | Some (userinfo, host) =>
      match both (parseHost host) (parseUserinfo userinfo) with
      | inl err => inl err
      | inr (host, user) => inr (Some user, host)
      end
  end.

(** The text before the first byte [c], and from it on. *)
Definition split_keep (c : ascii) (s : string) : string * string :=
  let r := cut c s in (r.1, match r.2 with Some t => String c t | None => "" end).

Definition drop2 (s : string) : string := match s with String _ (String _ s') => s' | _ => "" end.

(** [parse] up to the wrapping of its error. *)
Definition parse_parts (rawurl : string) (viaRequest : bool) : string + URL :=
  if decide (rawurl = "" ∧ viaRequest = true) then inl "empty url"
  else if decide (rawurl = "*") then inr (set_Path "*" empty_URL)
  else
    match getscheme rawurl with
    | inl err => inl err
    | inr (scheme, rest) =>
        let scheme := ToLower scheme in
        let '(rest, query) := cut "?" rest in
        let query := default "" query in
        if negb (HasPrefix rest "/") && bool_decide (scheme ≠ "") then inr (mkURL scheme rest None "" "" "" query "")
        else if negb (HasPrefix rest "/") && viaRequest then inl "invalid URI for request"
        else
          let '(authority, rest) :=
            if (bool_decide (scheme ≠ "") || negb viaRequest && negb (HasPrefix rest "///")) && HasPrefix rest "//"
            then let '(a, r) := split_keep slash (drop2 rest) in (Some a, r) else (None, rest) in
          match both (match authority with Some a => parseAuthority a | None => inr (None, "") end)
                  (unescape encodePath rest) with
          | inl err => inl err
          | inr ((user, host), path) =>
              let u := mkURL scheme "" user host path "" query "" in
              inr (if decide (EscapedPath u ≠ rest ∧ validEncoded rest = true)
                   then mkURL scheme "" user host path rest query "" else u)
          end
    end.
Definition url_error {A} (rawurl : string) (r : string + A) : string + A :=
  match r with inl err => inl ("parse " +:+ rawurl +:+ ": " +:+ err) | inr a => inr a end.

Definition ParseRequestURI (rawurl : string) : string + URL := url_error rawurl (parse_parts rawurl true).
Definition url_Parse (rawurl : string) : string + URL :=
  let '(u, frag) := cut "#" rawurl in
  match url_error u (parse_parts u false) with
  | inl err => inl err
  | inr url =>
      match frag with
      | None | Some EmptyString => inr url
      | Some frag =>
          url_error rawurl
            match unescape encodeFragment frag with inl err => inl err | inr f => inr (set_Fragment f url) end
      end
  end.
End URL.

Example Join_1 : Join ["/"; "api/"; ""; "v1"] = "/api/v1". Proof. vm_compute. reflexivity. Qed.
Example Join_2 : Join ["/a/b"; "../c"; "./d/"] = "/a/c/d". Proof. vm_compute. reflexivity. Qed.
Example Clean_1 : Clean "../../x//y/../" = "../../x". Proof. vm_compute. reflexivity. Qed.
(** A name with a port is read as a scheme, and an address with a port as a path. *)
#[local] Existing Instance plain_formats.
Example Parse_name : url_Parse "master:8080" = inr (mkURL "master" "8080" None "" "" "" "" ""). Proof. vm_compute. reflexivity. Qed.
Example Parse_address : url_Parse "10.0.0.1:8080" = inr (mkURL "" "" None "" "10.0.0.1:8080" "" "" ""). Proof. vm_compute. reflexivity. Qed.
Example Parse_user : url_Parse "HTTPS://me:a%40b@[fe80::1%25en0]:443/x%2Fy?q=1#top" =
  inr (mkURL "https" "" (Some (mkUserinfo "me" (Some "a@b"))) "[fe80::1%en0]:443" "/x/y" "/x%2Fy" "q=1" "top").
Proof. vm_compute. reflexivity. Qed.
Example Parse_bad_host : url_Parse "http://a%20b/" = inl "parse http://a%20b/: invalid URL escape '%20'".
Proof. vm_compute. reflexivity. Qed.
