(* ===== verification/GoURLProps.v ===== *)
(** The properties of paths and queries: a query that has been encoded is read back, and
    joining clean segments below a prefix gives the segments in order. *)

From Stdlib Require Import Ascii.
From stdpp Require Import gmap strings list sorting.
From S2P Require Import Prelude GoStrings Strconv GoURL.

Local Open Scope Z_scope.

(** ** Escaping *)
Section Escaping.
Context {gf : GoFormats}.

(** What is written for one byte. *)
Definition escape_byte (mode : encoding) (c : ascii) (s : string) : string :=
  if shouldEscape c mode then
    if decide (c = " "%char ∧ mode = encodeQueryComponent) then String "+" s else percent c s
  else String c s.

Lemma escape_cons mode c s : escape mode (String c s) = escape_byte mode c (escape mode s).
Proof. unfold escape_byte. cbn [escape]. repeat case_match; done. Qed.

(** The bytes that a part of a URL can have. *)
Definition can_hold (mode : encoding) (c : ascii) : bool :=
  match mode with encodeHost => negb (shouldEscape c mode) | encodeZone => false | _ => true end.

Lemma unescape_byte mode c s :
  can_hold mode c = true → unescape mode (escape_byte mode c s) = cons_byte c (unescape mode s).
Proof.
  destruct mode; intros Hc; try done; destruct c as [[] [] [] [] [] [] [] []]; first [reflexivity|discriminate Hc].
Qed.

Lemma unescape_escape mode s :
  all_bytes (can_hold mode) s = true → unescape mode (escape mode s) = inr s.
Proof.
  induction s as [|c s IH]; [done|]. cbn [all_bytes]. intros [Hc Hs]%andb_true_iff.
  by rewrite escape_cons, unescape_byte, IH.
Qed.

Lemma all_bytes_true s (P : ascii → bool) : (∀ c, P c = true) → all_bytes P s = true.
Proof. intros HP. induction s as [|c s IH]; [done|]. cbn [all_bytes]. by rewrite HP. Qed.
Lemma all_bytes_app P s t : all_bytes P (s +:+ t) = all_bytes P s && all_bytes P t.
Proof.
  unfold String.app. induction s as [|c s IH]; [done|]. cbn [String.append all_bytes]. by rewrite IH, andb_assoc.
Qed.
Lemma all_bytes_impl (P Q : ascii → bool) s : (∀ c, P c = true → Q c = true) → all_bytes P s = true → all_bytes Q s = true.
Proof.
  intros HPQ. induction s as [|c s IH]; [done|]. cbn [all_bytes]. intros [Hc Hs]%andb_true_iff. by rewrite HPQ, IH.
Qed.
(** A byte that escaped text does not have. *)
Lemma escape_no_byte mode d s :
  shouldEscape d mode = true → d ≠ "%"%char → d ≠ "+"%char → is_alnum d = false → has_byte d (escape mode s) = false.
Proof.
  intros Hd H1 H2 H3. induction s as [|c s IH]; [done|]. rewrite escape_cons. unfold escape_byte.
  assert (∀ n : Z, 0 <= n < 16 → hex n ≠ d) as Hhex.
  { intros n Hn E. assert (is_alnum (hex n) = true) as Hh; [|by rewrite E, H3 in Hh].
    assert (∃ k, n = Z.of_nat k ∧ (k < 16)%nat) as (k & -> & Hk) by (exists (Z.to_nat n); lia).
    do 16 (destruct k as [|k]; [reflexivity|]). lia. }
  destruct (shouldEscape c mode) eqn:Hc.
  - destruct (decide _); [cbn [has_byte]; rewrite bool_decide_eq_false_2 by congruence; exact IH|].
    assert (0 <= byte_value c < 256) as Hv.
    { unfold byte_value. pose proof (nat_ascii_bounded c). lia. }
    unfold percent. cbn [has_byte].
    rewrite !bool_decide_eq_false_2; [exact IH|apply not_eq_sym, Hhex, Z.mod_pos_bound; lia| |congruence].
    apply not_eq_sym, Hhex. split; [apply Z.div_pos; lia|apply Z.div_lt_upper_bound; lia].
  - cbn [has_byte]. rewrite bool_decide_eq_false_2 by congruence. exact IH.
Qed.
Lemma query_no_byte d s : d ∈ ["&"; ";"; "="]%char → has_byte d (QueryEscape s) = false.
Proof.
  intros Hd. unfold QueryEscape. rewrite !elem_of_cons in Hd.
  destruct Hd as [->|[->|[->|Hd]]]; [..|by apply not_elem_of_nil in Hd]; by apply escape_no_byte.
Qed.
Lemma query_unescape s : QueryUnescape (QueryEscape s) = inr s.
Proof. by apply unescape_escape, all_bytes_true. Qed.
End Escaping.

(** ** Cutting at separators *)

Lemma pieces_no s : has_byte "&" s = false → has_byte ";" s = false → pieces s = [s].
Proof.
  induction s as [|c s IH]; [done|]. cbn [has_byte pieces]. intros [H1 H2]%orb_false_iff [H3 H4]%orb_false_iff.
  apply bool_decide_eq_false in H1, H3. rewrite decide_False by naive_solver. by rewrite IH.
Qed.
Lemma pieces_app s t : has_byte "&" s = false → has_byte ";" s = false →
  pieces (s +:+ "&" +:+ t) = s :: pieces t.
Proof.
  induction s as [|c s IH]; [done|]. cbn [has_byte]. intros [H1 H2]%orb_false_iff [H3 H4]%orb_false_iff.
  apply bool_decide_eq_false in H1, H3. unfold String.app in *. cbn [String.append pieces].
  rewrite decide_False by naive_solver. by rewrite IH.
Qed.

Lemma pieces_join l :
  Forall (λ s, has_byte "&" s = false ∧ has_byte ";" s = false) l → l ≠ [] → pieces (join "&" l) = l.
Proof.
  induction 1 as [|s l [Hs Hs'] Hl IH]; [done|]. intros _. destruct l as [|t l].
  - by apply pieces_no.
  - change (join "&" (s :: t :: l)) with (s +:+ "&" +:+ join "&" (t :: l)). by rewrite pieces_app, IH.
Qed.

Lemma encode_pair_no p : has_byte "&" (encode_pair p) = false ∧ has_byte ";" (encode_pair p) = false.
Proof. unfold encode_pair. by rewrite !has_byte_append, !query_no_byte by set_solver. Qed.

Lemma encode_pair_ne p : encode_pair p ≠ "".
Proof.
  intros H%(f_equal String.length). unfold encode_pair in H. rewrite !length_append in H. simpl in H. lia.
Qed.

Lemma parse_encoded {gf : GoFormats} v p : parse_piece v (encode_pair p) = Values_Add p.1 p.2 v.
Proof.
  unfold parse_piece. rewrite decide_False by apply encode_pair_ne.
  unfold encode_pair. change ("=" +:+ QueryEscape p.2) with (String "=" (QueryEscape p.2)).
  rewrite cut_append by (by apply query_no_byte; set_solver).
  cbn [fst snd default from_option id]. by rewrite !query_unescape.
Qed.

Lemma Split_no c s : has_byte c s = false → Split c s = [s].
Proof.
  induction s as [|d s IH]; [done|]. cbn [has_byte Split]. intros [H1 H2]%orb_false_iff.
  apply bool_decide_eq_false in H1. rewrite decide_False by auto. by rewrite IH.
Qed.
Lemma Split_app c s t : has_byte c s = false → Split c (s +:+ String c t) = s :: Split c t.
Proof.
  induction s as [|d s IH]; unfold String.app in *; cbn [has_byte Split String.append].
  { by rewrite decide_True. }
  intros [H1 H2]%orb_false_iff. apply bool_decide_eq_false in H1. rewrite decide_False by auto. by rewrite IH.
Qed.
Lemma Split_join c l : Forall (λ s, has_byte c s = false) l → l ≠ [] → Split c (join (String c "") l) = l.
Proof.
  induction 1 as [|s l Hs Hl IH]; [done|]. intros _. destruct l as [|t l]; [by apply Split_no|].
  change (join (String c "") (s :: t :: l)) with (s +:+ String c (join (String c "") (t :: l))).
  by rewrite Split_app, IH.
Qed.

(** ** Paths of segments *)

(** A name that stands for itself in a path. *)
Record normal (seg : string) : Prop := {
  nm_ne : seg ≠ "";
  nm_dot : seg ≠ ".";
  nm_dots : seg ≠ "..";
  nm_slash : has_byte slash seg = false
}.
Definition plain_segment (seg : string) : Prop := seg = "" ∨ normal seg.

(** An absolute path, the segments of a path, and paths that are in no need of cleaning
    but for empty segments. *)
Definition path_of (segs : list string) : string := String slash (join "/" segs).
Definition segments (p : string) : list string := filter (λ seg, seg ≠ "") (Split slash p).
Definition plain_path (p : string) : Prop := Forall plain_segment (Split slash p).

Lemma Split_sep c s t : Split c (s +:+ String c t) = Split c s ++ Split c t.
Proof.
  induction s as [|d s IH]; unfold String.app in *; cbn [Split String.append].
  { by rewrite decide_True. }
  destruct (decide (d = c)); [by rewrite IH|]. rewrite IH. by destruct (Split c s) eqn:E; [destruct s; [done|cbn in E; repeat case_match; done]|].
Qed.
Lemma Split_elems c e elems : Split c (join (String c "") (e :: elems)) = (e :: elems) ≫= Split c.
Proof.
  revert e. induction elems as [|f elems IH]; intros e; [cbn; by rewrite app_nil_r|].
  change (join (String c "") (e :: f :: elems)) with (e +:+ String c (join (String c "") (f :: elems))).
  by rewrite Split_sep, IH.
Qed.

Lemma plain_segment_plain s : plain_segment s → plain_path s.
Proof.
  unfold plain_path. intros [->|Hs]; [by repeat constructor; left|].
  rewrite (Split_no slash s) by apply Hs. apply Forall_singleton. by right.
Qed.
Lemma segments_normal s : normal s → segments s = [s].
Proof. intros Hs. unfold segments. rewrite (Split_no slash s) by apply Hs. by rewrite filter_cons_True by apply Hs. Qed.
Lemma segments_ne p : Forall (λ seg, seg ≠ "") (segments p).
Proof. apply Forall_forall. intros s Hs. by apply list_elem_of_filter in Hs as [? _]. Qed.
Lemma plain_segments p : plain_path p → Forall normal (segments p).
Proof.
  unfold plain_path. rewrite !Forall_forall. intros Hp s Hs. apply list_elem_of_filter in Hs as [Hne Hs].
  by destruct (Hp s Hs).
Qed.
Lemma segments_elems e elems : segments (join "/" (e :: elems)) = (e :: elems) ≫= segments.
Proof.
  unfold segments at 1. change "/" with (String slash ""). rewrite Split_elems.
  generalize (e :: elems). intros l. induction l as [|f l IH]; [done|].
  rewrite !bind_cons, filter_app. by rewrite IH.
Qed.
Lemma normal_no_slash l : Forall normal l → Forall (λ s, has_byte slash s = false) l.
Proof. intros Hl. eapply Forall_impl; [done|]. by intros ? []. Qed.
Lemma normal_ne l : Forall normal l → filter (λ seg, seg ≠ "") l = l.
Proof. induction 1 as [|s l [? _ _ _] Hl IH]; [done|]. by rewrite filter_cons_True, IH. Qed.
Lemma segments_path_of segs : Forall normal segs → segments (path_of segs) = segs.
Proof.
  intros Hs. unfold segments, path_of. change (String slash (join "/" segs)) with ("" +:+ String slash (join "/" segs)).
  rewrite Split_sep, filter_app. cbn [Split]. rewrite filter_cons_False by auto.
  destruct segs as [|s segs]; [done|]. rewrite Split_join; [by apply normal_ne|by apply normal_no_slash|done].
Qed.

Lemma clean_plain rooted l st : Forall plain_segment l →
  foldl (clean_segment rooted) st l = reverse (filter (λ seg, seg ≠ "") l) ++ st.
Proof.
  intros Hl. revert st. induction Hl as [|s l Hs Hl IH]; intros st; [done|]. cbn [foldl]. rewrite IH.
  destruct Hs as [->|[? ? ? ?]].
  - by rewrite filter_cons_False by auto.
  - unfold clean_segment. rewrite decide_False by naive_solver. rewrite decide_False by done.
    by rewrite filter_cons_True, reverse_cons, <-app_assoc.
Qed.
Lemma Clean_rooted p : plain_path p → HasPrefix p "/" = true → Clean p = path_of (segments p).
Proof.
  intros Hp Hr. unfold Clean. rewrite Hr, clean_plain by done. by rewrite app_nil_r, reverse_involutive.
Qed.
Lemma Clean_relative p : plain_path p → HasPrefix p "/" = false → segments p ≠ [] → Clean p = join "/" (segments p).
Proof.
  intros Hp Hr Hne. unfold Clean. rewrite Hr, clean_plain by done. rewrite app_nil_r, reverse_involutive.
  rewrite decide_False; [done|]. pose proof (segments_ne p) as Hs. fold (segments p). destruct (segments p) as [|s l]; [done|].
  apply Forall_cons in Hs as [Hs _]. destruct s; [done|]. by destruct l.
Qed.

(** Joining paths joins their segments. *)
Lemma Join_path segs elems :
  Forall normal segs → Forall plain_path elems →
  Join (path_of segs :: elems) = path_of (segs ++ (elems ≫= segments)).
Proof.
  intros Hsegs Hel. cbn [Join]. rewrite decide_False by done.
  assert (plain_path (path_of segs)) as Hp.
  { unfold plain_path, path_of. change (String slash (join "/" segs)) with ("" +:+ String slash (join "/" segs)).
    rewrite Split_sep. apply Forall_app. split; [by repeat constructor; left|].
    destruct segs as [|s segs]; [by repeat constructor; left|].
    rewrite Split_join; [|by apply normal_no_slash|done]. eapply Forall_impl; [done|]. by right. }
  assert (plain_path (join "/" (path_of segs :: elems))) as Hj.
  { unfold plain_path. change "/" with (String slash ""). rewrite Split_elems. cbn. apply Forall_app. split; [done|].
    clear Hp. induction Hel; [constructor|]. cbn. by apply Forall_app. }
  rewrite Clean_rooted; [|done|destruct elems; cbn; unfold String.app; cbn; by rewrite prefix_empty].
  by rewrite segments_elems, bind_cons, segments_path_of.
Qed.
Lemma Join_segments elems :
  Forall plain_segment elems → Join elems = join "/" (filter (λ seg, seg ≠ "") elems).
Proof.
  induction elems as [|e elems IH]; [done|]. intros Hel. pose proof Hel as [He Hel']%Forall_cons. cbn [Join].
  destruct (decide (e = "")) as [->|Hne]; [rewrite filter_cons_False by auto; by apply IH|].
  assert (Split slash (join "/" (e :: elems)) = e :: elems) as Hs.
  { apply (Split_join slash); [|done]. eapply Forall_impl; [done|]. by intros ? [->|[]]. }
  rewrite Clean_relative; unfold segments, plain_path; rewrite ?Hs; [done..| |by rewrite filter_cons_True].
  destruct He as [|[]]; [done|]. destruct e as [|c e]; [done|].
  cbn in nm_slash0. destruct (decide (slash = c)) as [Hc|Hc]; [by rewrite bool_decide_eq_true_2 in nm_slash0|].
  assert (∀ t, HasPrefix (String c t) "/" = false) as Hp.
  { intros t. unfold HasPrefix. cbn. case_match; [|done]. by destruct Hc. }
  destruct elems; apply Hp.
Qed.

(** ** Reading a query back *)

(** The values that a list of pairs gives a key. *)
Definition at_key (k : string) (l : list (string * string)) : list string :=
  snd <$> filter (λ p, p.1 = k) l.

Lemma add_pairs l v k :
  default [] (foldl (λ v p, Values_Add p.1 p.2 v) v l !! k) = default [] (v !! k) ++ at_key k l.
Proof.
  revert v. induction l as [|[k' x] l IH]; intros v; cbn [foldl]; [by rewrite app_nil_r|].
  rewrite IH. unfold Values_Add, at_key. rewrite filter_cons. cbn [fst snd].
  destruct (decide (k' = k)) as [->|Hne].
  - rewrite lookup_insert_eq. cbn. by rewrite <-app_assoc.
  - by rewrite lookup_insert_ne.
Qed.

Lemma add_pairs_nonempty l v k :
  (∀ k, v !! k ≠ Some []) → foldl (λ v p, Values_Add p.1 p.2 v) v l !! k ≠ Some [].
Proof.
  revert v. induction l as [|[k' x] l IH]; intros v Hv; cbn [foldl]; [done|]. apply IH. intros k1.
  unfold Values_Add. cbn [fst snd]. destruct (decide (k' = k1)) as [->|].
  - rewrite lookup_insert_eq. intros [=H]. by destruct (default [] (v !! k1)).
  - by rewrite lookup_insert_ne.
Qed.

(** The pairs of a map in any order of its keys. *)
Lemma at_key_range (v : Values) ks k : NoDup ks → (is_Some (v !! k) → k ∈ ks) →
  at_key k (ks ≫= λ k, pair k <$> default [] (v !! k)) = default [] (v !! k).
Proof.
  intros Hnd Hin.
  assert (at_key k (ks ≫= λ k, pair k <$> default [] (v !! k)) = if decide (k ∈ ks) then default [] (v !! k) else []) as ->.
  { clear Hin. induction Hnd as [|k' ks Hk' Hnd IH]; [done|]. rewrite bind_cons. unfold at_key in *.
    rewrite filter_app, fmap_app, IH. destruct (decide (k' = k)) as [->|Hne].
    - rewrite (decide_False (P := k ∈ ks)), (decide_True (P := k ∈ k :: ks)) by set_solver.
      rewrite app_nil_r. clear IH. induction (default [] (v !! k)) as [|x l IHl]; [done|].
      rewrite fmap_cons, filter_cons_True, fmap_cons by done. by rewrite IHl.
    - assert (filter (λ p : string * string, p.1 = k) (pair k' <$> default [] (v !! k')) = []) as ->.
      { clear IH. induction (default [] (v !! k')) as [|x l IHl]; [done|]. by rewrite fmap_cons, filter_cons_False. }
      destruct (decide (k ∈ ks)); [by rewrite decide_True by set_solver|by rewrite decide_False by set_solver]. }
  case_decide as H; [done|]. destruct (v !! k) as [x|] eqn:E; [|done].
  destruct H. apply Hin. by eexists.
Qed.
Lemma keys_perm (v : Values) ks k : ks ≡ₚ (map_to_list v).*1 → NoDup ks ∧ (is_Some (v !! k) → k ∈ ks).
Proof.
  intros ->. split; [apply NoDup_fst_map_to_list|].
  intros [x Hx]. apply list_elem_of_fmap. exists (k, x). by rewrite elem_of_map_to_list.
Qed.
Lemma at_key_pairs v k : at_key k (pairs v) = default [] (v !! k).
Proof.
  destruct (keys_perm v (sorted_keys v) k) as [Hnd Hin]; [|by apply at_key_range].
  unfold sorted_keys. by rewrite merge_sort_Permutation.
Qed.

(** Values without empty lists. *)
Definition values_ok (v : Values) : Prop := ∀ k, v !! k ≠ Some [].

(** Adding all pairs of a map to none gives the map. *)
Lemma add_pairs_all v l : values_ok v → (∀ k, at_key k l = default [] (v !! k)) →
  foldl (λ v p, Values_Add p.1 p.2 v) ∅ l = v.
Proof.
  intros Hv Hl. apply map_eq. intros k. pose proof (add_pairs l ∅ k) as E. rewrite Hl, lookup_empty in E.
  pose proof (add_pairs_nonempty l ∅ k) as Hne. specialize (Hv k).
  destruct (foldl _ ∅ l !! k) as [x|]; destruct (v !! k) as [x'|]; cbn in E; subst; try done.
  destruct Hne; [|done]. intros k'. by rewrite lookup_empty.
Qed.

Lemma ParseQuery_Encode {gf : GoFormats} v : values_ok v → ParseQuery (Encode v) = v.
Proof.
  intros Hv. unfold ParseQuery, Encode.
  assert (foldl parse_piece ∅ (pieces (join "&" (encode_pair <$> pairs v))) =
    foldl (λ v p, Values_Add p.1 p.2 v) ∅ (pairs v)) as ->.
  { destruct (decide (pairs v = [])) as [->|Hne]; [done|].
    rewrite pieces_join.
    - generalize (∅ : Values). induction (pairs v) as [|p l IH]; intros w; [done|].
      rewrite fmap_cons. cbn [foldl]. rewrite parse_encoded. destruct (decide (l = [])) as [->|]; [done|]. by apply IH.
    - apply Forall_fmap, Forall_forall. intros p _. apply encode_pair_no.
    - by intros ?%fmap_nil_inv. }
  apply add_pairs_all; [done|]. apply at_key_pairs.
Qed.

(** ** URLs

    Writing a URL and reading it gives the URL back, if its parts are what a URL can hold:
    the user and the fragment are any text. *)
Section URLs.
Context {gf : GoFormats}.

Record sound_URL (u : URL) : Prop := {
  su_scheme : match Scheme u with String c s => is_alpha c = true ∧ all_bytes scheme_byte s = true | _ => False end;
  su_lower : ToLower (Scheme u) = Scheme u;
  su_opaque : Opaque u = "";
  su_host : all_bytes (can_hold encodeHost) (Host u) = true;
  su_literal : HasPrefix (Host u) "[" = true → ∃ inside port, cut_last "]" (Host u) = Some (inside, port) ∧ validOptionalPort port = true;
  su_path : Path u = "" ∨ HasPrefix (Path u) "/" = true;
  su_raw : RawPath u = "";
  su_query : has_byte "#" (RawQuery u) = false
}.

Lemma append_cons c s t : String c s +:+ t = String c (s +:+ t). Proof. done. Qed.
Lemma append_nil s : "" +:+ s = s. Proof. done. Qed.

(** Cutting. *)
Lemma cut_last_none c s : has_byte c s = false → cut_last c s = None.
Proof.
  induction s as [|d s IH]; [done|]. cbn [has_byte cut_last]. intros [H1 H2]%orb_false_iff.
  apply bool_decide_eq_false in H1. by rewrite IH, decide_False by auto.
Qed.
Lemma cut_last_append c s t : has_byte c t = false → cut_last c (s +:+ String c t) = Some (s, t).
Proof.
  intros Ht. induction s as [|d s IH].
  - rewrite append_nil. cbn [cut_last]. by rewrite (cut_last_none _ _ Ht), decide_True.
  - rewrite append_cons. cbn [cut_last]. by rewrite IH.
Qed.
Lemma cut_at_none d sep s : has_byte d s = false → cut_at (String d sep) s = None.
Proof.
  induction s as [|e s IH]; [done|]. cbn [has_byte cut_at]. intros [H1 H2]%orb_false_iff.
  apply bool_decide_eq_false in H1. assert (HasPrefix (String e s) (String d sep) = false) as ->.
  { unfold HasPrefix. cbn. by case_match. }
  by rewrite IH.
Qed.
Lemma all_no_byte (P : ascii → bool) d s : P d = false → all_bytes P s = true → has_byte d s = false.
Proof.
  intros Hd. induction s as [|c s IH]; [done|]. cbn [all_bytes has_byte]. intros [Hc Hs]%andb_true_iff.
  rewrite IH by done. rewrite bool_decide_eq_false_2; [done|]. intros ->. congruence.
Qed.
Lemma scheme_cut_append s t : all_bytes scheme_byte s = true → scheme_cut (s +:+ String colon t) = Some (s, t).
Proof.
  induction s as [|c s IH]; cbn [all_bytes]; [intros _; rewrite append_nil; cbn [scheme_cut]; by rewrite decide_True|].
  intros [Hc Hs]%andb_true_iff. rewrite append_cons. cbn [scheme_cut].
  rewrite decide_False by (intros ->; vm_compute in Hc; done). by rewrite Hc, IH.
Qed.

Lemma escape_empty mode s : escape mode s = "" ↔ s = "".
Proof. split; [|by intros ->]. destruct s as [|c s]; [done|]. rewrite escape_cons. unfold escape_byte, percent. by repeat case_match. Qed.
Lemma escape_host s : all_bytes (can_hold encodeHost) s = true → escape encodeHost s = s.
Proof.
  induction s as [|c s IH]; [done|]. cbn [all_bytes]. intros [Hc Hs]%andb_true_iff. cbn [can_hold] in Hc.
  rewrite escape_cons. unfold escape_byte. apply negb_true_iff in Hc. by rewrite Hc, IH.
Qed.

(** The authority. *)
Definition authority (u : URL) : string :=
  match User u with Some ui => Userinfo_String ui +:+ "@" | None => "" end +:+ escape encodeHost (Host u).

Lemma parseUserinfo_String ui : parseUserinfo (Userinfo_String ui) = inr ui.
Proof.
  destruct ui as [name pass]. unfold parseUserinfo, Userinfo_String. cbn [username password].
  assert (has_byte ":" (escape encodeUserPassword name) = false) as Hn by by apply escape_no_byte.
  pose proof (λ s, unescape_escape encodeUserPassword s (all_bytes_true s (can_hold encodeUserPassword) (λ _, eq_refl))) as HE.
  destruct pass as [pass|].
  - change (":" +:+ escape encodeUserPassword pass) with (String ":" (escape encodeUserPassword pass)).
    rewrite cut_append by done. unfold both. by rewrite !HE.
  - rewrite append_empty_r. rewrite has_byte_false_cut by done. by rewrite HE.
Qed.
Lemma parseHost_sound u : sound_URL u → parseHost (Host u) = inr (Host u).
Proof.
  intros Hu. pose proof (su_host u Hu) as Hh. pose proof (unescape_escape encodeHost (Host u) Hh) as HE.
  rewrite escape_host in HE by done. unfold parseHost. destruct (HasPrefix (Host u) "[") eqn:Hp; [|done].
  destruct (su_literal u Hu Hp) as (inside & port & Hc & Hport). rewrite Hc, Hport.
  assert (has_byte "%" inside = false) as Hi.
  { pose proof (all_no_byte _ "%"%char _ eq_refl Hh) as Hn. clear -Hc Hn. revert inside Hc Hn.
    induction (Host u) as [|c s IH]; [done|]. intros inside. cbn [cut_last has_byte].
    destruct (cut_last "]" s) as [[i p]|] eqn:E.
    - intros [= <- ->] [H1 H2]%orb_false_iff. cbn [has_byte]. by rewrite H1, IH.
    - case_decide; [|done]. by intros [= <- _]. }
  by rewrite cut_at_none.
Qed.
Lemma authority_no_byte u d : sound_URL u → d ∈ ["/"; "?"; "#"]%char → has_byte d (authority u) = false.
Proof.
  intros Hu Hd. unfold authority. rewrite has_byte_append, escape_host by apply Hu.
  assert (has_byte d (Host u) = false ∧ ∀ s, has_byte d (escape encodeUserPassword s) = false) as [-> Hn].
  { rewrite !elem_of_cons in Hd. destruct Hd as [->|[->|[->|Hd]]]; [..|by apply not_elem_of_nil in Hd];
      (split; [apply (all_no_byte (can_hold encodeHost)); [done|apply Hu]|intros s; by apply escape_no_byte]). }
  destruct (User u) as [[name pass]|]; [|done]. unfold Userinfo_String. cbn [username password].
  rewrite !has_byte_append, Hn. rewrite !elem_of_cons in Hd.
  assert (d ≠ "@"%char ∧ d ≠ ":"%char) as [Ha Hc].
  { destruct Hd as [->|[->|[->|Hd]]]; [done..|by apply not_elem_of_nil in Hd]. }
  destruct pass as [pass|]; [rewrite has_byte_append, Hn|]; cbn [has_byte];
    rewrite ?(bool_decide_eq_false_2 _ Ha), ?(bool_decide_eq_false_2 _ Hc); done.
Qed.
Lemma parseAuthority_sound u : sound_URL u → parseAuthority (authority u) = inr (User u, Host u).
Proof.
  intros Hu. unfold parseAuthority, authority. rewrite escape_host by apply Hu.
  assert (has_byte "@" (Host u) = false) as Hat by (apply (all_no_byte (can_hold encodeHost)); [done|apply Hu]).
  destruct (User u) as [ui|].
  - rewrite append_assoc. change ("@" +:+ Host u) with (String "@" (Host u)). rewrite cut_last_append by done.
    by rewrite parseHost_sound, parseUserinfo_String.
  - rewrite append_nil, cut_last_none by done. by rewrite parseHost_sound.
Qed.

Lemma EscapedPath_sound u : RawPath u = "" → Path u = "" ∨ HasPrefix (Path u) "/" = true →
  EscapedPath u = escape encodePath (Path u).
Proof.
  intros Hr Hp. unfold EscapedPath. rewrite decide_False by (rewrite Hr; tauto).
  rewrite decide_False; [done|]. intros E. rewrite E in Hp. by destruct Hp.
Qed.
Lemma HasPrefix_slash s : HasPrefix s "/" = true ↔ ∃ t, s = String slash t.
Proof.
  split; [|by intros [t ->]; destruct t]. unfold HasPrefix. destruct s as [|c s]; [done|]. cbn.
  case_match; [|done]. subst. by eexists.
Qed.
(** The path as it is written. *)
Lemma escaped_path_slash p : p = "" ∨ HasPrefix p "/" = true →
  escape encodePath p = "" ∨ ∃ t, escape encodePath p = String slash t.
Proof. intros [->|(t & ->)%HasPrefix_slash]; [by left|right; by eexists]. Qed.
Lemma split_keep_path a p : has_byte slash a = false → p = "" ∨ (∃ t, p = String slash t) →
  split_keep slash (a +:+ p) = (a, p).
Proof.
  intros Ha [->|[t ->]]; unfold split_keep.
  - by rewrite append_empty_r, has_byte_false_cut.
  - by rewrite cut_append.
Qed.

Lemma URL_String_sound u : sound_URL u →
  URL_String u = Scheme u +:+ String colon ("//" +:+ authority u +:+ escape encodePath (Path u) +:+
    (if decide (RawQuery u = "") then "" else "?" +:+ RawQuery u) +:+
    (if decide (Fragment u = "") then "" else "#" +:+ escape encodeFragment (Fragment u))).
Proof.
  intros Hu. destruct Hu as [Hs Hl Ho Hh Hb Hp Hr Hq]. unfold URL_String. rewrite Ho, EscapedPath_sound by done.
  rewrite (decide_False (P := Scheme u = "")) by (by destruct (Scheme u)).
  rewrite (decide_False (P := "" ≠ "")) by tauto.
  rewrite (decide_True (P := _ ∨ _)) by (left; by destruct (Scheme u)).
  rewrite (decide_False (P := _ ∧ _)).
  2: { intros (H1 & H2 & _). destruct (escaped_path_slash _ Hp) as [E|[t E]]; [done|]. rewrite E in H2.
       unfold HasPrefix in H2. cbn in H2. by destruct t. }
  unfold authority. rewrite append_nil, !append_assoc. done.
Qed.

(** The parts in front of the fragment. *)
Lemma parse_parts_sound u viaRequest : sound_URL u →
  parse_parts (Scheme u +:+ String colon ("//" +:+ authority u +:+ escape encodePath (Path u) +:+
    (if decide (RawQuery u = "") then "" else "?" +:+ RawQuery u))) viaRequest = inr (set_Fragment "" u).
Proof.
  intros Hu. pose proof Hu as [Hs Hl Ho Hh Hb Hp Hr Hq].
  set (rest := "//" +:+ _). unfold parse_parts.
  destruct (Scheme u) as [|c s] eqn:Es; [done|]. destruct Hs as [Hc Hs].
  rewrite decide_False by (by intros [? _]).
  rewrite append_cons, decide_False by (intros [= ->]; done). cbn [getscheme].
  rewrite decide_False, Hc by (intros ->; vm_compute in Hc; done).
  rewrite <-append_cons, (scheme_cut_append (String c s)).
  2: { cbn [all_bytes]. rewrite Hs, andb_true_r. unfold scheme_byte, is_alnum. unfold is_alpha in Hc.
       apply orb_true_iff in Hc as [-> | ->]; by rewrite !orb_true_r. }
  cbn [default]. unfold id. rewrite <-Es, Hl in *.
  pose proof (authority_no_byte u) as HA.
  assert (has_byte "?" (escape encodePath (Path u)) = false) as HP by by apply escape_no_byte.
  assert (cut "?" rest = ("//" +:+ authority u +:+ escape encodePath (Path u),
            if decide (RawQuery u = "") then None else Some (RawQuery u))) as ->.
  { unfold rest. assert (has_byte "?" ("//" +:+ authority u +:+ escape encodePath (Path u)) = false) as Hn.
    { rewrite !has_byte_append, HA, HP by (done || set_solver). done. }
    destruct (decide (RawQuery u = "")).
    - rewrite append_empty_r. by apply has_byte_false_cut.
    - change ("?" +:+ RawQuery u) with (String "?" (RawQuery u)). rewrite <-!append_assoc in *. by apply cut_append. }
  assert (from_option (λ x, x) "" (if decide (RawQuery u = "") then None else Some (RawQuery u)) = RawQuery u) as Hd
    by by destruct (decide (RawQuery u = "")) as [->|].
  cbv beta iota zeta. rewrite Hd.
  assert (bool_decide (Scheme u ≠ "") = true) as Hne by (apply bool_decide_eq_true; by rewrite Es).
  change ("//" +:+ authority u +:+ escape encodePath (Path u)) with
    (String slash (String slash (authority u +:+ escape encodePath (Path u)))).
  rewrite Hne. cbn -[split_keep parseAuthority unescape EscapedPath escape validEncoded].
  assert (∀ s, String.prefix "" s = true) as -> by (intros []; done).
  rewrite split_keep_path by first [apply HA; [done|set_solver]|by apply escaped_path_slash].
  rewrite parseAuthority_sound by done. unfold both. rewrite unescape_escape by by apply all_bytes_true.
  rewrite decide_False.
  - destruct u. cbn in *. by subst.
  - intros [Hn _]. apply Hn. rewrite EscapedPath_sound by done. done.
Qed.

(** Reading a URL that was written. *)
Lemma Parse_String u : sound_URL u → url_Parse (URL_String u) = inr u.
Proof.
  intros Hu. rewrite URL_String_sound by done. pose proof (parse_parts_sound u false Hu) as HP.
  pose proof Hu as [Hs Hl Ho Hh Hb Hp Hr Hq].
  set (front := Scheme u +:+ String colon ("//" +:+ authority u +:+ escape encodePath (Path u) +:+ _)) in HP.
  set (frag := if decide (Fragment u = "") then "" else "#" +:+ escape encodeFragment (Fragment u)).
  assert (Scheme u +:+ String colon ("//" +:+ authority u +:+ escape encodePath (Path u) +:+
    (if decide (RawQuery u = "") then "" else "?" +:+ RawQuery u) +:+ frag) = front +:+ frag) as ->.
  { unfold front. rewrite append_assoc, (append_cons colon), !append_assoc. done. }
  assert (has_byte "#" front = false) as Hf.
  { unfold front. rewrite has_byte_append. cbn [has_byte]. rewrite !has_byte_append.
    rewrite (authority_no_byte u) by (done || set_solver). rewrite (escape_no_byte encodePath) by done.
    destruct (Scheme u) as [|c s]; [done|]. destruct Hs as [Hc Hs]. cbn [has_byte].
    rewrite (all_no_byte scheme_byte) by done. rewrite bool_decide_eq_false_2 by (intros <-; vm_compute in Hc; done).
    destruct (decide (RawQuery u = "")); [done|]. rewrite has_byte_append, Hq. done. }
  unfold url_Parse, frag. destruct (decide (Fragment u = "")) as [E|E].
  - rewrite append_empty_r, has_byte_false_cut by done. rewrite HP. cbn. f_equal. destruct u. cbn in *. by subst.
  - change ("#" +:+ escape encodeFragment (Fragment u)) with (String "#" (escape encodeFragment (Fragment u))).
    rewrite cut_append by done. rewrite HP. cbn [url_error].
    destruct (escape encodeFragment (Fragment u)) as [|c s] eqn:Ef; [by apply escape_empty in Ef|].
    rewrite <-Ef, unescape_escape by by apply all_bytes_true. cbn. f_equal. by destruct u.
Qed.

(** The other parser, for a URL without a fragment. *)
Lemma ParseRequestURI_String u : sound_URL u → Fragment u = "" → ParseRequestURI (URL_String u) = inr u.
Proof.
  intros Hu Hf. unfold ParseRequestURI. rewrite URL_String_sound, Hf by done.
  rewrite (decide_True (P := "" = "")), append_empty_r by done.
  rewrite parse_parts_sound by done. cbn. f_equal. destruct u. cbn in *. by subst.
Qed.
End URLs.
