(* ===== verification/QueryParams.v ===== *)
(** [conversion/queryparams/convert.go] of the vendored Kubernetes code, and the use that
    [runtime/codec.go] makes of it for the options of a list or a watch: the fields of a
    struct as the parameters of a query.

    What reflection sees of a value is an [rvalue]; floating-point and complex numbers and
    arrays are left out. *)

From Stdlib Require Import Ascii.
From stdpp Require Import gmap strings pretty list.
From S2P Require Import Prelude GoStrings Strconv GoURL.

Local Open Scope Z_scope.

(** Values of the kinds of [isValueKind]. *)
Inductive prim : Type := PString (s : string) | PBool (b : bool) | PInt (z : Z).

(** The kinds that the code tells apart: a slice has elements of [isValueKind] or not, a
    struct implements [Marshaler] or not. *)
Inductive kind : Type := KValue | KSlice (of_values : bool) | KStruct (marshals : bool) | KOther.

(** Values: a slice may be nil; a struct has the text that its [MarshalQueryParameter] gives,
    and the [json] tags and values of its fields; of a value of another kind it is known
    whether it is zero; a pointer is nil, to a type of a kind, or not. *)
Inductive rvalue : Type :=
| RPrim (p : prim)
| RSlice (of_values : bool) (elems : option (list prim))
| RStruct (marshaled : option string) (fields : list (string * rvalue))
| ROther (zero : bool)
| RNil (elem : kind)
| RPtr (v : rvalue).

Definition jsonTag (structTag : string) : string * bool :=
  match Split ","%char structTag with
  | tag :: parts =>
      if decide (structTag = "") then ("", false)
      else (if decide (tag = "-") then "" else tag, existsb (λ part, bool_decide (part = "omitempty")) parts)
  | [] => ("", false)
  end.

(** [fmt.Sprintf "%v"]. *)
Definition formatValue (p : prim) : string :=
  match p with PString s => s | PBool b => if b then "true" else "false" | PInt z => pretty z end.

Definition zero_prim (p : prim) : bool :=
  match p with PString s => bool_decide (s = "") | PBool b => negb b | PInt z => bool_decide (z = 0) end.
Fixpoint zeroValue (v : rvalue) : bool :=
  match v with
  | RPrim p => zero_prim p
  | RSlice _ elems => match elems with None => true | Some _ => false end
  | RStruct _ fields => forallb (λ f, zeroValue f.2) fields
  | ROther zero => zero
  | RNil _ => true
  | RPtr _ => false
  end.

(** [addParam] of a value or of a nil pointer ([None]). *)
Definition addParam (values : Values) (tag : string) (omitempty : bool) (value : option prim) : Values :=
  if omitempty && match value with Some p => zero_prim p | None => true end then values
  else
    let iValue := match value with Some p => formatValue p | None => "<nil>" end in
    Values_Add tag (if decide (iValue ≠ "<nil>") then iValue else "") values.

Definition addListOfParams (values : Values) (tag : string) (omitempty : bool) (l : list prim) : Values :=
  foldl (λ values p, addParam values tag omitempty (Some p)) values l.

(** The body of the loop of [convertStruct], for a field with a tag; [None] is a panic of
    [reflect].  The loop over the fields of a nested struct is the inner function. *)
Fixpoint convert_field (tag : string) (omitempty : bool) (v : rvalue) (result : Values) : option Values :=
  match v with
  | RPrim p => Some (addParam result tag omitempty (Some p))
  | RSlice true elems => Some (addListOfParams result tag omitempty (default [] elems))
  | RSlice false _ | ROther _ => Some result
  | RStruct marshaled fields =>
      if omitempty && zeroValue v then Some result
      else match marshaled with
           | Some text => Some (addParam result tag omitempty (Some (PString text)))
           | None =>
               (fix loop (fields : list (string * rvalue)) (result : Values) : option Values :=
                  match fields with
                  | [] => Some result
                  | (structTag, v) :: fields =>
                      let '(tag, omitempty) := jsonTag structTag in
                      if decide (tag = "") then loop fields result
                      else match convert_field tag omitempty v result with
                           | Some result => loop fields result
                           | None => None
                           end
                  end) fields result
           end
  | RNil KValue => Some (addParam result tag omitempty None)
  | RNil (KSlice true) => None
  | RNil (KSlice false) | RNil KOther => Some result
  | RNil (KStruct marshals) =>
      if omitempty then Some result
      else if marshals then Some (addParam result tag omitempty (Some (PString ""))) else None
  | RPtr (RPtr _) | RPtr (RNil _) => Some result
  | RPtr v => convert_field tag omitempty v result
  end.
Fixpoint convertStruct (result : Values) (fields : list (string * rvalue)) : option Values :=
  match fields with
  | [] => Some result
  | (structTag, v) :: fields =>
      let '(tag, omitempty) := jsonTag structTag in
      if decide (tag = "") then convertStruct result fields
      else match convert_field tag omitempty v result with
           | Some result => convertStruct result fields
           | None => None
           end
  end.

(** [Convert]; a nil interface is [None]. *)
Definition Convert (obj : option rvalue) : option (string + Values) :=
  match obj with
  | None => Some (inr ∅)
  | Some (RPtr (RStruct _ fields)) => inr <$> convertStruct ∅ fields
  | Some (RPtr _) => Some (inl "expecting a pointer to a struct")
  | Some (RNil _) => None
  | Some _ => Some (inl "expecting a pointer or interface")
  end.

(** * The options of lists and watches *)

(** [v1.ListOptions]; the kind and the version of its [TypeMeta] come first. *)
Record v1_ListOptions := mkV1ListOptions {
  Kind : string; APIVersion : string;
  LabelSelector : string; FieldSelector : string; WatchFlag : bool;
  v1_ResourceVersion : string; v1_TimeoutSeconds : option Z
}.
Definition reflect_ListOptions (o : v1_ListOptions) : rvalue :=
  RPtr (RStruct None [
    (",inline", RStruct None [("kind,omitempty", RPrim (PString (Kind o))); ("apiVersion,omitempty", RPrim (PString (APIVersion o)))]);
    ("labelSelector,omitempty", RPrim (PString (LabelSelector o)));
    ("fieldSelector,omitempty", RPrim (PString (FieldSelector o)));
    ("watch,omitempty", RPrim (PBool (WatchFlag o)));
    ("resourceVersion,omitempty", RPrim (PString (v1_ResourceVersion o)));
    ("timeoutSeconds,omitempty", match v1_TimeoutSeconds o with Some z => RPtr (RPrim (PInt z)) | None => RNil KValue end)]).

(** ** What the parameters are *)

Definition option_param (tag value : string) : Values :=
  if decide (value = "") then ∅ else {[tag := [if decide (value = "<nil>") then "" else value]]}.

(** The parameters of options without selectors. *)
Definition list_params (resourceVersion : string) (timeoutSeconds : option Z) : Values :=
  match timeoutSeconds with
  | Some z => if decide (z = 0) then ∅ else {["timeoutSeconds" := [pretty z]]}
  | None => ∅
  end ∪ option_param "resourceVersion" resourceVersion.

(** [EncodeParameters] with the version [v1], of options whose selectors are nil: the
    conversion copies the fields. *)
Definition EncodeParameters (resourceVersion : string) (timeoutSeconds : option Z) : option (string + Values) :=
  Convert (Some (reflect_ListOptions (mkV1ListOptions "ListOptions" "v1" "" "" false resourceVersion timeoutSeconds))).

Lemma pretty_not_nil (z : Z) : pretty z ≠ "<nil>".
Proof.
  destruct z as [|p|p]; [done| |done]. change (pretty (Zpos p)) with (pretty_N_go (Npos p) "").
  destruct (pretty_go_head (Npos p) "" eq_refl) as (y & s' & -> & Hy). intros [= E _].
  assert (y ∈ [1; 2; 3; 4; 5; 6; 7; 8; 9]%N) as Hin by (rewrite !elem_of_cons; lia).
  repeat (apply elem_of_cons in Hin as [->|Hin]; [discriminate|]). inversion Hin.
Qed.

Lemma convertStruct_skip result structTag omitempty v fields :
  jsonTag structTag = ("", omitempty) → convertStruct result ((structTag, v) :: fields) = convertStruct result fields.
Proof. intros Ht. cbn [convertStruct]. rewrite Ht. by rewrite decide_True by done. Qed.
Lemma convertStruct_cons result structTag tag omitempty v result' fields :
  jsonTag structTag = (tag, omitempty) → tag ≠ "" → convert_field tag omitempty v result = Some result' →
  convertStruct result ((structTag, v) :: fields) = convertStruct result' fields.
Proof. intros Ht Hne Hv. cbn [convertStruct]. rewrite Ht, Hv. by rewrite decide_False by done. Qed.

Lemma convertStruct_zero result structTag tag p fields :
  jsonTag structTag = (tag, true) → zero_prim p = true →
  convertStruct result ((structTag, RPrim p) :: fields) = convertStruct result fields.
Proof.
  intros Ht Hp. destruct (decide (tag = "")) as [->|Hne]; [by apply (convertStruct_skip _ _ true)|].
  apply (convertStruct_cons _ _ tag true); [done..|]. cbn [convert_field]. unfold addParam. by rewrite Hp.
Qed.

Lemma addParam_omitempty values tag p :
  addParam values tag true (Some p) =
  if zero_prim p then values else Values_Add tag (if decide (formatValue p = "<nil>") then "" else formatValue p) values.
Proof. unfold addParam. cbn [andb]. destruct (zero_prim p); [done|]. f_equal. by repeat case_decide. Qed.

(** The parameters are the fields that are not zero; a pointer to zero counts as zero. *)
Lemma EncodeParameters_list_params rv ts : EncodeParameters rv ts = Some (inr (list_params rv ts)).
Proof.
  unfold EncodeParameters, reflect_ListOptions, Convert. cbn [v1_TimeoutSeconds v1_ResourceVersion LabelSelector FieldSelector WatchFlag].
  rewrite (convertStruct_skip _ _ false) by reflexivity.
  rewrite (convertStruct_zero _ _ "labelSelector"), (convertStruct_zero _ _ "fieldSelector"),
    (convertStruct_zero _ _ "watch") by reflexivity.
  assert (convert_field "resourceVersion" true (RPrim (PString rv)) ∅ = Some (option_param "resourceVersion" rv)) as Hrv.
  { cbn [convert_field]. rewrite addParam_omitempty. unfold option_param. cbn [zero_prim formatValue].
    destruct (decide (rv = "")) as [->|Hne]; [done|]. rewrite bool_decide_eq_false_2 by done.
    unfold Values_Add. by rewrite lookup_empty, insert_empty. }
  rewrite (convertStruct_cons _ _ "resourceVersion" true _ (option_param "resourceVersion" rv)) by done.
  unfold list_params. destruct ts as [z|]; [|by rewrite (left_id_L ∅ (∪))].
  erewrite (convertStruct_cons _ _ "timeoutSeconds" true); [|reflexivity|discriminate|cbn [convert_field]; reflexivity].
  cbn [convertStruct].
  rewrite addParam_omitempty. cbn [zero_prim formatValue].
  destruct (decide (z = 0)) as [->|Hz]; [by rewrite (left_id_L ∅ (∪))|].
  rewrite bool_decide_eq_false_2, decide_False by (done || apply pretty_not_nil). cbn. do 2 f_equal.
  unfold Values_Add, option_param. rewrite insert_union_singleton_l.
  by case_decide; [rewrite lookup_empty|rewrite lookup_singleton_ne].
Qed.

(** No parameter is without a value, or one of those that [VersionedParams] treats apart. *)
Lemma list_params_keys rv ts k vs :
  list_params rv ts !! k = Some vs → (k = "resourceVersion" ∨ k = "timeoutSeconds") ∧ vs ≠ [].
Proof.
  unfold list_params, option_param. intros [Hk|[_ Hk]]%lookup_union_Some_raw.
  - destruct ts as [z|]; [case_decide|]; [done| |done]. apply lookup_singleton_Some in Hk as [<- <-]. auto.
  - case_decide; [done|]. apply lookup_singleton_Some in Hk as [<- <-]. auto.
Qed.
