(* ===== verification/FieldSelector.v ===== *)
(** [fields/selector.go] and [fields.go] of the vendored Kubernetes code: selectors of
    objects by their fields, with their text. *)

From Stdlib Require Import Ascii.
From stdpp Require Import gmap strings list sorting.
From S2P Require Import Prelude GoStrings Strconv GoURL GoURLProps.

(** [strings.Split s sep] for a separator that is not empty; [k] bytes of the last
    separator are still to be skipped. *)
Fixpoint SplitSep_from (sep : string) (k : nat) (s : string) : list string :=
  match s with
  | EmptyString => [""]
  | String c s' =>
      match k with
      | S k => SplitSep_from sep k s'
      | O =>
          if HasPrefix s sep then "" :: SplitSep_from sep (String.length sep - 1) s'
          else match SplitSep_from sep 0 s' with
               | [] => [String c ""]
               | p :: ps => String c p :: ps
               end
      end
  end.
Definition SplitSep (s sep : string) : list string := SplitSep_from sep 0 s.

(** * fields.go *)

(** [Set]: the value of a field that is not there is empty. *)
Definition Set_ : Type := gmap string string.
Definition Set_Has (ls : Set_) (field : string) : bool := bool_decide (is_Some (ls !! field)).
Definition Set_Get (ls : Set_) (field : string) : string := default "" (ls !! field).

(** [Set.String]. *)
Definition Set_String `{!MapOrder} (ls : Set_) : string :=
  join "," (merge_sort String.le ((λ key, key +:+ "=" +:+ Set_Get ls key) <$> map_range ls)).

(** * selector.go *)

(** The implementations of [Selector]; a nil [andTerm] is an empty one. *)
Inductive Selector : Type :=
| hasTerm (field value : string)
| notHasTerm (field value : string)
| andTerm (ts : list Selector).

Definition Everything : Selector := andTerm [].

Fixpoint Matches (t : Selector) (ls : Set_) : bool :=
  match t with
  | hasTerm field value => bool_decide (Set_Get ls field = value)
  | notHasTerm field value => bool_decide (Set_Get ls field ≠ value)
  | andTerm ts => forallb (λ q, Matches q ls) ts
  end.

Fixpoint Empty (t : Selector) : bool :=
  match t with
  | hasTerm _ _ | notHasTerm _ _ => false
  | andTerm ts => forallb Empty ts
  end.

(** [("", false)] is [None]. *)
Fixpoint RequiresExactMatch (t : Selector) (field : string) : option string :=
  match t with
  | hasTerm f value => if decide (f = field) then Some value else None
  | notHasTerm _ _ => None
  | andTerm ts =>
      (fix go ts := match ts with
                    | [] => None
                    | q :: ts => match RequiresExactMatch q field with Some v => Some v | None => go ts end
                    end) ts
  end.

Definition TransformFunc : Type := string → string → error + (string * string).

Fixpoint Transform (fn : TransformFunc) (t : Selector) : error + Selector :=
  match t with
  | hasTerm field value =>
      match fn field value with inl err => inl err | inr (field, value) => inr (hasTerm field value) end
  | notHasTerm field value =>
      match fn field value with inl err => inl err | inr (field, value) => inr (notHasTerm field value) end
  | andTerm ts =>
      match (fix go ts := match ts with
                          | [] => inr []
                          | s :: ts => match Transform fn s with
                                       | inl err => inl err
                                       | inr n => match go ts with inl err => inl err | inr next => inr (n :: next) end
                                       end
                          end) ts with
      | inl err => inl err
      | inr next => inr (andTerm next)
      end
  end.

Fixpoint Selector_String (t : Selector) : string :=
  match t with
  | hasTerm field value => field +:+ "=" +:+ value
  | notHasTerm field value => field +:+ "!=" +:+ value
  | andTerm ts => join "," (Selector_String <$> ts)
  end.

(** A nil set is an empty one: both give a selector that is empty. *)
Definition SelectorFromSet `{!MapOrder} (ls : Set_) : Selector :=
  match (λ field, hasTerm field (Set_Get ls field)) <$> map_range ls with
  | [item] => item
  | items => andTerm items
  end.

(** [try]: the two sides of an operator that occurs once. *)
Definition try_op (selectorPiece op : string) : option (string * string) :=
  match SplitSep selectorPiece op with
  | [lhs; rhs] => Some (lhs, rhs)
  | _ => None
  end.

Definition parse_part (part : string) : option Selector :=
  match try_op part "!=" with
  | Some (lhs, rhs) => Some (notHasTerm lhs rhs)
  | None =>
      match try_op part "==" with
      | Some (lhs, rhs) => Some (hasTerm lhs rhs)
      | None =>
          match try_op part "=" with
          | Some (lhs, rhs) => Some (hasTerm lhs rhs)
          | None => None
          end
      end
  end.

(** The loop of [parseSelector] over the parts. *)
Fixpoint parse_parts (selector : string) (parts : list string) : error + list Selector :=
  match parts with
  | [] => inr []
  | part :: parts =>
      if decide (part = "") then parse_parts selector parts
      else
        match parse_part part with
        | None => inl (Errorf ("invalid selector: '" +:+ selector +:+ "'; can't understand '" +:+ part +:+ "'"))
        | Some item =>
            match parse_parts selector parts with inl err => inl err | inr items => inr (item :: items) end
        end
  end.

Definition parseSelector (selector : string) (fn : TransformFunc) : error + Selector :=
  match parse_parts selector (merge_sort String.le (Split "," selector)) with
  | inl err => inl err
  | inr [item] => Transform fn item
  | inr items => Transform fn (andTerm items)
  end.

Definition ParseSelector (selector : string) : error + Selector :=
  parseSelector selector (λ lhs rhs, inr (lhs, rhs)).
Definition ParseAndTransformSelector (selector : string) (fn : TransformFunc) : error + Selector :=
  parseSelector selector fn.
Definition ParseSelectorOrDie {S} (s : string) : M S Selector :=
  match ParseSelector s with inl _ => panic "invalid selector" | inr selector => mret selector end.
Definition OneTermEqualSelector (k v : string) : Selector := hasTerm k v.

Definition AsSelector `{!MapOrder} (ls : Set_) : Selector := SelectorFromSet ls.

(** * Properties *)

(** The text of a field or value that has a meaning of its own nowhere. *)
Definition plain (s : string) : bool :=
  negb (has_byte "," s || has_byte "=" s || has_byte "!" s).

Inductive plain_term : Selector → Prop :=
| plain_has f v : plain f → plain v → plain_term (hasTerm f v)
| plain_not f v : plain f → plain v → plain_term (notHasTerm f v).

Lemma plain_bytes s : plain s → has_byte "," s = false ∧ has_byte "=" s = false ∧ has_byte "!" s = false.
Proof. unfold plain. intros H. destruct (has_byte "," s), (has_byte "=" s), (has_byte "!" s); done. Qed.

(** ** Splitting *)

Lemma HasPrefix_head c s d sep : HasPrefix (String c s) (String d sep) = true → c = d.
Proof. unfold HasPrefix. cbn. by case_match. Qed.

Lemma SplitSep_none sep s d sep' : sep = String d sep' → has_byte d s = false → SplitSep s sep = [s].
Proof.
  intros ->. unfold SplitSep. induction s as [|c s IH]; [done|]. cbn [has_byte].
  intros [Hc Hs]%orb_false_iff. apply bool_decide_eq_false in Hc. cbn [SplitSep_from].
  destruct (HasPrefix (String c s) (String d sep')) eqn:E; [by apply HasPrefix_head in E|]. by rewrite IH.
Qed.

Lemma HasPrefix_app sep t : HasPrefix (sep +:+ t) sep = true.
Proof. unfold HasPrefix, String.app. induction sep as [|c sep IH]; [by destruct t|]. cbn. by case_match. Qed.

Lemma SplitSep_skip sep k s t : String.length s = k → SplitSep_from sep k (s +:+ t) = SplitSep_from sep 0 t.
Proof. intros <-. induction s as [|c s IH]; [done|]. exact IH. Qed.

Lemma SplitSep_once sep d sep' a b :
  sep = String d sep' → has_byte d a = false → has_byte d b = false → SplitSep (a +:+ sep +:+ b) sep = [a; b].
Proof.
  intros Hsep Ha Hb. unfold SplitSep. induction a as [|c a IH].
  - change ("" +:+ sep +:+ b) with (sep +:+ b). pose proof (HasPrefix_app sep b) as E. rewrite Hsep in *.
    change (String d sep' +:+ b) with (String d (sep' +:+ b)) in *. cbn [SplitSep_from]. rewrite E.
    rewrite SplitSep_skip by (simpl; lia). f_equal. by apply (SplitSep_none _ _ d sep').
  - cbn [has_byte] in Ha. apply orb_false_iff in Ha as [Hc Ha]. apply bool_decide_eq_false in Hc.
    change (String c a +:+ sep +:+ b) with (String c (a +:+ sep +:+ b)). cbn [SplitSep_from].
    destruct (HasPrefix (String c (a +:+ sep +:+ b)) sep) eqn:E.
    { subst sep. by apply HasPrefix_head in E. }
    by rewrite IH.
Qed.

(** One [=] is not the operator [==]. *)
Lemma SplitSep_eqeq a b :
  has_byte "=" a = false → has_byte "=" b = false → SplitSep (a +:+ "=" +:+ b) "==" = [a +:+ "=" +:+ b].
Proof.
  intros Ha Hb. unfold SplitSep. induction a as [|c a IH].
  - change ("" +:+ "=" +:+ b) with (String "=" b). cbn [SplitSep_from].
    assert (HasPrefix (String "=" b) "==" = false) as ->.
    { destruct b as [|c b]; [done|]. destruct (HasPrefix _ _) eqn:E; [|done].
      change (HasPrefix (String c b) "=" = true) in E. apply HasPrefix_head in E as ->. by cbn in Hb. }
    by rewrite (SplitSep_none "==" b "=" "=" eq_refl Hb : SplitSep_from "==" 0 b = [b]).
  - cbn [has_byte] in Ha. apply orb_false_iff in Ha as [Hc Ha]. apply bool_decide_eq_false in Hc.
    change (String c a +:+ "=" +:+ b) with (String c (a +:+ "=" +:+ b)). cbn [SplitSep_from].
    destruct (HasPrefix (String c (a +:+ "=" +:+ b)) "==") eqn:E; [by apply HasPrefix_head in E|]. by rewrite IH.
Qed.

(** ** Terms *)

Lemma parse_part_String t : plain_term t → parse_part (Selector_String t) = Some t.
Proof.
  intros [f v (_ & Hf & Hf')%plain_bytes (_ & Hv & Hv')%plain_bytes|f v (_ & Hf & Hf')%plain_bytes (_ & Hv & Hv')%plain_bytes];
    unfold parse_part, try_op; cbn [Selector_String].
  - rewrite (SplitSep_none "!=" _ "!" "=") by (by rewrite ?has_byte_append, ?Hf', ?Hv').
    rewrite SplitSep_eqeq by done. by rewrite (SplitSep_once "=" "=" "").
  - by rewrite (SplitSep_once "!=" "!" "=").
Qed.

Lemma String_no_comma t : plain_term t → has_byte "," (Selector_String t) = false.
Proof.
  by intros [f v (Hf & _)%plain_bytes (Hv & _)%plain_bytes|f v (Hf & _)%plain_bytes (Hv & _)%plain_bytes];
    cbn [Selector_String]; rewrite !has_byte_append, Hf, Hv.
Qed.

Lemma String_not_empty t : plain_term t → Selector_String t ≠ "".
Proof.
  intros Ht E%(f_equal String.length). destruct Ht; cbn [Selector_String] in E; rewrite !length_append in E; simpl in E; lia.
Qed.

Lemma parse_parts_String sel ts : Forall plain_term ts → parse_parts sel (Selector_String <$> ts) = inr ts.
Proof.
  induction 1 as [|t ts Ht _ IH]; [done|]. rewrite fmap_cons. cbn [parse_parts].
  by rewrite decide_False, parse_part_String, IH by (done || by apply String_not_empty).
Qed.

Lemma Transform_id t : plain_term t → Transform (λ lhs rhs, inr (lhs, rhs)) t = inr t.
Proof. by intros []. Qed.

Lemma Transform_id_and ts : Forall plain_term ts → Transform (λ lhs rhs, inr (lhs, rhs)) (andTerm ts) = inr (andTerm ts).
Proof.
  intros Hts. cbn [Transform].
  assert (∀ ts, Forall plain_term ts →
    (fix go ts := match ts with
                  | [] => inr []
                  | s :: ts => match Transform (λ lhs rhs, inr (lhs, rhs)) s with
                               | inl err => inl err
                               | inr n => match go ts with inl err => inl err | inr next => inr (n :: next) end
                               end
                  end) ts = (inr ts : error + list Selector)) as E; [|by rewrite E].
  induction 1 as [|t ts' Ht _ IH]; [done|]. by rewrite Transform_id, IH.
Qed.

Lemma forallb_Permutation {A} (f : A → bool) l l' : l ≡ₚ l' → forallb f l = forallb f l'.
Proof. induction 1; simpl; [done|by f_equal|by destruct (f x), (f y)|congruence]. Qed.

(** The parts in order are the texts of the terms in some order. *)
Lemma sorted_texts ts :
  Forall plain_term ts → ts ≠ [] →
  ∃ ts', merge_sort String.le (Split "," (join "," (Selector_String <$> ts))) = Selector_String <$> ts' ∧ ts' ≡ₚ ts.
Proof.
  intros Hts Hne. rewrite Split_join.
  - pose proof (merge_sort_Permutation String.le (Selector_String <$> ts)) as Hp.
    apply Permutation_map_inv in Hp as (ts' & E & Hp). exists ts'. split; [exact E|by symmetry].
  - apply Forall_fmap. eapply Forall_impl; [exact Hts|]. intros t Ht. by apply String_no_comma.
  - by intros ?%fmap_nil_inv.
Qed.

(** A selector that is a conjunction of terms whose fields and values have no [,], [=] or
    [!] is read back from its text as one that matches the same objects. *)
Theorem parse_String ts :
  Forall plain_term ts →
  ∃ t, ParseSelector (Selector_String (andTerm ts)) = inr t ∧ ∀ ls, Matches t ls = Matches (andTerm ts) ls.
Proof.
  intros Hts. unfold ParseSelector, parseSelector. cbn [Selector_String].
  destruct (decide (ts = [])) as [->|Hne]; [by exists (andTerm [])|].
  destruct (sorted_texts ts Hts Hne) as (ts' & E & Hp). rewrite E.
  assert (Forall plain_term ts') as Hts' by (by rewrite Hp). rewrite parse_parts_String by done.
  assert (∀ ls, Matches (andTerm ts') ls = Matches (andTerm ts) ls) as Hm.
  { intros ls. cbn [Matches]. by apply forallb_Permutation. }
  destruct ts' as [|t1 [|t2 ts']].
  - by apply Permutation_nil_l in Hp.
  - rewrite Forall_singleton in Hts'. exists t1. split; [by apply Transform_id|].
    intros ls. rewrite <-Hm. cbn. by rewrite andb_true_r.
  - exists (andTerm (t1 :: t2 :: ts')). split; [by apply Transform_id_and|done].
Qed.

Lemma parse_String_witness :
  ∃ t, ParseSelector "metadata.name=web,status.phase!=Running" = inr t ∧
    ∀ ls, Matches t ls = Matches (andTerm [hasTerm "metadata.name" "web"; notHasTerm "status.phase" "Running"]) ls.
Proof.
  apply (parse_String [hasTerm "metadata.name" "web"; notHasTerm "status.phase" "Running"]).
  apply Forall_cons. split; [apply plain_has; vm_compute; exact I|]. apply Forall_singleton. apply plain_not; vm_compute; exact I.
Defined.
