(* ===== verification/ApiErrors.v ===== *)
(** [api/errors/errors.go] of the vendored Kubernetes code with the [Status] type of
    [api/unversioned/types.go] and [IsProbableEOF] of [util/net/http.go]: the errors of the
    client of the API server. *)

From Stdlib Require Import Ascii.
From stdpp Require Import gmap strings list pretty.
From S2P Require Import Prelude GoStrings Strconv.

Local Open Scope Z_scope.

(** [int32] of an [int]. *)
Definition wrap32 (z : Z) : Z := (z + 2 ^ 31) mod 2 ^ 32 - 2 ^ 31.

(** * api/unversioned *)

Record GroupVersion := mkGroupVersion { gv_Group : string; gv_Version : string }.
Record GroupResource := mkGroupResource { gr_Group : string; gr_Resource : string }.
Definition gr_IsEmpty (gr : GroupResource) : bool :=
  bool_decide (gr_Group gr = "") && bool_decide (gr_Resource gr = "").
Definition gr_String (gr : GroupResource) : string :=
  if decide (gr_Group gr = "") then gr_Resource gr else gr_Resource gr +:+ "." +:+ gr_Group gr.

Definition StatusSuccess : string := "Success".
Definition StatusFailure : string := "Failure".

Definition StatusReasonUnknown : string := "".
Definition StatusReasonUnauthorized : string := "Unauthorized".
Definition StatusReasonForbidden : string := "Forbidden".
Definition StatusReasonNotFound : string := "NotFound".
Definition StatusReasonAlreadyExists : string := "AlreadyExists".
Definition StatusReasonConflict : string := "Conflict".
Definition StatusReasonGone : string := "Gone".
Definition StatusReasonInvalid : string := "Invalid".
Definition StatusReasonServerTimeout : string := "ServerTimeout".
Definition StatusReasonTimeout : string := "Timeout".
Definition StatusReasonBadRequest : string := "BadRequest".
Definition StatusReasonMethodNotAllowed : string := "MethodNotAllowed".
Definition StatusReasonInternalError : string := "InternalError".
Definition StatusReasonServiceUnavailable : string := "ServiceUnavailable".
Definition CauseTypeUnexpectedServerResponse : string := "UnexpectedServerResponse".

Record StatusCause := mkStatusCause { cause_Type : string; cause_Message : string; cause_Field : string }.
Record StatusDetails := mkStatusDetails {
  sd_Name : string; sd_Group : string; sd_Kind : string; Causes : list StatusCause; RetryAfterSeconds : Z
}.
(** The metadata of a [Status] is not read. *)
Record Status := mkStatus {
  st_Status : string; Message : string; Reason : string; Details : option StatusDetails; Code : Z
}.

(** * The errors *)

(** What the network reports: [io.EOF], [io.ErrUnexpectedEOF], a [net.OpError] with the
    [syscall.Errno] it wraps, or another error; with their texts. *)
Inductive net_error : Type :=
| io_EOF
| io_ErrUnexpectedEOF
| net_OpError (errno : option Z) (msg : string)
| net_Other (msg : string).

(** [fmt.Errorf], the errors of [api/errors], and [url.Error]. *)
Inductive api_error : Type :=
| Plain (msg : string)
| StatusError (ErrStatus : Status)
| UnexpectedObjectError (object : string)
| NetError (err : net_error)
| url_Error (Op URL : string) (err : net_error).

Definition net_text (err : net_error) : string :=
  match err with
  | io_EOF => "EOF"
  | io_ErrUnexpectedEOF => "unexpected EOF"
  | net_OpError _ msg | net_Other msg => msg
  end.
Definition error_text (err : api_error) : string :=
  match err with
  | Plain msg => msg
  | StatusError st => Message st
  | UnexpectedObjectError object => "unexpected object: " +:+ object
  | NetError err => net_text err
  | url_Error Op URL err => Op +:+ " " +:+ URL +:+ ": " +:+ net_text err
  end.

(** * util/net/http.go *)
Definition IsProbableEOF (err : api_error) : bool :=
  let err := match err with url_Error _ _ err => NetError err | _ => err end in
  match err with
  | NetError io_EOF => true
  | _ =>
      bool_decide (error_text err = "http: can't write HTTP request on broken connection")
      || Contains (error_text err) "connection reset by peer"
      || Contains (ToLower (error_text err)) "use of closed network connection"
  end.

(** * api/errors/errors.go *)

Definition StatusUnprocessableEntity : Z := 422.
Definition StatusTooManyRequests : Z := 429.
Definition StatusServerTimeout : Z := 504.

Section Errors.
Context {gf : GoFormats}.

Definition failure (code : Z) (reason message : string) (details : option StatusDetails) : api_error :=
  StatusError (mkStatus StatusFailure message reason details code).
Definition about (gr : GroupResource) (name : string) : option StatusDetails :=
  Some (mkStatusDetails name (gr_Group gr) (gr_Resource gr) [] 0).

Definition NewNotFound (qualifiedResource : GroupResource) (name : string) : api_error :=
  failure 404 StatusReasonNotFound (gr_String qualifiedResource +:+ " " +:+ Quote name +:+ " not found")
    (about qualifiedResource name).
Definition NewAlreadyExists (qualifiedResource : GroupResource) (name : string) : api_error :=
  failure 409 StatusReasonAlreadyExists (gr_String qualifiedResource +:+ " " +:+ Quote name +:+ " already exists")
    (about qualifiedResource name).
Definition NewUnauthorized (reason : string) : api_error :=
  failure 401 StatusReasonUnauthorized (if decide (reason = "") then "not authorized" else reason) None.
Definition NewForbidden (qualifiedResource : GroupResource) (name err : string) : api_error :=
  failure 403 StatusReasonForbidden
    (gr_String qualifiedResource +:+ " " +:+ Quote name +:+ " is forbidden: " +:+ err) (about qualifiedResource name).
Definition NewConflict (qualifiedResource : GroupResource) (name err : string) : api_error :=
  failure 409 StatusReasonConflict
    (gr_String qualifiedResource +:+ " " +:+ Quote name +:+ " cannot be updated: " +:+ err) (about qualifiedResource name).
Definition NewGone (message : string) : api_error := failure 410 StatusReasonGone message None.
Definition NewBadRequest (reason : string) : api_error := failure 400 StatusReasonBadRequest reason None.
Definition NewServiceUnavailable (reason : string) : api_error :=
  failure 503 StatusReasonServiceUnavailable reason None.
Definition NewMethodNotSupported (qualifiedResource : GroupResource) (action : string) : api_error :=
  failure 405 StatusReasonMethodNotAllowed
    (action +:+ " is not supported on resources of kind " +:+ Quote (gr_String qualifiedResource))
    (about qualifiedResource "").
Definition NewServerTimeout (qualifiedResource : GroupResource) (operation : string) (retryAfterSeconds : Z) : api_error :=
  failure 500 StatusReasonServerTimeout
    ("The " +:+ operation +:+ " operation against " +:+ gr_String qualifiedResource
       +:+ " could not be completed at this time, please try again.")
    (Some (mkStatusDetails operation (gr_Group qualifiedResource) (gr_Resource qualifiedResource) [] (wrap32 retryAfterSeconds))).
Definition NewInternalError (err : string) : api_error :=
  failure 500 StatusReasonInternalError ("Internal error occurred: " +:+ err)
    (Some (mkStatusDetails "" "" "" [mkStatusCause "" err ""] 0)).
Definition NewTimeoutError (message : string) (retryAfterSeconds : Z) : api_error :=
  failure StatusServerTimeout StatusReasonTimeout ("Timeout: " +:+ message)
    (Some (mkStatusDetails "" "" "" [] (wrap32 retryAfterSeconds))).

(** The [switch code] of [NewGenericServerResponse]: reason and message. *)
Definition generic_reason (code : Z) (verb : string) : string * string :=
  if decide (code = 409) then
    (if decide (verb = "POST") then StatusReasonAlreadyExists else StatusReasonConflict,
     "the server reported a conflict")
  else if decide (code = 404) then (StatusReasonNotFound, "the server could not find the requested resource")
  else if decide (code = 400) then (StatusReasonBadRequest, "the server rejected our request for an unknown reason")
  else if decide (code = 401) then
    (StatusReasonUnauthorized, "the server has asked for the client to provide credentials")
  else if decide (code = 403) then (StatusReasonForbidden, "the server does not allow access to the requested resource")
  else if decide (code = 405) then
    (StatusReasonMethodNotAllowed, "the server does not allow this method on the requested resource")
  else if decide (code = StatusUnprocessableEntity) then
    (StatusReasonInvalid, "the server rejected our request due to an error in our request")
  else if decide (code = StatusServerTimeout) then
    (StatusReasonServerTimeout, "the server cannot complete the requested operation at this time, try again later")
  else if decide (code = StatusTooManyRequests) then
    (StatusReasonTimeout, "the server has received too many requests and has asked us to try again later")
  else if decide (500 <= code) then
    (StatusReasonInternalError, "an error on the server has prevented the request from succeeding")
  else (StatusReasonUnknown,
        "the server responded with the status code " +:+ pretty code +:+ " but did not return more information").

Definition NewGenericServerResponse (code : Z) (verb : string) (qualifiedResource : GroupResource)
    (name serverMessage : string) (retryAfterSeconds : Z) (isUnexpectedResponse : bool) : api_error :=
  let '(reason, message) := generic_reason code verb in
  let message :=
    if negb (gr_IsEmpty qualifiedResource) && bool_decide (name ≠ "") then
      message +:+ " (" +:+ ToLower verb +:+ " " +:+ gr_String qualifiedResource +:+ " " +:+ name +:+ ")"
    else if negb (gr_IsEmpty qualifiedResource) then
      message +:+ " (" +:+ ToLower verb +:+ " " +:+ gr_String qualifiedResource +:+ ")"
    else message in
  let causes := if isUnexpectedResponse
                then [mkStatusCause CauseTypeUnexpectedServerResponse serverMessage ""] else [] in
  failure (wrap32 code) reason message
    (Some (mkStatusDetails name (gr_Group qualifiedResource) (gr_Resource qualifiedResource) causes
             (wrap32 retryAfterSeconds))).
End Errors.

Definition reasonForError (err : api_error) : string :=
  match err with StatusError st => Reason st | _ => StatusReasonUnknown end.

Definition IsNotFound (err : api_error) : bool := bool_decide (reasonForError err = StatusReasonNotFound).
Definition IsAlreadyExists (err : api_error) : bool := bool_decide (reasonForError err = StatusReasonAlreadyExists).
Definition IsConflict (err : api_error) : bool := bool_decide (reasonForError err = StatusReasonConflict).
Definition IsInvalid (err : api_error) : bool := bool_decide (reasonForError err = StatusReasonInvalid).
Definition IsMethodNotSupported (err : api_error) : bool :=
  bool_decide (reasonForError err = StatusReasonMethodNotAllowed).
Definition IsBadRequest (err : api_error) : bool := bool_decide (reasonForError err = StatusReasonBadRequest).
Definition IsUnauthorized (err : api_error) : bool := bool_decide (reasonForError err = StatusReasonUnauthorized).
Definition IsForbidden (err : api_error) : bool := bool_decide (reasonForError err = StatusReasonForbidden).
Definition IsServerTimeout (err : api_error) : bool :=
  bool_decide (reasonForError err = StatusReasonServerTimeout).

Definition IsUnexpectedServerError (err : api_error) : bool :=
  match err with
  | StatusError st =>
      match Details st with
      | Some d => existsb (λ cause, bool_decide (cause_Type cause = CauseTypeUnexpectedServerResponse)) (Causes d)
      | None => false
      end
  | _ => false
  end.

Definition IsUnexpectedObjectError (err : option api_error) : bool :=
  match err with Some (UnexpectedObjectError _) => true | _ => false end.

(** The seconds and [true], or [(0, false)]. *)
Definition SuggestsClientDelay (err : api_error) : Z * bool :=
  match err with
  | StatusError st =>
      match Details st with
      | Some d =>
          if decide (Reason st = StatusReasonServerTimeout ∨ Reason st = StatusReasonTimeout)
          then (RetryAfterSeconds d, true) else (0, false)
      | None => (0, false)
      end
  | _ => (0, false)
  end.
