(* ===== verification/URLBackoff.v ===== *)
(** [util/backoff.go] and [client/restclient/urlbackoff.go] of the vendored Kubernetes code:
    the delays between the attempts of a request, which double at each sign that the
    server is overloaded.

    [util/backoff.go] has the text that the program's own [util/flowcontrol/backoff.go]
    was copied from; they differ in [Next].  So the types and the other methods are
    those of [Backoff].  The clock is a part of the state ([Clock]). *)

From stdpp Require Import gmap strings list.
From S2P Require Import Prelude GoTime Strconv PtrMap Backoff GoURL ApiErrors.

Local Open Scope Z_scope.

(** * util/backoff.go *)
Module KBackoff.
Definition NewBackOff : Duration → Duration → Backoff := Backoff.NewBackOff.
Definition Get : string → M Backoff Duration := Backoff.Get.
Definition Reset : string → M Backoff unit := Backoff.Reset.
Definition IsInBackOffSince : string → Time → Time → M Backoff bool := Backoff.IsInBackOffSince.
Definition IsInBackOffSinceUpdate : string → Time → M Backoff bool := Backoff.IsInBackOffSinceUpdate.
Definition GC `{!MapOrder} : Time → M Backoff unit := Backoff.GC.
Definition DeleteEntry : string → M Backoff unit := Backoff.DeleteEntry.

(** [Next]: the delay doubles, up to the maximum. *)
Definition Next (id : string) (eventTime now : Time) : M Backoff unit :=
  entry ← on_items (ptr_lookup id);
  maxD ← gets maxDuration;
  renew ← match entry with
          | None => mret true
          | Some _ =>
              e ← on_items (ptr_load entry);
              mret (hasExpired eventTime (lastUpdate e) maxD)
          end;
  entry ← (if renew : bool then l ← initEntryUnsafe id; mret (Some l)
           else
             e ← on_items (ptr_load entry);
             let delay := wrap64 (backoff e * 2) in
             on_items (ptr_store entry (mkBackoffEntry (Z.min delay maxD) (lastUpdate e))) ;;
             mret entry);
  e ← on_items (ptr_load entry);
  on_items (ptr_store entry (mkBackoffEntry (backoff e) now)).

(** What [Next] does to the entries. *)
Definition next_delay (p : Backoff) (id : string) (eventTime : Time) : Duration :=
  match entries p !! id with
  | Some e => if hasExpired eventTime (lastUpdate e) (maxDuration p) then defaultDuration p
              else Z.min (wrap64 (backoff e * 2)) (maxDuration p)
  | None => defaultDuration p
  end.

Lemma NextBackoff_spec id eventTime now p :
  backoff_wf p →
  ∃ p', Next id eventTime now p = Ret tt p' ∧
    becomes p p' (<[id := mkBackoffEntry (next_delay p id eventTime) now]> (entries p)).
Proof.
  intros Hwf. unfold Next. run (on_items_lookup id p).
  rewrite (bind_Ret _ _ _ (maxDuration p) p) by done.
  pose proof (renew_spec id now p Hwf) as Hinit.
  unfold next_delay.
  destruct (entry_cases p id Hwf) as [[-> ->]|(l & e & Ht & He & ->)].
  - rewrite (bind_Ret _ _ _ true p) by done. exact Hinit.
  - rewrite Ht. rewrite (bind_Ret _ _ p (hasExpired eventTime (lastUpdate e) (maxDuration p)) p)
      by by run (on_items_load l e p He).
    destruct (hasExpired _ _ _); [exact Hinit|]. rewrite !bind_unfold, (on_items_load l e p He).
    set (e1 := mkBackoffEntry (Z.min (wrap64 (backoff e * 2)) (maxDuration p)) (lastUpdate e)).
    destruct (ptr_store_view (perItemBackoff p) id l e1 Hwf Ht) as (m1 & Hs & Hwf1 & Ht1 & Hv1).
    rewrite bind_unfold. unfold on_items at 1, zoom at 1. rewrite Hs. cbn [mret M_ret].
    assert (heap m1 !! l = Some e1) as Hh1.
    { unfold ptr_store in Hs. injection Hs as <-. apply lookup_insert_eq. }
    rewrite bind_unfold, (on_items_load l e1) by done. cbn [perItemBackoff set_perItemBackoff].
    edestruct (on_items_store id l (mkBackoffEntry (backoff e1) now) (set_perItemBackoff m1 p))
      as (p2 & -> & [Hwf2 He2 Hd2 Hm2]); [done|by cbn; rewrite Ht1|].
    eexists. split; [done|]. split; [done| |done..].
    rewrite He2. unfold entries in *. cbn. rewrite Hv1. apply insert_insert_eq.
Qed.
End KBackoff.

(** * urlbackoff.go *)

(** The clock, a part of the world [W]. *)
Class Clock (W : Type) := { Now : M W Time; Sleep : Duration → M W unit }.

Definition serverIsOverloadedSet : list Z := [429].
Definition maxResponseCode : Z := 499.

(** The implementations of the interface: [NoBackoff], and [URLBackoff] with its
    [Backoff]. *)
Inductive BackoffManager : Type := NoBackoff | UseBackoff (b : Backoff).

Section URLBackoff.
Context {gf : GoFormats} {W : Type} `{!Clock W}.
Local Abbreviation timed := (W * BackoffManager)%type.

Definition on_clock {A} (m : M W A) : M timed A := zoom fst (λ w s, (w, s.2)) m.

(** Code on the [Backoff] of a [URLBackoff]. *)
Definition on_backoff {A} (b : Backoff) (m : M Backoff A) : M timed A :=
  zoom (λ _, b) (λ b s, (s.1, UseBackoff b)) m.

Definition Disable (b : Backoff) : Backoff := KBackoff.NewBackOff 0 0.

Definition baseUrlKey (rawurl : URL) : M timed string :=
  match url_Parse (URL_String rawurl) with
  | inl err => panic "bad url!"
  | inr host => mret (Host host)
  end.

Definition UpdateBackoff (actualUrl : URL) (err : bool) (responseCode : Z) : M timed unit :=
  s ← get;
  match s.2 with
  | NoBackoff => mret tt
  | UseBackoff b =>
      if bool_decide (maxResponseCode < responseCode) || bool_decide (responseCode ∈ serverIsOverloadedSet) then
        key ← baseUrlKey actualUrl;
        eventTime ← on_clock Now;
        now ← on_clock Now;
        on_backoff b (KBackoff.Next key eventTime now)
      else
        key ← baseUrlKey actualUrl;
        on_backoff b (KBackoff.Reset key)
  end.

Definition CalculateBackoff (actualUrl : URL) : M timed Duration :=
  s ← get;
  match s.2 with
  | NoBackoff => mret 0
  | UseBackoff b => key ← baseUrlKey actualUrl; on_backoff b (KBackoff.Get key)
  end.

Definition Backoff_Sleep (d : Duration) : M timed unit :=
  s ← get;
  match s.2 with
  | NoBackoff => mret tt
  | UseBackoff _ => on_clock (Sleep d)
  end.
End URLBackoff.
