(* ===== verification/TokenBucket.v ===== *)
(** [ratelimit.go] of the vendored [juju/ratelimit] and [util/throttle.go] of the vendored
    Kubernetes code: the token bucket that limits the requests to the API server to the
    rate and burst of the flags.

    Every method runs under the bucket's lock; the clock is an argument.  Arithmetic is
    on [int64] with its wrap-around.  [BucketRate] has what is computed with floating-point
    numbers: [NewBucketWithRate], [Rate] and [Saturation]. *)

From stdpp Require Import strings list numbers.
From S2P Require Import Prelude GoTime.

Local Open Scope Z_scope.

Record Bucket := mkBucket {
  startTime : Time;
  capacity : Z;
  quantum : Z;
  fillInterval : Duration;
  avail : Z;
  availTick : Z
}.

Definition set_avail (n : Z) (tb : Bucket) : Bucket :=
  mkBucket (startTime tb) (capacity tb) (quantum tb) (fillInterval tb) n (availTick tb).
Definition set_availTick (n : Z) (tb : Bucket) : Bucket :=
  mkBucket (startTime tb) (capacity tb) (quantum tb) (fillInterval tb) (avail tb) n.

(** A panic of a constructor is its message. *)
Definition NewBucketWithQuantum (fillInterval : Duration) (capacity quantum : Z) (now : Time)
    : string + Bucket :=
  if bool_decide (fillInterval <= 0) then inl "token bucket fill interval is not > 0"
  else if bool_decide (capacity <= 0) then inl "token bucket capacity is not > 0"
  else if bool_decide (quantum <= 0) then inl "token bucket quantum is not > 0"
  else inr (mkBucket now capacity quantum fillInterval capacity 0).
Definition NewBucket (fillInterval : Duration) (capacity : Z) (now : Time) : string + Bucket :=
  NewBucketWithQuantum fillInterval capacity 1 now.

Definition infinityDuration : Duration := 2 ^ 63 - 1.

(** [adjust] answers the current tick. *)
Definition adjust (now : Time) (tb : Bucket) : Z * Bucket :=
  let currentTick := Z.quot (Sub now (startTime tb)) (fillInterval tb) in
  if bool_decide (capacity tb <= avail tb) then (currentTick, tb)
  else
    let tb := set_avail (wrap64 (avail tb + wrap64 (wrap64 (currentTick - availTick tb) * quantum tb))) tb in
    let tb := if bool_decide (capacity tb < avail tb) then set_avail (capacity tb) tb else tb in
    (currentTick, set_availTick currentTick tb).

Definition takeAvailable (now : Time) (count : Z) (tb : Bucket) : Z * Bucket :=
  if bool_decide (count <= 0) then (0, tb)
  else
    let tb := (adjust now tb).2 in
    if bool_decide (avail tb <= 0) then (0, tb)
    else
      let count := if bool_decide (avail tb < count) then avail tb else count in
      (count, set_avail (wrap64 (avail tb - count)) tb).
Definition TakeAvailable := takeAvailable.

Definition available (now : Time) (tb : Bucket) : Z * Bucket :=
  let tb := (adjust now tb).2 in (avail tb, tb).
Definition Available := available.
Definition Capacity (tb : Bucket) : Z := capacity tb.

(** [take]: the time to wait and whether the tokens have been taken. *)
Definition take (now : Time) (count : Z) (maxWait : Duration) (tb : Bucket) : Duration * bool * Bucket :=
  if bool_decide (count <= 0) then (0, true, tb)
  else
    let '(currentTick, tb) := adjust now tb in
    let left := wrap64 (avail tb - count) in
    if bool_decide (0 <= left) then (0, true, set_avail left tb)
    else
      let endTick := wrap64 (currentTick +
        Z.quot (wrap64 (wrap64 (wrap64 (- left) + quantum tb) - 1)) (quantum tb)) in
      let endTime := startTime tb + wrap64 (endTick * fillInterval tb) in
      let waitTime := Sub endTime now in
      if bool_decide (maxWait < waitTime) then (0, false, tb)
      else (waitTime, true, set_avail left tb).
Definition Take (now : Time) (count : Z) (tb : Bucket) : Duration * Bucket :=
  let '(d, _, tb) := take now count infinityDuration tb in (d, tb).
Definition TakeMaxDuration := take.

(** The time [Wait] and [WaitMaxDuration] sleep. *)
Definition Wait (now : Time) (count : Z) (tb : Bucket) : Duration * Bucket :=
  let '(d, tb) := Take now count tb in
  (if bool_decide (0 < d) then d else 0, tb).
Definition WaitMaxDuration (now : Time) (count : Z) (maxWait : Duration) (tb : Bucket)
    : Duration * bool * Bucket :=
  let '(d, ok, tb) := TakeMaxDuration now count maxWait tb in
  (if bool_decide (0 < d) then d else 0, ok, tb).

(** * util/throttle.go *)

Definition TryAccept (now : Time) (t : Bucket) : bool * Bucket :=
  let '(n, t) := TakeAvailable now 1 t in (bool_decide (n = 1), t).
Definition Accept (now : Time) (t : Bucket) : Duration * Bucket := Wait now 1 t.

(** * Properties *)

(** ** Calls *)
Inductive call : Type :=
| CTakeAvailable (now : Time) (count : Z)
| CTake (now : Time) (count : Z) (maxWait : Duration)
| CAvailable (now : Time).

Definition time_of (c : call) : Time :=
  match c with CTakeAvailable now _ | CTake now _ _ | CAvailable now => now end.
Definition count_of (c : call) : Z :=
  match c with CTakeAvailable _ n | CTake _ n _ => Z.max 0 n | CAvailable _ => 0 end.

(** The tokens a call takes. *)
Definition run_call (c : call) (tb : Bucket) : Z * Bucket :=
  match c with
  | CTakeAvailable now n => takeAvailable now n tb
  | CTake now n maxWait => let '(_, ok, tb) := take now n maxWait tb in (if ok : bool then Z.max 0 n else 0, tb)
  | CAvailable now => (0, (available now tb).2)
  end.
Fixpoint run_calls (cs : list call) (tb : Bucket) : Z * Bucket :=
  match cs with
  | [] => (0, tb)
  | c :: cs => let '(n, tb) := run_call c tb in
               let '(m, tb) := run_calls cs tb in (n + m, tb)
  end.

(** Tokens that are taken may be used when the time that the call answers has passed. *)
Definition usable_at (c : call) (tb : Bucket) : Time :=
  match c with
  | CTake now n maxWait => now + (take now n maxWait tb).1.1
  | CTakeAvailable now _ | CAvailable now => now
  end.
(** The tokens that the calls take and that may be used by the time [T]. *)
Fixpoint usable_by (T : Time) (cs : list call) (tb : Bucket) : Z :=
  match cs with
  | [] => 0
  | c :: cs => let '(n, tb') := run_call c tb in
               (if bool_decide (usable_at c tb <= T) then n else 0) + usable_by T cs tb'
  end.

(** The calls happen one after the other, from [now] to [horizon]. *)
Fixpoint in_order (now horizon : Time) (cs : list call) : Prop :=
  match cs with
  | [] => now <= horizon
  | c :: cs => now <= time_of c ∧ in_order (time_of c) horizon cs
  end.
Definition asked_for (cs : list call) : Z := foldr (λ c n, count_of c + n) 0 cs.

(** The whole ticks from the start of the bucket to a time. *)
Definition tick (tb : Bucket) (t : Time) : Z := (t - startTime tb) / fillInterval tb.

(** Nothing overflows up to [horizon] when [total] tokens are asked for. *)
Definition no_overflow (tb : Bucket) (horizon : Time) (total : Z) : Prop :=
  (quantum tb * (tick tb horizon + 1) + capacity tb + total) * fillInterval tb < 2 ^ 62.

(** ** The invariant

    [asked] tokens have been asked for and [granted] of them taken by the time [now]. *)
Record bucket_ok (tb : Bucket) (now : Time) (asked granted : Z) : Prop := {
  bo_fill : 0 < fillInterval tb;
  bo_capacity : 0 < capacity tb;
  bo_quantum : 0 < quantum tb;
  bo_start : startTime tb <= now;
  bo_full : avail tb <= capacity tb;
  bo_tick : 0 <= availTick tb <= tick tb now;
  bo_granted : 0 <= granted <= asked;
  bo_debt : - asked <= avail tb;
  bo_sum : granted + avail tb <= capacity tb + quantum tb * availTick tb
}.

Definition same_params (tb tb' : Bucket) : Prop :=
  startTime tb' = startTime tb ∧ capacity tb' = capacity tb ∧ quantum tb' = quantum tb ∧
  fillInterval tb' = fillInterval tb.

Lemma tick_mono tb t t' : 0 < fillInterval tb → t <= t' → tick tb t <= tick tb t'.
Proof. intros H Ht. unfold tick. apply Z.div_le_mono; lia. Qed.
Lemma tick_bounds tb t : 0 < fillInterval tb →
  tick tb t * fillInterval tb <= t - startTime tb < (tick tb t + 1) * fillInterval tb.
Proof. intros H. unfold tick. pose proof (Z.div_mod (t - startTime tb) (fillInterval tb)). pose proof (Z.mod_pos_bound (t - startTime tb) (fillInterval tb)). lia. Qed.

Lemma no_overflow_mono tb t t' n n' :
  0 < fillInterval tb → 0 < quantum tb → t <= t' → n <= n' → no_overflow tb t' n' → no_overflow tb t n.
Proof.
  unfold no_overflow. intros Hf Hq Ht Hn H. pose proof (tick_mono tb t t' Hf Ht).
  eapply Z.le_lt_trans; [|exact H]. apply Z.mul_le_mono_nonneg_r; [lia|]. nia.
Qed.

(** The pieces of [no_overflow]. *)
Lemma no_overflow_small tb now total :
  0 < fillInterval tb → 0 < capacity tb → 0 < quantum tb → startTime tb <= now → 0 <= total →
  no_overflow tb now total →
  0 <= tick tb now ∧ quantum tb * (tick tb now + 1) + capacity tb + total < 2 ^ 62 ∧
  (tick tb now + 1) * fillInterval tb < 2 ^ 62.
Proof.
  unfold no_overflow. intros Hf Hc Hq Hs Ht H.
  assert (0 <= tick tb now) by (unfold tick; apply Z.div_pos; lia). split; [done|].
  set (x := quantum tb * (tick tb now + 1) + capacity tb + total) in *.
  assert (tick tb now + 1 <= x) by (subst x; nia). nia.
Qed.

Lemma adjust_spec now tb asked granted :
  bucket_ok tb now asked granted → no_overflow tb now asked →
  (adjust now tb).1 = tick tb now ∧ same_params tb (adjust now tb).2 ∧
  bucket_ok (adjust now tb).2 now asked granted ∧ avail tb <= avail (adjust now tb).2.
Proof.
  intros Hok Hno. pose proof Hok as [Hf Hc Hq Hs Hfu Ht Hg Hd Hsum].
  assert (0 <= asked) as Ha by lia.
  destruct (no_overflow_small _ _ _ Hf Hc Hq Hs Ha Hno) as (Ht0 & Hx & Hy).
  pose proof (tick_bounds tb now Hf) as Htb. unfold adjust.
  assert (Z.quot (Sub now (startTime tb)) (fillInterval tb) = tick tb now) as ->.
  { unfold Sub, tick, min_int64, max_int64. rewrite Z.quot_div_nonneg by lia. f_equal. lia. }
  destruct (bool_decide_reflect (capacity tb <= avail tb)) as [H|H]; [done|].
  assert (0 <= (tick tb now - availTick tb) * quantum tb <= quantum tb * tick tb now) by nia.
  rewrite (wrap64_id (tick tb now - availTick tb)) by (unfold is_int64, min_int64, max_int64; nia).
  rewrite (wrap64_id (_ * _)) by (unfold is_int64, min_int64, max_int64; lia).
  rewrite wrap64_id by (unfold is_int64, min_int64, max_int64; lia).
  assert (avail tb + (tick tb now - availTick tb) * quantum tb =
    avail tb + quantum tb * tick tb now - quantum tb * availTick tb) as E by ring.
  set (y := avail tb + _) in *.
  cbn. destruct (bool_decide_reflect (capacity tb < y)); cbn;
    (split_and!; [done|by split_and!| |lia]); (split; cbn; try done); try lia;
    (split; [done|reflexivity]).
Qed.

Lemma same_params_trans tb tb' tb'' : same_params tb tb' → same_params tb' tb'' → same_params tb tb''.
Proof. unfold same_params. intros (?&?&?&?) (?&?&?&?). repeat split; congruence. Qed.
Lemma same_params_tick tb tb' t : same_params tb tb' → tick tb' t = tick tb t.
Proof. unfold tick. by intros (-> & _ & _ & ->). Qed.
Lemma same_params_no_overflow tb tb' t n : same_params tb tb' → no_overflow tb t n → no_overflow tb' t n.
Proof. intros H. unfold no_overflow. rewrite (same_params_tick _ _ _ H). by destruct H as (_ & -> & -> & ->). Qed.

(** Taking [m] of [n] more tokens that have been asked for. *)
Lemma bucket_ok_take tb now asked granted n m :
  bucket_ok tb now asked granted → 0 <= m <= n → 
  bucket_ok (set_avail (avail tb - m) tb) now (asked + n) (granted + m).
Proof. intros [] H. split; cbn; try done; change (tick (set_avail _ tb) now) with (tick tb now); lia. Qed.
Lemma bucket_ok_asked tb now asked granted n :
  bucket_ok tb now asked granted → 0 <= n → bucket_ok tb now (asked + n) granted.
Proof. intros [] H. split; try done; lia. Qed.
Lemma bucket_ok_later tb now now' asked granted :
  bucket_ok tb now asked granted → now <= now' → bucket_ok tb now' asked granted.
Proof. intros [] H. pose proof (tick_mono tb now now'). split; try done; lia. Qed.

Lemma no_overflow_wrap tb now asked granted z :
  bucket_ok tb now asked granted → no_overflow tb now asked →
  - asked <= z <= capacity tb → wrap64 z = z.
Proof.
  intros [] H Hz. assert (0 <= asked) as Ha by lia.
  destruct (no_overflow_small tb now asked) as (? & ? & ?); try done.
  apply wrap64_id. unfold is_int64, min_int64, max_int64. nia.
Qed.

Lemma takeAvailable_spec now n tb asked granted :
  bucket_ok tb now asked granted → no_overflow tb now (asked + Z.max 0 n) →
  let r := takeAvailable now n tb in
  r.1 = Z.max 0 (Z.min n (avail (adjust now tb).2)) ∧
  same_params tb r.2 ∧ bucket_ok r.2 now (asked + Z.max 0 n) (granted + r.1).
Proof.
  intros Hok Hno. cbn zeta. unfold takeAvailable. pose proof Hok as [Hf _ Hq _ _ _ _ _ _].
  destruct (bool_decide_reflect (n <= 0)) as [Hn|Hn].
  { cbn. split; [lia|]. split; [by repeat split|]. rewrite Z.add_0_r. apply bucket_ok_asked; [done|lia]. }
  assert (no_overflow tb now asked) as Hno' by (eapply no_overflow_mono; [..|exact Hno]; done || lia).
  destruct (adjust_spec now tb asked granted Hok Hno') as (_ & Hsp & Hok' & _).
  set (tb1 := (adjust now tb).2) in *. destruct (bool_decide_reflect (avail tb1 <= 0)) as [Ha|Ha].
  { cbn. split; [lia|]. split; [done|]. rewrite Z.add_0_r. apply bucket_ok_asked; [done|lia]. }
  set (m := if _ : bool then _ else n).
  assert (m = Z.min n (avail tb1)) as Hm by (subst m; destruct (bool_decide_reflect (avail tb1 < n)); lia).
  assert (0 <= asked) as H0 by (by destruct Hok; lia).
  rewrite (no_overflow_wrap tb1 now asked granted); [|done|by eapply same_params_no_overflow|destruct Hok'; lia].
  cbn [fst snd]. split; [lia|]. split; [by eapply same_params_trans; [exact Hsp|repeat split]|].
  apply bucket_ok_take; [done|lia].
Qed.

(** The time to wait for [- left] missing tokens. *)
Lemma wait_time tb now left total :
  0 < fillInterval tb → 0 < capacity tb → 0 < quantum tb → startTime tb <= now → left < 0 → - left <= total →
  no_overflow tb now total →
  let endTick := wrap64 (tick tb now +
    Z.quot (wrap64 (wrap64 (wrap64 (- left) + quantum tb) - 1)) (quantum tb)) in
  let d := Sub (startTime tb + wrap64 (endTick * fillInterval tb)) now in
  0 < d ∧ now + d = startTime tb + tick tb (now + d) * fillInterval tb ∧
  0 <= left + quantum tb * (tick tb (now + d) - tick tb now) < quantum tb.
Proof.
  intros Hf Hc Hq Hs Hl Hlt Hno. assert (0 <= total) as Ha by lia.
  destruct (no_overflow_small _ _ _ Hf Hc Hq Hs Ha Hno) as (Ht0 & Hx & Hy).
  assert (quantum tb <= quantum tb * (tick tb now + 1)) by nia.
  rewrite (wrap64_id (- left)) by (unfold is_int64, min_int64, max_int64; lia).
  rewrite (wrap64_id (- left + quantum tb)) by (unfold is_int64, min_int64, max_int64; lia).
  rewrite (wrap64_id (_ - 1)) by (unfold is_int64, min_int64, max_int64; lia).
  rewrite Z.quot_div_nonneg by lia. set (k := (- left + quantum tb - 1) / quantum tb).
  assert (quantum tb * k <= - left + quantum tb - 1 < quantum tb * (k + 1)) as Hk.
  { subst k. pose proof (Z.div_mod (- left + quantum tb - 1) (quantum tb)).
    pose proof (Z.mod_pos_bound (- left + quantum tb - 1) (quantum tb)). lia. }
  clearbody k. assert (1 <= k <= total) as Hk1 by nia.
  assert (tick tb now + k <= quantum tb * (tick tb now + 1) + capacity tb + total) as Hk3 by nia.
  set (e := (tick tb now + k) * fillInterval tb).
  assert (0 <= e < 2 ^ 62) as Hk4.
  { split; [subst e; nia|]. eapply Z.le_lt_trans; [|exact Hno]. apply Z.mul_le_mono_nonneg_r; lia. }
  rewrite (wrap64_id (tick tb now + k)) by (unfold is_int64, min_int64, max_int64; lia).
  cbn zeta. change ((tick tb now + k) * fillInterval tb) with e.
  rewrite (wrap64_id e) by (unfold is_int64, min_int64, max_int64; lia).
  assert (now - startTime tb < e) as He.
  { eapply Z.lt_le_trans; [apply tick_bounds, Hf|]. apply Z.mul_le_mono_nonneg_r; lia. }
  assert (Sub (startTime tb + e) now = startTime tb + e - now) as -> by (unfold Sub, min_int64, max_int64; lia).
  cbn zeta. replace (now + (startTime tb + e - now)) with (startTime tb + e) by lia.
  assert (tick tb (startTime tb + e) = tick tb now + k) as ->.
  { unfold tick at 1. replace (startTime tb + e - startTime tb) with e by lia. subst e. apply Z.div_mul. lia. }
  split; [lia|]. split; [done|]. lia.
Qed.

(** The state and the number of tokens that [take] leaves; the wait is over when the
    missing tokens have been added, and not a tick before. *)
Lemma take_bucket_spec now n maxWait tb asked granted :
  bucket_ok tb now asked granted → no_overflow tb now (asked + Z.max 0 n) →
  let '(d, ok, tb') := take now n maxWait tb in
  same_params tb tb' ∧
  bucket_ok tb' now (asked + Z.max 0 n) (granted + if ok : bool then Z.max 0 n else 0) ∧
  0 <= d ∧
  let left := avail (adjust now tb).2 - n in
  (0 < n → 0 <= left → ok = true ∧ d = 0) ∧
  (0 < n → left < 0 → ok = true →
     d <= maxWait ∧ now + d = startTime tb + tick tb (now + d) * fillInterval tb ∧
     0 <= left + quantum tb * (tick tb (now + d) - tick tb now) < quantum tb) ∧
  (ok = false → d = 0 ∧ tb' = (adjust now tb).2 ∧ left < 0).
Proof.
  intros Hok Hno. unfold take. pose proof Hok as [Hf Hc Hq Hs _ _ Hga _ _].
  destruct (bool_decide_reflect (n <= 0)) as [Hn|Hn].
  { split; [by repeat split|]. split; [|lia]. replace (Z.max 0 n) with 0 by lia. by rewrite !Z.add_0_r. }
  assert (no_overflow tb now asked) as Hno' by (eapply no_overflow_mono; [..|exact Hno]; done || lia).
  destruct (adjust_spec now tb asked granted Hok Hno') as (Htick & Hsp & Hok' & _).
  destruct (adjust now tb) as [cur tb1]. cbn [fst snd] in *. subst cur. cbn zeta.
  pose proof (same_params_no_overflow _ _ _ _ Hsp Hno) as Hno1.
  assert (bucket_ok tb1 now (asked + Z.max 0 n) granted) as Hok1 by (apply bucket_ok_asked; [done|lia]).
  assert (- (asked + Z.max 0 n) <= avail tb1 - n <= capacity tb1) as Hr by (destruct Hok'; lia).
  rewrite (no_overflow_wrap tb1 now _ _ _ Hok1 Hno1 Hr). set (left := avail tb1 - n) in *.
  assert (bucket_ok (set_avail left tb1) now (asked + Z.max 0 n) (granted + Z.max 0 n)) as Hgr.
  { subst left. replace n with (Z.max 0 n) at 1 by lia. apply bucket_ok_take; [done|lia]. }
  assert (same_params tb (set_avail left tb1)) as Hsp2 by (eapply same_params_trans; [exact Hsp|by repeat split]).
  destruct (bool_decide_reflect (0 <= left)) as [Hl|Hl].
  { split; [done|]. split; [done|]. split; [lia|]. split; [done|]. split; [lia|done]. }
  assert (0 <= asked + Z.max 0 n) as Ha by lia.
  pose proof Hsp as (Es & Ec & Eq & Ef). rewrite Es, Eq, Ef.
  destruct (wait_time tb now left (asked + Z.max 0 n)) as (Hd & Hend & Henough); try done; [lia..|].
  cbn zeta in *. set (d := Sub _ now) in *.
  destruct (bool_decide_reflect (maxWait < d)) as [Hw|Hw].
  { split; [done|]. rewrite Z.add_0_r. split; [done|]. split; [done|].
    split; [lia|]. split; [done|]. intros _. split_and!; [done|done|lia]. }
  split; [done|]. split; [done|]. split; [lia|]. split; [lia|]. split; [|done]. intros. split; [lia|done].
Qed.

(** ** The theorems *)

Lemma run_call_ok c tb now asked granted :
  bucket_ok tb now asked granted → now <= time_of c → no_overflow tb (time_of c) (asked + count_of c) →
  let r := run_call c tb in
  same_params tb r.2 ∧ bucket_ok r.2 (time_of c) (asked + count_of c) (granted + r.1).
Proof.
  intros Hok Ht Hno. cbn zeta. apply (bucket_ok_later _ _ (time_of c)) in Hok; [|done].
  destruct c as [t n|t n w|t]; cbn [time_of count_of run_call] in *.
  - by apply takeAvailable_spec.
  - pose proof (take_bucket_spec t n w tb asked granted Hok Hno) as H. destruct (take t n w tb) as [[d ok] tb'].
    destruct H as (Hsp & Hok' & _). by destruct ok.
  - rewrite Z.add_0_r in *. destruct (adjust_spec t tb asked granted Hok Hno) as (_ & Hsp & Hok' & _).
    cbn. by rewrite Z.add_0_r.
Qed.

Lemma asked_for_nonneg cs : 0 <= asked_for cs.
Proof.
  assert (∀ c, 0 <= count_of c) as Hc by (intros []; cbn; lia).
  induction cs as [|c cs IH]; [done|]. cbn. specialize (Hc c). unfold asked_for in IH. lia.
Qed.
Lemma in_order_le now horizon cs : in_order now horizon cs → now <= horizon.
Proof. revert now. induction cs as [|c cs IH]; intros now; [done|]. intros [? ?%IH]. lia. Qed.

Lemma run_calls_ok cs : ∀ tb now horizon asked granted,
  bucket_ok tb now asked granted → in_order now horizon cs → no_overflow tb horizon (asked + asked_for cs) →
  let r := run_calls cs tb in
  same_params tb r.2 ∧ bucket_ok r.2 horizon (asked + asked_for cs) (granted + r.1).
Proof.
  induction cs as [|c cs IH]; intros tb now horizon asked granted Hok Ho Hno; cbn in *.
  { rewrite !Z.add_0_r. split; [by repeat split|]. by eapply bucket_ok_later. }
  destruct Ho as [Ht Ho]. pose proof Hok as [Hf _ Hq _ _ _ _ _ _].
  destruct (run_call_ok c tb now asked granted Hok Ht) as [Hsp Hok1].
  { eapply no_overflow_mono; [..|exact Hno]; try done; [by eapply in_order_le|]. pose proof (asked_for_nonneg cs) as Hcs. unfold asked_for in Hcs. lia. }
  destruct (run_call c tb) as [m tb1]. cbn in Hsp, Hok1. fold (asked_for cs) in *.
  rewrite Z.add_assoc in Hno. apply (same_params_no_overflow _ tb1) in Hno; [|done].
  destruct (IH tb1 _ horizon _ _ Hok1 Ho Hno) as [Hsp' Hok2].
  destruct (run_calls cs tb1) as [m' tb2]. cbn in *.
  split; [by eapply same_params_trans|]. by rewrite !Z.add_assoc.
Qed.

Lemma new_bucket_ok fi cap q now tb :
  NewBucketWithQuantum fi cap q now = inr tb → bucket_ok tb now 0 0.
Proof.
  unfold NewBucketWithQuantum.
  destruct (bool_decide_reflect (fi <= 0)), (bool_decide_reflect (cap <= 0)), (bool_decide_reflect (q <= 0));
    intros [= <-]. split; cbn; try lia. unfold tick. cbn. by rewrite Z.sub_diag.
Qed.

(** What a call takes is covered, when it may be used, by the burst and the ticks so far. *)
Lemma run_call_covered c tb now asked granted :
  bucket_ok tb now asked granted → now <= time_of c → no_overflow tb (time_of c) (asked + count_of c) →
  let r := run_call c tb in
  0 <= r.1 ∧ (r.1 = 0 ∨ granted + r.1 <= capacity tb + quantum tb * tick tb (usable_at c tb)).
Proof.
  intros Hok Ht Hno. cbn zeta. apply (bucket_ok_later _ _ (time_of c)) in Hok; [|done]. pose proof Hok as [Hf Hc Hq Hs _ _ _ _ _].
  destruct c as [t n|t n w|t]; cbn [time_of count_of run_call usable_at] in *.
  - destruct (takeAvailable_spec t n tb asked granted Hok Hno) as (E & (_ & Hcap & Hqu & _) & Hok').
    split; [rewrite E; lia|]. destruct (decide ((takeAvailable t n tb).1 = 0)) as [|Hne]; [by left|right].
    destruct (adjust_spec t tb asked granted Hok) as (_ & (Es & Ec & Eq & Ef) & Hok1 & _).
    { eapply no_overflow_mono; [..|exact Hno]; done || lia. }
    destruct Hok1 as [_ _ _ _ _ Htk _ _ Hsum]. rewrite Ec, Eq in Hsum. unfold tick in Htk. rewrite Es, Ef in Htk. fold (tick tb t) in Htk.
    nia.
  - pose proof (take_bucket_spec t n w tb asked granted Hok Hno) as H.
    destruct (adjust_spec t tb asked granted Hok) as (_ & (Es & Ec & Eq & Ef) & Hok1 & _).
    { eapply no_overflow_mono; [..|exact Hno]; done || lia. }
    destruct Hok1 as [_ _ _ _ _ Htk _ _ Hsum]. rewrite Ec, Eq in Hsum. unfold tick in Htk. rewrite Es, Ef in Htk. fold (tick tb t) in Htk.
    destruct (take t n w tb) as [[d ok] tb']. destruct H as (_ & _ & Hd & Hnow & Hwait & _). cbn [fst snd] in *.
    destruct ok; [|by split; [|left]]. split; [lia|]. destruct (decide (n <= 0)) as [|Hn]; [left; lia|right].
    rewrite Z.max_r by lia. destruct (decide (0 <= avail (adjust t tb).2 - n)) as [Hl|Hl].
    + destruct Hnow as [_ ->]; [lia..|]. rewrite Z.add_0_r. nia.
    + destruct Hwait as (_ & _ & Hend); [lia..|done|]. nia.
  - split; [done|by left].
Qed.

(** What may be used by a time is covered by that time, whatever was taken beyond it. *)
Lemma usable_by_ok T cs : ∀ tb now horizon asked granted,
  bucket_ok tb now asked granted → in_order now horizon cs → no_overflow tb horizon (asked + asked_for cs) →
  0 <= usable_by T cs tb ∧
  (usable_by T cs tb = 0 ∨ granted + usable_by T cs tb <= capacity tb + quantum tb * tick tb T).
Proof.
  induction cs as [|c cs IH]; intros tb now horizon asked granted Hok Ho Hno; cbn in *; [by split; [|left]|].
  destruct Ho as [Ht Ho]. pose proof Hok as [Hf _ Hq _ _ _ _ _ _]. fold (asked_for cs) in *.
  pose proof (asked_for_nonneg cs). pose proof (in_order_le _ _ _ Ho).
  assert (no_overflow tb (time_of c) (asked + count_of c)) as Hno1 by (eapply no_overflow_mono; [..|exact Hno]; done || lia).
  destruct (run_call_ok c tb now asked granted Hok Ht Hno1) as [Hsp Hok1].
  destruct (run_call_covered c tb now asked granted Hok Ht Hno1) as [Hm Hcov].
  destruct (run_call c tb) as [m tb1]. cbn in Hsp, Hok1, Hm, Hcov.
  rewrite Z.add_assoc in Hno. apply (same_params_no_overflow _ tb1) in Hno; [|done].
  destruct (IH tb1 _ horizon _ _ Hok1 Ho Hno) as [Hrest Hcase].
  pose proof Hsp as (_ & Ec & Eq & _). rewrite Ec, Eq, (same_params_tick _ _ _ Hsp) in Hcase.
  destruct (bool_decide_reflect (usable_at c tb <= T)) as [Hu|Hu]; [|split; [lia|]; destruct Hcase; [left|right]; lia].
  split; [lia|]. destruct Hcase as [Hz|Hcase]; [|right; lia].
  destruct Hcov as [->|Hcov]; [left; lia|right]. pose proof (tick_mono tb _ _ Hf Hu). nia.
Qed.

(** C40: the bucket limits the rate: after any calls on a new bucket, one after the other,
    the tokens that may be used by a time [T] (those that are taken by calls whose wait is
    over by then) are at most the burst plus the quantum for each interval from the start
    to [T].  All tokens that have been taken, with those that must be waited for, are at
    most the burst and the ticks so far less what is left in the bucket, which is
    negative while tokens are owed; the bucket never holds more than the burst, and
    TakeAvailable takes what is there, up to the count.  The times and counts are such
    that no 64-bit integer overflows. *)
Theorem tokens_bounded (fi cap q : Z) (start horizon : Time) (cs : list call) (tb : Bucket) :
  NewBucketWithQuantum fi cap q start = inr tb →
  in_order start horizon cs → no_overflow tb horizon (asked_for cs) →
  let '(taken, tb') := run_calls cs tb in
  (∀ T, start <= T → 0 <= usable_by T cs tb <= cap + q * ((T - start) / fi)) ∧
  0 <= taken ∧ avail tb' <= cap ∧ taken + avail tb' <= cap + q * ((horizon - start) / fi) ∧
  (∀ n, no_overflow tb horizon (asked_for cs + Z.max 0 n) →
     (takeAvailable horizon n tb').1 = Z.max 0 (Z.min n (avail (adjust horizon tb').2))).
Proof.
  intros Hnew Ho Hno. pose proof (new_bucket_ok _ _ _ _ _ Hnew) as Hok.
  destruct (run_calls_ok cs tb start horizon 0 0 Hok Ho Hno) as [Hsp Hok'].
  assert (startTime tb = start ∧ capacity tb = cap ∧ quantum tb = q ∧ fillInterval tb = fi) as (<- & <- & <- & <-).
  { revert Hnew. unfold NewBucketWithQuantum. repeat case_match; intros [= <-]. done. }
  destruct (run_calls cs tb) as [taken tb']. cbn in Hsp, Hok'. split.
  { intros T HT. destruct (usable_by_ok T cs tb _ horizon 0 0 Hok Ho Hno) as [H0 Hcase].
    change ((T - startTime tb) / fillInterval tb) with (tick tb T). destruct Hok as [Hf Hc Hq _ _ _ _ _ _].
    assert (0 <= tick tb T) by (unfold tick; apply Z.div_pos; lia). destruct Hcase as [Hz|Hcase]; [rewrite Hz; nia|lia]. }
  pose proof Hok' as [Hf Hc Hq Hs Hfu Ht Hga Hd Hsum]. pose proof Hsp as (Es & Ec & Eq & Ef).
  rewrite Ec, Eq in *. rewrite (same_params_tick _ _ _ Hsp) in Ht. change ((horizon - startTime tb) / fillInterval tb) with (tick tb horizon).
  split; [lia|]. split; [done|]. split; [nia|].
  intros n Hn. apply (same_params_no_overflow _ tb') in Hn; [|done].
  by destruct (takeAvailable_spec horizon n tb' _ _ Hok' Hn) as [-> _].
Qed.

(** Waiting for tokens: when [take] grants more tokens than there are, it answers the
    time until the first tick at which enough have been added, within the maximum the
    caller accepts; when there are enough it does not wait; when it refuses, no tokens
    are taken. *)
Theorem take_waits_enough (now : Time) (n : Z) (maxWait : Duration) (tb : Bucket) (asked granted : Z) :
  bucket_ok tb now asked granted → no_overflow tb now (asked + n) → 0 < n →
  let '(d, ok, tb') := take now n maxWait tb in
  let left := avail (adjust now tb).2 - n in
  (0 <= left → ok = true ∧ d = 0) ∧
  (left < 0 → ok = true →
     d <= maxWait ∧ now + d = startTime tb + tick tb (now + d) * fillInterval tb ∧
     0 <= left + quantum tb * (tick tb (now + d) - tick tb now) < quantum tb) ∧
  (ok = false → d = 0 ∧ tb' = (adjust now tb).2 ∧ left < 0).
Proof.
  intros Hok Hno Hn. replace n with (Z.max 0 n) in Hno by lia.
  pose proof (take_bucket_spec now n maxWait tb asked granted Hok Hno) as H.
  destruct (take now n maxWait tb) as [[d ok] tb']. cbn zeta in *.
  destruct H as (_ & _ & _ & H1 & H2 & H3). auto.
Qed.

(** A bucket of 10 tokens with one more each second, left alone for an hour. *)
Definition idle_bucket : Bucket := mkBucket 0 10 1 Second 10 0.

(** A full bucket does not move its tick forward, so the first tokens that are taken
    after a pause are given back for the whole pause: twice the burst is taken at one
    instant. *)
Theorem burst_is_doubled :
  let hour := 60 * Minute in
  run_calls [CTakeAvailable hour 10; CTakeAvailable hour 10; CTakeAvailable hour 10] idle_bucket =
    (20, mkBucket 0 10 1 Second 0 3600).
Proof. vm_compute. reflexivity. Qed.

(** Half a second after the start a hundred tokens are taken: the first four may be used at
    once, the others 90 seconds after the start. *)
Definition owing : list call :=
  [CTake (500 * Millisecond) 4 infinityDuration; CTake (500 * Millisecond) 96 infinityDuration].
Example owing_run : (run_calls owing idle_bucket).1 = 100 ∧ avail (run_calls owing idle_bucket).2 = -90.
Proof. vm_compute. split; reflexivity. Qed.

Lemma tokens_bounded_witness :
  let '(taken, tb') := run_calls owing idle_bucket in
  (∀ T, 0 <= T → 0 <= usable_by T owing idle_bucket <= 10 + 1 * ((T - 0) / Second)) ∧
  0 <= taken ∧ avail tb' <= 10 ∧ taken + avail tb' <= 10 + 1 * ((7 * Second - 0) / Second) ∧
  (∀ n, no_overflow idle_bucket (7 * Second) (100 + Z.max 0 n) →
     (takeAvailable (7 * Second) n tb').1 = Z.max 0 (Z.min n (avail (adjust (7 * Second) tb').2))).
Proof.
  refine (tokens_bounded Second 10 1 0 (7 * Second) owing idle_bucket _ _ _).
  - reflexivity.
  - vm_compute. repeat split; discriminate.
  - vm_compute. reflexivity.
Defined.

Lemma take_waits_enough_witness :
  let '(d, ok, tb') := take (500 * Millisecond) 12 (10 * Second) idle_bucket in
  let left := avail (adjust (500 * Millisecond) idle_bucket).2 - 12 in
  (0 <= left → ok = true ∧ d = 0) ∧
  (left < 0 → ok = true →
     d <= 10 * Second ∧
     500 * Millisecond + d = 0 + tick idle_bucket (500 * Millisecond + d) * Second ∧
     0 <= left + 1 * (tick idle_bucket (500 * Millisecond + d) - tick idle_bucket (500 * Millisecond)) < 1) ∧
  (ok = false → d = 0 ∧ tb' = (adjust (500 * Millisecond) idle_bucket).2 ∧ left < 0).
Proof.
  refine (take_waits_enough (500 * Millisecond) 12 (10 * Second) idle_bucket 0 0 _ _ _).
  - split; vm_compute; try split; try discriminate; reflexivity.
  - vm_compute. reflexivity.
  - lia.
Defined.
