(* ===== verification/BucketRate.v ===== *)
(** The choice of a token bucket for a rate: [NewBucketWithRate] of [juju/ratelimit] and
    [NewTokenBucketRateLimiter] of [util/throttle.go], with the [float64] arithmetic they
    are written in.

    A [float64] is a value of the Standard Library's specification of IEEE 754, and the
    operations round as it says.  The loop over quanta has fuel for 400 of them;
    [quantum_loop_fuel] shows that it never needs them all. *)

From Stdlib Require Import QArith SpecFloat.
From stdpp Require Import strings list numbers.
From S2P Require Import Prelude GoTime TokenBucket.

Local Open Scope Z_scope.

(** * float64 *)

Definition float64 : Type := spec_float.
Definition of_int (z : Z) : float64 := binary_normalize 53 1024 z 0 false.
Definition fmul : float64 → float64 → float64 := SFmul 53 1024.
Definition fdiv : float64 → float64 → float64 := SFdiv 53 1024.
Definition fsub : float64 → float64 → float64 := SFsub 53 1024.

(** A [float32] as a [float64]: its value is a quotient by a power of two, which is exact. *)
Definition of_Q (q : Q) : float64 := fdiv (of_int (Qnum q)) (of_int (Zpos (Qden q))).

(** The conversion to [int64].  What is out of range is the least integer, as the
    instruction of the processor has it. *)
Definition trunc (x : float64) : Z :=
  match x with
  | S754_zero _ => 0
  | S754_finite neg m e =>
      let v := if decide (0 <= e) then Zpos m * 2 ^ e else Zpos m / 2 ^ (- e) in
      let v := if neg then - v else v in
      if decide (is_int64 v) then v else min_int64
  | S754_infinity _ | S754_nan => min_int64
  end.

(** * ratelimit.go *)

Definition billion : float64 := of_int 1000000000.
Definition rateMargin : float64 := fdiv (of_int 1) (of_int 100).

Definition rate_of (quantum fillInterval : Z) : float64 := fdiv (fmul billion (of_int quantum)) (of_int fillInterval).
Definition Rate (tb : Bucket) : float64 := rate_of (quantum tb) (fillInterval tb).

Definition nextQuantum (q : Z) : Z :=
  let q1 := Z.quot (wrap64 (q * 11)) 10 in
  if decide (q1 = q) then q1 + 1 else q1.

(** Within the margin; the difference of the rates and its absolute value. *)
Definition close_to (rate actual : float64) : bool := SFleb (fdiv (SFabs (fsub actual rate)) rate) rateMargin.

(** The text of the rate at the end of the message is left out. *)
Definition no_quantum : string := "cannot find suitable quantum for ".

(** One turn: a result, or nothing for the next quantum. *)
Definition try_quantum (quantum : Z) (rate : float64) (capacity : Z) (now : Time) : option (string + Bucket) :=
  let fillInterval := trunc (fdiv (fmul billion (of_int quantum)) rate) in
  if decide (fillInterval <= 0) then None
  else
    match NewBucketWithQuantum fillInterval capacity quantum now with
    | inl msg => Some (inl msg)
    | inr tb => if close_to rate (Rate tb) then Some (inr tb) else None
    end.
Fixpoint quantum_loop (fuel : nat) (quantum : Z) (rate : float64) (capacity : Z) (now : Time) : string + Bucket :=
  match fuel with
  | O => inl no_quantum
  | S fuel =>
      if decide (quantum < 2 ^ 50) then
        match try_quantum quantum rate capacity now with
        | Some r => r
        | None => quantum_loop fuel (nextQuantum quantum) rate capacity now
        end
      else inl no_quantum
  end.
Definition quanta : nat := 400.
Definition NewBucketWithRate (rate : float64) (capacity : Z) (now : Time) : string + Bucket :=
  quantum_loop quanta 1 rate capacity now.

(** * util/throttle.go *)
Definition NewTokenBucketRateLimiter (qps : Q) (burst : Z) (now : Time) : string + Bucket :=
  NewBucketWithRate (of_Q qps) burst now.

(** From 0 for a full bucket to 1 for an empty one, and above when callers wait. *)
Definition Saturation (now : Time) (t : Bucket) : float64 * Bucket :=
  let capacity := Capacity t in
  let '(avail, t) := Available now t in
  (fdiv (of_int (wrap64 (capacity - avail))) (of_int capacity), t).
Example half_saturated : (Saturation 0 (mkBucket 0 10 1 1000 5 0)).1 = fdiv (of_int 1) (of_int 2).
Proof. vm_compute. reflexivity. Qed.

(** * Properties *)

(** ** The loop ends *)

Lemma nextQuantum_grows q : 0 < q < 2 ^ 50 → q < nextQuantum q < 2 ^ 51.
Proof.
  intros Hq. unfold nextQuantum. rewrite wrap64_id by (unfold is_int64, min_int64, max_int64; lia).
  rewrite Z.quot_div_nonneg by lia.
  pose proof (Z.div_mod (q * 11) 10). pose proof (Z.mod_pos_bound (q * 11) 10). case_decide; lia.
Qed.
Lemma quantum_loop_done n q rate cap now : 2 ^ 50 <= q → quantum_loop n q rate cap now = inl no_quantum.
Proof. intros Hq. destruct n; [done|]. cbn [quantum_loop]. by rewrite decide_False by lia. Qed.
Lemma quantum_loop_more n m q rate cap now :
  2 ^ 50 <= Nat.iter n nextQuantum q → quantum_loop (n + m) q rate cap now = quantum_loop n q rate cap now.
Proof.
  revert q. induction n as [|n IH]; intros q Hq; [by rewrite !quantum_loop_done|].
  rewrite Nat.iter_succ_r in Hq. cbn [Nat.add quantum_loop]. by rewrite IH.
Qed.
(** More fuel changes nothing: the loop has come to its end. *)
Lemma quantum_loop_fuel m rate cap now : quantum_loop (quanta + m) 1 rate cap now = NewBucketWithRate rate cap now.
Proof. apply quantum_loop_more. vm_compute. discriminate. Qed.

(** ** The bucket *)

Lemma NewBucketWithQuantum_spec d cap q now :
  NewBucketWithQuantum d cap q now =
    if decide (d <= 0) then inl "token bucket fill interval is not > 0"
    else if decide (cap <= 0) then inl "token bucket capacity is not > 0"
    else if decide (q <= 0) then inl "token bucket quantum is not > 0"
    else inr (mkBucket now cap q d cap 0).
Proof. unfold NewBucketWithQuantum. repeat case_bool_decide; repeat case_decide; done. Qed.

Lemma try_quantum_made q rate cap now tb : try_quantum q rate cap now = Some (inr tb) →
  ∃ d, 0 < d ∧ 0 < cap ∧ 0 < q ∧ tb = mkBucket now cap q d cap 0 ∧ close_to rate (rate_of q d) = true.
Proof.
  unfold try_quantum. set (d := trunc _). rewrite NewBucketWithQuantum_spec. repeat case_decide; try done.
  destruct (close_to rate (Rate _)) eqn:E; [|done]. intros [= <-]. exists d. split_and!; [lia..|done|exact E].
Qed.
(** What is made is full, fills, and has the rate up to the margin. *)
Lemma quantum_loop_made n q rate cap now tb : quantum_loop n q rate cap now = inr tb →
  ∃ q, try_quantum q rate cap now = Some (inr tb).
Proof.
  revert q. induction n as [|n IH]; intros q; [done|]. cbn [quantum_loop]. case_decide; [|done].
  destruct (try_quantum q rate cap now) as [r|] eqn:E; [intros ->; by exists q|apply IH].
Qed.
Lemma NewBucketWithRate_made rate cap now tb : NewBucketWithRate rate cap now = inr tb →
  bucket_ok tb now 0 0 ∧ capacity tb = cap ∧ avail tb = cap ∧ close_to rate (Rate tb) = true.
Proof.
  intros (q & (d & Hd & Hc & Hq & -> & Hr)%try_quantum_made)%quantum_loop_made.
  split_and!; try done.
  split; cbn; unfold tick; cbn; rewrite ?Z.sub_diag, ?Zdiv_0_l; lia.
Qed.
(** Without a capacity there is no bucket. *)
Lemma NewBucketWithRate_empty rate cap now : cap <= 0 → ∃ msg, NewBucketWithRate rate cap now = inl msg.
Proof.
  intros Hc. destruct (NewBucketWithRate rate cap now) as [msg|tb] eqn:E; [by exists msg|].
  apply quantum_loop_made in E as (q & (d & _ & Hc' & _)%try_quantum_made). lia.
Qed.

(** The first quantum is good enough for the whole rates up to a thousand a second. *)
Definition first_quantum (r : Z) : bool :=
  bool_decide (trunc (fdiv (fmul billion (of_int 1)) (of_Q (inject_Z r))) = 1000000000 / r) &&
  close_to (of_Q (inject_Z r)) (rate_of 1 (1000000000 / r)).
Lemma first_quantum_small r : 1 <= r <= 1000 → first_quantum r = true.
Proof.
  intros Hr. assert (forallb (λ n, first_quantum (Z.of_nat n)) (seq 1 1000) = true) as Hall by (vm_compute; reflexivity).
  rewrite forallb_forall in Hall. specialize (Hall (Z.to_nat r)). rewrite Z2Nat.id in Hall by lia.
  apply Hall, in_seq. lia.
Qed.
Lemma whole_rate r burst now : 1 <= r <= 1000 → 0 < burst →
  NewTokenBucketRateLimiter (inject_Z r) burst now = inr (mkBucket now burst 1 (1000000000 / r) burst 0).
Proof.
  intros Hr Hb. pose proof (first_quantum_small r Hr) as [Hd Hc]%andb_true_iff. apply bool_decide_eq_true in Hd.
  assert (try_quantum 1 (of_Q (inject_Z r)) burst now = Some (inr (mkBucket now burst 1 (1000000000 / r) burst 0))) as Ht.
  { unfold try_quantum. rewrite Hd. assert (0 < 1000000000 / r) by (apply Z.div_str_pos; lia).
    rewrite NewBucketWithQuantum_spec. rewrite !decide_False by lia. unfold Rate. cbn [quantum fillInterval]. by rewrite Hc. }
  unfold NewTokenBucketRateLimiter, NewBucketWithRate, quanta. cbn [quantum_loop]. by rewrite Ht.
Qed.
