(* ===== verification/Request.v ===== *)
(** [client/restclient/request.go], [client.go] and [url_utils.go] of the vendored
    Kubernetes code: requests of the API server, built in a chain of calls, sent with
    retries, and their results.

    The outside of a goroutine is a world [W] with a clock, the environment and an HTTP
    client ([Outside]); the objects on the wire are decoded by a [Codec].  Metrics and
    logging are left out, and so is [Body]: the program sends none. *)

From Stdlib Require Import Ascii.
From stdpp Require Import gmap strings pretty list.
From S2P Require Import Prelude GoStrings GoTime Strconv GoURL FieldSelector ApiErrors Backoff URLBackoff TokenBucket.

Local Open Scope Z_scope.

(** * The outside *)

Record http_request := mkHttpRequest { Method : string; URL_ : string; req_Header : gmap string string }.

(** A response; [Body] is what comes until its end or an error. *)
Record Response := mkResponse {
  StatusCode : Z;
  resp_Header : gmap string string;
  Body : string;
  body_err : option net_error
}.
Definition Header_Get (key : string) (h : gmap string string) : string := default "" (h !! key).

(** [http_Do] is told whether the client is [http.DefaultClient]. *)
Class Outside (W : Type) := {
  outside_clock :: Clock W;
  Getenv : string → M W string;
  http_Do : bool → http_request → M W (api_error + Response)
}.

(** [runtime.Decode], and [runtime.DecodeInto] of a [Status], with their errors as text;
    whether an object is a [Status]; [mime.ParseMediaType]. *)
Class Codec (obj : Type) := {
  Decode : string → string + obj;
  DecodeStatus : string → string + Status;
  AsStatus : obj → option Status;
  ParseMediaType : string → option string
}.

(** What a goroutine that sends requests has: the outside, the backoff manager of its
    request, the rate limiter of the client, and the number of response bodies that have
    not been closed. *)
Record conn (W : Type) := mkConn {
  outside : W;
  backoffMgr : BackoffManager;
  throttle : option Bucket;
  open_bodies : Z
}.
Arguments mkConn {W} _ _ _ _.
Arguments outside {W} _.
Arguments backoffMgr {W} _.
Arguments throttle {W} _.
Arguments open_bodies {W} _.

(** * Request *)

Record ContentConfig := mkContentConfig { ContentType : string; GroupVersion_ : GroupVersion }.

Record Request := mkRequest {
  has_client : bool;
  verb : string;
  baseURL : option URL;
  content : ContentConfig;
  pathPrefix : string;
  subpath : string;
  params : Values;
  headers : gmap string string;
  namespace : string;
  namespaceSet : bool;
  resource : string;
  resourceName : string;
  subresource : string;
  timeout : Duration;
  err : option api_error
}.

(** Changes of the fields that the calls set. *)
Definition set_err e r := mkRequest (has_client r) (verb r) (baseURL r) (content r) (pathPrefix r) (subpath r)
  (params r) (headers r) (namespace r) (namespaceSet r) (resource r) (resourceName r) (subresource r) (timeout r) (Some e).
Definition set_pathPrefix p r := mkRequest (has_client r) (verb r) (baseURL r) (content r) p (subpath r)
  (params r) (headers r) (namespace r) (namespaceSet r) (resource r) (resourceName r) (subresource r) (timeout r) (err r).
Definition set_subpath p r := mkRequest (has_client r) (verb r) (baseURL r) (content r) (pathPrefix r) p
  (params r) (headers r) (namespace r) (namespaceSet r) (resource r) (resourceName r) (subresource r) (timeout r) (err r).
Definition set_params v r := mkRequest (has_client r) (verb r) (baseURL r) (content r) (pathPrefix r) (subpath r)
  v (headers r) (namespace r) (namespaceSet r) (resource r) (resourceName r) (subresource r) (timeout r) (err r).
Definition set_headers h r := mkRequest (has_client r) (verb r) (baseURL r) (content r) (pathPrefix r) (subpath r)
  (params r) h (namespace r) (namespaceSet r) (resource r) (resourceName r) (subresource r) (timeout r) (err r).
Definition set_namespace n r := mkRequest (has_client r) (verb r) (baseURL r) (content r) (pathPrefix r) (subpath r)
  (params r) (headers r) n true (resource r) (resourceName r) (subresource r) (timeout r) (err r).
Definition set_resource n r := mkRequest (has_client r) (verb r) (baseURL r) (content r) (pathPrefix r) (subpath r)
  (params r) (headers r) (namespace r) (namespaceSet r) n (resourceName r) (subresource r) (timeout r) (err r).
Definition set_resourceName n r := mkRequest (has_client r) (verb r) (baseURL r) (content r) (pathPrefix r) (subpath r)
  (params r) (headers r) (namespace r) (namespaceSet r) (resource r) n (subresource r) (timeout r) (err r).
Definition set_subresource n r := mkRequest (has_client r) (verb r) (baseURL r) (content r) (pathPrefix r) (subpath r)
  (params r) (headers r) (namespace r) (namespaceSet r) (resource r) (resourceName r) n (timeout r) (err r).
Definition set_timeout d r := mkRequest (has_client r) (verb r) (baseURL r) (content r) (pathPrefix r) (subpath r)
  (params r) (headers r) (namespace r) (namespaceSet r) (resource r) (resourceName r) (subresource r) d (err r).

(** ** Names in a path: [api/validation/name.go] *)
Definition NameMayNotBe : list string := ["."; ".."].
Definition NameMayNotContain : list string := ["/"; "%"].

Section Builder.
Context {gf : GoFormats}.

(** [None] is [(true, "")]. *)
Definition IsValidPathSegmentName (name : string) : option string :=
  match filter (λ illegalName, name = illegalName) NameMayNotBe with
  | illegalName :: _ => Some ("name may not be " +:+ Quote illegalName)
  | [] =>
      match filter (λ illegalContent, Contains name illegalContent = true) NameMayNotContain with
      | illegalContent :: _ => Some ("name may not contain " +:+ Quote illegalContent)
      | [] => None
      end
  end.

(** ** The calls of the chain: the first error is kept, and the later calls do nothing. *)

Definition SetHeader (key value : string) (r : Request) : Request := set_headers (<[key := value]> (headers r)) r.

Definition NewRequest (client : bool) (verb : string) (baseURL : option URL) (versionedAPIPath : string)
    (content : ContentConfig) : Request :=
  let pathPrefix := match baseURL with Some u => Join ["/"; Path u] | None => "/" end in
  let r := mkRequest client verb baseURL content (Join [pathPrefix; versionedAPIPath]) "" ∅ ∅ "" false "" "" "" 0 None in
  if decide (ContentType content = "") then r else SetHeader "Accept" (ContentType content +:+ ", */*") r.

Definition Prefix (segments : list string) (r : Request) : Request :=
  match err r with
  | Some _ => r
  | None => set_pathPrefix (Join [pathPrefix r; Join segments]) r
  end.
Definition Suffix (segments : list string) (r : Request) : Request :=
  match err r with
  | Some _ => r
  | None => set_subpath (Join [subpath r; Join segments]) r
  end.

Definition Resource (resource_ : string) (r : Request) : Request :=
  match err r with
  | Some _ => r
  | None =>
      if decide (resource r ≠ "") then
        set_err (Plain ("resource already set to " +:+ Quote (resource r) +:+ ", cannot change to " +:+ Quote resource_)) r
      else
        match IsValidPathSegmentName resource_ with
        | Some msg => set_err (Plain ("invalid resource " +:+ Quote resource_ +:+ ": " +:+ msg)) r
        | None => set_resource resource_ r
        end
  end.

(** The loop of [SubResource] over the segments. *)
Fixpoint first_invalid (names : list string) : option (string * string) :=
  match names with
  | [] => None
  | s :: names => match IsValidPathSegmentName s with Some msg => Some (s, msg) | None => first_invalid names end
  end.
Definition SubResource (subresources : list string) (r : Request) : Request :=
  match err r with
  | Some _ => r
  | None =>
      let subresource_ := Join subresources in
      if decide (subresource r ≠ "") then
        set_err (Plain ("subresource already set to " +:+ Quote (resource r) +:+ ", cannot change to " +:+ Quote subresource_)) r
      else
        match first_invalid subresources with
        | Some (s, msg) => set_err (Plain ("invalid subresource " +:+ Quote s +:+ ": " +:+ msg)) r
        | None => set_subresource subresource_ r
        end
  end.

Definition Name (resourceName_ : string) (r : Request) : Request :=
  match err r with
  | Some _ => r
  | None =>
      if decide (resourceName_ = "") then set_err (Plain "resource name may not be empty") r
      else if decide (resourceName r ≠ "") then
        set_err (Plain ("resource name already set to " +:+ Quote (resourceName r) +:+ ", cannot change to " +:+ Quote resourceName_)) r
      else
        match IsValidPathSegmentName resourceName_ with
        | Some msg => set_err (Plain ("invalid resource name " +:+ Quote resourceName_ +:+ ": " +:+ msg)) r
        | None => set_resourceName resourceName_ r
        end
  end.

Definition Namespace (namespace_ : string) (r : Request) : Request :=
  match err r with
  | Some _ => r
  | None =>
      if namespaceSet r then
        set_err (Plain ("namespace already set to " +:+ Quote (namespace r) +:+ ", cannot change to " +:+ Quote namespace_)) r
      else
        match IsValidPathSegmentName namespace_ with
        | Some msg => set_err (Plain ("invalid namespace " +:+ Quote namespace_ +:+ ": " +:+ msg)) r
        | None => set_namespace namespace_ r
        end
  end.
Definition NamespaceIfScoped (namespace_ : string) (scoped : bool) (r : Request) : Request :=
  if scoped then Namespace namespace_ r else r.

(** [strings.HasSuffix s "/"]. *)
Definition ends_with_slash (s : string) : bool := bool_decide (String.get (String.length s - 1) s = Some slash).

(** [None] is the panic of a request without a base URL. *)
Definition AbsPath (segments : list string) (r : Request) : option Request :=
  match err r with
  | Some _ => Some r
  | None =>
      match baseURL r with
      | None => None
      | Some u =>
          let p := Join [Path u; Join segments] in
          match segments with
          | [segment] =>
              if (bool_decide (1 < String.length (Path u))%nat || bool_decide (1 < String.length segment)%nat)
                 && ends_with_slash segment
              then Some (set_pathPrefix (p +:+ "/") r) else Some (set_pathPrefix p r)
          | _ => Some (set_pathPrefix p r)
          end
      end
  end.

Definition RequestURI (uri : string) (r : Request) : Request :=
  match err r with
  | Some _ => r
  | None =>
      match url_Parse uri with
      | inl msg => set_err (Plain msg) r
      | inr locator =>
          let r := set_pathPrefix (Path locator) r in
          set_params (URL_Query locator ∪ params r) r
      end
  end.

(** ** Parameters *)

Definition specialParams : list string := ["timeout"].

Definition setParam (paramName value : string) (r : Request) : Request :=
  if decide (paramName ∈ specialParams) then
    set_err (Plain ("must set " +:+ paramName +:+ " through the corresponding function, not directly.")) r
  else set_params (Values_Add paramName value (params r)) r.

Definition LabelSelectorQueryParam (version : string) : string := "labelSelector".
Definition FieldSelectorQueryParam (version : string) : string := "fieldSelector".

(** [fieldMappings], for the version [v1]. *)
Definition objectNameField : string := "metadata.name".
Definition same (fields : list string) : gmap string string := list_to_map ((λ f, (f, f)) <$> fields).
Definition fieldMappings : gmap string (gmap string string) := list_to_map [
  ("nodes", same [objectNameField; "spec.unschedulable"]);
  ("pods", same ["spec.nodeName"; "status.phase"]);
  ("secrets", same ["type"]);
  ("serviceAccounts", same [objectNameField]);
  ("endpoints", same [objectNameField]);
  ("events", same [objectNameField; "reason"; "source"; "type"; "involvedObject.kind"; "involvedObject.namespace";
     "involvedObject.name"; "involvedObject.uid"; "involvedObject.apiVersion"; "involvedObject.resourceVersion";
     "involvedObject.fieldPath"])].

(** [filterField] of the three types of mappings; of the last it is that no error is
    returned. *)
Definition clientField_filterField (c : gmap string string) (field value : string) : error + (string * string) :=
  match c !! field with
  | None => inl (Errorf (field +:+ " - " +:+ value +:+ " - no field mapping defined"))
  | Some newFieldName => inr (newFieldName, value)
  end.
Definition resourceType_filterField (r : gmap string (gmap string string)) (resourceType field value : string)
    : error + (string * string) :=
  match r !! resourceType with
  | None => inl (Errorf (resourceType +:+ " - " +:+ field +:+ " - " +:+ value +:+ " - no field mapping defined"))
  | Some fMapping => clientField_filterField fMapping field value
  end.
Definition filterField (groupVersion : GroupVersion) (resourceType field value : string) : error + (string * string) :=
  if decide (gv_Group groupVersion = "" ∧ gv_Version groupVersion = "v1") then
    match resourceType_filterField fieldMappings resourceType field value with
    | inl err => inr (field, value)
    | inr p => inr p
    end
  else inr (field, value).

Definition error_msg (err : error) : string := match err with Errorf msg => msg | _ => "" end.

Definition FieldsSelectorParam (s : option Selector) (r : Request) : Request :=
  match err r, s with
  | Some _, _ | _, None => r
  | None, Some s =>
      if Empty s then r
      else
        match Transform (filterField (GroupVersion_ (content r)) (resource r)) s with
        | inl err => set_err (Plain (error_msg err)) r
        | inr s2 => setParam (FieldSelectorQueryParam "") (Selector_String s2) r
        end
  end.

Definition UintParam (paramName : string) (u : N) (r : Request) : Request :=
  match err r with Some _ => r | None => setParam paramName (pretty u) r end.
Definition Param (paramName s : string) (r : Request) : Request :=
  match err r with Some _ => r | None => setParam paramName s r end.

(** The body of the loops of [VersionedParams]; [inl] is the return in the middle. *)
Definition versioned_param (k value : string) (r : Request) : Request + Request :=
  if decide (k = LabelSelectorQueryParam "" ∧ value = "") then inr r
  else if decide (k = FieldSelectorQueryParam "") then
    if decide (value = "") then inr r
    else
      match ParseSelector value with
      | inl err => inl (set_err (Plain ("unparsable field selector: " +:+ error_msg err)) r)
      | inr selector =>
          match Transform (filterField (GroupVersion_ (content r)) (resource r)) selector with
          | inl err => inl (set_err (Plain ("untransformable field selector: " +:+ error_msg err)) r)
          | inr filteredSelector => inr (setParam k (Selector_String filteredSelector) r)
          end
      end
  else inr (setParam k value r).
Fixpoint versioned_params (ps : list (string * string)) (r : Request) : Request :=
  match ps with
  | [] => r
  | (k, value) :: ps =>
      match versioned_param k value r with
      | inl r => r
      | inr r => versioned_params ps r
      end
  end.

(** [VersionedParams]; the argument is what [EncodeParameters] gives for the object. *)
Definition VersionedParams `{!MapOrder} (encoded : string + Values) (r : Request) : Request :=
  match err r with
  | Some _ => r
  | None =>
      match encoded with
      | inl err => set_err (Plain err) r
      | inr ps => versioned_params (k ← map_range ps; pair k <$> default [] (ps !! k)) r
      end
  end.

Definition Timeout (d : Duration) (r : Request) : Request :=
  match err r with Some _ => r | None => set_timeout d r end.

(** ** The URL *)

Definition URL_of (r : Request) : URL :=
  let p := pathPrefix r in
  let p := if namespaceSet r && bool_decide (namespace r ≠ "") then Join [p; "namespaces"; namespace r] else p in
  let p := if decide (resource r ≠ "") then Join [p; ToLower (resource r)] else p in
  let p := if decide (resourceName r ≠ "" ∨ subpath r ≠ "" ∨ subresource r ≠ "")
           then Join [p; resourceName r; subresource r; subpath r] else p in
  let query := if decide (timeout r ≠ 0) then Values_Set "timeout" (Duration_String (timeout r)) (params r)
               else params r in
  match baseURL r with
  | Some u => set_RawQuery (Encode query) (set_Path p u)
  | None => set_RawQuery (Encode query) (set_Path p empty_URL)
  end.

Definition finalURLTemplate (r : Request) : string :=
  let r := if decide (resourceName r ≠ "") then set_resourceName "{name}" r else r in
  let r := if namespaceSet r && bool_decide (namespace r ≠ "") then set_namespace "{namespace}" r else r in
  URL_String (URL_of (set_params ((λ _, ["{value}"]) <$> params r) r)).
End Builder.

(** * Sending *)

(** [strings.TrimSpace] of text in ASCII. *)
Definition is_space (c : ascii) : bool := bool_decide (nat_of_ascii c = 32 ∨ 9 <= nat_of_ascii c <= 13)%nat.
Fixpoint TrimLeft (s : string) : string :=
  match s with
  | EmptyString => ""
  | String c s' => if is_space c then TrimLeft s' else s
  end.
Fixpoint TrimRight (s : string) : string :=
  match s with
  | EmptyString => ""
  | String c s' => let t := TrimRight s' in if is_space c && bool_decide (t = "") then "" else String c t
  end.
Definition TrimSpace (s : string) : string := TrimRight (TrimLeft s).

(** The result of a request; [None] as a body is nil. *)
Record Result := mkResult {
  body : option string; contentType : string; res_err : option api_error; statusCode : Z
}.
Definition error_Result (e : api_error) : Result := mkResult None "" (Some e) 0.

(** What [Watch] opens: a watch without events, or one of the stream of a response. *)
Inductive watch_interface : Type := EmptyWatch | StreamWatch (resp : Response).

(** The client of the program: [None] as a rate limiter is one without a limit. *)
Record RESTClient := mkRESTClient {
  base : URL; versionedAPIPath : string; contentConfig : ContentConfig; Throttle : option Bucket; Client : bool
}.

Section Responses.
Context {gf : GoFormats}.

Definition retryAfterSeconds (resp : Response) : option Z :=
  let h := Header_Get "Retry-After" (resp_Header resp) in
  if decide (h = "") then None
  else match Atoi h with (i, None) => Some i | (_, Some _) => None end.

(** [None] is [(0, false)]. *)
Definition checkWait (resp : Response) : option Z :=
  if bool_decide (StatusCode resp = StatusTooManyRequests) || bool_decide (500 <= StatusCode resp)
  then retryAfterSeconds resp else None.

Context {obj : Type} `{!Codec obj}.

Definition isTextResponse (resp : Response) : bool :=
  let contentType := Header_Get "Content-Type" (resp_Header resp) in
  if decide (contentType = "") then true
  else match ParseMediaType contentType with Some media => HasPrefix media "text/" | None => false end.

(** A body that could not be read gives its error again. *)
Definition transformUnstructuredResponseError (r : Request) (resp : Response) (req : http_request)
    (body : option string) : api_error :=
  let message := if isTextResponse resp then TrimSpace (default "" body) else "unknown" in
  NewGenericServerResponse (StatusCode resp) (Method req)
    (mkGroupResource (gv_Group (GroupVersion_ (content r))) (resource r)) (resourceName r) message
    (default 0 (retryAfterSeconds resp)) true.

Definition transformResponse (r : Request) (req : http_request) (resp : Response) : Result :=
  let body := match body_err resp with None => Some (Body resp) | Some _ => None end in
  let status := match DecodeStatus (default "" body) with
                | inr status => if decide (st_Status status = "") then None else Some status
                | inl _ => None
                end in
  let code := StatusCode resp in
  if bool_decide (code ≠ 101) && (bool_decide (code < 200) || bool_decide (206 < code)) then
    match status with
    | None => error_Result (transformUnstructuredResponseError r resp req body)
    | Some status => error_Result (StatusError status)
    end
  else
    let success := bool_decide (200 <= code) && bool_decide (code <= 206) in
    let result := mkResult body (Header_Get "Content-Type" (resp_Header resp)) None code in
    match status with
    | Some status =>
        if bool_decide (st_Status status ≠ StatusSuccess) && negb success
        then error_Result (StatusError status) else result
    | None => result
    end.

(** [Result.Raw], [Get], [Error], [StatusCode] and [WasCreated]. *)
Definition Raw (r : Result) : option string * option api_error := (body r, res_err r).
Definition Result_Get (r : Result) : api_error + obj :=
  match res_err r with
  | Some err => inl err
  | None => match Decode (default "" (body r)) with inl msg => inl (Plain msg) | inr o => inr o end
  end.
Definition Result_Error (r : Result) : option api_error := res_err r.
Definition WasCreated (r : Result) : bool := bool_decide (statusCode r = 201).

Context {W : Type} `{!Outside W}.
Local Abbreviation conn := (conn W).

Definition set_outside w (c : conn) : conn := mkConn w (backoffMgr c) (throttle c) (open_bodies c).
Definition set_backoffMgr m (c : conn) : conn := mkConn (outside c) m (throttle c) (open_bodies c).
Definition set_throttle b (c : conn) : conn := mkConn (outside c) (backoffMgr c) b (open_bodies c).
Definition add_bodies n (c : conn) : conn := mkConn (outside c) (backoffMgr c) (throttle c) (open_bodies c + n).

Definition on_outside {A} (m : M W A) : M conn A := zoom outside set_outside m.
Definition on_backoffMgr {A} (m : M (W * BackoffManager) A) : M conn A :=
  zoom (λ c, (outside c, backoffMgr c)) (λ s c, set_backoffMgr s.2 (set_outside s.1 c)) m.

Definition tryThrottle : M conn unit :=
  c ← get;
  match throttle c with
  | None => mret tt
  | Some b =>
      now ← on_outside Now;
      let '(d, b) := Accept now b in
      modify (set_throttle (Some b)) ;;
      if decide (0 < d) then on_outside (Sleep d) else mret tt
  end.

(** [http.NewRequest]. *)
Definition http_NewRequest (verb url : string) : api_error + http_request :=
  match url_Parse url with
  | inl msg => inl (Plain msg)
  | inr _ => inr (mkHttpRequest verb url ∅)
  end.

(** [client.Do]: a response comes with a body that is open. *)
Definition client_Do (r : Request) (req : http_request) : M conn (api_error + Response) :=
  resp ← on_outside (http_Do (negb (has_client r)) req);
  match resp with
  | inl err => mret (inl err)
  | inr resp => modify (add_bodies 1) ;; mret (inr resp)
  end.
Definition close_body (c : conn) : conn := add_bodies (-1) c.

Definition response_code (resp : api_error + Response) : Z :=
  match resp with inl _ => 0 | inr resp => StatusCode resp end.
Definition is_error {A B} (x : A + B) : bool := match x with inl _ => true | inr _ => false end.

Definition maxRetries : nat := 10.

(** The loop of [request]; each turn counts a retry, and the last one takes what has come,
    so [maxRetries] turns are enough. *)
Fixpoint request_loop {A} (fuel : nat) (r : Request) (fn : http_request → Response → A) (retries : nat)
    : M conn (api_error + A) :=
  match fuel with
  | O => λ c, Block c
  | S fuel =>
      match http_NewRequest (verb r) (URL_String (URL_of r)) with
      | inl err => mret (inl err)
      | inr req =>
          let req := mkHttpRequest (Method req) (URL_ req) (headers r) in
          d ← on_backoffMgr (CalculateBackoff (URL_of r));
          on_backoffMgr (Backoff_Sleep d) ;;
          resp ← client_Do r req;
          on_backoffMgr (UpdateBackoff (URL_of r) (is_error resp) (response_code resp)) ;;
          match resp with
          | inl err => mret (inl err)
          | inr resp =>
              let retries := S retries in
              done ← deferred close_body (
                match checkWait resp with
                | Some seconds =>
                    if decide (retries < maxRetries)%nat then
                      on_backoffMgr (Backoff_Sleep (wrap64 (wrap64 seconds * Second))) ;; mret None
                    else mret (Some (fn req resp))
                | None => mret (Some (fn req resp))
                end);
              match done with
              | Some a => mret (inr a)
              | None => request_loop fuel r fn retries
              end
          end
      end
  end.

Definition request {A} (r : Request) (fn : http_request → Response → A) : M conn (api_error + A) :=
  match err r with
  | Some err => mret (inl err)
  | None =>
      if bool_decide (verb r ∈ ["GET"; "PUT"; "DELETE"]) && namespaceSet r
         && bool_decide (resourceName r ≠ "") && bool_decide (namespace r = "") then
        mret (inl (Plain "an empty namespace may not be set when a resource name is provided"))
      else if bool_decide (verb r = "POST") && namespaceSet r && bool_decide (namespace r = "") then
        mret (inl (Plain "an empty namespace may not be set during creation"))
      else request_loop maxRetries r fn 0
  end.

Definition Do (r : Request) : M conn Result :=
  tryThrottle ;;
  res ← request r (transformResponse r);
  match res with
  | inl err => mret (error_Result err)
  | inr result => mret result
  end.

Definition DoRaw (r : Request) : M conn (string * option api_error) :=
  tryThrottle ;;
  res ← request r (λ _ resp, (Body resp, NetError <$> body_err resp));
  match res with
  | inl err => mret ("", Some err)
  | inr result => mret result
  end.

Definition Watch (r : Request) : M conn (api_error + watch_interface) :=
  match err r with
  | Some err => mret (inl err)
  | None =>
      let url := URL_String (URL_of r) in
      match http_NewRequest (verb r) url with
      | inl err => mret (inl err)
      | inr req =>
          d ← on_backoffMgr (CalculateBackoff (URL_of r));
          on_backoffMgr (Backoff_Sleep d) ;;
          resp ← client_Do r req;
          match baseURL r with
          | Some u => on_backoffMgr (UpdateBackoff u (is_error resp) (response_code resp))
          | None => mret tt
          end ;;
          match resp with
          | inl err => if IsProbableEOF err then mret (inr EmptyWatch) else mret (inl err)
          | inr resp =>
              if decide (StatusCode resp ≠ 200) then
                deferred close_body (
                  match res_err (transformResponse r req resp) with
                  | Some err => mret (inl err)
                  | None => mret (inl (Plain ("for request '" +:+ url +:+ "', got status: " +:+ pretty (StatusCode resp))))
                  end)
              else mret (inr (StreamWatch resp))
          end
      end
  end.

(** [Stream]: the open body of the response; [Status] is the text of its status line. *)
Definition Stream (status_line : Response → string) (r : Request) : M conn (api_error + Response) :=
  match err r with
  | Some err => mret (inl err)
  | None =>
      tryThrottle ;;
      let url := URL_String (URL_of r) in
      match http_NewRequest (verb r) url with
      | inl err => mret (inl err)
      | inr req =>
          d ← on_backoffMgr (CalculateBackoff (URL_of r));
          on_backoffMgr (Backoff_Sleep d) ;;
          resp ← client_Do r req;
          match baseURL r with
          | Some u => on_backoffMgr (UpdateBackoff (URL_of r) (is_error resp) (response_code resp))
          | None => mret tt
          end ;;
          match resp with
          | inl err => mret (inl err)
          | inr resp =>
              if bool_decide (200 <= StatusCode resp) && bool_decide (StatusCode resp < 300) then mret (inr resp)
              else
                deferred close_body (
                  match body_err resp with
                  | Some _ => mret (inl (Plain (status_line resp +:+ " while accessing " +:+ url)))
                  | None =>
                      match (match Decode (Body resp) with inr o => AsStatus o | inl _ => None end) with
                      | Some status => mret (inl (StatusError status))
                      | None => mret (inl (Plain (status_line resp +:+ " while accessing " +:+ url +:+ ": " +:+ Body resp)))
                      end
                  end)
          end
      end
  end.

(** * client.go *)

Definition envBackoffBase : string := "KUBE_CLIENT_BACKOFF_BASE".
Definition envBackoffDuration : string := "KUBE_CLIENT_BACKOFF_DURATION".

Definition readExpBackoffConfig : M W BackoffManager :=
  backoffBase ← Getenv envBackoffBase;
  backoffDuration ← Getenv envBackoffDuration;
  match ParseInt backoffBase 10, ParseInt backoffDuration 10 with
  | (backoffBaseInt, None), (backoffDurationInt, None) =>
      mret (UseBackoff (KBackoff.NewBackOff (wrap64 (backoffBaseInt * Second)) (wrap64 (backoffDurationInt * Second))))
  | _, _ => mret NoBackoff
  end.

(** The limiter is an argument ([throttle_for] of [RESTConfig] makes it). *)
Definition NewRESTClient (baseURL : URL) (versionedAPIPath : string) (config : ContentConfig)
    (limiter : option Bucket) (client : bool) : RESTClient :=
  let path := if ends_with_slash (Path baseURL) then Path baseURL else Path baseURL +:+ "/" in
  let config := if decide (ContentType config = "")
                then mkContentConfig "application/json" (GroupVersion_ config) else config in
  mkRESTClient (set_Fragment "" (set_RawQuery "" (set_Path path baseURL))) versionedAPIPath config limiter client.

(** The request gets a backoff manager of its own. *)
Definition Verb (c : RESTClient) (verb : string) : M conn Request :=
  backoff ← on_outside readExpBackoffConfig;
  modify (set_backoffMgr backoff) ;;
  mret (NewRequest (Client c) verb (Some (base c)) (versionedAPIPath c) (contentConfig c)).
Definition Post (c : RESTClient) : M conn Request := Verb c "POST".
Definition Put (c : RESTClient) : M conn Request := Verb c "PUT".
Definition Patch (c : RESTClient) (pt : string) : M conn Request :=
  r ← Verb c "PATCH"; mret (SetHeader "Content-Type" pt r).
Definition Get (c : RESTClient) : M conn Request := Verb c "GET".
Definition Delete (c : RESTClient) : M conn Request := Verb c "DELETE".

(** * url_utils.go *)

Definition DefaultServerURL (host apiPath : string) (groupVersion : GroupVersion) (defaultTLS : bool)
    : string + (URL * string) :=
  if decide (host = "") then inl "host must be a URL or a host:port pair"
  else
    let hostURL :=
      match url_Parse host with
      | inl err => inl err
      | inr hostURL =>
          if decide (Scheme hostURL = "") then
            match url_Parse ((if defaultTLS then "https://" else "http://") +:+ host) with
            | inl err => inl err
            | inr hostURL =>
                if decide (Path hostURL ≠ "" ∧ Path hostURL ≠ "/")
                then inl ("host must be a URL or a host:port pair: " +:+ Quote host) else inr hostURL
            end
          else inr hostURL
      end in
    match hostURL with
    | inl err => inl err
    | inr hostURL =>
        let versionedAPIPath := Join ["/"; apiPath] in
        inr (hostURL,
             if decide (gv_Group groupVersion ≠ "")
             then Join [versionedAPIPath; gv_Group groupVersion; gv_Version groupVersion]
             else Join [versionedAPIPath; gv_Version groupVersion])
    end.
End Responses.
