(* ===== verification/RequestProps.v ===== *)
(** Requests of the API server: what is sent, how often and after which pauses, for every
    outside that answers.

    The events between the client and the outside are recorded in a log ([logged]); the
    specification of the retries is the relation [attempts] between the log, the backoff
    manager and the last answer. *)

From Stdlib Require Import Ascii.
From stdpp Require Import gmap strings pretty list.
From S2P Require Import Prelude GoStrings GoTime Strconv PtrMap Backoff GoURL GoURLProps FieldSelector ApiErrors URLBackoff TokenBucket Request.

Local Open Scope Z_scope.

(** * The log *)

Inductive event : Type :=
| ESleep (d : Duration)
| ESend (default_client : bool) (req : http_request) (ans : api_error + Response).

(** The requests among the events, with their answers. *)
Definition sent (evs : list event) : list (bool * http_request * (api_error + Response)) :=
  omap (λ e, match e with ESend b req ans => Some (b, req, ans) | ESleep _ => None end) evs.
Definition sleeps (evs : list event) : list Duration :=
  omap (λ e, match e with ESleep d => Some d | ESend _ _ _ => None end) evs.

Section Log.
Context {W : Type} `{!Outside W}.

Definition on_world {A} (m : M W A) : M (W * list event) A := zoom fst (λ w s, (w, s.2)) m.
Definition note (e : event) : M (W * list event) unit := modify (λ s, (s.1, s.2 ++ [e])).

#[export] Instance logged_clock : Clock (W * list event) := {|
  Now := on_world Now;
  Sleep d := on_world (Sleep d) ;; note (ESleep d)
|}.
#[export] Instance logged : Outside (W * list event) := {|
  outside_clock := logged_clock;
  Getenv key := on_world (Getenv key);
  http_Do default_client req :=
    ans ← on_world (http_Do default_client req); note (ESend default_client req ans) ;; mret ans
|}.

(** Every call of the outside returns, and the answers to requests are [good]. *)
Class Responsive (good : api_error + Response → Prop) := {
  Now_returns (w : W) : returns Now w (λ _ _, True);
  Sleep_returns (d : Duration) (w : W) : returns (Sleep d) w (λ _ _, True);
  Getenv_returns (key : string) (w : W) : returns (Getenv key) w (λ _ _, True);
  http_Do_returns (b : bool) (req : http_request) (w : W) : returns (http_Do b req) w (λ ans _, good ans)
}.
End Log.
Arguments Responsive W {_} good.

Lemma sent_app evs evs' : sent (evs ++ evs') = sent evs ++ sent evs'.
Proof. apply omap_app. Qed.
Lemma sleeps_app evs evs' : sleeps (evs ++ evs') = sleeps evs ++ sleeps evs'.
Proof. apply omap_app. Qed.

Lemma no_sleeps evs : sleeps evs = [] → evs = (λ s, ESend s.1.1 s.1.2 s.2) <$> sent evs.
Proof.
  induction evs as [|[d|b req ans] evs IH]; [done..|]. cbn. intros Hs. by rewrite (IH Hs) at 1.
Qed.

(** * The backoff manager *)

Definition mgr_wf (m : BackoffManager) : Prop :=
  match m with NoBackoff => True | UseBackoff b => backoff_wf b end.

(** The delay before a request to a host, and the pause that a sleep of the manager is. *)
Definition delay (m : BackoffManager) (host : string) : Duration :=
  match m with
  | NoBackoff => 0
  | UseBackoff b => match entries b !! host with Some e => backoff e | None => 0 end
  end.
Definition pause (m : BackoffManager) (d : Duration) : list event :=
  match m with NoBackoff => [] | UseBackoff _ => [ESleep d] end.

Definition overloaded (code : Z) : bool :=
  bool_decide (maxResponseCode < code) || bool_decide (code ∈ serverIsOverloadedSet).

(** What an answer does to the manager. *)
Definition updated (host : string) (code : Z) (m m' : BackoffManager) : Prop :=
  match m, m' with
  | NoBackoff, NoBackoff => True
  | UseBackoff b, UseBackoff b' =>
      if overloaded code
      then ∃ eventTime now, becomes b b' (<[host := mkBackoffEntry (KBackoff.next_delay b host eventTime) now]> (entries b))
      else becomes b b' (delete host (entries b))
  | _, _ => False
  end.

Lemma updated_wf host code m m' : updated host code m m' → mgr_wf m'.
Proof. destruct m, m'; [done..|]. cbn. destruct (overloaded code); [intros (? & ? & [? _ _ _])|intros [? _ _ _]]; done. Qed.

Section Manager.
Context {gf : GoFormats} {W : Type} {good : api_error + Response → Prop} `{!Outside W, !Responsive W good}.
Local Abbreviation timed := (W * list event * BackoffManager)%type.

Lemma on_world_returns {A} (m : M W A) (P : A → Prop) (s : W * list event) :
  returns m s.1 (λ a _, P a) → returns (on_world m) s (λ a s', P a ∧ s'.2 = s.2).
Proof. intros Hm. apply post_zoom. by eapply post_weaken. Qed.

Lemma logged_Sleep d (s : W * list event) : returns (Sleep d) s (λ _ s', s'.2 = s.2 ++ [ESleep d]).
Proof.
  cbn. apply post_bind. eapply post_weaken; [apply on_world_returns, Sleep_returns| |done].
  intros ? s1 [_ Hs]. apply post_modify. cbn in *. by rewrite Hs.
Qed.
Lemma logged_http_Do b req (s : W * list event) :
  returns (http_Do b req) s (λ ans s', good ans ∧ s'.2 = s.2 ++ [ESend b req ans]).
Proof.
  cbn. apply post_bind. eapply post_weaken; [apply on_world_returns, http_Do_returns| |done].
  intros ans s' [Hg Hs]. apply post_bind, post_modify, post_ret. cbn. by rewrite Hs.
Qed.

Lemma CalculateBackoff_spec u host (s : timed) :
  mgr_wf s.2 → url_Parse (URL_String u) = inr host →
  CalculateBackoff u s = Ret (delay s.2 (Host host)) s.
Proof.
  destruct s as [w m]. intros Hwf Hhost. unfold CalculateBackoff. rewrite bind_unfold. cbn.
  destruct m as [|b]; [done|]. unfold baseUrlKey. rewrite Hhost, bind_unfold. cbn.
  unfold on_backoff, zoom. unfold KBackoff.Get. by rewrite (Get_spec b (Host host) Hwf).
Qed.

Lemma Backoff_Sleep_returns d (s : timed) :
  returns (Backoff_Sleep d) s (λ _ s', s'.1.2 = s.1.2 ++ pause s.2 d ∧ s'.2 = s.2).
Proof.
  destruct s as [w m]. unfold Backoff_Sleep. apply post_bind. cbn.
  destruct m as [|b]; cbn; [by rewrite app_nil_r|].
  apply post_zoom. eapply post_weaken; [apply logged_Sleep|by intros|done].
Qed.

Lemma UpdateBackoff_returns u host failed code (s : timed) :
  mgr_wf s.2 → url_Parse (URL_String u) = inr host →
  returns (UpdateBackoff u failed code) s (λ _ s', s'.1.2 = s.1.2 ∧ updated (Host host) code s.2 s'.2).
Proof.
  destruct s as [w m]. intros Hwf Hhost. unfold UpdateBackoff. apply post_bind. cbn.
  destruct m as [|b]; [done|]. unfold updated. fold (overloaded code). unfold baseUrlKey. rewrite Hhost.
  destruct (overloaded code); apply post_bind, post_ret.
  - apply post_bind. apply post_zoom. eapply post_weaken; [apply on_world_returns, Now_returns| |done].
    intros eventTime s1 [_ Hs1]. apply post_bind. apply post_zoom.
    eapply post_weaken; [apply on_world_returns, Now_returns| |done]. intros now s2 [_ Hs2].
    destruct (KBackoff.NextBackoff_spec (Host host) eventTime now b Hwf) as (b' & HN & Hb').
    unfold post, on_backoff, zoom. rewrite HN. cbn in *. rewrite Hs2, Hs1. eauto.
  - destruct (delete_spec (Host host) b Hwf) as (b' & HD & Hb').
    unfold post, on_backoff, zoom, KBackoff.Reset, Reset. rewrite HD. by cbn.
Qed.
End Manager.

(** * Sending

    The specification of the attempts of a request, with at most [n] retries left. *)

Section Attempts.
Context {gf : GoFormats} (default_client : bool) (req : http_request) (host : string).

Inductive attempts : nat → BackoffManager → list event → BackoffManager → api_error + Response → Prop :=
| att_error n m m' e :
    updated host 0 m m' →
    attempts n m (pause m (delay m host) ++ [ESend default_client req (inl e)]) m' (inl e)
| att_done n m m' resp :
    updated host (StatusCode resp) m m' → checkWait resp = None ∨ n = 0%nat →
    attempts n m (pause m (delay m host) ++ [ESend default_client req (inr resp)]) m' (inr resp)
| att_retry n m m' m'' resp seconds evs ans :
    updated host (StatusCode resp) m m' → checkWait resp = Some seconds →
    attempts n m' evs m'' ans →
    attempts (S n) m (pause m (delay m host) ++ [ESend default_client req (inr resp)]
                      ++ pause m' (wrap64 (wrap64 seconds * Second)) ++ evs) m'' ans.

Definition wants_retry (ans : api_error + Response) : Prop :=
  match ans with inl _ => False | inr resp => is_Some (checkWait resp) end.

Lemma sent_pause m d : sent (pause m d) = [].
Proof. by destruct m. Qed.

(** The requests that are sent are the same one, at most one more than there are retries;
    each answer but the last asks for a retry. *)
Lemma attempts_sent n m evs m' ans :
  attempts n m evs m' ans →
  ∃ waits, sent evs = ((λ w, (default_client, req, w)) <$> waits) ++ [(default_client, req, ans)] ∧
    Forall wants_retry waits ∧ (length waits <= n)%nat ∧
    (wants_retry ans → length waits = n).
Proof.
  induction 1 as [n m m' e Hu|n m m' resp Hu Hn|n m m' m'' resp seconds evs ans Hu Hw Ha IH].
  - exists []. rewrite sent_app, sent_pause. split_and!; [done..|cbn; lia|done].
  - exists []. rewrite sent_app, sent_pause. split_and!; [done..|cbn; lia|].
    intros [seconds Hs]. destruct Hn as [Hn| ->]; [congruence|done].
  - destruct IH as (waits & Hs & Hws & Hn & Hl). exists (inr resp :: waits).
    rewrite !sent_app, !sent_pause, Hs. split_and!; [done|by constructor; [exists seconds|]|cbn; lia|].
    intros Hans. cbn. by rewrite (Hl Hans).
Qed.

(** Without a backoff manager there are no pauses. *)
Lemma attempts_NoBackoff n evs m' ans :
  attempts n NoBackoff evs m' ans → m' = NoBackoff ∧ sleeps evs = [].
Proof.
  remember NoBackoff as m eqn:Hm.
  induction 1 as [n m m' e Hu|n m m' resp Hu Hn|n m m' m'' resp seconds evs ans Hu Hw Ha IH]; subst m;
    destruct m'; try done.
  destruct IH as [-> Hs]; [done|]. by cbn.
Qed.
End Attempts.

Section Sending.
Context {gf : GoFormats} {obj : Type} `{!Codec obj} {W : Type} {good : api_error + Response → Prop}
  `{!Outside W, !Responsive W good}.
Local Abbreviation conn := (conn (W * list event)).

Definition log (c : conn) : list event := (outside c).2.

(** From [c] to [c'] the events [evs] have happened, their answers being [good], [n]
    bodies have been opened, and the rate limiter is the same. *)
Record leaves (c : conn) (evs : list event) (n : Z) (c' : conn) : Prop := {
  lv_log : log c' = log c ++ evs;
  lv_throttle : throttle c' = throttle c;
  lv_bodies : open_bodies c' = open_bodies c + n;
  lv_good : Forall (λ s, good s.2) (sent evs)
}.
Lemma leaves_trans c evs n c1 evs' n' c2 :
  leaves c evs n c1 → leaves c1 evs' n' c2 → leaves c (evs ++ evs') (n + n') c2.
Proof.
  intros [Hl Ht Hb Hg] [Hl' Ht' Hb' Hg']. split; [by rewrite Hl', Hl, app_assoc|congruence|lia|].
  rewrite sent_app. by apply Forall_app.
Qed.
Lemma leaves_nil (c c' : conn) n :
  log c' = log c → throttle c' = throttle c → open_bodies c' = open_bodies c + n → leaves c [] n c'.
Proof. intros. split; [by rewrite app_nil_r|done..]. Qed.

Lemma on_backoffMgr_post {A} (m : M (W * list event * BackoffManager) A) (c : conn) Q :
  returns m (outside c, backoffMgr c) (λ a s, Q a (mkConn s.1 s.2 (throttle c) (open_bodies c))) →
  returns (on_backoffMgr m) c Q.
Proof. intros Hm. by apply post_zoom. Qed.

Lemma Backoff_Sleep_leaves d (c : conn) :
  returns (on_backoffMgr (Backoff_Sleep d)) c
    (λ _ c', leaves c (pause (backoffMgr c) d) 0 c' ∧ backoffMgr c' = backoffMgr c).
Proof.
  apply on_backoffMgr_post. eapply post_weaken; [apply Backoff_Sleep_returns| |done].
  intros ? s [Hl Hm]. split; [|done]. split; cbn in *; [done..|lia|by rewrite sent_pause].
Qed.

Lemma UpdateBackoff_leaves u host failed code (c : conn) :
  mgr_wf (backoffMgr c) → url_Parse (URL_String u) = inr host →
  returns (on_backoffMgr (UpdateBackoff u failed code)) c
    (λ _ c', leaves c [] 0 c' ∧ updated (Host host) code (backoffMgr c) (backoffMgr c')).
Proof.
  intros Hwf Hhost. apply on_backoffMgr_post.
  eapply post_weaken; [by apply UpdateBackoff_returns| |done].
  intros ? s [Hl Hm]. split; [|done]. apply leaves_nil; cbn; [done..|lia].
Qed.

Definition opened (ans : api_error + Response) : Z := if is_error ans then 0 else 1.

Lemma client_Do_leaves r req (c : conn) :
  returns (client_Do r req) c
    (λ ans c', leaves c [ESend (negb (has_client r)) req ans] (opened ans) c' ∧ backoffMgr c' = backoffMgr c).
Proof.
  unfold client_Do. apply post_bind. apply post_zoom.
  eapply post_weaken; [apply logged_http_Do| |done].
  intros ans s [Hg Hs]. cbn in Hs.
  destruct ans as [e|resp]; cbn; (split; [split; cbn; [done..|lia|by apply Forall_singleton]|done]).
Qed.

(** The send of one attempt, which [request], [Watch] and [Stream] share; [u] is the URL
    that the manager is told of, and [k] what follows. *)
Lemma post_attempt {A} (k : api_error + Response → M conn A) r req host u hostu (c : conn) Q :
  mgr_wf (backoffMgr c) →
  url_Parse (URL_String (URL_of r)) = inr host → url_Parse (URL_String u) = inr hostu →
  (∀ ans c',
     leaves c (pause (backoffMgr c) (delay (backoffMgr c) (Host host))
               ++ [ESend (negb (has_client r)) req ans]) (opened ans) c' →
     updated (Host hostu) (response_code ans) (backoffMgr c) (backoffMgr c') →
     returns (k ans) c' Q) →
  returns (d ← on_backoffMgr (CalculateBackoff (URL_of r));
           on_backoffMgr (Backoff_Sleep d) ;;
           resp ← client_Do r req;
           on_backoffMgr (UpdateBackoff u (is_error resp) (response_code resp)) ;;
           k resp) c Q.
Proof.
  intros Hwf Hhost Hhostu Hk.
  apply post_bind, on_backoffMgr_post.
  eapply post_run; [by apply CalculateBackoff_spec|]. cbn. replace (mkConn _ _ _ _) with c by by destruct c.
  apply post_bind. eapply post_weaken; [apply Backoff_Sleep_leaves| |done]. intros ? c1 [H1 Hm1].
  apply post_bind. eapply post_weaken; [apply client_Do_leaves| |done]. intros ans c2 [H2 Hm2].
  apply post_bind. eapply post_weaken; [apply (UpdateBackoff_leaves u hostu)| |done]; [congruence|done|].
  intros ? c3 [H3 Hm3]. apply Hk; [|congruence].
  pose proof (leaves_trans _ _ _ _ _ _ _ H1 (leaves_trans _ _ _ _ _ _ _ H2 H3)) as Hc.
  by rewrite app_nil_r, Z.add_0_r in Hc.
Qed.

(** The function of the loop that closes the body: it waits, or has the result. *)
Lemma close_returns {A} (a : A) resp retries (c : conn) :
  returns (deferred close_body (
    match checkWait resp with
    | Some seconds =>
        if decide (retries < maxRetries)%nat then
          on_backoffMgr (Backoff_Sleep (wrap64 (wrap64 seconds * Second))) ;; mret None
        else mret (Some a)
    | None => mret (Some a)
    end)) c
    (λ done c', backoffMgr c' = backoffMgr c ∧
       match done with
       | Some a' => a' = a ∧ (checkWait resp = None ∨ (maxRetries <= retries)%nat) ∧ leaves c [] (-1) c'
       | None => ∃ seconds, checkWait resp = Some seconds ∧ (retries < maxRetries)%nat ∧
                   leaves c (pause (backoffMgr c) (wrap64 (wrap64 seconds * Second))) (-1) c'
       end).
Proof.
  apply post_deferred.
  assert (∀ P : Prop, P → backoffMgr (close_body c) = backoffMgr c ∧ a = a ∧ P ∧ leaves c [] (-1) (close_body c)) as Hmret.
  { intros P HP. split_and!; [done..|]. by apply leaves_nil. }
  destruct (checkWait resp) as [seconds|] eqn:Hw; [|apply post_ret, Hmret; by left].
  destruct (decide _) as [Hr|Hr]; [|apply post_ret, Hmret; right; lia].
  apply post_bind. eapply post_weaken; [apply Backoff_Sleep_leaves| |done]. intros ? c1 [[Hl Ht Hb Hg] Hm].
  apply post_ret. split; [done|]. exists seconds. split_and!; [done..|]. split; cbn in *; [done..|lia|done].
Qed.

(** The request that is sent. *)
Definition http_of (r : Request) : http_request := mkHttpRequest (verb r) (URL_String (URL_of r)) (headers r).

Lemma http_NewRequest_ok r host :
  url_Parse (URL_String (URL_of r)) = inr host →
  http_NewRequest (verb r) (URL_String (URL_of r)) = inr (mkHttpRequest (verb r) (URL_String (URL_of r)) ∅).
Proof. unfold http_NewRequest. by intros ->. Qed.

(** The loop of a request with [n] retries left refines [attempts]. *)
Lemma request_loop_attempts {A} (fn : http_request → Response → A) r host n : ∀ retries (c : conn),
  (n + retries = 9)%nat → mgr_wf (backoffMgr c) → url_Parse (URL_String (URL_of r)) = inr host →
  returns (request_loop (S n) r fn retries) c (λ res c', ∃ evs ans,
    attempts (negb (has_client r)) (http_of r) (Host host) n (backoffMgr c) evs (backoffMgr c') ans ∧
    leaves c evs 0 c' ∧ res = match ans with inl e => inl e | inr resp => inr (fn (http_of r) resp) end).
Proof.
  induction n as [n IH] using (well_founded_induction lt_wf). intros retries c Hn Hwf Hhost.
  cbn [request_loop]. rewrite (http_NewRequest_ok r host) by done. cbn [Method URL_]. fold (http_of r).
  apply (post_attempt _ r _ host _ host); [done..|]. intros [e|resp] c1 H1 Hu.
  { apply post_ret. eexists _, (inl e). split_and!; [by constructor|done|done]. }
  apply post_bind. eapply post_weaken; [apply close_returns| |done].
  intros [a|] c2 [Hm2 H2]; cbn beta iota in H2.
  - destruct H2 as (-> & Hw & H2). apply post_ret. eexists _, (inr resp). rewrite Hm2. split_and!.
    + constructor; [done|]. destruct Hw; [by left|right; unfold maxRetries in *; lia].
    + pose proof (leaves_trans _ _ _ _ _ _ _ H1 H2) as H12. by rewrite app_nil_r in H12.
    + done.
  - destruct H2 as (seconds & Hw & Hr & H2). unfold maxRetries in Hr. destruct n as [|n]; [lia|].
    eapply post_weaken; [apply (IH n); [lia|lia| |done]| |done].
    { rewrite Hm2. by eapply updated_wf. }
    intros res c3 (evs & ans & Ha & H3 & ->). eexists _, ans. rewrite Hm2 in Ha. split_and!; [by eapply att_retry| |done].
    pose proof (leaves_trans _ _ _ _ _ _ _ H1 (leaves_trans _ _ _ _ _ _ _ H2 H3)) as Hc. by rewrite <-app_assoc in Hc.
Qed.

(** The wait for a token of the rate limiter. *)
Definition throttled (b b' : option Bucket) (evs : list event) : Prop :=
  match b with
  | None => b' = None ∧ evs = []
  | Some tb => ∃ now, b' = Some (Accept now tb).2 ∧
                 evs = if decide (0 < (Accept now tb).1) then [ESleep (Accept now tb).1] else []
  end.

Lemma throttled_sent b b' evs : throttled b b' evs → sent evs = [].
Proof. destruct b; [intros (now & _ & ->); by case_decide|by intros [_ ->]]. Qed.

Lemma tryThrottle_returns (c : conn) :
  returns tryThrottle c (λ _ c', ∃ evs, throttled (throttle c) (throttle c') evs ∧ log c' = log c ++ evs ∧
    backoffMgr c' = backoffMgr c ∧ open_bodies c' = open_bodies c).
Proof.
  unfold tryThrottle. apply post_bind. unfold post at 1, get. destruct (throttle c) as [tb|] eqn:Hb.
  - apply post_bind, post_zoom. eapply post_weaken; [apply (on_world_returns Now (λ _, True)), Now_returns| |done].
    intros now s1 [_ Hs1]. destruct (Accept now tb) as [d tb'] eqn:Hacc. apply post_bind, post_modify.
    case_decide as Hd.
    + apply post_zoom. eapply post_weaken; [apply logged_Sleep| |done]. intros ? s2 Hs2. cbn in Hs2.
      eexists. split; [|unfold log; cbn; rewrite Hs2, Hs1; done].
      exists now. rewrite Hacc. cbn. by rewrite decide_True.
    + apply post_ret. exists []. split; [|unfold log; cbn; by rewrite Hs1, app_nil_r].
      exists now. rewrite Hacc. cbn. by rewrite decide_False.
  - apply post_ret. exists []. by rewrite Hb, app_nil_r.
Qed.

(** The errors that [request] finds before it sends anything. *)
Definition early_error (r : Request) : option api_error :=
  match err r with
  | Some e => Some e
  | None =>
      if bool_decide (verb r ∈ ["GET"; "PUT"; "DELETE"]) && namespaceSet r
         && bool_decide (resourceName r ≠ "") && bool_decide (namespace r = "")
      then Some (Plain "an empty namespace may not be set when a resource name is provided")
      else if bool_decide (verb r = "POST") && namespaceSet r && bool_decide (namespace r = "")
      then Some (Plain "an empty namespace may not be set during creation")
      else match url_Parse (URL_String (URL_of r)) with inl msg => Some (Plain msg) | inr _ => None end
  end.

Lemma request_early {A} (fn : http_request → Response → A) r e (c : conn) :
  early_error r = Some e → request r fn c = Ret (inl e) c.
Proof.
  unfold early_error, request. destruct (err r); [by intros [= ->]|].
  destruct (_ && _ && _ && _); [by intros [= <-]|]. destruct (_ && _ && _); [by intros [= <-]|].
  unfold maxRetries. cbn [request_loop]. unfold http_NewRequest.
  destruct (url_Parse _); [by intros [= <-]|done].
Qed.
Lemma request_ready {A} (fn : http_request → Response → A) r :
  early_error r = None →
  ∃ host, url_Parse (URL_String (URL_of r)) = inr host ∧ (request r fn : M conn _) = request_loop 10 r fn 0.
Proof.
  unfold early_error, request. destruct (err r); [done|].
  destruct (_ && _ && _ && _); [done|]. destruct (_ && _ && _); [done|].
  destruct (url_Parse _) as [|host]; [done|]. eauto.
Qed.

Lemma Do_refines r (c : conn) :
  mgr_wf (backoffMgr c) →
  returns (Do r) c (λ res c', ∃ wait evs,
    throttled (throttle c) (throttle c') wait ∧ log c' = log c ++ wait ++ evs ∧
    open_bodies c' = open_bodies c ∧ Forall (λ s, good s.2) (sent evs) ∧
    match early_error r with
    | Some e => evs = [] ∧ backoffMgr c' = backoffMgr c ∧ res = error_Result e
    | None => ∃ host ans, url_Parse (URL_String (URL_of r)) = inr host ∧
        attempts (negb (has_client r)) (http_of r) (Host host) 9 (backoffMgr c) evs (backoffMgr c') ans ∧
        res = match ans with inl e => error_Result e | inr resp => transformResponse r (http_of r) resp end
    end).
Proof.
  intros Hwf. unfold Do. apply post_bind. eapply post_weaken; [apply tryThrottle_returns| |done].
  intros ? c1 (wait & Hw & Hl & Hm & Hb). apply post_bind. destruct (early_error r) as [e|] eqn:He.
  - eapply post_run; [by apply request_early|]. apply post_ret. exists wait, []. by rewrite app_nil_r.
  - destruct (request_ready (transformResponse r) r He) as (host & Hhost & ->).
    eapply post_weaken; [apply (request_loop_attempts _ r host 9); [lia|congruence|done]| |done].
    intros res c2 (evs & ans & Ha & [Hl2 Ht2 Hb2 Hg2] & ->). rewrite Hm in Ha.
    destruct ans; apply post_ret; exists wait, evs; (split_and!; [congruence| |lia|done|by eauto 10]); by rewrite Hl2, Hl, app_assoc.
Qed.

(** What [Watch] opens, and what a stream that is refused ends with. *)
Definition watch_result (r : Request) (req : http_request) (ans : api_error + Response)
    : api_error + watch_interface :=
  match ans with
  | inl e => if IsProbableEOF e then inr EmptyWatch else inl e
  | inr resp =>
      if decide (StatusCode resp = 200) then inr (StreamWatch resp)
      else inl (default (Plain ("for request '" +:+ URL_ req +:+ "', got status: " +:+ pretty (StatusCode resp)))
                  (res_err (transformResponse r req resp)))
  end.
Definition open_streams (w : api_error + watch_interface) : Z :=
  match w with inr (StreamWatch _) => 1 | _ => 0 end.

(** Results that are chosen at the end. *)
Lemma mret_if {S A} (b : bool) (x y : A) :
  (if b then mret x else mret y : M S A) = mret (if b then x else y).
Proof. by destruct b. Qed.
Lemma mret_option {S A B} (o : option A) (f : A → B) (y : A) :
  (match o with Some x => mret (f x) | None => mret (f y) end : M S B) = mret (f (default y o)).
Proof. by destruct o. Qed.

Lemma Watch_returns r u host hostu (c : conn) :
  err r = None → baseURL r = Some u → mgr_wf (backoffMgr c) →
  url_Parse (URL_String (URL_of r)) = inr host → url_Parse (URL_String u) = inr hostu →
  let req := mkHttpRequest (verb r) (URL_String (URL_of r)) ∅ in
  returns (Watch r) c (λ res c', ∃ ans,
    good ans ∧ res = watch_result r req ans ∧
    log c' = log c ++ pause (backoffMgr c) (delay (backoffMgr c) (Host host)) ++ [ESend (negb (has_client r)) req ans] ∧
    open_bodies c' = open_bodies c + open_streams res ∧ throttle c' = throttle c ∧
    updated (Host hostu) (response_code ans) (backoffMgr c) (backoffMgr c')).
Proof.
  intros He Hu Hwf Hhost Hhostu req. unfold Watch. rewrite He, (http_NewRequest_ok r host), Hu by done.
  apply (post_attempt _ r _ host u hostu); [done..|]. intros ans c1 [Hl Ht Hb Hg] Hm.
  rewrite sent_app, sent_pause in Hg. apply Forall_cons in Hg as [Hg _]. cbn in Hg.
  destruct ans as [e|resp]; cbn in Hb.
  - rewrite mret_if. exists (inl e). split_and!; [done..| |done|done].
    cbn. destruct (IsProbableEOF e); cbn; lia.
  - case_decide as Hc.
    + apply post_deferred. rewrite (mret_option _ inl). exists (inr resp). cbn [watch_result].
      rewrite decide_False by done. split_and!; [done..| |done|done]. cbn. lia.
    + exists (inr resp). cbn [watch_result]. rewrite decide_True by done.
      by split_and!.
Qed.

(** A request is made with a manager of its own, which knows of no overload. *)
Lemma Verb_returns rc v (c : conn) :
  returns (Verb rc v) c (λ r c',
    r = NewRequest (Client rc) v (Some (base rc)) (versionedAPIPath rc) (contentConfig rc) ∧
    mgr_wf (backoffMgr c') ∧ (∀ host, delay (backoffMgr c') host = 0) ∧
    log c' = log c ∧ throttle c' = throttle c ∧ open_bodies c' = open_bodies c).
Proof.
  unfold Verb, readExpBackoffConfig. apply post_bind, post_zoom. apply post_bind.
  eapply post_weaken; [apply (on_world_returns (Getenv _) (λ _, True)), Getenv_returns| |done].
  intros vb s1 [_ Hs1]. apply post_bind.
  eapply post_weaken; [apply (on_world_returns (Getenv _) (λ _, True)), Getenv_returns| |done].
  intros vd s2 [_ Hs2].
  assert (∀ m, mgr_wf m → (∀ host, delay m host = 0) → let c' := set_backoffMgr m (set_outside s2 c) in
    mgr_wf (backoffMgr c') ∧ (∀ host, delay (backoffMgr c') host = 0) ∧
    log c' = log c ∧ throttle c' = throttle c ∧ open_bodies c' = open_bodies c) as Hend.
  { intros m Hm Hd. split_and!; [done..| |done|done]. unfold log. cbn. congruence. }
  destruct (ParseInt vb 10) as [i [|]], (ParseInt vd 10) as [k [|]];
    apply post_ret, post_bind, post_modify; (split; [done|]); apply Hend; try done.
  apply NewBackOff_wf.
Qed.
End Sending.

Lemma attempts_first {gf : GoFormats} b req host n m evs m' ans :
  attempts b req host n m evs m' ans →
  ∃ ans1 evs', evs = pause m (delay m host) ++ ESend b req ans1 :: evs'.
Proof. destruct 1; eauto. Qed.

(** The calls that build a request. *)
Inductive builder_call : Type :=
| BPrefix (segments : list string) | BSuffix (segments : list string) | BResource (name : string)
| BSubResource (names : list string) | BName (name : string) | BNamespace (name : string) (scoped : bool)
| BAbsPath (segments : list string) | BRequestURI (uri : string) | BFields (s : option Selector)
| BUintParam (name : string) (u : N) | BParam (name value : string) | BVersioned (ps : string + Values)
| BTimeout (d : Duration).

(** [None] is the panic of [AbsPath]. *)
Definition build `{gf : GoFormats, !MapOrder} (call : builder_call) (r : Request) : option Request :=
  match call with
  | BPrefix segments => Some (Prefix segments r)
  | BSuffix segments => Some (Suffix segments r)
  | BResource name => Some (Resource name r)
  | BSubResource names => Some (SubResource names r)
  | BName name => Some (Name name r)
  | BNamespace name scoped => Some (NamespaceIfScoped name scoped r)
  | BAbsPath segments => AbsPath segments r
  | BRequestURI uri => Some (RequestURI uri r)
  | BFields s => Some (FieldsSelectorParam s r)
  | BUintParam name u => Some (UintParam name u r)
  | BParam name value => Some (Param name value r)
  | BVersioned ps => Some (VersionedParams ps r)
  | BTimeout d => Some (Timeout d r)
  end.
Fixpoint build_all `{gf : GoFormats, !MapOrder} (calls : list builder_call) (r : Request) : option Request :=
  match calls with
  | [] => Some r
  | call :: calls => build call r ≫= build_all calls
  end.

(** The default environment gives no backoff manager. *)
Lemma Verb_default `{gf : GoFormats, !Codec obj, !Outside W} rc v (c : conn (W * list event)) :
  (∀ key (w : W), returns (Getenv key) w (λ value _, value = "")) →
  returns (Verb rc v) c (λ r c',
    r = NewRequest (Client rc) v (Some (base rc)) (versionedAPIPath rc) (contentConfig rc) ∧
    backoffMgr c' = NoBackoff ∧ log c' = log c ∧ throttle c' = throttle c).
Proof.
  intros Henv. unfold Verb, readExpBackoffConfig. apply post_bind, post_zoom. apply post_bind.
  eapply post_weaken; [apply (on_world_returns (Getenv _) (λ v, v = "")), Henv| |done].
  intros ? s1 [-> Hs1]. apply post_bind.
  eapply post_weaken; [apply (on_world_returns (Getenv _) (λ v, v = "")), Henv| |done].
  intros ? s2 [-> Hs2]. apply post_ret, post_bind, post_modify. split_and!; [done..| |done]. unfold log. cbn. congruence.
Qed.

(** An answer that asks for a retry is an error. *)
Lemma wants_retry_fails {gf : GoFormats} `{!Codec obj} r req resp :
  wants_retry (inr resp) → is_Some (res_err (transformResponse r req resp)).
Proof.
  intros [sec Hw]. unfold checkWait in Hw.
  assert (StatusCode resp = 429 ∨ 500 <= StatusCode resp) as Hc.
  { destruct (_ || _) eqn:Ho; [|done]. apply orb_true_iff in Ho. by rewrite !bool_decide_eq_true in Ho. }
  unfold transformResponse. rewrite (bool_decide_eq_true_2 (StatusCode resp ≠ 101)) by lia.
  rewrite (bool_decide_eq_true_2 (206 < StatusCode resp)) by lia. rewrite orb_true_r. cbn [andb].
  destruct (DecodeStatus _) as [|st]; [by eexists|]. destruct (decide (st_Status st = "")); by eexists.
Qed.

Ltac kinds := cbn; split_and!; first [done|by rewrite !decide_False by (intros [|]; first [discriminate|lia])|split; intros; first [discriminate|lia|tauto|naive_solver]].

(** The reason of a code, and what the predicates make of it. *)
Lemma generic_kinds {gf : GoFormats} code verb gr name message seconds :
  let e := NewGenericServerResponse code verb gr name message seconds true in
  IsUnexpectedServerError e = true ∧
  (IsBadRequest e = true ↔ code = 400) ∧ (IsUnauthorized e = true ↔ code = 401) ∧
  (IsForbidden e = true ↔ code = 403) ∧ (IsNotFound e = true ↔ code = 404) ∧
  (IsMethodNotSupported e = true ↔ code = 405) ∧
  (IsAlreadyExists e = true ↔ code = 409 ∧ verb = "POST") ∧
  (IsConflict e = true ↔ code = 409 ∧ verb ≠ "POST") ∧
  (IsInvalid e = true ↔ code = 422) ∧ (IsServerTimeout e = true ↔ code = 504) ∧
  SuggestsClientDelay e = (if decide (code = 429 ∨ code = 504) then (wrap32 seconds, true) else (0, false)).
Proof.
  intros e.
  assert (∃ msg, e = failure (wrap32 code) (generic_reason code verb).1 msg (Some (mkStatusDetails name (gr_Group gr)
    (gr_Resource gr) [mkStatusCause CauseTypeUnexpectedServerResponse message ""] (wrap32 seconds)))) as [msg ->].
  { unfold e, NewGenericServerResponse. destruct (generic_reason code verb) as [reason m]. by eexists. }
  unfold IsBadRequest, IsUnauthorized, IsForbidden, IsNotFound, IsMethodNotSupported, IsAlreadyExists,
    IsConflict, IsInvalid, IsServerTimeout. rewrite !bool_decide_eq_true. cbn [failure reasonForError Reason SuggestsClientDelay Details].
  unfold generic_reason, StatusUnprocessableEntity, StatusServerTimeout, StatusTooManyRequests.
  split; [done|].
  destruct (decide (code = 409)) as [->|].
  { destruct (decide (verb = "POST")); kinds. }
  destruct (decide (code = 404)) as [->|]; [kinds|]. destruct (decide (code = 400)) as [->|]; [kinds|].
  destruct (decide (code = 401)) as [->|]; [kinds|]. destruct (decide (code = 403)) as [->|]; [kinds|].
  destruct (decide (code = 405)) as [->|]; [kinds|]. destruct (decide (code = 422)) as [->|]; [kinds|].
  destruct (decide (code = 504)) as [->|]; [kinds|]. destruct (decide (code = 429)) as [->|]; [kinds|].
  destruct (decide (500 <= code)); kinds.
Qed.

(** * Properties of requests *)
Section Properties.
Context {gf : GoFormats} {obj : Type} `{!Codec obj} {W : Type} `{!Outside W}.
Local Abbreviation conn := (conn (W * list event)).

(** C16: [Do], for every outside that answers: it takes at most one token of the rate
    limiter, and sends nothing when the request has an error; otherwise it sends one and
    the same request up to ten times, again only after an answer (429 or a server error)
    with a [Retry-After], with the pauses of the backoff manager between; every body is
    closed, and the result is that of the last answer. *)
Theorem Do_correct good `{!Responsive W good} (r : Request) (c : conn) :
  mgr_wf (backoffMgr c) →
  returns (Do r) c (λ res c', ∃ wait evs,
    throttled (throttle c) (throttle c') wait ∧ log c' = log c ++ wait ++ evs ∧ open_bodies c' = open_bodies c ∧
    match early_error r with
    | Some e => evs = [] ∧ res = error_Result e
    | None => ∃ host waits ans,
        let send w := (negb (has_client r), http_of r, w) in
        url_Parse (URL_String (URL_of r)) = inr host ∧
        attempts (negb (has_client r)) (http_of r) (Host host) 9 (backoffMgr c) evs (backoffMgr c') ans ∧
        sent evs = (send <$> waits) ++ [send ans] ∧ Forall wants_retry waits ∧ (length waits <= 9)%nat ∧
        (wants_retry ans → length waits = 9%nat) ∧
        res = match ans with inl e => error_Result e | inr resp => transformResponse r (http_of r) resp end
    end).
Proof.
  intros Hwf. eapply post_weaken; [by apply Do_refines| |done].
  intros res c' (wait & evs & Hw & Hl & Hb & _ & Hr). exists wait, evs. split_and!; [done..|].
  destruct (early_error r); [by destruct Hr as (? & _ & ?)|]. destruct Hr as (host & ans & Hh & Ha & Hres).
  destruct (attempts_sent _ _ _ _ _ _ _ _ Ha) as (waits & ? & ? & ? & ?). by exists host, waits, ans.
Qed.

(** An error of the calls that build a request stays through every later call, and
    [DoRaw], [Watch] and [Stream] report it, as [Do] does, without sending anything. *)
Theorem builder_error_kept `{!MapOrder} (e : api_error) (r : Request) (calls : list builder_call) status_line (c : conn) :
  err r = Some e →
  build_all calls r = Some r ∧ early_error r = Some e ∧
  Watch r c = Ret (inl e) c ∧ Stream status_line r c = Ret (inl e) c ∧
  (∀ A (fn : http_request → Response → A), request r fn c = Ret (inl e) c).
Proof.
  intros He. split_and!.
  - induction calls as [|call calls IH]; [done|]. cbn [build_all].
    assert (build call r = Some r) as ->; [|done].
    destruct call; cbn; unfold Prefix, Suffix, Resource, SubResource, Name, NamespaceIfScoped, Namespace, AbsPath,
      RequestURI, FieldsSelectorParam, UintParam, Param, VersionedParams, Timeout; rewrite He; [done..| |done|done|done|done|done|done|done].
    by destruct scoped.
  - unfold early_error. by rewrite He.
  - unfold Watch. by rewrite He.
  - unfold Stream. by rewrite He.
  - intros A fn. unfold request. by rewrite He.
Qed.

(** With the environment that the program has by default, no backoff manager is at
    work: a server that is overloaded and asks for every request to be sent again later
    gets it ten times in a row, without a pause. *)
Theorem Retry_After_not_honoured `{!Responsive W wants_retry} (rc : RESTClient) (v : string)
    (modify_request : Request → Request) (c : conn) :
  let r := modify_request (NewRequest (Client rc) v (Some (base rc)) (versionedAPIPath rc) (contentConfig rc)) in
  (∀ key w, returns (Getenv key) w (λ value _, value = "")) →
  early_error r = None → throttle c = None →
  returns (r0 ← Verb rc v; Do (modify_request r0)) c (λ res c', ∃ answers,
    log c' = log c ++ (ESend (negb (has_client r)) (http_of r) <$> answers) ∧
    length answers = 10%nat ∧ is_Some (res_err res)).
Proof.
  intros r Henv He Ht. apply post_bind.
  eapply post_weaken; [apply (Verb_default rc v c Henv)| |done].
  intros ? c1 (-> & Hm & Hl & Ht1). fold r.
  eapply post_weaken; [apply Do_refines; by rewrite Hm| |done].
  intros res c2 (wait & evs & Hw & Hl2 & _ & Hgood & Hres). rewrite Ht1, Ht in Hw. destruct Hw as [_ ->].
  rewrite He in Hres. destruct Hres as (host & ans & _ & Ha & ->). rewrite Hm in Ha.
  destruct (attempts_sent _ _ _ _ _ _ _ _ Ha) as (waits & Hs & _ & _ & Hlen).
  destruct (attempts_NoBackoff _ _ _ _ _ _ _ Ha) as [_ Hsl%no_sleeps].
  rewrite Hs in Hgood. apply Forall_app in Hgood as [_ [Hans _]%Forall_cons]. cbn in Hans.
  exists (waits ++ [ans]). split_and!.
  - rewrite Hl2, Hl. cbn. f_equal. rewrite Hsl, Hs, !fmap_app. f_equal. rewrite <-list_fmap_compose. done.
  - rewrite length_app, (Hlen Hans). done.
  - destruct ans as [e|resp]; [by eexists|]. by apply wants_retry_fails.
Qed.

(** Backoff does not build up from one request to the next: each request gets a
    manager of its own, so however often the server has answered that it is overloaded,
    the next request is sent with no delay. *)
Theorem backoff_starts_afresh good `{!Responsive W good} (rc : RESTClient) (v : string)
    (modify_request : Request → Request) (c : conn) :
  throttle c = None →
  returns (r ← Verb rc v; Do (modify_request r)) c (λ _ c',
    log c' = log c ∨
    ∃ m b req ans evs, log c' = log c ++ pause m 0 ++ ESend b req ans :: evs).
Proof.
  intros Ht. apply post_bind. eapply post_weaken; [apply Verb_returns| |done].
  intros r c1 (_ & Hwf & Hd & Hl & Ht1 & _).
  eapply post_weaken; [by apply Do_refines| |done].
  intros res c2 (wait & evs & Hw & Hl2 & _ & _ & Hres). rewrite Ht1, Ht in Hw. destruct Hw as [_ ->].
  rewrite Hl2, Hl. destruct (early_error _).
  - destruct Hres as (-> & _). left. by rewrite !app_nil_r.
  - destruct Hres as (host & ans & _ & Ha & _). right.
    destruct (attempts_first _ _ _ _ _ _ _ _ Ha) as (ans1 & evs' & ->). rewrite Hd. by eexists _, _, _, _, _.
Qed.

(** C25: [Watch] sends one request, without asking the rate limiter and without the headers
    of the request; the body stays open exactly when a stream is returned; a connection
    that was closed counts as a watch without events. *)
Theorem Watch_correct good `{!Responsive W good} (r : Request) (u host hostu : URL) (c : conn) :
  err r = None → baseURL r = Some u → mgr_wf (backoffMgr c) →
  url_Parse (URL_String (URL_of r)) = inr host → url_Parse (URL_String u) = inr hostu →
  let req := mkHttpRequest (verb r) (URL_String (URL_of r)) ∅ in
  returns (Watch r) c (λ res c', ∃ ans,
    good ans ∧ res = watch_result r req ans ∧
    log c' = log c ++ pause (backoffMgr c) (delay (backoffMgr c) (Host host)) ++ [ESend (negb (has_client r)) req ans] ∧
    open_bodies c' = open_bodies c + open_streams res ∧ throttle c' = throttle c ∧
    updated (Host hostu) (response_code ans) (backoffMgr c) (backoffMgr c')).
Proof. apply Watch_returns. Qed.

(** The error of an answer that is not a [Status] tells the kind of the failure by the
    code of the answer, and hints at a delay for the codes 429 and 504. *)
Theorem response_error_kinds (r : Request) (req : http_request) (resp : Response) :
  let body := match body_err resp with None => Body resp | Some _ => "" end in
  ¬ (200 <= StatusCode resp <= 206) → StatusCode resp ≠ 101 →
  (∀ st, DecodeStatus body = inr st → st_Status st = "") →
  ∃ e, transformResponse r req resp = error_Result e ∧
    IsUnexpectedServerError e = true ∧
    (IsBadRequest e = true ↔ StatusCode resp = 400) ∧
    (IsUnauthorized e = true ↔ StatusCode resp = 401) ∧
    (IsForbidden e = true ↔ StatusCode resp = 403) ∧
    (IsNotFound e = true ↔ StatusCode resp = 404) ∧
    (IsMethodNotSupported e = true ↔ StatusCode resp = 405) ∧
    (IsAlreadyExists e = true ↔ StatusCode resp = 409 ∧ Method req = "POST") ∧
    (IsConflict e = true ↔ StatusCode resp = 409 ∧ Method req ≠ "POST") ∧
    (IsInvalid e = true ↔ StatusCode resp = 422) ∧
    (IsServerTimeout e = true ↔ StatusCode resp = 504) ∧
    SuggestsClientDelay e =
      (if decide (StatusCode resp = 429 ∨ StatusCode resp = 504)
       then (wrap32 (default 0 (retryAfterSeconds resp)), true) else (0, false)).
Proof.
  intros body Hcode H101 Hst. exists (transformUnstructuredResponseError r resp req
    (match body_err resp with None => Some (Body resp) | Some _ => None end)). split.
  - unfold transformResponse. replace (default "" _) with body by (unfold body; by destruct (body_err resp)).
    rewrite (bool_decide_eq_true_2 (StatusCode resp ≠ 101)) by done. cbn [andb].
    replace (bool_decide (StatusCode resp < 200) || bool_decide (206 < StatusCode resp)) with true
      by (symmetry; apply orb_true_iff; rewrite !bool_decide_eq_true; lia).
    destruct (DecodeStatus body) as [|st]; [done|]. by rewrite decide_True by by apply Hst.
  - unfold transformUnstructuredResponseError. apply generic_kinds.
Qed.
End Properties.

(** * Witnesses *)
Section Witnesses.
#[local] Existing Instances plain_formats order_up.

(** A codec that knows no object. *)
#[local] Instance no_codec : Codec string :=
  {| Decode s := inr s; DecodeStatus _ := inl "not a Status"; AsStatus _ := None; ParseMediaType s := Some s |}.

(** A server that is always busy. *)
Definition busy : Response := mkResponse 429 {["Retry-After" := "5"]} "slow down" None.
#[local] Instance unit_clock : Clock unit := {| Now := mret 0; Sleep _ := mret tt |}.
#[local] Instance busy_world : Outside unit :=
  {| outside_clock := unit_clock; Getenv _ := mret ""; http_Do _ _ := mret (inr busy) |}.
#[local] Instance busy_responds : Responsive unit wants_retry.
Proof. split; intros; try done. exists 5. vm_compute. reflexivity. Qed.

Definition master : RESTClient :=
  NewRESTClient (mkURL "http" "" None "master:8080" "" "" "" "") "/api/v1" (mkContentConfig "" (mkGroupVersion "" "v1")) None true.
Definition start : conn (unit * list event) := mkConn (tt, []) NoBackoff None 0.
Definition list_services (r : Request) : Request := Resource "services" (Namespace "" r).
Definition services_request : Request :=
  list_services (NewRequest (Client master) "GET" (Some (base master)) (versionedAPIPath master) (contentConfig master)).

Example services_url : URL_String (URL_of services_request) = "http://master:8080/api/v1/services".
Proof. vm_compute. reflexivity. Qed.

Lemma Retry_After_not_honoured_witness :
  returns (r0 ← Verb master "GET"; Do (list_services r0)) start (λ res c', ∃ answers,
    log c' = log start ++ (ESend (negb (has_client services_request)) (http_of services_request) <$> answers) ∧
    length answers = 10%nat ∧ is_Some (res_err res)).
Proof.
  apply (Retry_After_not_honoured master "GET" list_services start); [done|vm_compute; reflexivity|done].
Defined.
Lemma Do_correct_witness :
  returns (Do services_request) start (λ res c', ∃ wait evs,
    throttled None (throttle c') wait ∧ log c' = [] ++ wait ++ evs ∧ open_bodies c' = 0 ∧
    ∃ waits ans,
        let send w := (false, http_of services_request, w) in
        sent evs = (send <$> waits) ++ [send ans] ∧ Forall wants_retry waits ∧ (length waits <= 9)%nat).
Proof.
  eapply post_weaken; [apply (Do_correct _ services_request start I)| |done].
  intros res c' (wait & evs & Hw & Hl & Hb & Hrest). exists wait, evs. split_and!; [done..|].
  replace (early_error services_request) with (@None api_error) in Hrest by (vm_compute; reflexivity).
  destruct Hrest as (host & waits & ans & _ & _ & Hs & Hf & Hn & _). by exists waits, ans.
Defined.
Lemma builder_error_kept_witness (c := start) :
  Watch (Resource "a/b" services_request) c =
  Ret (inl (Plain "resource already set to 'services', cannot change to 'a/b'")) c.
Proof. refine (proj1 (proj2 (proj2 (builder_error_kept _ _ [] (λ _, "") c _)))). vm_compute. reflexivity. Defined.
Lemma backoff_starts_afresh_witness :
  returns (r ← Verb master "GET"; Do (list_services r)) start (λ _ c', log c' = log start ∨
    ∃ m b req ans evs, log c' = log start ++ pause m 0 ++ ESend b req ans :: evs).
Proof. by apply (backoff_starts_afresh wants_retry master "GET" list_services start). Defined.
Lemma Watch_correct_witness (req := mkHttpRequest "GET" "http://master:8080/api/v1/services" ∅) :
  returns (Watch services_request) start (λ res c', ∃ ans,
    wants_retry ans ∧ res = watch_result services_request req ans ∧ log c' = [ESend false req ans]).
Proof.
  eapply post_weaken; [apply (Watch_correct wants_retry services_request (base master)
    (mkURL "http" "" None "master:8080" "/api/v1/services" "" "" "") (base master) start); try done; vm_compute; reflexivity| |done].
  intros res c' (ans & Hg & Hres & Hl & _). by exists ans.
Defined.
Lemma response_error_kinds_witness :
  ∃ e, transformResponse services_request (http_of services_request) busy = error_Result e ∧
    SuggestsClientDelay e = (5, true).
Proof.
  destruct (response_error_kinds services_request (http_of services_request) busy) as
    (e & He & _ & _ & _ & _ & _ & _ & _ & _ & _ & _ & Hd); [cbn; lia|done|by intros|].
  exists e. split; [exact He|]. rewrite Hd. vm_compute. reflexivity.
Defined.
End Witnesses.
