(* ===== verification/StreamWatcher.v ===== *)
(** [watch/iowatcher.go], [watch/json/decoder.go] and [watch/watch.go] of the vendored
    Kubernetes code: the goroutine that turns the body of a watch's response into the
    channel of events that a reflector reads.

    A [StreamWatcher] is shared by the goroutine of [receive], the readers of its channel
    and the callers of [Stop].  A step is what one of them does at once: a method that
    holds the lock, an operation on the channel, a call of the decoder.  The channel has
    no buffer, so a send and its receive are one step.  The history of what was read and
    received is kept with the state. *)

From stdpp Require Import strings list.
From S2P Require Import Prelude GoStrings Types ApiErrors Request.

Local Open Scope Z_scope.

(** * watch/json/decoder.go *)

(** [watch.EventType] as it is on the wire. *)
Definition event_type (text : string) : option EventType :=
  if decide (text = "ADDED") then Some Added
  else if decide (text = "MODIFIED") then Some Modified
  else if decide (text = "DELETED") then Some Deleted
  else if decide (text = "ERROR") then Some Error
  else None.

Section StreamWatcher.
Context {obj : Type} `{!Codec obj}.

(** What [encoding/json] reads: an error, or the type and the raw object of a
    [WatchEvent]. *)
Definition reading : Type := api_error + (string * string).
Definition event : Type := EventType * obj.

(** [Decoder.Decode]. *)
Definition Decode_event (got : reading) : api_error + event :=
  match got with
  | inl err => inl err
  | inr (type, raw) =>
      match event_type type with
      | None => inl (Plain ("got invalid watch event type: " +:+ type))
      | Some t =>
          match Decode raw with
          | inl err => inl (Plain ("unable to decode watch event: " +:+ err))
          | inr o => inr (t, o)
          end
      end
  end.

(** * watch/iowatcher.go *)

(** Where the goroutine of [receive] is: in [Decode], at the send of an event, behind an
    error, at the deferred [Stop] and [close], and at its end. *)
Inductive location : Type :=
| AtDecode | AtSend (ev : event) | AtError (err : api_error) | AtStop | AtClose | AtEnd.

Record StreamWatcher := mkStreamWatcher {
  at_ : location;
  stopped : bool;
  input : list reading;      (* what the source has to give *)
  closes : nat;              (* the calls of [source.Close] *)
  result_closes : nat;       (* the closes of [result] *)
  reports : list api_error;  (* the errors in the log at its highest level *)
  seen : list reading;       (* what has been decoded *)
  received : list event      (* what has gone through [result] *)
}.

Definition goto p (s : StreamWatcher) := mkStreamWatcher p (stopped s) (input s) (closes s)
  (result_closes s) (reports s) (seen s) (received s).
Definition set_input l (s : StreamWatcher) := mkStreamWatcher (at_ s) (stopped s) l (closes s)
  (result_closes s) (reports s) (seen s) (received s).
Definition set_seen x (s : StreamWatcher) := mkStreamWatcher (at_ s) (stopped s) (input s) (closes s)
  (result_closes s) (reports s) (seen s ++ [x]) (received s).
Definition set_received ev (s : StreamWatcher) := mkStreamWatcher (at_ s) (stopped s) (input s) (closes s)
  (result_closes s) (reports s) (seen s) (received s ++ [ev]).
Definition report err (s : StreamWatcher) := mkStreamWatcher (at_ s) (stopped s) (input s) (closes s)
  (result_closes s) (reports s ++ [err]) (seen s) (received s).
Definition close_result (s : StreamWatcher) := mkStreamWatcher (at_ s) (stopped s) (input s) (closes s)
  (S (result_closes s)) (reports s) (seen s) (received s).

(** [NewStreamWatcher], for a source that has the readings [l]. *)
Definition NewStreamWatcher (l : list reading) : StreamWatcher := mkStreamWatcher AtDecode false l 0 0 [] [] [].

Definition Stop (s : StreamWatcher) : StreamWatcher :=
  if stopped s then s
  else mkStreamWatcher (at_ s) true (input s) (S (closes s)) (result_closes s) (reports s) (seen s) (received s).
Definition stopping (s : StreamWatcher) : bool := stopped s.

(** The steps.  A closed source may give an error at any time. *)
Inductive label : Type :=
| Arrive (x : reading)          (* the source gets more *)
| DecodeNext | DecodeClosed (err : api_error) | DecodePanic
| HandleError | DeferredStop | DeferredClose
| Receive                       (* a reader takes the event *)
| CallStop.                     (* [Stop], from any goroutine *)

(** What [receive] does with an error of the source. *)
Definition handle_error (err : api_error) (s : StreamWatcher) : StreamWatcher :=
  if stopping s then s
  else match err with
       | NetError io_EOF | NetError io_ErrUnexpectedEOF => s
       | _ => if IsProbableEOF err then s else report err s
       end.

Definition step (l : label) (s : StreamWatcher) : option StreamWatcher :=
  match l, at_ s with
  | Arrive x, _ => Some (set_input (input s ++ [x]) s)
  | CallStop, _ => Some (Stop s)
  | DecodeNext, AtDecode =>
      match input s with
      | [] => None
      | x :: rest =>
          let s := set_seen x (set_input rest s) in
          match Decode_event x with
          | inl err => Some (goto (AtError err) s)
          | inr ev => Some (goto (AtSend ev) s)
          end
      end
  | DecodeClosed err, AtDecode => if decide (closes s = 0%nat) then None else Some (goto (AtError err) s)
  | DecodePanic, AtDecode => Some (goto AtStop s)
  | Receive, AtSend ev => Some (goto AtDecode (set_received ev s))
  | HandleError, AtError err => Some (goto AtStop (handle_error err s))
  | DeferredStop, AtStop => Some (goto AtClose (Stop s))
  | DeferredClose, AtClose => Some (goto AtEnd (close_result s))
  | _, _ => None
  end.

Fixpoint exec (ls : list label) (s : StreamWatcher) : option StreamWatcher :=
  match ls with
  | [] => Some s
  | l :: ls => step l s ≫= exec ls
  end.

(** * Properties *)

Definition decoded (l : list reading) : list event :=
  omap (λ x, match Decode_event x with inr ev => Some ev | inl _ => None end) l.
Definition pending (s : StreamWatcher) : list event := match at_ s with AtSend ev => [ev] | _ => [] end.

(** What holds whenever the goroutines have got somewhere. *)
Record watcher_ok (s : StreamWatcher) : Prop := {
  wo_events : decoded (seen s) = received s ++ pending s;
  wo_closes : closes s = if stopped s then 1%nat else 0%nat;
  wo_result : result_closes s = match at_ s with AtEnd => 1%nat | _ => 0%nat end;
  wo_stopped : match at_ s with AtClose | AtEnd => stopped s = true | _ => True end
}.

Lemma decoded_app l l' : decoded (l ++ l') = decoded l ++ decoded l'.
Proof. apply omap_app. Qed.

Lemma New_ok l : watcher_ok (NewStreamWatcher l).
Proof. by split. Qed.

Lemma Stop_ok s : watcher_ok s → watcher_ok (Stop s) ∧ stopped (Stop s) = true.
Proof.
  intros [He Hc Hr Hs]. unfold Stop. destruct (stopped s) eqn:E; [by repeat split; rewrite ?E|].
  split; [|done]. split; cbn; [exact He|by rewrite Hc|exact Hr|by destruct (at_ s)].
Qed.
Lemma handle_error_ok err s : watcher_ok s → watcher_ok (handle_error err s).
Proof. intros Hok. unfold handle_error. repeat case_match; [exact Hok|by destruct Hok..]. Qed.
Lemma handle_error_at err s : at_ (handle_error err s) = at_ s.
Proof. unfold handle_error. by repeat case_match. Qed.

Lemma step_ok l s s' : watcher_ok s → step l s = Some s' → watcher_ok s'.
Proof.
  intros Hok Hs. pose proof Hok as [He Hc Hr Hst]. unfold pending in He.
  destruct l as [x| |err| | | | | |]; unfold step in Hs.
  - injection Hs as <-. by split.
  - destruct (at_ s) eqn:Hat; try done. destruct (input s) as [|x rest]; [done|].
    destruct (Decode_event x) as [err|ev] eqn:Hx; injection Hs as <-; split; cbn; try done;
      rewrite decoded_app, He, app_nil_r; cbn; by rewrite Hx, ?app_nil_r.
  - destruct (at_ s) eqn:Hat; try done. case_decide; [done|]. injection Hs as <-. by split.
  - destruct (at_ s) eqn:Hat; try done. injection Hs as <-. by split.
  - destruct (at_ s) as [| |err| | |] eqn:Hat; try done. injection Hs as <-.
    destruct (handle_error_ok err s Hok) as [He' Hc' Hr' _]. unfold pending in He'. rewrite handle_error_at, Hat in *.
    by split.
  - destruct (at_ s) eqn:Hat; try done. injection Hs as <-. destruct (Stop_ok s Hok) as [[He' Hc' Hr' _] Hst'].
    unfold pending in *. replace (at_ (Stop s)) with (at_ s) in * by (unfold Stop; by destruct (stopped s)).
    rewrite Hat in *. by split.
  - destruct (at_ s) eqn:Hat; try done. injection Hs as <-. split; cbn; [done|done|by rewrite Hr|done].
  - destruct (at_ s) as [|ev| | | |] eqn:Hat; try done. injection Hs as <-. split; cbn; [by rewrite app_nil_r|done..].
  - injection Hs as <-. by apply Stop_ok.
Qed.
Lemma exec_ok ls : ∀ s s', watcher_ok s → exec ls s = Some s' → watcher_ok s'.
Proof.
  induction ls as [|l ls IH]; intros s s' Hok; cbn [exec]; [by intros [= <-]|].
  intros (s1 & H1 & H2)%bind_Some. eauto using step_ok.
Qed.

(** What the source has given and has left is what it had and what arrived. *)
Definition arrivals (ls : list label) : list reading :=
  omap (λ l, match l with Arrive x => Some x | _ => None end) ls.
Lemma Stop_source s : seen (Stop s) = seen s ∧ input (Stop s) = input s.
Proof. unfold Stop. by destruct (stopped s). Qed.
Lemma handle_error_source err s : seen (handle_error err s) = seen s ∧ input (handle_error err s) = input s.
Proof. unfold handle_error. by repeat case_match. Qed.
Lemma step_source l s s' : step l s = Some s' → seen s' ++ input s' = seen s ++ input s ++ arrivals [l].
Proof.
  intros Hs. destruct (Stop_source s) as [HSs HSi].
  destruct l as [x| |err| | | | | |]; unfold step in Hs; cbn [arrivals omap list_omap]; rewrite ?app_nil_r.
  - by injection Hs as <-.
  - destruct (at_ s); try done. destruct (input s) as [|x rest]; [done|].
    destruct (Decode_event x); injection Hs as <-; cbn; by rewrite <-app_assoc.
  - destruct (at_ s); try done. case_decide; [done|]. by injection Hs as <-.
  - destruct (at_ s); try done. by injection Hs as <-.
  - destruct (at_ s) as [| |err| | |]; try done. injection Hs as <-. cbn.
    by destruct (handle_error_source err s) as [-> ->].
  - destruct (at_ s); try done. injection Hs as <-. cbn. by rewrite HSs, HSi.
  - destruct (at_ s); try done. by injection Hs as <-.
  - destruct (at_ s); try done. by injection Hs as <-.
  - injection Hs as <-. by rewrite HSs, HSi.
Qed.
Lemma exec_source ls : ∀ s s', exec ls s = Some s' → seen s' ++ input s' = seen s ++ input s ++ arrivals ls.
Proof.
  induction ls as [|l ls IH]; intros s s'; cbn [exec]; [intros [= <-]; cbn; by rewrite app_nil_r|].
  intros (s1 & H1 & H2)%bind_Some. rewrite (IH _ _ H2), app_assoc, (step_source _ _ _ H1), <-!app_assoc.
  f_equal. f_equal. change (l :: ls) with ([l] ++ ls). unfold arrivals. by rewrite omap_app.
Qed.

(** ** Termination of the goroutine

    The steps of the goroutine and of its readers; each one leaves less to do. *)
Definition internal (l : label) : bool := match l with Arrive _ | CallStop => false | _ => true end.
Definition todo (s : StreamWatcher) : nat :=
  2 * length (input s) +
  match at_ s with AtSend _ => 5 | AtDecode => 4 | AtError _ => 3 | AtStop => 2 | AtClose => 1 | AtEnd => 0 end.

Lemma internal_less l s s' : internal l = true → step l s = Some s' → (todo s' < todo s)%nat.
Proof.
  intros Hl Hs. unfold todo. destruct (Stop_source s) as [_ HSi].
  destruct l as [x| |err| | | | | |]; try done; unfold step in Hs; destruct (at_ s) as [|ev|err'| | |]; try done.
  - destruct (input s) as [|x rest]; [done|]. destruct (Decode_event x); injection Hs as <-; cbn; lia.
  - case_decide; [done|]. injection Hs as <-. cbn. lia.
  - injection Hs as <-. cbn. lia.
  - injection Hs as <-. cbn. destruct (handle_error_source err' s) as [_ ->]. lia.
  - injection Hs as <-. cbn. rewrite HSi. lia.
  - injection Hs as <-. cbn. lia.
  - injection Hs as <-. cbn. lia.
Qed.
Lemma internal_bounded ls : ∀ s s', forallb internal ls = true → exec ls s = Some s' →
  (length ls + todo s' <= todo s)%nat.
Proof.
  induction ls as [|l ls IH]; intros s s'; cbn [forallb exec]; [intros _ [= <-]; cbn; lia|].
  intros [Hl Hls]%andb_true_iff (s1 & H1 & H2)%bind_Some.
  pose proof (internal_less _ _ _ Hl H1). pose proof (IH _ _ Hls H2). cbn [length]. lia.
Qed.

(** A goroutine that has not ended can go on once its source is closed. *)
Lemma internal_progress s : closes s ≠ 0%nat → at_ s ≠ AtEnd → ∃ l, internal l = true ∧ is_Some (step l s).
Proof.
  intros Hc Hat. destruct (at_ s) as [|ev|err| | |] eqn:E; try done.
  - exists (DecodeClosed (NetError io_EOF)). unfold step. rewrite E, decide_False by done. split; [done|by eexists].
  - exists Receive. unfold step. rewrite E. split; [done|by eexists].
  - exists HandleError. unfold step. rewrite E. split; [done|by eexists].
  - exists DeferredStop. unfold step. rewrite E. split; [done|by eexists].
  - exists DeferredClose. unfold step. rewrite E. split; [done|by eexists].
Qed.

(** Being stopped, and being at a send that nobody receives, last. *)
Lemma Stop_at s : at_ (Stop s) = at_ s.
Proof. unfold Stop. by destruct (stopped s). Qed.
Lemma Stop_stopped s : stopped (Stop s) = true.
Proof. unfold Stop. by destruct (stopped s) eqn:E. Qed.
Lemma step_stopped l s s' : step l s = Some s' → stopped s = true → stopped s' = true.
Proof.
  intros Hs Hst. pose proof (Stop_stopped s) as HS.
  assert (∀ err, stopped (handle_error err s) = true) as He.
  { intros err. unfold handle_error, stopping. by rewrite Hst. }
  destruct l; unfold step in Hs; try (injection Hs as <-; done);
    destruct (at_ s); try done; try (injection Hs as <-; first [done|by apply He|by apply HS]).
  - destruct (input s); [done|]. by destruct (Decode_event _); injection Hs as <-.
  - case_decide; [done|]. by injection Hs as <-.
Qed.
Lemma stopped_kept ls : ∀ s s', exec ls s = Some s' → stopped s = true → stopped s' = true.
Proof.
  induction ls as [|l ls IH]; intros s s'; cbn [exec]; [by intros [= <-]|].
  intros (s1 & H1 & H2)%bind_Some. eauto using step_stopped.
Qed.
Lemma stuck_at_send l s s' ev : at_ s = AtSend ev → l ≠ Receive → step l s = Some s' → at_ s' = AtSend ev.
Proof.
  intros Hat Hl Hs. destruct l; unfold step in Hs; rewrite ?Hat in Hs; try done; injection Hs as <-.
  - done.
  - by rewrite Stop_at.
Qed.
Lemma stuck_run ls ev : ∀ s s', at_ s = AtSend ev → Receive ∉ ls → exec ls s = Some s' → at_ s' = AtSend ev.
Proof.
  induction ls as [|l ls IH]; intros s s' Hat Hr; cbn [exec]; [by intros [= <-]|].
  intros (s1 & H1 & H2)%bind_Some. apply not_elem_of_cons in Hr as [Hne Hr].
  eapply IH; [|done|done]. eapply stuck_at_send; eauto.
Qed.

(** C23: whatever the order in which the source, the goroutine, the readers and callers of
    [Stop] act: the readers get the events of the source that were decoded, in order, each
    once, but for the one at the send; the source is closed once, when the watcher is
    stopped, and the channel once, when the goroutine ends, after the source; and then
    every event that was decoded has been received. *)
Theorem StreamWatcher_correct (l : list reading) (ls : list label) (s : StreamWatcher) :
  exec ls (NewStreamWatcher l) = Some s →
  decoded (seen s) = received s ++ pending s ∧
  seen s ++ input s = l ++ arrivals ls ∧
  closes s = (if stopped s then 1%nat else 0%nat) ∧
  result_closes s = (match at_ s with AtEnd => 1%nat | _ => 0%nat end) ∧
  (result_closes s = 1%nat → stopped s = true ∧ received s = decoded (seen s)).
Proof.
  intros Hs. destruct (exec_ok _ _ _ (New_ok l) Hs) as [He Hc Hr Hst].
  split_and!; [done|by rewrite (exec_source _ _ _ Hs)|done|done|].
  unfold pending in He. destruct (at_ s); rewrite Hr; try done. intros _. split; [done|]. by rewrite He, app_nil_r.
Qed.

(** C24: a watcher that is stopped ends if its events are received: from then on the
    goroutine and the readers can do a bounded number of steps, and when they can do no
    more the goroutine has ended and the channel is closed. *)
Theorem stopped_watcher_ends (l : list reading) (ls ls' : list label) (s s' : StreamWatcher) :
  exec ls (NewStreamWatcher l) = Some s → stopped s = true →
  forallb internal ls' = true → exec ls' s = Some s' →
  (length ls' <= 2 * length (input s) + 5)%nat ∧
  ((∀ lb, internal lb = true → step lb s' = None) → at_ s' = AtEnd ∧ result_closes s' = 1%nat).
Proof.
  intros Hs Hst Hint Hs'.
  pose proof (exec_ok _ _ _ (New_ok l) Hs) as Hok. pose proof (exec_ok _ _ _ Hok Hs') as [_ Hc' Hr' _].
  split; [pose proof (internal_bounded _ _ _ Hint Hs'); unfold todo in *; destruct (at_ s); lia|].
  intros Hno. assert (at_ s' = AtEnd) as Hend.
  { destruct (at_ s') as [|ev|err| | |] eqn:E; try done; exfalso.
    all: destruct (internal_progress s') as (lb & Hl & Hsome);
      [rewrite Hc', (stopped_kept _ _ _ Hs' Hst); done|by rewrite E|rewrite (Hno _ Hl) in Hsome; by destruct Hsome]. }
  by rewrite Hr', Hend.
Qed.

(** [Stop] alone does not end it: as long as nobody receives, a goroutine that is at the
    send of an event stays there, whoever calls [Stop], and the channel is never closed. *)
Theorem Stop_leaves_goroutine (l : list reading) (ls ls' : list label) (s s' : StreamWatcher) (ev : event) :
  exec ls (NewStreamWatcher l) = Some s → at_ s = AtSend ev →
  exec ls' s = Some s' → Receive ∉ ls' →
  at_ s' = AtSend ev ∧ result_closes s' = 0%nat.
Proof.
  intros Hs Hat Hs' Hr.
  pose proof (stuck_run _ _ _ _ Hat Hr Hs') as Hat'.
  split; [done|]. destruct (exec_ok _ _ _ (exec_ok _ _ _ (New_ok l) Hs) Hs') as [_ _ Hc _]. by rewrite Hat' in Hc.
Qed.
End StreamWatcher.

(** ** Witnesses

    A stream with two services and a broken third event. *)
Section Witnesses.
#[local] Instance text_codec : Codec string :=
  {| Decode s := inr s; DecodeStatus _ := inl ""; AsStatus _ := None; ParseMediaType s := Some s |}.
Definition stream : list reading := [inr ("ADDED", "web"); inr ("DELETED", "web"); inr ("BOOKMARK", "")].
Definition run_out : list label :=
  [DecodeNext; Receive; DecodeNext; Receive; DecodeNext; HandleError; DeferredStop; DeferredClose].

Example run_out_end : (λ s, (received s, reports s, closes s, result_closes s)) <$> exec run_out (NewStreamWatcher stream) =
  Some ([(Added, "web"); (Deleted, "web")], [Plain "got invalid watch event type: BOOKMARK"], 1%nat, 1%nat).
Proof. vm_compute. reflexivity. Qed.

Lemma StreamWatcher_correct_witness :
  ∃ s, exec run_out (NewStreamWatcher stream) = Some s ∧ received s = decoded (seen s).
Proof.
  destruct (exec run_out (NewStreamWatcher stream)) as [s|] eqn:E; [|vm_compute in E; discriminate].
  exists s. split; [done|]. apply (StreamWatcher_correct stream run_out s E). vm_compute in E. by injection E as <-.
Defined.
Lemma stopped_watcher_ends_witness :
  ∃ s s', exec [CallStop] (NewStreamWatcher stream) = Some s ∧
    exec [DecodeNext; Receive; DecodeClosed (NetError io_EOF); HandleError; DeferredStop; DeferredClose] s = Some s' ∧
    (6 <= 2 * length (input s) + 5)%nat.
Proof.
  eexists _, _. split; [vm_compute; reflexivity|]. split; [vm_compute; reflexivity|].
  refine (proj1 (stopped_watcher_ends stream [CallStop]
    [DecodeNext; Receive; DecodeClosed (NetError io_EOF); HandleError; DeferredStop; DeferredClose] _ _ _ _ _ _));
    vm_compute; reflexivity.
Defined.
Lemma Stop_leaves_goroutine_witness :
  ∃ s, exec [DecodeNext; CallStop; Arrive (inl (NetError io_EOF)); CallStop] (NewStreamWatcher stream) = Some s ∧
    stopped s = true ∧ at_ s = AtSend (Added, "web").
Proof.
  destruct (exec [DecodeNext] (NewStreamWatcher stream)) as [s1|] eqn:E1; [|vm_compute in E1; discriminate].
  destruct (exec [CallStop; Arrive (inl (NetError io_EOF)); CallStop] s1) as [s|] eqn:E;
    [|vm_compute in E1; injection E1 as <-; vm_compute in E; discriminate].
  exists s. split_and!.
  - change (exec [DecodeNext] (NewStreamWatcher stream) ≫= exec [CallStop; Arrive (inl (NetError io_EOF)); CallStop] = Some s).
    by rewrite E1.
  - vm_compute in E1. injection E1 as <-. vm_compute in E. by injection E as <-.
  - refine (proj1 (Stop_leaves_goroutine stream [DecodeNext] _ s1 s (Added, "web") E1 _ E _)).
    + vm_compute in E1. by injection E1 as <-.
    + rewrite !not_elem_of_cons; split_and!; [done..|apply not_elem_of_nil].
Defined.
End Witnesses.
