(* ===== verification/OS.v ===== *)
(** What the program uses of the operating system: files ([io/ioutil], [os]) and
    the reload scripts it runs ([os/exec]).

    Any call may go wrong.  Which calls do is decided beforehand by a list of
    faults, one for each call in turn (a call past the end of the list works), so
    a theorem for all lists is a theorem for all failures.  Opening, reading and
    renaming are atomic; a write that goes wrong may leave any prefix of the data
    behind.  File modes and the output of scripts are not modelled: no line of
    the program reads them, apart from messages. *)

From stdpp Require Import gmap strings list.
From S2P Require Import Prelude.

(** What happens to a call: it works (as far as the files allow), it returns an
    error, or the process is killed in it.  [part] is how much of the effect had
    taken place: nothing, or the first [n] bytes of a write. *)
Inductive fault : Type :=
| Works
| Fails (part : option nat)
| Killed (part : option nat).

(** [execs] records, newest first, the scripts that were started and the files
    each of them found. *)
Record OS := mkOS {
  files : gmap string string;
  faults : list fault;
  execs : list (string * gmap string string)
}.

Definition set_files (fs : gmap string string) (o : OS) : OS := mkOS fs (faults o) (execs o).

(** The error of a file that is not there, and [os.IsNotExist]. *)
Definition ErrNotExist : error := Errorf "no such file or directory".
Definition IsNotExist (err : error) : bool := bool_decide (err = ErrNotExist).

(** The fault of the next call. *)
Definition next_fault : M OS fault := λ o,
  Ret (default Works (head (faults o))) (mkOS (files o) (tail (faults o)) (execs o)).

(** [ioutil.ReadFile]. *)
Definition ReadFile (path : string) : M OS (error + string) :=
  f ← next_fault;
  match f with
  | Works =>
      fs ← gets files;
      match fs !! path with
      | Some content => mret (inr content)
      | None => mret (inl (Errorf "no such file or directory"))
      end
  | Fails _ => mret (inl (Errorf "input/output error"))
  | Killed _ => fatal
  end.

(** [os.Open] for reading. *)
Definition Open (path : string) : M OS (option error) :=
  f ← next_fault;
  match f with
  | Works =>
      fs ← gets files;
      mret (match fs !! path with Some _ => None | None => Some (Errorf "no such file or directory") end)
  | Fails _ => mret (Some (Errorf "permission denied"))
  | Killed _ => fatal
  end.

(** [os.Stat]; every file that exists is a regular file. *)
Definition Stat (path : string) : M OS (option error) :=
  f ← next_fault;
  match f with
  | Works =>
      fs ← gets files;
      mret (match fs !! path with Some _ => None | None => Some ErrNotExist end)
  | Fails _ => mret (Some (Errorf "permission denied"))
  | Killed _ => fatal
  end.

(** The file after the first [n] bytes of a write, if it was opened. *)
Definition partial_write (path data : string) (part : option nat) : M OS unit :=
  match part with
  | Some n => modify (λ o, set_files (<[path := String.substring 0 n data]> (files o)) o)
  | None => mret tt
  end.

(** [ioutil.WriteFile], which creates or truncates the file. *)
Definition WriteFile (path data : string) : M OS (option error) :=
  f ← next_fault;
  match f with
  | Works => modify (λ o, set_files (<[path := data]> (files o)) o) ;; mret None
  | Fails part => partial_write path data part ;; mret (Some (Errorf "no space left on device"))
  | Killed part => partial_write path data part ;; fatal
  end.

(** The effect of renaming; an error if there is no such file. *)
Definition rename_file (old new : string) : M OS (option error) :=
  fs ← gets files;
  match fs !! old with
  | Some content =>
      modify (set_files (<[new := content]> (delete old fs))) ;; mret None
  | None => mret (Some (Errorf "no such file or directory"))
  end.

(** [os.Rename]: atomic, also when the process is killed in it. *)
Definition Rename (old new : string) : M OS (option error) :=
  f ← next_fault;
  match f with
  | Works => rename_file old new
  | Fails _ => mret (Some (Errorf "input/output error"))
  | Killed None => fatal
  | Killed (Some _) => rename_file old new ;; fatal
  end.

(** [exec.Command(script).CombinedOutput()]: the script cannot be started, or it
    runs and ends with a status.  The scripts do not change the files that the
    program uses. *)
Definition CombinedOutput (script : string) : M OS (option error) :=
  f ← next_fault;
  let run := modify (λ o, mkOS (files o) (faults o) ((script, files o) :: execs o)) in
  match f with
  | Works => run ;; mret None
  | Fails None => mret (Some (Errorf "fork/exec"))
  | Fails (Some _) => run ;; mret (Some (Errorf "exit status 1"))
  | Killed _ => fatal
  end.

(** ** Reading

    A computation over a state with the disk in it that leaves the disk as it is when
    no call goes wrong. *)
Definition reads {S} (disk : S → OS) {A} (m : M S A) : Prop := ∀ s a s',
  faults (disk s) = [] → m s = Ret a s' → disk s' = disk s.

Lemma reads_ret {S} (disk : S → OS) {A} (a : A) : reads disk (mret a).
Proof. by intros s b s' _ [= _ <-]. Qed.
Lemma reads_bind {S} (disk : S → OS) {A B} (m : M S A) (f : A → M S B) :
  reads disk m → (∀ a, reads disk (f a)) → reads disk (mbind f m).
Proof.
  intros Hm Hf s b s' Ho (a & s1 & H1 & H2)%bind_Ret_inv. pose proof (Hm _ _ _ Ho H1) as E.
  rewrite <-E. eapply Hf, H2. by rewrite E.
Qed.
Lemma reads_panic {S} (disk : S → OS) {A} msg : reads (A := A) disk (panic msg).
Proof. by intros s b s' _ [=]. Qed.
Lemma reads_gets {S} (disk : S → OS) {A} (f : S → A) : reads disk (gets f).
Proof. by intros s b s' _ [= _ <-]. Qed.
Lemma reads_modify {S} (disk : S → OS) (f : S → S) : (∀ s, disk (f s) = disk s) → reads disk (modify f).
Proof. intros Hf s b s' _ [= _ <-]. apply Hf. Qed.
Lemma reads_zoom {S T} (disk : S → OS) (disk' : T → OS) (view : S → T) (upd : T → S → S) {A} (m : M T A) :
  (∀ s, disk' (view s) = disk s) → (∀ t s, disk (upd t s) = disk' t) → reads disk' m → reads disk (zoom view upd m).
Proof.
  intros Hv Hu Hm s a s' Hf. unfold zoom. destruct (m (view s)) eqn:E; try done. intros [= -> <-].
  rewrite Hu, <-Hv. eapply Hm, E. by rewrite Hv.
Qed.
Lemma reads_with_var {T} (t : T) {A} (m : M (OS * T) A) : reads fst m → reads id (with_var t m).
Proof. intros Hm s a s' Hf. unfold with_var. destruct (m (s, t)) eqn:E; try done. intros [= -> <-]. by eapply (Hm (s, t)), E. Qed.
Lemma reads_Works {A} (f : M OS A) (g : fault → M OS A) : g Works = f → reads id f → reads id (next_fault ≫= g).
Proof.
  intros Hg Hf [fs flts es] a o' Ho. cbn in Ho. subst flts f. rewrite bind_unfold. cbn. apply Hf. done.
Qed.
Lemma reads_ReadFile path : reads id (ReadFile path).
Proof.
  eapply reads_Works; [reflexivity|]. apply reads_bind; [apply reads_gets|]. intros fs. destruct (fs !! path); apply reads_ret.
Qed.
Lemma reads_Open path : reads id (Open path).
Proof. eapply reads_Works; [reflexivity|]. apply reads_bind; [apply reads_gets|]. intros fs. apply reads_ret. Qed.
Lemma reads_Stat path : reads id (Stat path).
Proof. eapply reads_Works; [reflexivity|]. apply reads_bind; [apply reads_gets|]. intros fs. apply reads_ret. Qed.

Create HintDb reads.
#[export] Hint Resolve reads_ret reads_panic reads_gets reads_ReadFile reads_Open reads_Stat : reads.

(** Through binds and case distinctions down to the lemmas of the database. *)
Ltac solve_reads :=
  repeat first [progress intros|solve [auto with reads]|apply reads_bind|case_decide|progress case_match].
