(* ===== verification/Mergo.v ===== *)
(** The vendored package [mergo] ([imdario/mergo/merge.go]), which [clientcmd] merges
    configurations with.

    [deepMerge] goes by the kinds of Go's reflection; here it is a class with an instance
    for each kind.  Values behind pointers and interfaces are merged as they are, since
    nothing shares them while they are merged, and the values that are merged are trees,
    so the map of visited addresses has no use. *)

From Stdlib Require Import QArith.
From stdpp Require Import gmap strings list.
From S2P Require Import Prelude.

(** [deepMerge dst src]: [dst] afterwards; [None] is a panic. *)
Class Merge (A : Type) := deepMerge : A → A → option A.

(** The default case. *)
Definition set_unless {A} (isEmptyValue : bool) (dst src : A) : option A := Some (if isEmptyValue then dst else src).
#[export] Instance Merge_string : Merge string := λ dst src, set_unless (bool_decide (src = "")) dst src.
#[export] Instance Merge_bool : Merge bool := λ dst src, set_unless (negb src) dst src.
#[export] Instance Merge_Z : Merge Z := λ dst src, set_unless (bool_decide (src = 0%Z)) dst src.
#[export] Instance Merge_Q : Merge Q := λ dst src, set_unless (Qeq_bool src 0) dst src.

(** A Go map, nil as [None]; its values are pointers or interfaces, so they are not
    merged.  Setting a key of a nil map panics. *)
Abbreviation gomap A := (option (gmap string A)).
#[export] Instance Merge_map {A} : Merge (gomap A) := λ dst src,
  match src, dst with
  | None, _ => Some dst
  | Some s, Some d => Some (Some (d ∪ s))
  | Some s, None => if decide (s = ∅) then Some None else None
  end.

(** Pointers. *)
#[export] Instance Merge_ptr `{Merge A} : Merge (option A) := λ dst src,
  match src, dst with
  | None, _ => Some dst
  | Some s, None => Some (Some s)
  | Some s, Some d => Some <$> deepMerge d s
  end.

(** [Merge], whose errors about its arguments no caller can get. *)
Definition mergo_Merge {S} `{Merge A} (dst src : A) : M S A :=
  match deepMerge dst src with
  | Some a => mret a
  | None => panic "assignment to entry in nil map"
  end.

(** Several values in turn. *)
Fixpoint merge_all `{Merge A} (dst : A) (srcs : list A) : option A :=
  match srcs with
  | [] => Some dst
  | src :: srcs => d ← deepMerge dst src; merge_all d srcs
  end.

(** ** Lemmas *)

Lemma merge_string dst src : deepMerge dst src = Some (if decide (src = "") then dst else src).
Proof. unfold deepMerge, Merge_string, set_unless. by case_bool_decide; case_decide. Qed.
Lemma merge_bool dst src : deepMerge dst src = Some (dst || src).
Proof. by destruct dst, src. Qed.
Lemma merge_maps {A} (d s : gmap string A) : deepMerge (Some d) (Some s) = Some (Some (d ∪ s)).
Proof. done. Qed.

Lemma mergo_Merge_Some {S} `{Merge A} (dst src d : A) (s : S) : deepMerge dst src = Some d → mergo_Merge dst src s = Ret d s.
Proof. unfold mergo_Merge. by intros ->. Qed.

(** The package promises to set values that are zero; it overwrites the others. *)
Lemma Merge_overwrites (dst src : string) : src ≠ "" → deepMerge dst src = Some src.
Proof. intros Hs. by rewrite merge_string, decide_False. Qed.
