(* ===== verification/Transport.v ===== *)
(** The package [client/transport] of the vendored Kubernetes code: what is put between
    the requests of the client and the network.

    A round tripper is a value: the transport at the bottom and the wrappers around it,
    which set headers.  [crypto/tls] is a parameter ([KeyPairs]), as are the level of
    the log and what the transport at the bottom does.  [Transport] and [WrapTransport]
    of a [Config] are left out, since nothing in the program sets them. *)

From Stdlib Require Import Ascii.
From stdpp Require Import gmap strings list.
From S2P Require Import Prelude GoStrings Strconv GoURL Request OS.

Local Open Scope Z_scope.

(** * encoding *)

(** [base64.StdEncoding.EncodeToString]. *)
Definition base64_alphabet : string := "ABCDEFGHIJKLMNOPQRSTUVWXYZabcdefghijklmnopqrstuvwxyz0123456789+/".
Definition base64_char (n : Z) : ascii := default "="%char (String.get (Z.to_nat n) base64_alphabet).
Definition base64_four (a b c : Z) (n : nat) : string :=
  String (base64_char (a / 4))
    (String (base64_char (a mod 4 * 16 + b / 16))
      (String (if decide (n = 1)%nat then "="%char else base64_char (b mod 16 * 4 + c / 64))
        (String (if decide (n = 3)%nat then base64_char (c mod 64) else "="%char) ""))).
Fixpoint base64 (s : string) : string :=
  match s with
  | EmptyString => ""
  | String a EmptyString => base64_four (byte_value a) 0 0 1
  | String a (String b EmptyString) => base64_four (byte_value a) (byte_value b) 0 2
  | String a (String b (String c s')) => base64_four (byte_value a) (byte_value b) (byte_value c) 3 +:+ base64 s'
  end.
Example base64_1 : base64 "Aladdin:open sesame" = "QWxhZGRpbjpvcGVuIHNlc2FtZQ==". Proof. vm_compute. reflexivity. Qed.

(** [%x] of bytes. *)
Definition lower_hex (n : Z) : ascii := ascii_of_nat (Z.to_nat (if decide (n < 10) then 48 + n else 87 + n)).
Fixpoint hex_bytes (s : string) : string :=
  match s with
  | EmptyString => ""
  | String c s' => String (lower_hex (byte_value c / 16)) (String (lower_hex (byte_value c mod 16)) (hex_bytes s'))
  end.

(** * config.go *)

Record TLSConfig := mkTLSConfig {
  CAFile : string; CertFile : string; KeyFile : string;
  Insecure : bool;
  CAData : string; CertData : string; KeyData : string
}.
Record Config := mkConfig {
  UserAgent : string;
  TLS : TLSConfig;
  Username : string;
  Password : string;
  BearerToken : string
}.
Definition set_TLS (t : TLSConfig) (c : Config) : Config :=
  mkConfig (UserAgent c) t (Username c) (Password c) (BearerToken c).
Definition set_CAData (d : string) (t : TLSConfig) : TLSConfig :=
  mkTLSConfig (CAFile t) (CertFile t) (KeyFile t) (Insecure t) d (CertData t) (KeyData t).
Definition set_CertData (d : string) (t : TLSConfig) : TLSConfig :=
  mkTLSConfig (CAFile t) (CertFile t) (KeyFile t) (Insecure t) (CAData t) d (KeyData t).
Definition set_KeyData (d : string) (t : TLSConfig) : TLSConfig :=
  mkTLSConfig (CAFile t) (CertFile t) (KeyFile t) (Insecure t) (CAData t) (CertData t) d.

Definition HasCA (c : Config) : bool := bool_decide (CAData (TLS c) ≠ "") || bool_decide (CAFile (TLS c) ≠ "").
Definition HasBasicAuth (c : Config) : bool := bool_decide (Username c ≠ "").
Definition HasTokenAuth (c : Config) : bool := bool_decide (BearerToken c ≠ "").
Definition HasCertAuth (c : Config) : bool := bool_decide (CertData (TLS c) ≠ "") || bool_decide (CertFile (TLS c) ≠ "").

(** * round_trippers.go *)

(** What is kept of a [tls.Config]: without [RootCAs] the roots of the system are used. *)
Record tls_Config := mkTlsConfig {
  InsecureSkipVerify : bool;
  RootCAs : option string;
  Certificates : option (string * string)
}.

Inductive debugLevel : Type :=
| debugJustURL | debugURLTiming | debugCurlCommand | debugRequestHeaders | debugResponseStatus | debugResponseHeaders.

Inductive RoundTripper : Type :=
| DefaultTransport
| TLSTransport (c : tls_Config)
| userAgentRoundTripper (agent : string) (rt : RoundTripper)
| basicAuthRoundTripper (username password : string) (rt : RoundTripper)
| bearerAuthRoundTripper (bearer : string) (rt : RoundTripper)
| debuggingRoundTripper (levels : list debugLevel) (rt : RoundTripper).

(** A request with a header set, on a copy ([cloneRequest]). *)
Definition with_header (key value : string) (req : http_request) : http_request :=
  mkHttpRequest (Method req) (URL_ req) (<[key := value]> (req_Header req)).

(** [RoundTrip] up to the transport at the bottom: what is sent through it. *)
Fixpoint RoundTrip (rt : RoundTripper) (req : http_request) : RoundTripper * http_request :=
  match rt with
  | DefaultTransport | TLSTransport _ => (rt, req)
  | userAgentRoundTripper agent rt =>
      if decide (Header_Get "User-Agent" (req_Header req) ≠ "") then RoundTrip rt req
      else RoundTrip rt (with_header "User-Agent" agent req)
  | basicAuthRoundTripper username password rt =>
      if decide (Header_Get "Authorization" (req_Header req) ≠ "") then RoundTrip rt req
      else RoundTrip rt (with_header "Authorization" ("Basic " +:+ base64 (username +:+ ":" +:+ password)) req)
  | bearerAuthRoundTripper bearer rt =>
      if decide (Header_Get "Authorization" (req_Header req) ≠ "") then RoundTrip rt req
      else RoundTrip rt (with_header "Authorization" ("Bearer " +:+ bearer) req)
  | debuggingRoundTripper _ rt => RoundTrip rt req
  end.
(** [CancelRequest]: the transport whose request is cancelled. *)
Fixpoint CancelRequest (rt : RoundTripper) : RoundTripper :=
  match rt with
  | DefaultTransport | TLSTransport _ => rt
  | userAgentRoundTripper _ rt | basicAuthRoundTripper _ _ rt | bearerAuthRoundTripper _ rt
  | debuggingRoundTripper _ rt => CancelRequest rt
  end.

(** The argument is the level of the log. *)
Definition DebugWrappers (verbosity : Z) (rt : RoundTripper) : RoundTripper :=
  if decide (9 <= verbosity) then
    debuggingRoundTripper [debugCurlCommand; debugURLTiming; debugResponseHeaders] rt
  else if decide (8 <= verbosity) then
    debuggingRoundTripper [debugJustURL; debugRequestHeaders; debugResponseStatus; debugResponseHeaders] rt
  else if decide (7 <= verbosity) then
    debuggingRoundTripper [debugJustURL; debugRequestHeaders; debugResponseStatus] rt
  else if decide (6 <= verbosity) then debuggingRoundTripper [debugURLTiming] rt
  else rt.

Definition HTTPWrappersForConfig (verbosity : Z) (config : Config) (rt : RoundTripper) : string + RoundTripper :=
  let rt := DebugWrappers verbosity rt in
  if HasBasicAuth config && HasTokenAuth config then inl "username/password or bearer token may be set, but not both"
  else
    let rt :=
      if HasTokenAuth config then bearerAuthRoundTripper (BearerToken config) rt
      else if HasBasicAuth config then basicAuthRoundTripper (Username config) (Password config) rt
      else rt in
    inr (if decide (UserAgent config ≠ "") then userAgentRoundTripper (UserAgent config) rt else rt).

(** * transport.go *)

(** [tls.X509KeyPair]: the error, if the data is not a certificate and its key. *)
Class KeyPairs := X509KeyPair : string → string → option string.

(** The text of an error of the operating system. *)
Definition os_error (err : error) : string := match err with Errorf msg => msg | _ => "" end.

Definition dataFromSliceOrFile (data file : string) : M OS (string + string) :=
  if decide (data ≠ "") then mret (inr data)
  else if decide (file ≠ "") then
    r ← ReadFile file;
    match r with
    | inl err => mret (inl (os_error err))
    | inr fileData => mret (inr fileData)
    end
  else mret (inr "").

(** What has been loaded before an error is lost with the configuration. *)
Definition loadTLSFiles (t : TLSConfig) : M OS (string + TLSConfig) :=
  d ← dataFromSliceOrFile (CAData t) (CAFile t);
  match d : string + string with
  | inl err => mret (inl err)
  | inr d =>
      let t := set_CAData d t in
      d ← dataFromSliceOrFile (CertData t) (CertFile t);
      match d : string + string with
      | inl err => mret (inl err)
      | inr d =>
          let t := set_CertData d t in
          d ← dataFromSliceOrFile (KeyData t) (KeyFile t);
          match d : string + string with
          | inl err => mret (inl err)
          | inr d => mret (inr (set_KeyData d t))
          end
      end
  end.

Definition rootCertPool (caData : string) : option string := if decide (caData = "") then None else Some caData.

(** The transports of [tlsCache], by their keys. *)
Abbreviation tlsTransportCache := (gmap string tls_Config).

Section Transport.
Context `{!KeyPairs}.

Definition TLSConfigFor (c : Config) : M OS (string + option tls_Config) :=
  if negb (HasCA c || HasCertAuth c || Insecure (TLS c)) then mret (inr None)
  else if HasCA c && Insecure (TLS c) then
    mret (inl "specifying a root certificates file with the insecure flag is not allowed")
  else
    t ← loadTLSFiles (TLS c);
    match t : string + TLSConfig with
    | inl err => mret (inl err)
    | inr t =>
        let c := set_TLS t c in
        let RootCAs := if HasCA c then rootCertPool (CAData t) else None in
        if HasCertAuth c then
          match X509KeyPair (CertData t) (KeyData t) with
          | Some err => mret (inl err)
          | None => mret (inr (Some (mkTlsConfig (Insecure t) RootCAs (Some (CertData t, KeyData t)))))
          end
        else mret (inr (Some (mkTlsConfig (Insecure t) RootCAs None)))
    end.

(** * cache.go

    [mu] is held by [get] from start to end, but for the computation of the key. *)
Definition Machine : Type := OS * tlsTransportCache.
Definition on_disk {A} (m : M OS A) : M Machine A := zoom fst (λ o s, (o, s.2)) m.

(** The key and the configuration with its files loaded. *)
Definition cache_key (t : TLSConfig) : string :=
  (if Insecure t then "true" else "false") +:+ "/" +:+ hex_bytes (CAData t) +:+ "/" +:+ hex_bytes (CertData t) +:+
  "/" +:+ hex_bytes (KeyData t).
Definition tlsConfigKey (c : Config) : M OS (string + (string * Config)) :=
  t ← loadTLSFiles (TLS c);
  match t : string + TLSConfig with
  | inl err => mret (inl err)
  | inr t => mret (inr (cache_key t, set_TLS t c))
  end.

Definition get (config : Config) : M Machine (string + RoundTripper) :=
  key ← on_disk (tlsConfigKey config);
  match key : string + (string * Config) with
  | inl err => mret (inl err)
  | inr (key, config) =>
      transports ← gets snd;
      match (transports : tlsTransportCache) !! key with
      | Some t => mret (inr (TLSTransport t))
      | None =>
          tlsConfig ← on_disk (TLSConfigFor config);
          match tlsConfig : string + option tls_Config with
          | inl err => mret (inl err)
          | inr None => mret (inr DefaultTransport)
          | inr (Some t) =>
              modify (λ s : Machine, (s.1, <[key := t]> s.2)) ;;
              mret (inr (TLSTransport t))
          end
      end
  end.

Definition New (verbosity : Z) (config : Config) : M Machine (string + RoundTripper) :=
  rt ← get config;
  match rt : string + RoundTripper with
  | inl err => mret (inl err)
  | inr rt => mret (HTTPWrappersForConfig verbosity config rt)
  end.
End Transport.
