(* ===== verification/TransportProps.v ===== *)
(** The properties of [Transport]: what the wrappers add to a request, and that the cache
    of transports gives what would have been made without it. *)

From Stdlib Require Import Ascii.
From stdpp Require Import gmap strings list.
From S2P Require Import Prelude GoStrings Strconv GoURL GoURLProps Request OS Transport.

Local Open Scope Z_scope.

(** ** Headers *)

Lemma Header_Get_with key value k req :
  Header_Get k (req_Header (with_header key value req)) = if decide (k = key) then value else Header_Get k (req_Header req).
Proof.
  unfold Header_Get, with_header. cbn. destruct (decide (k = key)) as [->|Hne]; [by rewrite lookup_insert_eq|].
  by rewrite lookup_insert_ne.
Qed.

Definition at_bottom (rt : RoundTripper) : Prop :=
  match rt with DefaultTransport | TLSTransport _ => True | _ => False end.

Lemma RoundTrip_debug v rt req : RoundTrip (DebugWrappers v rt) req = RoundTrip rt req.
Proof. unfold DebugWrappers. by repeat case_decide. Qed.
Lemma RoundTrip_bottom rt req : at_bottom rt → RoundTrip rt req = (rt, req).
Proof. by destruct rt. Qed.

(** The value that the configuration has for [Authorization]. *)
Definition credentials (c : Config) : option string :=
  if HasTokenAuth c then Some ("Bearer " +:+ BearerToken c)
  else if HasBasicAuth c then Some ("Basic " +:+ base64 (Username c +:+ ":" +:+ Password c))
  else None.
(** A header that is set unless the request has it. *)
Definition with_default (key : string) (value : option string) (req : http_request) : http_request :=
  match value with
  | Some v => if decide (Header_Get key (req_Header req) ≠ "") then req else with_header key v req
  | None => req
  end.

Lemma RoundTrip_wrapped v c bottom rt req :
  at_bottom bottom → HTTPWrappersForConfig v c bottom = inr rt →
  RoundTrip rt req =
    (bottom, with_default "Authorization" (credentials c)
               (with_default "User-Agent" (if decide (UserAgent c = "") then None else Some (UserAgent c)) req)).
Proof.
  intros Hb. unfold HTTPWrappersForConfig, credentials, with_default.
  destruct (HasBasicAuth c) eqn:Hba, (HasTokenAuth c) eqn:Hta; try done; intros [= <-];
    (destruct (decide (UserAgent c = "")) as [Hu|Hu]; [rewrite decide_False by tauto|rewrite decide_True by done]);
    cbn [RoundTrip]; repeat case_decide; by rewrite RoundTrip_debug, RoundTrip_bottom.
Qed.
Lemma with_default_other key value k req : k ≠ key →
  Header_Get k (req_Header (with_default key value req)) = Header_Get k (req_Header req).
Proof. intros Hk. unfold with_default. repeat case_match; try done. by rewrite Header_Get_with, decide_False. Qed.
Lemma with_default_same key value req :
  Header_Get key (req_Header (with_default key value req)) =
    if decide (Header_Get key (req_Header req) = "") then default "" value else Header_Get key (req_Header req).
Proof.
  unfold with_default. destruct value as [v|]; cbn [default]; [|by case_decide].
  destruct (decide (Header_Get key (req_Header req) = "")) as [E|E].
  - rewrite decide_False by tauto. by rewrite Header_Get_with, decide_True.
  - by rewrite decide_True.
Qed.
Lemma with_default_kept key value req :
  Method (with_default key value req) = Method req ∧ URL_ (with_default key value req) = URL_ req.
Proof. unfold with_default. by repeat case_match. Qed.

(** ** The cache *)

Lemma hex_byte_inj (c d : ascii) :
  lower_hex (byte_value c / 16) = lower_hex (byte_value d / 16) →
  lower_hex (byte_value c mod 16) = lower_hex (byte_value d mod 16) → c = d.
Proof.
  assert (∀ n m, 0 <= n < 16 → 0 <= m < 16 → lower_hex n = lower_hex m → n = m) as Hinj.
  { intros n m Hn Hm E. apply (f_equal nat_of_ascii) in E. unfold lower_hex in E.
    rewrite !nat_ascii_embedding in E by (repeat case_decide; lia). repeat case_decide; lia. }
  assert (∀ c, 0 <= byte_value c < 256) as Hb.
  { intros e. unfold byte_value. pose proof (nat_ascii_bounded e). lia. }
  intros E1 E2. pose proof (Hb c) as Hc. pose proof (Hb d) as Hd.
  apply Hinj in E1; [|split; [apply Z.div_pos; lia|apply Z.div_lt_upper_bound; lia]..].
  apply Hinj in E2; [|apply Z.mod_pos_bound; lia..].
  rewrite <-(ascii_nat_embedding c), <-(ascii_nat_embedding d). f_equal. apply Nat2Z.inj.
  fold (byte_value c) (byte_value d). rewrite (Z.div_mod (byte_value c) 16), (Z.div_mod (byte_value d) 16) by lia. lia.
Qed.
Lemma hex_bytes_inj s t : hex_bytes s = hex_bytes t → s = t.
Proof.
  revert t. induction s as [|c s IH]; intros [|d t]; cbn [hex_bytes]; [done..|].
  intros [= H1 H2 H3]. f_equal; [by apply hex_byte_inj|by apply IH].
Qed.
Lemma hex_bytes_no_slash s : has_byte slash (hex_bytes s) = false.
Proof.
  assert (∀ n, 0 <= n < 16 → slash ≠ lower_hex n) as Hn.
  { intros n Hn E. apply (f_equal nat_of_ascii) in E. unfold lower_hex in E.
    rewrite nat_ascii_embedding in E by (repeat case_decide; lia). change (nat_of_ascii slash) with 47%nat in E.
    repeat case_decide; lia. }
  induction s as [|c s IH]; [done|]. cbn [hex_bytes has_byte].
  assert (0 <= byte_value c < 256) as Hb by (unfold byte_value; pose proof (nat_ascii_bounded c); lia).
  rewrite !bool_decide_eq_false_2; [done|apply Hn, Z.mod_pos_bound; lia|].
  apply Hn. split; [apply Z.div_pos; lia|apply Z.div_lt_upper_bound; lia].
Qed.

(** The key tells all that a transport is made of. *)
Lemma cache_key_inj t t' : cache_key t = cache_key t' →
  Insecure t = Insecure t' ∧ CAData t = CAData t' ∧ CertData t = CertData t' ∧ KeyData t = KeyData t'.
Proof.
  unfold cache_key. intros E.
  apply (head_inj slash) in E as [E1 E]; [|by destruct (Insecure t)|by destruct (Insecure t')].
  apply (head_inj slash) in E as [E2 E]; [|apply hex_bytes_no_slash..].
  apply (head_inj slash) in E as [E3 E4]; [|apply hex_bytes_no_slash..].
  split_and!; [by destruct (Insecure t), (Insecure t')|by apply hex_bytes_inj..].
Qed.

Section Cache.
Context `{!KeyPairs}.
Implicit Types (o : OS) (t : TLSConfig) (c : Config).

(** The files that a configuration names can be read and hold something. *)
Definition named_ok o (data file : string) : Prop :=
  data = "" → file ≠ "" → ∃ d, files o !! file = Some d ∧ d ≠ "".
Record readable o t : Prop := {
  rd_faults : faults o = [];
  rd_ca : named_ok o (CAData t) (CAFile t);
  rd_cert : named_ok o (CertData t) (CertFile t);
  rd_key : named_ok o (KeyData t) (KeyFile t)
}.

Definition data_of o (data file : string) : string :=
  if decide (data ≠ "") then data else if decide (file ≠ "") then default "" (files o !! file) else "".
Definition loaded o t : TLSConfig :=
  mkTLSConfig (CAFile t) (CertFile t) (KeyFile t) (Insecure t)
    (data_of o (CAData t) (CAFile t)) (data_of o (CertData t) (CertFile t)) (data_of o (KeyData t) (KeyFile t)).

(** What is made of the data that has been loaded. *)
Definition transport_of t : string + option tls_Config :=
  let ca := bool_decide (CAData t ≠ "") in
  let cert := bool_decide (CertData t ≠ "") in
  if negb (ca || cert || Insecure t) then inr None
  else if ca && Insecure t then inl "specifying a root certificates file with the insecure flag is not allowed"
  else if cert then
    match X509KeyPair (CertData t) (KeyData t) with
    | Some err => inl err
    | None => inr (Some (mkTlsConfig (Insecure t) (rootCertPool (CAData t)) (Some (CertData t, KeyData t))))
    end
  else inr (Some (mkTlsConfig (Insecure t) (rootCertPool (CAData t)) None)).

Lemma ReadFile_ok o path d : faults o = [] → files o !! path = Some d → ReadFile path o = Ret (inr d) o.
Proof. destruct o as [fs flts es]. cbn. intros -> Hd. unfold ReadFile, next_fault. m_unfold. cbn. by rewrite Hd. Qed.
Lemma data_of_spec o data file : faults o = [] → named_ok o data file →
  dataFromSliceOrFile data file o = Ret (inr (data_of o data file)) o ∧
  (data_of o data file ≠ "" ↔ data ≠ "" ∨ file ≠ "") ∧
  named_ok o (data_of o data file) file ∧ data_of o (data_of o data file) file = data_of o data file.
Proof.
  intros Hf Hn. unfold dataFromSliceOrFile, data_of. destruct (decide (data ≠ "")) as [Hd|Hd].
  { rewrite decide_True by done. split_and!; try tauto; try done; intros ->; done. }
  apply dec_stable in Hd. destruct (decide (file ≠ "")) as [Hfile|Hfile].
  - destruct (Hn Hd Hfile) as (d & Hlook & Hne). run (ReadFile_ok o file d Hf Hlook). rewrite Hlook. cbn [default].
    unfold id. rewrite decide_True by done. split_and!; try tauto; try done; intros ->; done.
  - apply dec_stable in Hfile. subst. split_and!; try tauto; try done; intros ? ?; done.
Qed.
Lemma loadTLSFiles_spec o t : readable o t → loadTLSFiles t o = Ret (inr (loaded o t)) o.
Proof.
  intros [Hf H1 H2 H3]. unfold loadTLSFiles.
  run (proj1 (data_of_spec _ _ _ Hf H1)). run (proj1 (data_of_spec _ _ _ Hf H2)). by run (proj1 (data_of_spec _ _ _ Hf H3)).
Qed.
Lemma loaded_again o t : readable o t → readable o (loaded o t) ∧ loaded o (loaded o t) = loaded o t.
Proof.
  intros [Hf H1 H2 H3].
  destruct (data_of_spec _ _ _ Hf H1) as (_ & _ & H1' & E1), (data_of_spec _ _ _ Hf H2) as (_ & _ & H2' & E2),
    (data_of_spec _ _ _ Hf H3) as (_ & _ & H3' & E3).
  split; [by split|]. unfold loaded. cbn. by rewrite E1, E2, E3.
Qed.

Lemma rootCertPool_if d : (if bool_decide (d ≠ "") then rootCertPool d else None) = rootCertPool d.
Proof. unfold rootCertPool. destruct (decide (d = "")) as [->|]; [done|]. by rewrite bool_decide_eq_true_2. Qed.
Lemma has_loaded o c : readable o (TLS c) →
  HasCA c = bool_decide (CAData (loaded o (TLS c)) ≠ "") ∧ HasCertAuth c = bool_decide (CertData (loaded o (TLS c)) ≠ "").
Proof.
  intros [Hf H1 H2 _]. destruct (data_of_spec _ _ _ Hf H1) as (_ & E1 & _), (data_of_spec _ _ _ Hf H2) as (_ & E2 & _).
  unfold HasCA, HasCertAuth. rewrite <-!bool_decide_or. split; apply bool_decide_ext; by symmetry.
Qed.
Lemma TLSConfigFor_spec o c : readable o (TLS c) → TLSConfigFor c o = Ret (transport_of (loaded o (TLS c))) o.
Proof.
  intros Hr. destruct (has_loaded o c Hr) as [Hca Hcert]. destruct (loaded_again o (TLS c) Hr) as [Hr' E].
  destruct (has_loaded o (set_TLS (loaded o (TLS c)) c)) as [Hca' Hcert']; [done|]. cbn [TLS set_TLS] in Hca', Hcert'.
  rewrite E in Hca', Hcert'.
  unfold TLSConfigFor, transport_of. rewrite Hca, Hcert. change (Insecure (TLS c)) with (Insecure (loaded o (TLS c))).
  destruct (negb _); [done|]. destruct (_ && _); [done|]. run (loadTLSFiles_spec _ _ Hr). rewrite Hca', Hcert'.
  rewrite rootCertPool_if.
  destruct (bool_decide (CertData _ ≠ "")); [|done]. by destruct (X509KeyPair _ _).
Qed.

(** Every transport of the cache is the one that its key asks for. *)
Definition cache_sound (cache : tlsTransportCache) : Prop :=
  ∀ key x, cache !! key = Some x → ∃ t, key = cache_key t ∧ transport_of t = inr (Some x).
Lemma cache_sound_empty : cache_sound ∅. Proof. intros key x Hx. by rewrite lookup_empty in Hx. Qed.

(** What [get] is meant to give. *)
Definition fresh c : M OS (string + RoundTripper) :=
  t ← TLSConfigFor c;
  mret match (t : string + option tls_Config) with
       | inl err => inl err
       | inr None => inr DefaultTransport
       | inr (Some t) => inr (TLSTransport t)
       end.

Lemma get_spec o cache c : readable o (TLS c) → cache_sound cache →
  ∃ r cache', get c (o, cache) = Ret r (o, cache') ∧ fresh c o = Ret r o ∧ cache_sound cache' ∧
    (∀ rt, r = inr rt → at_bottom rt).
Proof.
  intros Hr Hs. unfold get, fresh. run (TLSConfigFor_spec o c Hr).
  set (t := loaded o (TLS c)). destruct (loaded_again o (TLS c) Hr) as [Hr' E]. fold t in Hr', E.
  assert (on_disk (tlsConfigKey c) (o, cache) = Ret (inr (cache_key t, set_TLS t c)) (o, cache)) as Hk.
  { unfold on_disk, zoom, tlsConfigKey. cbn [fst snd]. by run (loadTLSFiles_spec o (TLS c) Hr). }
  run Hk. cbv beta iota. rewrite bind_unfold. unfold gets at 1. cbn [snd].
  destruct (cache !! cache_key t) as [x|] eqn:Hc.
  - destruct (Hs _ _ Hc) as (t' & Hkey & Ht'). apply cache_key_inj in Hkey as (E1 & E2 & E3 & E4).
    assert (transport_of t = inr (Some x)) as ->. { rewrite <-Ht'. unfold transport_of. by rewrite E1, E2, E3, E4. }
    eexists _, _. split_and!; [done..|by intros rt [= <-]].
  - assert (on_disk (TLSConfigFor (set_TLS t c)) (o, cache) = Ret (transport_of t) (o, cache)) as Hf.
    { unfold on_disk, zoom. cbn [fst snd]. rewrite TLSConfigFor_spec by done. cbn [TLS set_TLS]. by rewrite E. }
    run Hf. destruct (transport_of t) as [err|[x|]] eqn:Ht; cbv beta iota; eexists _, _; (split; [reflexivity|]).
    + by split_and!.
    + split_and!; [done| |by intros rt [= <-]]. cbn [fst snd]. intros key y Hy.
      apply lookup_insert_Some in Hy as [[<- <-]|[_ Hy]]; [by exists t|by apply Hs].
    + split_and!; [done..|by intros rt [= <-]].
Qed.
(** Making a transport reads files. *)
Lemma reads_dataFromSliceOrFile data file : reads id (dataFromSliceOrFile data file).
Proof. unfold dataFromSliceOrFile. solve_reads. Qed.
#[local] Hint Resolve reads_dataFromSliceOrFile : reads.
Lemma reads_on_disk {A} (m : M OS A) : reads id m → reads fst (on_disk m).
Proof. intros Hm. by eapply reads_zoom; [| |exact Hm]. Qed.
Lemma reads_New v c : reads fst (New v c).
Proof.
  assert (∀ c, reads id (TLSConfigFor c)) as H1 by (intros c'; unfold TLSConfigFor, loadTLSFiles; solve_reads).
  assert (∀ c, reads id (tlsConfigKey c)) as H2 by (intros c'; unfold tlsConfigKey, loadTLSFiles; solve_reads).
  unfold New, get. repeat first [apply reads_on_disk, H1|apply reads_on_disk, H2|by apply reads_modify|progress solve_reads].
Qed.

(** [New] without a cache, and the round trippers of several configurations in turn. *)
Definition fresh_New (verbosity : Z) c : M OS (string + RoundTripper) :=
  rt ← fresh c;
  mret match (rt : string + RoundTripper) with
       | inl err => inl err
       | inr rt => HTTPWrappersForConfig verbosity c rt
       end.
Fixpoint each {S A B} (f : A → M S B) (l : list A) : M S (list B) :=
  match l with
  | [] => mret []
  | a :: l => b ← f a; bs ← each f l; mret (b :: bs)
  end.

Lemma New_spec v o cache c : readable o (TLS c) → cache_sound cache →
  ∃ r cache', New v c (o, cache) = Ret r (o, cache') ∧ fresh_New v c o = Ret r o ∧ cache_sound cache'.
Proof.
  intros Hr Hs. destruct (get_spec o cache c Hr Hs) as (r & cache' & Hg & Hf & Hs' & _).
  exists (match r with inl err => inl err | inr rt => HTTPWrappersForConfig v c rt end), cache'.
  unfold New, fresh_New. run Hg. run Hf. by destruct r.
Qed.

(** C22: the cache of transports cannot be seen when the files of the configurations can
    be used: whatever configurations clients are made for, one after the other, such that
    reading does not fail and each file that is named without the data being given exists
    and is not empty, each gets the round tripper that it would get if every transport
    were built anew, with the same error otherwise.  A transport of the cache is then
    never one with other certificates, another key or another trust in the server. *)
Theorem cache_transparent (v : Z) (cs : list Config) (o : OS) :
  Forall (λ c, readable o (TLS c)) cs →
  ∃ rts cache, each (New v) cs (o, ∅) = Ret rts (o, cache) ∧ each (fresh_New v) cs o = Ret rts o ∧ length rts = length cs.
Proof.
  intros Hcs. generalize cache_sound_empty. generalize (∅ : tlsTransportCache).
  induction Hcs as [|c cs Hc _ IH]; intros cache Hs; [by exists [], cache|].
  destruct (New_spec v o cache c Hc Hs) as (r & cache1 & Hn & Hf & Hs1).
  destruct (IH cache1 Hs1) as (rs & cache2 & Hns & Hfs & Hl). exists (r :: rs), cache2. cbn [each].
  run Hn. run Hns. run Hf. run Hfs. split_and!; [done..|]. cbn. by rewrite Hl.
Qed.
End Cache.

(** * Witnesses *)
Section Witnesses.
#[local] Instance any_pair : KeyPairs := λ _ _, None.

Definition secured (ca : string) (token : string) : Config := mkConfig "agent" (mkTLSConfig ca "" "" false "" "" "") "" "" token.
Definition disk : OS := mkOS {["/ca" := "certificates"]} [] [].

Lemma cache_transparent_witness :
  ∃ rts cache, each (New 0) [secured "/ca" "one"; secured "" ""; secured "/ca" "two"] (disk, ∅) = Ret rts (disk, cache) ∧
    each (fresh_New 0) [secured "/ca" "one"; secured "" ""; secured "/ca" "two"] disk = Ret rts disk ∧ length rts = 3%nat.
Proof.
  apply (cache_transparent 0 [secured "/ca" "one"; secured "" ""; secured "/ca" "two"] disk).
  repeat constructor; try done; intros _ Hf; try done; exists "certificates"; done.
Defined.

(** With an empty certificate file the cache can be seen: a configuration that trusts any
    server and also names such a file is refused, unless a client that trusts any server
    has been made before, whose transport it gets. *)
Definition any_server (ca : string) : Config := mkConfig "agent" (mkTLSConfig ca "" "" true "" "" "") "" "" "".
Definition disk_with_empty : OS := mkOS {["/ca" := ""]} [] [].
Theorem empty_file_hits_cache :
  (∃ err, fresh_New 0 (any_server "/ca") disk_with_empty = Ret (inl err) disk_with_empty) ∧
  (∃ rt cache, each (New 0) [any_server ""; any_server "/ca"] (disk_with_empty, ∅) =
     Ret [inr rt; inr rt] (disk_with_empty, cache)).
Proof. split; repeat eexists; vm_compute; reflexivity. Qed.
End Witnesses.
