(* ===== verification/RESTConfig.v ===== *)
(** [client/restclient/config.go], [transport.go] and [url_utils.go] and [New] of
    [client/unversioned/helper.go] of the vendored Kubernetes code: from a client
    configuration to a client.

    Parameters are the environment of the process ([Process]), the decoding of PEM
    blocks and certificates ([CertPools]), the API groups that are registered ([Registered]) and the
    readings of the clock when rate limiters are made ([Clocks]).  A [Codec] is only present
    or not. *)

From Stdlib Require Import Ascii QArith.
From stdpp Require Import gmap strings list.
From S2P Require Import Prelude GoStrings Strconv GoURL ApiErrors GoTime TokenBucket BucketRate Request OS Mergo.
From S2P Require Transport.

Local Open Scope Z_scope.

(** The process: its environment, its name, its directory, and what it was built for. *)
Class Process := {
  environ : string → string;
  arg0 : string;
  getwd : string + string;
  GOOS : string;
  GOARCH : string;
  verbosity : Z
}.
Class Registered := groupMetaMap : gmap string GroupVersion.

(** [encoding/pem] and [crypto/x509]: a block that is decoded comes from the text before
    the rest. *)
Record pem_Block := mkBlock { block_Type : string; block_Headers : gmap string string; block_Bytes : string }.
Class CertPools := {
  Certificate : Type;
  ParseCertificate : string → string + Certificate;
  pem_Decode : string → option (pem_Block * string);
  pem_Decode_rest data block rest : pem_Decode data = Some (block, rest) → (String.length rest < String.length data)%nat
}.

(** * config.go *)

Record ContentConfig := mkContent {
  ContentType : string;
  GroupVersion : option ApiErrors.GroupVersion;
  Codec : bool
}.
Record TLSClientConfig := mkTLSClient {
  CertFile : string; KeyFile : string; CAFile : string;
  CertData : string; KeyData : string; CAData : string
}.
Record Config := mkConfig {
  Host : string;
  APIPath : string;
  Prefix : string;
  content : ContentConfig;
  Username : string;
  Password : string;
  BearerToken : string;
  TLS : TLSClientConfig;
  Insecure : bool;
  UserAgent : string;
  QPS : Q;
  Burst : Z
}.
(** The time at which the limiter of a client for a configuration is made. *)
Class Clocks := limiter_time : Config → Time.

Definition zero_content : ContentConfig := mkContent "" None false.
Definition zero_TLS : TLSClientConfig := mkTLSClient "" "" "" "" "" "".
Definition zero_Config : Config := mkConfig "" "" "" zero_content "" "" "" zero_TLS false "" 0%Q 0.

#[global] Instance GroupVersion_eq_dec : EqDecision ApiErrors.GroupVersion.
Proof. solve_decision. Defined.
#[global] Instance ContentConfig_eq_dec : EqDecision ContentConfig.
Proof. solve_decision. Defined.
#[global] Instance TLSClientConfig_eq_dec : EqDecision TLSClientConfig.
Proof. solve_decision. Defined.
#[global] Instance Q_eq_dec : EqDecision Q.
Proof. intros [a b] [c d]. destruct (decide (a = c)), (decide (b = d)); [left|right..]; congruence. Defined.
#[global] Instance Config_eq_dec : EqDecision Config.
Proof. solve_decision. Defined.

Definition set_Host h c := mkConfig h (APIPath c) (Prefix c) (content c) (Username c) (Password c) (BearerToken c)
  (TLS c) (Insecure c) (UserAgent c) (QPS c) (Burst c).
Definition set_APIPath p c := mkConfig (Host c) p (Prefix c) (content c) (Username c) (Password c) (BearerToken c)
  (TLS c) (Insecure c) (UserAgent c) (QPS c) (Burst c).
Definition set_content x c := mkConfig (Host c) (APIPath c) (Prefix c) x (Username c) (Password c) (BearerToken c)
  (TLS c) (Insecure c) (UserAgent c) (QPS c) (Burst c).
Definition set_BasicAuth u p c := mkConfig (Host c) (APIPath c) (Prefix c) (content c) u p (BearerToken c)
  (TLS c) (Insecure c) (UserAgent c) (QPS c) (Burst c).
Definition set_BearerToken t c := mkConfig (Host c) (APIPath c) (Prefix c) (content c) (Username c) (Password c) t
  (TLS c) (Insecure c) (UserAgent c) (QPS c) (Burst c).
Definition set_TLS t c := mkConfig (Host c) (APIPath c) (Prefix c) (content c) (Username c) (Password c) (BearerToken c)
  t (Insecure c) (UserAgent c) (QPS c) (Burst c).
Definition set_Insecure b c := mkConfig (Host c) (APIPath c) (Prefix c) (content c) (Username c) (Password c) (BearerToken c)
  (TLS c) b (UserAgent c) (QPS c) (Burst c).
Definition set_UserAgent a c := mkConfig (Host c) (APIPath c) (Prefix c) (content c) (Username c) (Password c) (BearerToken c)
  (TLS c) (Insecure c) a (QPS c) (Burst c).
Definition set_limits qps burst c := mkConfig (Host c) (APIPath c) (Prefix c) (content c) (Username c) (Password c)
  (BearerToken c) (TLS c) (Insecure c) (UserAgent c) qps burst.

(** The fields in the order in which [mergo] visits them. *)
#[global] Instance Merge_GroupVersion : Merge ApiErrors.GroupVersion := λ dst src,
  g ← deepMerge (gv_Group dst) (gv_Group src); v ← deepMerge (gv_Version dst) (gv_Version src);
  Some (mkGroupVersion g v).
#[global] Instance Merge_content : Merge ContentConfig := λ dst src,
  t ← deepMerge (ContentType dst) (ContentType src); g ← deepMerge (GroupVersion dst) (GroupVersion src);
  c ← deepMerge (Codec dst) (Codec src); Some (mkContent t g c).
#[global] Instance Merge_TLS : Merge TLSClientConfig := λ dst src,
  a ← deepMerge (CertFile dst) (CertFile src); b ← deepMerge (KeyFile dst) (KeyFile src);
  c ← deepMerge (CAFile dst) (CAFile src); d ← deepMerge (CertData dst) (CertData src);
  e ← deepMerge (KeyData dst) (KeyData src); f ← deepMerge (CAData dst) (CAData src);
  Some (mkTLSClient a b c d e f).
#[global] Instance Merge_Config : Merge Config := λ dst src,
  h ← deepMerge (Host dst) (Host src); p ← deepMerge (APIPath dst) (APIPath src);
  x ← deepMerge (Prefix dst) (Prefix src); c ← deepMerge (content dst) (content src);
  u ← deepMerge (Username dst) (Username src); w ← deepMerge (Password dst) (Password src);
  b ← deepMerge (BearerToken dst) (BearerToken src); t ← deepMerge (TLS dst) (TLS src);
  i ← deepMerge (Insecure dst) (Insecure src); a ← deepMerge (UserAgent dst) (UserAgent src);
  q ← deepMerge (QPS dst) (QPS src); n ← deepMerge (Burst dst) (Burst src);
  Some (mkConfig h p x c u w b t i a q n).

Section Config.
Context {gf : GoFormats}.

(** * url_utils.go *)

Definition defaultServerUrlFor (config : Config) : string + (URL * string) :=
  let hasCA := bool_decide (CAFile (TLS config) ≠ "") || bool_decide (CAData (TLS config) ≠ "") in
  let hasCert := bool_decide (CertFile (TLS config) ≠ "") || bool_decide (CertData (TLS config) ≠ "") in
  let defaultTLS := hasCA || hasCert || Insecure config in
  let host := if decide (Host config = "") then "localhost" else Host config in
  DefaultServerURL host (APIPath config) (default (mkGroupVersion "" "") (GroupVersion (content config))) defaultTLS.

Definition IsConfigTransportTLS (config : Config) : bool :=
  match defaultServerUrlFor config with
  | inl _ => false
  | inr (baseURL, _) => bool_decide (Scheme baseURL = "https")
  end.

(** * transport.go *)

Definition transportConfig (c : Config) : Transport.Config :=
  Transport.mkConfig (UserAgent c)
    (Transport.mkTLSConfig (CAFile (TLS c)) (CertFile (TLS c)) (KeyFile (TLS c)) (Insecure c)
       (CAData (TLS c)) (CertData (TLS c)) (KeyData (TLS c)))
    (Username c) (Password c) (BearerToken c).

Context `{!Process, !Transport.KeyPairs, !Clocks}.
Local Abbreviation Machine := Transport.Machine.

Definition TransportFor (config : Config) : M Machine (string + Transport.RoundTripper) :=
  Transport.New verbosity (transportConfig config).

(** ** RESTClientFor

    A client with the transport of its [http.Client]. *)
Record TransportClient := mkTransportClient { rest : RESTClient; transport : Transport.RoundTripper }.

Definition is_default (rt : Transport.RoundTripper) : bool :=
  match rt with Transport.DefaultTransport => true | _ => false end.

(** The limiter that [NewRESTClient] makes: none for a rate that is not positive, and a
    panic for one without a bucket. *)
Definition throttle_for (config : Config) : M Machine (option Bucket) :=
  if Qle_bool (QPS config) 0 then mret None
  else match NewTokenBucketRateLimiter (QPS config) (Burst config) (limiter_time config) with
       | inl msg => panic msg
       | inr bucket => mret (Some bucket)
       end.

(** The end of [RESTClientFor] and of [UnversionedRESTClientFor]. *)
Definition client_for (config : Config) (groupVersion : ApiErrors.GroupVersion)
    : M Machine (string + TransportClient) :=
  match defaultServerUrlFor config with
  | inl err => mret (inl err)
  | inr (baseURL, versionedAPIPath) =>
      rt ← TransportFor config;
      match rt : string + Transport.RoundTripper with
      | inl err => mret (inl err)
      | inr rt =>
          throttle ← throttle_for config;
          mret (inr (mkTransportClient
            (NewRESTClient baseURL versionedAPIPath (mkContentConfig (ContentType (content config)) groupVersion)
               throttle (negb (is_default rt))) rt))
      end
  end.

Definition RESTClientFor (config : Config) : M Machine (string + TransportClient) :=
  match GroupVersion (content config) with
  | None => mret (inl "GroupVersion is required when initializing a RESTClient")
  | Some gv =>
      if negb (Codec (content config)) then mret (inl "Codec is required when initializing a RESTClient")
      else client_for config gv
  end.
(** [unversioned.SchemeGroupVersion]. *)
Definition SchemeGroupVersion : ApiErrors.GroupVersion := mkGroupVersion "" "".
Definition UnversionedRESTClientFor (config : Config) : M Machine (string + TransportClient) :=
  if negb (Codec (content config)) then mret (inl "Codec is required when initializing a RESTClient")
  else client_for config (default SchemeGroupVersion (GroupVersion (content config))).

(** ** Defaults *)

Definition gitVersion : string := "v1.2.0".
Definition gitCommit : string := "".

Definition DefaultKubernetesUserAgent : string :=
  let commit := if decide (7 < String.length gitCommit)%nat then take_s 7 gitCommit else gitCommit in
  let commit := if decide (commit = "") then "unknown" else commit in
  let version := (cut "-" gitVersion).1 in
  Base arg0 +:+ "/" +:+ version +:+ " (" +:+ GOOS +:+ "/" +:+ GOARCH +:+ ") kubernetes/" +:+ commit.

Definition with_agent (config : Config) : Config :=
  if decide (UserAgent config = "") then set_UserAgent DefaultKubernetesUserAgent config else config.
Definition with_limits (config : Config) : Config :=
  set_limits (if Qeq_bool (QPS config) 0 then 5%Q else QPS config)
    (if decide (Burst config = 0) then 10 else Burst config) config.
Definition SetKubernetesDefaults (config : Config) : Config := with_limits (with_agent config).
Definition AddUserAgent (config : Config) (userAgent : string) : Config :=
  set_UserAgent (DefaultKubernetesUserAgent +:+ "/" +:+ userAgent) config.

(** ** Inside a cluster *)

Context `{!CertPools}.

Definition service_account : string := "/var/run/secrets/kubernetes.io/serviceaccount/".
Definition token_file : string := service_account +:+ "token".
Definition rootCAFile : string := service_account +:+ "ca.crt".

(** [util/crypto.go].  A turn of the loop takes a block off the text, so its length is
    enough fuel ([CertsFromPEM_loop_spec] of [RESTConfigProps]). *)
Fixpoint CertsFromPEM_loop (fuel : nat) (pemCerts : string) (certs : list Certificate) : list Certificate * option string :=
  let finished := (certs, match certs with [] => Some "could not read any certificates" | _ => None end) in
  match fuel with
  | O => finished
  | S fuel =>
      if decide (pemCerts = "") then finished
      else
        match pem_Decode pemCerts with
        | None => finished
        | Some (block, pemCerts) =>
            if decide (block_Type block ≠ "CERTIFICATE" ∨ block_Headers block ≠ ∅) then CertsFromPEM_loop fuel pemCerts certs
            else
              match ParseCertificate (block_Bytes block) with
              | inl err => (certs, Some err)
              | inr cert => CertsFromPEM_loop fuel pemCerts (certs ++ [cert])
              end
        end
  end.
Definition CertsFromPEM (pemCerts : string) : list Certificate * option string :=
  CertsFromPEM_loop (String.length pemCerts) pemCerts [].

Definition certificatesFromFile (file : string) : M OS (string + list Certificate) :=
  if decide (file = "") then mret (inl "error reading certificates from an empty filename")
  else
    r ← ReadFile file;
    match r with
    | inl err => mret (inl (Transport.os_error err))
    | inr pemBlock =>
        mret match CertsFromPEM pemBlock with
             | (_, Some err) => inl ("error reading " +:+ file +:+ ": " +:+ err)
             | (certs, None) => inr certs
             end
    end.
(** A pool is the certificates that were added to it. *)
Definition CertPoolFromFile (filename : string) : M OS (string + list Certificate) :=
  certs ← certificatesFromFile filename;
  match certs : string + list Certificate with
  | inl err => mret (inl err)
  | inr certs => mret (inr certs)
  end.

Definition InClusterConfig : M OS (string + Config) :=
  let host := environ "KUBERNETES_SERVICE_HOST" in
  let port := environ "KUBERNETES_SERVICE_PORT" in
  if decide (host = "" ∨ port = "") then
    mret (inl "unable to load in-cluster configuration, KUBERNETES_SERVICE_HOST and KUBERNETES_SERVICE_PORT must be defined")
  else
    token ← ReadFile token_file;
    match token with
    | inl err => mret (inl (Transport.os_error err))
    | inr token =>
        pool ← CertPoolFromFile rootCAFile;
        let tls := match pool : string + list Certificate with
                   | inl _ => zero_TLS
                   | inr _ => mkTLSClient "" "" rootCAFile "" "" ""
                   end in
        mret (inr (set_TLS tls (set_BearerToken token (set_Host ("https://" +:+ JoinHostPort host port) zero_Config))))
    end.

(** * unversioned/helper.go and the clients of the API groups *)

Context `{!Registered}.

Definition legacyAPIPath : string := "/api".
Definition defaultAPIPath : string := "/apis".

Definition Group (group : string) : string + ApiErrors.GroupVersion :=
  match groupMetaMap !! group with
  | Some gv => inr gv
  | None => inl ("group " +:+ group +:+ " has not been registered")
  end.
Definition IsRegistered (group : string) : bool := match groupMetaMap !! group with Some _ => true | None => false end.

Definition set_group (gv : ApiErrors.GroupVersion) (config : Config) : Config :=
  set_content (mkContent (ContentType (content config)) (Some gv) true) config.

(** [SetKubernetesDefaults] of the package [unversioned]. *)
Definition set_legacy_defaults (config : Config) : string + Config :=
  let config := if decide (APIPath config = "") then set_APIPath legacyAPIPath config else config in
  match Group "" with
  | inl err => inl err
  | inr gv => inr (SetKubernetesDefaults (set_group gv config))
  end.

(** [setAutoscalingDefaults], [setBatchDefaults] and [setExtensionsDefaults]. *)
Definition set_group_defaults (group : string) (config : Config) : string + Config :=
  match Group group with
  | inl err => inl err
  | inr gv => inr (with_limits (set_group gv (with_agent (set_APIPath defaultAPIPath config))))
  end.
(** [NewAutoscaling], [NewBatch] and [NewExtensions]. *)
Definition NewGroup (group : string) (c : Config) : M Machine (string + TransportClient) :=
  match set_group_defaults group c with
  | inl err => mret (inl err)
  | inr config => RESTClientFor config
  end.

Definition setDiscoveryDefaults (config : Config) : Config :=
  with_agent (set_content (mkContent (ContentType (content config)) None true) (set_APIPath "" config)).
Definition NewDiscoveryClientForConfig (c : Config) : M Machine (string + TransportClient) :=
  UnversionedRESTClientFor (setDiscoveryDefaults c).

Record Client := mkClient {
  client : TransportClient;
  AutoscalingClient : option TransportClient;
  BatchClient : option TransportClient;
  ExtensionsClient : option TransportClient;
  DiscoveryClient : TransportClient
}.

(** The client of a group, if that is registered. *)
Definition group_client (group : string) (c : Config) : M Machine (string + option TransportClient) :=
  if IsRegistered group then
    r ← NewGroup group c;
    match r : string + TransportClient with
    | inl err => mret (inl err)
    | inr client => mret (inr (Some client))
    end
  else mret (inr None).

Definition New (c : Config) : M Machine (string + Client) :=
  match set_legacy_defaults c with
  | inl err => mret (inl err)
  | inr config =>
      client ← RESTClientFor config;
      match client : string + TransportClient with
      | inl err => mret (inl err)
      | inr client =>
          discovery ← NewDiscoveryClientForConfig c;
          match discovery : string + TransportClient with
          | inl err => mret (inl err)
          | inr discovery =>
              a ← group_client "autoscaling" c;
              match a : string + option TransportClient with
              | inl err => mret (inl err)
              | inr a =>
                  b ← group_client "batch" c;
                  match b : string + option TransportClient with
                  | inl err => mret (inl err)
                  | inr b =>
                      e ← group_client "extensions" c;
                      match e : string + option TransportClient with
                      | inl err => mret (inl err)
                      | inr e => mret (inr (mkClient client a b e discovery))
                      end
                  end
              end
          end
      end
  end.
End Config.
