(* ===== verification/RESTConfigProps.v ===== *)
(** The properties of [RESTConfig]: which scheme a client has, and that its credentials
    are kept to encrypted connections. *)

From Stdlib Require Import Ascii QArith.
From stdpp Require Import gmap strings list.
From S2P Require Import Prelude GoStrings Strconv GoURL GoURLProps ApiErrors GoTime TokenBucket BucketRate Request OS Mergo.
From S2P Require Import Transport TransportProps.
From S2P Require Import RESTConfig.

Local Open Scope Z_scope.

(** ** Schemes *)
Section Schemes.
Context {gf : GoFormats}.

Lemma parse_parts_http (tls : bool) t u (sch := if tls then "https" else "http") :
  parse_parts (sch +:+ "://" +:+ t) false = inr u → Scheme u = sch.
Proof.
  unfold parse_parts. rewrite decide_False by (by intros [_ ?]). rewrite decide_False by (by destruct tls).
  assert (getscheme (sch +:+ "://" +:+ t) = inr (sch, "//" +:+ t)) as -> by by destruct tls.
  cbv beta iota. assert (ToLower sch = sch) as -> by by destruct tls.
  destruct (cut "?" ("//" +:+ t)) as [rest query].
  assert (bool_decide (sch ≠ "") = true) as -> by by destruct tls.
  cbn [andb orb]. destruct (negb (HasPrefix rest "/")); cbn [andb]; [by intros [= <-]|].
  destruct (HasPrefix rest "//"); [destruct (split_keep slash (drop2 rest)) as [a r]|];
    (destruct (both _ _) as [|[[user host] path]]; [done|]; intros [= <-]; by case_decide).
Qed.
Lemma cut_front c a s : has_byte c a = false → cut c (a +:+ s) = (a +:+ (cut c s).1, (cut c s).2).
Proof.
  induction a as [|d a IH]; [intros _; rewrite !append_nil; by destruct (cut c s)|]. cbn [has_byte]. intros [H1 H2]%orb_false_iff.
  apply bool_decide_eq_false in H1. rewrite append_cons. cbn [cut]. rewrite decide_False by auto. by rewrite IH.
Qed.
Lemma Parse_http (tls : bool) s u (sch := if tls then "https" else "http") :
  url_Parse (sch +:+ "://" +:+ s) = inr u → Scheme u = sch.
Proof.
  unfold url_Parse. rewrite <-append_assoc, cut_front by by destruct tls. rewrite append_assoc.
  destruct (parse_parts (sch +:+ "://" +:+ (cut "#" s).1) false) as [|v] eqn:E; [done|].
  apply parse_parts_http in E. cbn [url_error].
  destruct (cut "#" s).2 as [[|c f]|]; [by intros [= <-]| |by intros [= <-]].
  destruct (unescape _ _); [done|]. by intros [= <-].
Qed.

(** The scheme of the server is that of the host, if it has one. *)
Lemma DefaultServerURL_scheme host api gv tls u p : DefaultServerURL host api gv tls = inr (u, p) →
  ∃ v, url_Parse host = inr v ∧
    Scheme u = if decide (Scheme v = "") then (if tls then "https" else "http") else Scheme v.
Proof.
  unfold DefaultServerURL. case_decide; [done|]. destruct (url_Parse host) as [|v] eqn:Ev; [done|].
  intros Hu. exists v. split; [done|]. destruct (decide (Scheme v = "")) as [Hs|Hs]; [|by injection Hu as <- _].
  destruct (url_Parse ((if tls then "https://" else "http://") +:+ host)) as [|w] eqn:Ew; [done|].
  assert (Scheme w = if tls then "https" else "http") as Hw
    by (destruct tls; [apply (Parse_http true host)|apply (Parse_http false host)]; exact Ew).
  destruct (decide (_ ∧ _)); [done|]. by injection Hu as <- _.
Qed.

(** The URL does not depend on what is asked for below it. *)
Definition api_path (api : string) (gv : ApiErrors.GroupVersion) : string :=
  if decide (gv_Group gv ≠ "") then Join [Join ["/"; api]; gv_Group gv; gv_Version gv] else Join [Join ["/"; api]; gv_Version gv].
Lemma DefaultServerURL_api host api gv tls u p : DefaultServerURL host api gv tls = inr (u, p) →
  (∀ api' gv', DefaultServerURL host api' gv' tls = inr (u, api_path api' gv')) ∧ p = api_path api gv.
Proof.
  unfold DefaultServerURL. case_decide; [done|].
  destruct (match url_Parse host with inl err => inl err | inr hostURL => _ end) as [|v]; [done|]. by intros [= <- <-].
Qed.

(** A host that makes a bare configuration secure makes every one secure. *)
Definition https_host (host : string) : Prop :=
  ∀ c u p, RESTConfig.Host c = host → defaultServerUrlFor c = inr (u, p) → Scheme u = "https".
Lemma IsConfigTransportTLS_host host : IsConfigTransportTLS (set_Host host zero_Config) = true → https_host host.
Proof.
  unfold IsConfigTransportTLS. destruct (defaultServerUrlFor (set_Host host zero_Config)) as [|[u p]] eqn:E; [done|].
  intros Hs%bool_decide_eq_true c u' p' Hc E'. unfold defaultServerUrlFor in E, E'. rewrite Hc in E'.
  cbn in E. apply DefaultServerURL_scheme in E as (v & Ev & Hu), E' as (v' & Ev' & ->).
  rewrite Ev in Ev'. injection Ev' as <-. rewrite Hu in Hs. by destruct (decide (Scheme v = "")).
Qed.
Lemma https_text rest : https_host ("https://" +:+ rest).
Proof.
  intros c u p Hc. unfold defaultServerUrlFor. rewrite Hc, decide_False by done.
  intros (v & Ev & ->)%DefaultServerURL_scheme. apply (Parse_http true rest) in Ev. by rewrite Ev, decide_False.
Qed.

(** The credentials of a configuration are for one method, and its host is secure if
    there are any. *)
Record guarded (c : RESTConfig.Config) : Prop := {
  gd_secure : RESTConfig.Username c ≠ "" ∨ RESTConfig.BearerToken c ≠ "" → https_host (RESTConfig.Host c);
  gd_single : RESTConfig.Username c = "" ∨ RESTConfig.BearerToken c = ""
}.

(** Configurations for the same server and user. *)
Definition same_user (c c' : RESTConfig.Config) : Prop :=
  RESTConfig.Host c = RESTConfig.Host c' ∧ RESTConfig.Username c = RESTConfig.Username c' ∧
  RESTConfig.Password c = RESTConfig.Password c' ∧ RESTConfig.BearerToken c = RESTConfig.BearerToken c'.
#[export] Instance same_user_equiv : Equivalence same_user.
Proof. split; unfold same_user; repeat intro; intuition congruence. Qed.
#[export] Instance guarded_proper : Proper (same_user ==> iff) guarded.
Proof.
  assert (∀ c c', same_user c c' → guarded c → guarded c') as Hc; [|intros c c' E; split; apply Hc; [|symmetry]; done].
  intros c c' (E1 & E2 & _ & E4) [H1 H2]. split; rewrite <-?E1, <-E2, <-E4; done.
Qed.
End Schemes.

(** ** Merging configurations *)

Definition pick (dst src : string) : string := if decide (src = "") then dst else src.
Lemma Merge_Config_total (dst src : RESTConfig.Config) : ∃ d, deepMerge dst src = Some d ∧
  RESTConfig.Host d = pick (RESTConfig.Host dst) (RESTConfig.Host src) ∧
  RESTConfig.Username d = pick (RESTConfig.Username dst) (RESTConfig.Username src) ∧
  RESTConfig.Password d = pick (RESTConfig.Password dst) (RESTConfig.Password src) ∧
  RESTConfig.BearerToken d = pick (RESTConfig.BearerToken dst) (RESTConfig.BearerToken src) ∧
  RESTConfig.Insecure d = RESTConfig.Insecure dst || RESTConfig.Insecure src.
Proof.
  assert (∃ x, deepMerge (content dst) (content src) = Some x) as [x Hx].
  { unfold deepMerge, Merge_content. rewrite merge_string. cbn [mbind option_bind].
    assert (∃ g, deepMerge (RESTConfig.GroupVersion (content dst)) (RESTConfig.GroupVersion (content src)) = Some g) as [g ->].
    { destruct (RESTConfig.GroupVersion (content dst)), (RESTConfig.GroupVersion (content src)); by eexists. }
    by eexists. }
  assert (∃ t, deepMerge (RESTConfig.TLS dst) (RESTConfig.TLS src) = Some t) as [t Ht] by by eexists.
  unfold deepMerge at 1, Merge_Config. rewrite Hx, Ht, !merge_string, merge_bool. cbn [mbind option_bind].
  eexists. split; [reflexivity|]. by split_and!.
Qed.

(** ** Certificates *)
Section Certificates.
Context {cp : CertPools}.

(** The blocks of a text. *)
Inductive blocks : string → list pem_Block → Prop :=
| blocks_end s : s = "" ∨ pem_Decode s = None → blocks s []
| blocks_more s b rest bs : s ≠ "" → pem_Decode s = Some (b, rest) → blocks rest bs → blocks s (b :: bs).
Lemma blocks_total s : ∃ bs, blocks s bs.
Proof.
  induction (well_founded_ltof _ String.length s) as [s _ IH]. unfold ltof in IH.
  destruct (decide (s = "")) as [->|Hs]; [by exists []; constructor; left|].
  destruct (pem_Decode s) as [[b rest]|] eqn:E; [|by exists []; constructor; right].
  destruct (IH rest (pem_Decode_rest _ _ _ E)) as [bs Hbs]. exists (b :: bs). by eapply blocks_more.
Qed.

Definition is_certificate (b : pem_Block) : Prop := block_Type b = "CERTIFICATE" ∧ block_Headers b = ∅.
#[local] Instance is_certificate_dec b : Decision (is_certificate b).
Proof. unfold is_certificate. apply _. Defined.
Definition parses (b : pem_Block) (c : Certificate) : Prop := ParseCertificate (block_Bytes b) = inr c.

Lemma CertsFromPEM_loop_spec s bs : blocks s bs → ∀ fuel certs out, (String.length s <= fuel)%nat →
  CertsFromPEM_loop fuel s certs = (out, None) ↔
  out ≠ [] ∧ ∃ new, out = certs ++ new ∧ Forall2 parses (filter is_certificate bs) new.
Proof.
  assert (∀ certs out, (certs, match certs with [] => Some "could not read any certificates" | _ => None end) = (out, None) ↔
    out ≠ [] ∧ ∃ new, out = certs ++ new ∧ Forall2 parses [] new) as Hend.
  { intros certs out. split.
    - intros [= -> Hc]. destruct out; [done|]. split; [done|]. exists []. by rewrite app_nil_r.
    - intros (Hne & new & -> & ->%Forall2_nil_inv_l). rewrite app_nil_r in *. by destruct certs. }
  induction 1 as [s He|s b rest bs Hs Hd _ IH]; intros fuel certs out Hf.
  { destruct fuel; cbn [CertsFromPEM_loop]; [apply Hend|]. destruct He as [->|He]; [apply Hend|].
    case_decide; [apply Hend|]. rewrite He. apply Hend. }
  destruct fuel as [|fuel]; [destruct s; [done|cbn in Hf; lia]|]. pose proof (pem_Decode_rest _ _ _ Hd).
  assert (String.length rest <= fuel)%nat as Hr by lia.
  cbn [CertsFromPEM_loop]. rewrite decide_False, Hd by done. rewrite filter_cons.
  destruct (decide (is_certificate b)) as [Hc|Hc].
  - rewrite decide_False by (unfold is_certificate in Hc; naive_solver).
    destruct (ParseCertificate (block_Bytes b)) as [err|c] eqn:Hp.
    + split; [done|]. intros (_ & new & _ & Hn). inversion Hn as [|? ? ? ? Hb]. subst. unfold parses in Hb. congruence.
    + rewrite IH by done. apply and_iff_compat_l. split.
      * intros (new & -> & Hn). exists (c :: new). rewrite <-app_assoc. split; [done|by constructor].
      * intros (new & -> & Hn). inversion Hn as [|? c' ? new' Hb Hn']. subst. unfold parses in Hb.
        assert (c' = c) as -> by congruence. exists new'. by rewrite <-app_assoc.
  - rewrite decide_True; [by apply IH|]. unfold is_certificate in Hc. destruct (decide (block_Type b = "CERTIFICATE")); naive_solver.
Qed.

(** A file of roots is accepted exactly if it has a certificate and all are well formed. *)
Lemma CertsFromPEM_spec s : ∃ bs, blocks s bs ∧ ∀ certs,
  CertsFromPEM s = (certs, None) ↔ certs ≠ [] ∧ Forall2 parses (filter is_certificate bs) certs.
Proof.
  destruct (blocks_total s) as [bs Hbs]. exists bs. split; [done|]. intros certs. unfold CertsFromPEM.
  rewrite (CertsFromPEM_loop_spec s bs Hbs) by done. apply and_iff_compat_l. split.
  - by intros (new & -> & Hn).
  - intros Hn. by exists certs.
Qed.
End Certificates.

(** ** Reading *)
Section Reading.
Context {gf : GoFormats} {pr : Process} {kp : KeyPairs} {ck : Clocks} {rg : Registered} {cp : CertPools}.

Lemma reads_InClusterConfig : reads id InClusterConfig.
Proof. unfold InClusterConfig, CertPoolFromFile, certificatesFromFile. solve_reads. Qed.

#[local] Hint Resolve reads_New : reads.
Lemma reads_client_for c gv : reads fst (client_for c gv).
Proof. unfold client_for, TransportFor, throttle_for. solve_reads. Qed.
#[local] Hint Resolve reads_client_for : reads.
Lemma reads_RESTClientFor c : reads fst (RESTClientFor c).
Proof. unfold RESTClientFor. solve_reads. Qed.
#[local] Hint Resolve reads_RESTClientFor : reads.
(** Making a client reads the files of the TLS configuration. *)
Lemma reads_client c : reads fst (RESTConfig.New c).
Proof.
  unfold RESTConfig.New, NewDiscoveryClientForConfig, UnversionedRESTClientFor, group_client, NewGroup. solve_reads.
Qed.
End Reading.

(** ** Clients *)
Section Clients.
Context {gf : GoFormats} {pr : Process} {kp : KeyPairs} {ck : Clocks} {rg : Registered}.

Lemma get_bottom c s rt s' : Transport.get c s = Ret (inr rt) s' → at_bottom rt.
Proof.
  unfold Transport.get. rewrite bind_unfold. destruct (on_disk _ s) as [[|[key c']] s1|?|?|?]; try done.
  rewrite bind_unfold. unfold gets at 1. destruct (s1.2 !! key) as [t|]; [by intros [= <- _]|].
  rewrite bind_unfold. destruct (on_disk _ s1) as [[|[t|]] s2|?|?|?]; try done; by intros [= <- _].
Qed.

(** ** Limiters *)

(** A limiter can be had for a configuration, at any time, or is not wanted. *)
Definition has_limiter (c : RESTConfig.Config) : Prop :=
  Qle_bool (QPS c) 0 = true ∨ ∀ now, ∃ b, NewTokenBucketRateLimiter (QPS c) (Burst c) now = inr b.

Lemma throttle_for_Ret c s t s' : throttle_for c s = Ret t s' → s' = s ∧
  match t with
  | None => Qle_bool (QPS c) 0 = true
  | Some b => Qle_bool (QPS c) 0 = false ∧ NewTokenBucketRateLimiter (QPS c) (Burst c) (limiter_time c) = inr b
  end.
Proof.
  unfold throttle_for. destruct (Qle_bool (QPS c) 0) eqn:Hq; [by intros [= <- <-]|].
  destruct (NewTokenBucketRateLimiter _ _ _) as [|b]; [done|]. by intros [= <- <-].
Qed.
Lemma throttle_for_has c s : has_limiter c → ∃ t, throttle_for c s = Ret t s.
Proof.
  unfold throttle_for. intros [-> | H]; [by eexists|]. destruct (Qle_bool (QPS c) 0); [by eexists|].
  destruct (H (limiter_time c)) as [b ->]. by eexists.
Qed.

(** A client is for the server of its configuration, and its transport wraps one at the
    bottom. *)
Lemma client_for_spec config gv s tc s' : client_for config gv s = Ret (inr tc) s' →
  ∃ u p bottom, defaultServerUrlFor config = inr (u, p) ∧ Scheme (base (rest tc)) = Scheme u ∧
    at_bottom bottom ∧ HTTPWrappersForConfig verbosity (transportConfig config) bottom = inr (transport tc).
Proof.
  unfold client_for. destruct (defaultServerUrlFor config) as [|[u p]]; [done|].
  unfold TransportFor, Transport.New. rewrite !bind_unfold.
  destruct (Transport.get _ s) as [[|rt] s1|?|?|?] eqn:Hg; try done. cbv beta iota.
  destruct (HTTPWrappersForConfig verbosity (transportConfig config) rt) as [|rt'] eqn:Hw; [done|].
  intros (t & s2 & _ & [= <- _])%bind_Ret_inv. exists u, p, rt. by apply get_bottom in Hg.
Qed.

(** What a client sends is as the configuration says, and encrypted if it has
    credentials. *)
Definition sends_safely (tc : TransportClient) : Prop :=
  ∀ req, Header_Get "Authorization" (req_Header req) = "" →
    Header_Get "Authorization" (req_Header (RoundTrip (transport tc) req).2) ≠ "" →
    Scheme (base (rest tc)) = "https".

Lemma auth_needs_user config dflt : default dflt (credentials (transportConfig config)) ≠ dflt →
  RESTConfig.Username config ≠ "" ∨ RESTConfig.BearerToken config ≠ "".
Proof.
  unfold credentials. destruct (HasTokenAuth _) eqn:Ht; [intros _; right; by apply bool_decide_eq_true in Ht|].
  destruct (HasBasicAuth _) eqn:Hb; [intros _; left; by apply bool_decide_eq_true in Hb|done].
Qed.
Lemma client_for_safe config gv s tc s' :
  guarded config → client_for config gv s = Ret (inr tc) s' → sends_safely tc.
Proof.
  intros [Hsec Hone] (u & p & bottom & Hu & Hs & Hb & Hw)%client_for_spec req Hno Hauth.
  rewrite (RoundTrip_wrapped _ _ _ _ _ Hb Hw) in Hauth. cbn [snd] in Hauth.
  rewrite with_default_same, with_default_other, Hno, decide_True in Hauth by done.
  rewrite Hs. apply (Hsec (auth_needs_user _ _ Hauth) config u p); done.
Qed.

Lemma with_agent_user config : same_user (with_agent config) config.
Proof. unfold with_agent. by case_decide. Qed.
Lemma group_defaults_user group config config' : set_group_defaults group config = inr config' → same_user config' config.
Proof.
  unfold set_group_defaults. destruct (Group group); [done|]. intros [= <-]. unfold with_limits, set_group.
  unfold with_agent. by destruct (decide _).
Qed.
Lemma legacy_defaults_user config config' : set_legacy_defaults config = inr config' → same_user config' config.
Proof.
  unfold set_legacy_defaults, SetKubernetesDefaults, with_limits, with_agent, set_group.
  destruct (Group ""); [done|]. intros [= <-]. by destruct (decide (APIPath config = "")); cbn; destruct (decide _).
Qed.

Lemma discovery_defaults_user config : same_user (setDiscoveryDefaults config) config.
Proof. unfold setDiscoveryDefaults. by rewrite with_agent_user. Qed.

Lemma RESTClientFor_safe config s tc s' : guarded config → RESTClientFor config s = Ret (inr tc) s' → sends_safely tc.
Proof.
  intros Hg. unfold RESTClientFor. destruct (RESTConfig.GroupVersion _); [|done]. destruct (negb _); [done|].
  by apply client_for_safe.
Qed.

(** The clients that a client of the API has. *)
Definition clients_of (cl : RESTConfig.Client) : list TransportClient :=
  client cl :: DiscoveryClient cl ::
  option_list (AutoscalingClient cl) ++ option_list (BatchClient cl) ++ option_list (ExtensionsClient cl).

Lemma group_client_safe group c s r s' : guarded c → group_client group c s = Ret (inr r) s' → Forall sends_safely (option_list r).
Proof.
  intros Hg. unfold group_client. destruct (IsRegistered group); [|intros [= <- _]; constructor].
  rewrite bind_unfold. unfold NewGroup. destruct (set_group_defaults group c) as [|c'] eqn:Hc; [done|].
  apply group_defaults_user in Hc. rewrite <-Hc in Hg.
  destruct (RESTClientFor c' s) as [[|tc] s1|?|?|?] eqn:Hr; try done. intros [= <- _].
  apply Forall_singleton. by eapply RESTClientFor_safe.
Qed.
Lemma New_safe c s cl s' : guarded c → New c s = Ret (inr cl) s' → Forall sends_safely (clients_of cl).
Proof.
  intros Hg. unfold New. destruct (set_legacy_defaults c) as [|config] eqn:Hl; [done|].
  apply legacy_defaults_user in Hl. assert (guarded config) as Hgc by by rewrite Hl.
  rewrite bind_unfold. destruct (RESTClientFor config s) as [[|rc] s1|?|?|?] eqn:H1; try done.
  apply RESTClientFor_safe in H1; [|done].
  rewrite bind_unfold. destruct (NewDiscoveryClientForConfig c s1) as [[|dc] s2|?|?|?] eqn:H2; try done.
  assert (sends_safely dc) as Hd.
  { unfold NewDiscoveryClientForConfig, UnversionedRESTClientFor in H2. destruct (negb _); [done|].
    eapply client_for_safe; [|done]. rewrite discovery_defaults_user. exact Hg. }
  rewrite bind_unfold. destruct (group_client "autoscaling" c s2) as [[|a] s3|?|?|?] eqn:H3; try done.
  rewrite bind_unfold. destruct (group_client "batch" c s3) as [[|b] s4|?|?|?] eqn:H4; try done.
  rewrite bind_unfold. destruct (group_client "extensions" c s4) as [[|e] s5|?|?|?] eqn:H5; try done.
  intros [= <- _]. unfold clients_of. cbn.
  repeat apply Forall_cons_2; [done..|]. repeat apply Forall_app_2; (eapply group_client_safe; [exact Hg|eassumption]).
Qed.

(** The client that [New] makes: it is for [/api] and the version of the legacy group
    below the path of the host, speaks JSON unless told otherwise, and has a limit on its
    requests: a rate of zero, which is to mean no limit, is replaced by five a second. *)
Theorem New_client (c : RESTConfig.Config) (s s' : Machine) (cl : RESTConfig.Client) (gv : ApiErrors.GroupVersion) :
  groupMetaMap !! "" = Some gv → New c s = Ret (inr cl) s' → APIPath c = "" → RESTConfig.ContentType (content c) = "" →
  let r := rest (client cl) in
  ∃ u, (∃ p, defaultServerUrlFor c = inr (u, p)) ∧
    base r = set_Fragment "" (set_RawQuery "" (set_Path (if ends_with_slash (Path u) then Path u else Path u +:+ "/") u)) ∧
    (gv_Group gv = "" → versionedAPIPath r = Join ["/api"; gv_Version gv]) ∧
    contentConfig r = mkContentConfig "application/json" gv ∧
    (let burst := if decide (Burst c = 0) then 10 else Burst c in
     let qps := if Qeq_bool (QPS c) 0 then 5%Q else QPS c in
     match Throttle r with
     | None => Qle_bool qps 0 = true
     | Some b => Qle_bool qps 0 = false ∧ ∃ now, NewTokenBucketRateLimiter qps burst now = inr b
     end).
Proof.
  intros Hgv Hnew Hpath Hct. unfold New, set_legacy_defaults, Group in Hnew. rewrite Hgv, Hpath, decide_True in Hnew by done.
  set (config := SetKubernetesDefaults _) in Hnew.
  rewrite bind_unfold in Hnew. destruct (RESTClientFor config s) as [[|tc] s1|?|?|?] eqn:H1; try done.
  assert (client cl = tc) as ->.
  { rewrite bind_unfold in Hnew. destruct (NewDiscoveryClientForConfig c s1) as [[|dc] s2|?|?|?]; try done.
    rewrite bind_unfold in Hnew. destruct (group_client "autoscaling" c s2) as [[|a] s3|?|?|?]; try done.
    rewrite bind_unfold in Hnew. destruct (group_client "batch" c s3) as [[|b] s4|?|?|?]; try done.
    rewrite bind_unfold in Hnew. destruct (group_client "extensions" c s4) as [[|e] s5|?|?|?]; try done.
    by injection Hnew as <- _. }
  clear Hnew. assert (RESTConfig.GroupVersion (content config) = Some gv ∧ RESTConfig.Codec (content config) = true ∧
    APIPath config = "/api" ∧ RESTConfig.ContentType (content config) = "" ∧
    RESTConfig.Host config = RESTConfig.Host c ∧ RESTConfig.TLS config = RESTConfig.TLS c ∧ RESTConfig.Insecure config = RESTConfig.Insecure c ∧
    QPS config = (if Qeq_bool (QPS c) 0 then 5%Q else QPS c) ∧ Burst config = (if decide (Burst c = 0) then 10 else Burst c))
    as (E1 & E2 & E3 & E4 & E5 & E6 & E7 & E8 & E9).
  { unfold config, SetKubernetesDefaults, with_limits, with_agent, set_group. by destruct (decide _). }
  clearbody config. unfold RESTClientFor in H1. rewrite E1, E2 in H1. cbn [negb] in H1. unfold client_for in H1.
  destruct (defaultServerUrlFor config) as [|[u p]] eqn:Hu; [done|].
  rewrite bind_unfold in H1. destruct (TransportFor config s) as [[|rt] s2|?|?|?]; try done.
  apply bind_Ret_inv in H1 as (t & s3 & [_ Ht]%throttle_for_Ret & [= <- _]).
  unfold defaultServerUrlFor in Hu. rewrite E1, E3, E5, E6, E7 in Hu. cbn [default] in Hu. unfold id in Hu.
  apply DefaultServerURL_api in Hu as [Hu ->]. exists u. split; [eexists; unfold defaultServerUrlFor; rewrite Hpath; apply Hu|].
  cbn [rest NewRESTClient base versionedAPIPath contentConfig Throttle]. rewrite E4. rewrite E8, E9 in Ht.
  split; [done|]. split; [intros Hg; unfold api_path; rewrite Hg, decide_False by tauto; done|]. split; [done|].
  cbv zeta. destruct t; [|exact Ht]. split; [apply Ht|]. eexists. apply Ht.
Qed.
(** ** A client without credentials

    A configuration for a URL, with nothing for TLS and no user. *)
Record open_config (u : URL) (c : RESTConfig.Config) : Prop := {
  oc_host : url_Parse (RESTConfig.Host c) = inr u;
  oc_ne : RESTConfig.Host c ≠ "";
  oc_scheme : Scheme u ≠ "";
  oc_tls : RESTConfig.TLS c = zero_TLS;
  oc_secure : RESTConfig.Insecure c = false;
  oc_user : RESTConfig.Username c = "";
  oc_token : RESTConfig.BearerToken c = ""
}.
Lemma open_config_url u c : open_config u c → defaultServerUrlFor c = inr (u, api_path (APIPath c)
  (default (mkGroupVersion "" "") (RESTConfig.GroupVersion (content c)))).
Proof.
  intros [Hh Hne Hs Ht Hi _ _]. unfold defaultServerUrlFor, DefaultServerURL. rewrite Ht, Hi.
  rewrite (decide_False (P := RESTConfig.Host c = "")) by done. rewrite (decide_False (P := RESTConfig.Host c = "")) by done.
  by rewrite Hh, decide_False.
Qed.
Lemma open_TransportFor u c o : open_config u c → ∃ rt, TransportFor c (o, ∅) = Ret (inr rt) (o, ∅).
Proof.
  intros [_ _ _ Ht Hi Hu Hb].
  unfold TransportFor, Transport.New, Transport.get, transportConfig. rewrite Ht, Hi, Hu, Hb.
  eexists. reflexivity.
Qed.
(** Only the limiter is in the way of a client. *)
Lemma open_client_cases u c gv o : open_config u c →
  (∃ t tc, throttle_for c (o, ∅) = Ret t (o, ∅) ∧ client_for c gv (o, ∅) = Ret (inr tc) (o, ∅)) ∨
  (∃ msg, throttle_for c (o, ∅) = Panic msg (o, ∅) ∧ client_for c gv (o, ∅) = Panic msg (o, ∅)).
Proof.
  intros Hc. destruct (open_TransportFor u c o Hc) as [rt Hrt].
  assert (client_for c gv (o, ∅) = (t ← throttle_for c; mret (inr (mkTransportClient
    (NewRESTClient u (api_path (APIPath c) (default (mkGroupVersion "" "") (RESTConfig.GroupVersion (content c))))
      (mkContentConfig (RESTConfig.ContentType (content c)) gv) t (negb (is_default rt))) rt))) (o, ∅)) as ->.
  { unfold client_for. rewrite (open_config_url u c Hc). by run Hrt. }
  rewrite bind_unfold. unfold throttle_for. destruct (Qle_bool (QPS c) 0); [left; by do 2 eexists|].
  destruct (NewTokenBucketRateLimiter _ _ _); [right|left]; repeat eexists.
Qed.
Lemma open_client u c gv o : open_config u c → has_limiter c → ∃ tc, client_for c gv (o, ∅) = Ret (inr tc) (o, ∅).
Proof.
  intros Hc Hl. destruct (throttle_for_has c (o, ∅) Hl) as [t Ht].
  destruct (open_client_cases u c gv o Hc) as [(_ & tc & _ & H)|(msg & Hp & _)]; [by exists tc|congruence].
Qed.
Lemma no_burst_client u c gv o : open_config u c → Qle_bool (QPS c) 0 = false → Burst c <= 0 →
  ∃ msg, client_for c gv (o, ∅) = Panic msg (o, ∅).
Proof.
  intros Hc Hq Hb. destruct (open_client_cases u c gv o Hc) as [(t & tc & Ht & _)|(msg & _ & H)]; [|by exists msg].
  apply throttle_for_Ret in Ht as [_ Ht]. destruct t as [b|]; [|congruence]. destruct Ht as [_ Hm].
  destruct (NewBucketWithRate_empty (of_Q (QPS c)) (Burst c) (limiter_time c) Hb) as [msg Hmsg].
  unfold NewTokenBucketRateLimiter in Hm. congruence.
Qed.
Lemma open_RESTClient u c o : open_config u c → has_limiter c → is_Some (RESTConfig.GroupVersion (content c)) → RESTConfig.Codec (content c) = true →
  ∃ tc, RESTClientFor c (o, ∅) = Ret (inr tc) (o, ∅).
Proof. intros Hc Hl [gv Hg] Hk. unfold RESTClientFor. rewrite Hg, Hk. by apply (open_client u). Qed.
Lemma open_group u c group o : open_config u c → has_limiter (with_limits c) → ∃ tc, group_client group c (o, ∅) = Ret (inr tc) (o, ∅).
Proof.
  intros Hc Hl. unfold group_client, IsRegistered, NewGroup, set_group_defaults, Group.
  destruct (groupMetaMap !! group) as [gv|]; [|by eexists].
  edestruct (open_RESTClient u (with_limits (set_group gv (with_agent (set_APIPath defaultAPIPath c)))) o) as [tc Htc];
    [| |unfold with_agent; by case_decide..|].
  - destruct Hc. unfold with_limits, set_group, with_agent. by case_decide.
  - unfold has_limiter, with_limits, set_group, with_agent in *. by destruct (decide (UserAgent _ = "")).
  - run Htc. by eexists.
Qed.
Lemma discovery_client_for c : NewDiscoveryClientForConfig c = client_for (setDiscoveryDefaults c) SchemeGroupVersion.
Proof. unfold NewDiscoveryClientForConfig, UnversionedRESTClientFor, setDiscoveryDefaults, with_agent. by case_decide. Qed.
Lemma discovery_defaults u c : open_config u c →
  open_config u (setDiscoveryDefaults c) ∧ QPS (setDiscoveryDefaults c) = QPS c ∧ Burst (setDiscoveryDefaults c) = Burst c.
Proof. intros [? ? ? ? ? ? ?]. unfold setDiscoveryDefaults, with_agent. by case_decide. Qed.
(** The defaults keep what is set, and make the client one of the legacy group. *)
Lemma legacy_defaults u c gv : open_config u c → groupMetaMap !! "" = Some gv → ∃ config, set_legacy_defaults c = inr config ∧
  RESTClientFor config = client_for config gv ∧ open_config u config ∧
  QPS config = QPS (with_limits c) ∧ Burst config = Burst (with_limits c).
Proof.
  intros [? ? ? ? ? ? ?] Hgv. unfold set_legacy_defaults, Group. rewrite Hgv. eexists. split; [done|].
  unfold RESTClientFor, SetKubernetesDefaults, with_limits, with_agent, set_group.
  destruct (decide (APIPath c = "")); cbn; by destruct (decide (UserAgent c = "")).
Qed.
Lemma open_New u c gv o : open_config u c → has_limiter c → has_limiter (with_limits c) → groupMetaMap !! "" = Some gv →
  ∃ cl, New c (o, ∅) = Ret (inr cl) (o, ∅).
Proof.
  intros Hc Hl Hl' Hgv. destruct (legacy_defaults u c gv Hc Hgv) as (config & Hd & Hr & Ho & Hq & Hb).
  unfold New. rewrite Hd, Hr. destruct (open_client u config gv o Ho) as [tc Htc]; [unfold has_limiter; by rewrite Hq, Hb|]. run Htc.
  destruct (discovery_defaults u c Hc) as (Ho' & Hq' & Hb'). rewrite discovery_client_for.
  destruct (open_client u (setDiscoveryDefaults c) SchemeGroupVersion o Ho') as [dc Hdc]; [unfold has_limiter; by rewrite Hq', Hb'|].
  run Hdc. destruct (open_group u c "autoscaling" o Hc Hl') as [a Ha], (open_group u c "batch" o Hc Hl') as [b Hb1],
    (open_group u c "extensions" o Hc Hl') as [e He].
  run Ha. run Hb1. run He. by eexists.
Qed.
(** The client for the discovery of the API takes the burst as it is, so a burst of zero,
    which is ten for the other clients, is a panic. *)
Lemma no_burst_New u c gv o : open_config u c → groupMetaMap !! "" = Some gv → Qle_bool (QPS c) 0 = false → Burst c <= 0 →
  ∃ msg, New c (o, ∅) = Panic msg (o, ∅).
Proof.
  intros Hc Hgv Hq Hb. destruct (legacy_defaults u c gv Hc Hgv) as (config & Hd & Hr & Ho & _).
  destruct (discovery_defaults u c Hc) as (Ho' & Hq' & Hb').
  destruct (no_burst_client u (setDiscoveryDefaults c) SchemeGroupVersion o Ho') as [msg Hmsg]; [by rewrite Hq'|by rewrite Hb'|].
  unfold New. rewrite Hd, Hr, bind_unfold. destruct (open_client_cases u config gv o Ho) as [(_ & tc & _ & ->)|(m & _ & ->)].
  - rewrite discovery_client_for, bind_unfold, Hmsg. by exists msg.
  - by exists m.
Qed.
Lemma negative_burst_New u c gv o : open_config u c → groupMetaMap !! "" = Some gv →
  Qle_bool (QPS (with_limits c)) 0 = false → Burst c < 0 → ∃ msg, New c (o, ∅) = Panic msg (o, ∅).
Proof.
  intros Hc Hgv Hq Hb. destruct (legacy_defaults u c gv Hc Hgv) as (config & Hd & Hr & Ho & Hq' & Hb').
  destruct (no_burst_client u config gv o Ho) as [msg Hmsg]; [by rewrite Hq'| |].
  - rewrite Hb'. unfold with_limits. cbn [Burst set_limits]. case_decide; lia.
  - exists msg. unfold New. by rewrite Hd, Hr, bind_unfold, Hmsg.
Qed.
End Clients.

(** * Witnesses *)
Section Witnesses.
#[local] Existing Instance plain_formats.

(** A pod on Linux, with the legacy API group. *)
Definition pod : Process := {|
  environ k := if decide (k = "KUBERNETES_SERVICE_HOST") then "10.254.0.1"
               else if decide (k = "KUBERNETES_SERVICE_PORT") then "443" else "";
  arg0 := "/usr/bin/kube2haproxy"; getwd := inr "/"; GOOS := "linux"; GOARCH := "amd64"; verbosity := 0
|}.
Definition legacy_group : Registered := <["" := mkGroupVersion "" "v1"]> (∅ : gmap string ApiErrors.GroupVersion).
Definition any_pair : KeyPairs := λ _ _, None.
Definition at_boot : Clocks := λ _, 0.
#[local] Existing Instances pod legacy_group any_pair at_boot.

Definition no_disk : OS := mkOS ∅ [] [].
Definition named_master : Config := set_Host "http://master:8080" zero_Config.

(** The client of [--master=http://master:8080]. *)
Definition made_client : option Client :=
  match New named_master (no_disk, ∅) with Ret (inr cl) _ => Some cl | _ => None end.
Example made_client_URL : (URL_String ∘ base ∘ rest ∘ client) <$> made_client = Some "http://master:8080/".
Proof. vm_compute. reflexivity. Qed.
Lemma New_client_witness : ∃ cl now, made_client = Some cl ∧
  versionedAPIPath (rest (client cl)) = "/api/v1" ∧
  Throttle (rest (client cl)) = Some (mkBucket now 10 1 200000000 10 0).
Proof.
  destruct (New named_master (no_disk, ∅)) as [[err|cl] s'|? ?|?|?] eqn:E; try (vm_compute in E; discriminate E).
  destruct (New_client named_master (no_disk, ∅) s' cl (mkGroupVersion "" "v1") (lookup_insert_eq ∅ "" _) E eq_refl eq_refl)
    as (u & _ & _ & Hv & _ & Ht). exists cl.
  destruct (Throttle (rest (client cl))) as [b|]; [|discriminate Ht]. destruct Ht as (_ & now & Hb). exists now.
  split; [unfold made_client; by rewrite E|]. split; [by rewrite Hv|]. f_equal.
  pose proof (whole_rate 5 10 now ltac:(lia) ltac:(lia)) as Hw. cbv zeta in Hb. change 5%Q with (inject_Z 5) in *.
  change (if Qeq_bool (QPS named_master) 0 then inject_Z 5 else QPS named_master) with (inject_Z 5) in Hb.
  change (if decide (Burst named_master = 0) then 10 else Burst named_master) with 10 in Hb.
  rewrite Hw in Hb. by injection Hb as <-.
Defined.
End Witnesses.
