(* ===== verification/ClientCmd.v ===== *)
(** The package [client/unversioned/clientcmd] of the vendored Kubernetes code, with the
    types of its subpackage [api]: from a kubeconfig file and the command line to a client
    configuration.

    Decoding a kubeconfig file is a parameter ([KubeconfigCodec]), and so is what a prompt
    reads.  The files are those of [OS], where any call may fail.  A [ClientConfig] that
    loads its files when it is asked keeps what it has loaded, and so has a state. *)

From Stdlib Require Import Ascii QArith.
From stdpp Require Import gmap strings list.
From S2P Require Import Prelude GoStrings Strconv GoURL OS Mergo.
From S2P Require RESTConfig.
From S2P Require Transport.

Local Open Scope Z_scope.

(** * api/types.go

    The raw text of an extension stands for the object. *)
Definition Object : Type := string.

Module Cluster.
Record Cluster := mk {
  LocationOfOrigin : string;
  Server : string;
  APIVersion : string;
  InsecureSkipTLSVerify : bool;
  CertificateAuthority : string;
  CertificateAuthorityData : string;
  Extensions : gomap Object
}.
Definition zero : Cluster := mk "" "" "" false "" "" None.
Definition set_origin o c := mk o (Server c) (APIVersion c) (InsecureSkipTLSVerify c) (CertificateAuthority c)
  (CertificateAuthorityData c) (Extensions c).
#[export] Instance Cluster_eq_dec : EqDecision Cluster.
Proof. solve_decision. Defined.
#[export] Instance Merge_Cluster : Merge Cluster := λ dst src,
  o ← deepMerge (LocationOfOrigin dst) (LocationOfOrigin src); s ← deepMerge (Server dst) (Server src);
  v ← deepMerge (APIVersion dst) (APIVersion src); i ← deepMerge (InsecureSkipTLSVerify dst) (InsecureSkipTLSVerify src);
  a ← deepMerge (CertificateAuthority dst) (CertificateAuthority src);
  d ← deepMerge (CertificateAuthorityData dst) (CertificateAuthorityData src);
  e ← deepMerge (Extensions dst) (Extensions src); Some (mk o s v i a d e).
End Cluster.
Export (hints) Cluster.

Module AuthInfo.
Record AuthInfo := mk {
  LocationOfOrigin : string;
  ClientCertificate : string;
  ClientCertificateData : string;
  ClientKey : string;
  ClientKeyData : string;
  Token : string;
  Username : string;
  Password : string;
  Extensions : gomap Object
}.
Definition zero : AuthInfo := mk "" "" "" "" "" "" "" "" None.
Definition set_origin o a := mk o (ClientCertificate a) (ClientCertificateData a) (ClientKey a) (ClientKeyData a)
  (Token a) (Username a) (Password a) (Extensions a).
#[export] Instance Merge_AuthInfo : Merge AuthInfo := λ dst src,
  o ← deepMerge (LocationOfOrigin dst) (LocationOfOrigin src); c ← deepMerge (ClientCertificate dst) (ClientCertificate src);
  d ← deepMerge (ClientCertificateData dst) (ClientCertificateData src); k ← deepMerge (ClientKey dst) (ClientKey src);
  l ← deepMerge (ClientKeyData dst) (ClientKeyData src); t ← deepMerge (Token dst) (Token src);
  u ← deepMerge (Username dst) (Username src); p ← deepMerge (Password dst) (Password src);
  e ← deepMerge (Extensions dst) (Extensions src); Some (mk o c d k l t u p e).
End AuthInfo.
Export (hints) AuthInfo.

(** [Context] of the package. *)
Module KubeContext.
Record KubeContext := mk {
  LocationOfOrigin : string;
  Cluster : string;
  AuthInfo : string;
  Namespace : string;
  Extensions : gomap Object
}.
Definition zero : KubeContext := mk "" "" "" "" None.
Definition set_origin o c := mk o (Cluster c) (AuthInfo c) (Namespace c) (Extensions c).
#[export] Instance Merge_KubeContext : Merge KubeContext := λ dst src,
  o ← deepMerge (LocationOfOrigin dst) (LocationOfOrigin src); c ← deepMerge (Cluster dst) (Cluster src);
  a ← deepMerge (AuthInfo dst) (AuthInfo src); n ← deepMerge (Namespace dst) (Namespace src);
  e ← deepMerge (Extensions dst) (Extensions src); Some (mk o c a n e).
End KubeContext.
Export (hints) KubeContext.

Module Preferences.
Record Preferences := mk { Colors : bool; Extensions : gomap Object }.
#[export] Instance Merge_Preferences : Merge Preferences := λ dst src,
  c ← deepMerge (Colors dst) (Colors src); e ← deepMerge (Extensions dst) (Extensions src); Some (mk c e).
End Preferences.
Export (hints) Preferences.

Record Config := mkConfig {
  Kind : string;
  APIVersion : string;
  Preferences : Preferences.Preferences;
  Clusters : gomap Cluster.Cluster;
  AuthInfos : gomap AuthInfo.AuthInfo;
  Contexts : gomap KubeContext.KubeContext;
  CurrentContext : string;
  Extensions : gomap Object
}.
#[export] Instance Merge_Config : Merge Config := λ dst src,
  k ← deepMerge (Kind dst) (Kind src); v ← deepMerge (APIVersion dst) (APIVersion src);
  p ← deepMerge (Preferences dst) (Preferences src); c ← deepMerge (Clusters dst) (Clusters src);
  a ← deepMerge (AuthInfos dst) (AuthInfos src); x ← deepMerge (Contexts dst) (Contexts src);
  n ← deepMerge (CurrentContext dst) (CurrentContext src); e ← deepMerge (Extensions dst) (Extensions src);
  Some (mkConfig k v p c a x n e).

(** Reading a map, nil or not. *)
Definition get {A} (m : gomap A) (key : string) : option A := m ≫= lookup key.
Definition is_empty {A} (m : gomap A) : bool := match m with None => true | Some m => bool_decide (m = ∅) end.

Definition NewPreferences : Preferences.Preferences := Preferences.mk false (Some ∅).
Definition NewConfig : Config := mkConfig "" "" NewPreferences (Some ∅) (Some ∅) (Some ∅) "" (Some ∅).

(** [api/helpers.go]. *)
Definition IsConfigEmpty (config : Config) : bool :=
  is_empty (AuthInfos config) && is_empty (Clusters config) && is_empty (Contexts config) &&
  bool_decide (CurrentContext config = "") && is_empty (Preferences.Extensions (Preferences config)) &&
  negb (Preferences.Colors (Preferences config)) && is_empty (Extensions config).

(** The byte of a double quote. *)
Definition double_quote : string := String "034" "".

(** * Errors *)

Inductive config_error : Type :=
| ErrNoContext
| ErrEmptyConfig
| ErrEmptyCluster
| errContextNotFound (ContextName : string)
| Message (msg : string)
| FileError (err : error)
| errConfigurationInvalid (errs : list config_error)
| aggregate (errs : list config_error).

(** [aggregate.Error], of the texts. *)
Definition aggregate_text (texts : list string) : string :=
  match texts with
  | [] => ""
  | [t] => t
  | _ => "[" +:+ join ", " texts +:+ "]"
  end.
Fixpoint Error_text (e : config_error) : string :=
  match e with
  | ErrNoContext => "no context chosen"
  | ErrEmptyConfig => "no configuration has been provided"
  | ErrEmptyCluster => "cluster has no server defined"
  | errContextNotFound name => "context was not found for specified context: " +:+ name
  | Message msg => msg
  | FileError err => Transport.os_error err
  | errConfigurationInvalid errs => "invalid configuration: " +:+ aggregate_text (Error_text <$> errs)
  | aggregate errs => aggregate_text (Error_text <$> errs)
  end.

Definition newErrConfigurationInvalid (errs : list config_error) : option config_error :=
  match errs with [] => None | _ => Some (errConfigurationInvalid errs) end.
(** [utilerrors.NewAggregate]. *)
Definition NewAggregate (errs : list config_error) : option config_error :=
  match errs with [] => None | _ => Some (aggregate errs) end.

Definition IsContextNotFound (err : option config_error) : bool :=
  match err with
  | None => false
  | Some (errContextNotFound _ | ErrNoContext) => true
  | Some err => Contains (Error_text err) "context was not found for specified context"
  end.
Definition IsEmptyConfig (err : option config_error) : bool :=
  match err with
  | Some (errConfigurationInvalid [ErrEmptyConfig]) => true
  | Some ErrEmptyConfig => true
  | _ => false
  end.
Definition IsConfigurationInvalid (err : option config_error) : bool :=
  match err with
  | Some (errContextNotFound _ | errConfigurationInvalid _) => true
  | _ => IsContextNotFound err
  end.

(** A merge of which a panic is one of the code. *)
Definition or_panic {S A} (a : option A) : M S A :=
  match a with Some a => mret a | None => panic "assignment to entry in nil map" end.

(** The decoding of a kubeconfig file; its errors are not those of files. *)
Class KubeconfigCodec := {
  Decode_config : string → error + Config;
  Decode_error data err : Decode_config data = inl err → err ≠ ErrNotExist
}.

(** * loader.go *)

Record ClientConfigLoadingRules := mkRules {
  ExplicitPath : string;
  Precedence : list string;
  MigrationRules : gomap string;
  DoNotResolvePaths : bool
}.

(** * overrides.go *)

Record ConfigOverrides := mkOverrides {
  over_AuthInfo : AuthInfo.AuthInfo;
  over_ClusterInfo : Cluster.Cluster;
  over_Context : KubeContext.KubeContext;
  over_CurrentContext : string
}.

(** * client_config.go

    [fallbackReader] is what a prompt for a user name and a password reads. *)
Record DirectClientConfig := mkDirect {
  config : Config;
  contextName : string;
  overrides : ConfigOverrides;
  fallbackReader : option (string * string)
}.

(** * merged_client_builder.go *)

Record DeferredLoadingClientConfig := mkDeferred {
  loadingRules : ClientConfigLoadingRules;
  def_overrides : ConfigOverrides;
  def_fallbackReader : option (string * string);
  clientConfig : option DirectClientConfig
}.

Section ClientCmd.
Context {gf : GoFormats} `{!MapOrder, !RESTConfig.Process, !RESTConfig.CertPools, !KubeconfigCodec}.

(** * validation.go *)

(** A file that is named can be opened; the handle is closed at the end. *)
Definition open_error (file : string) (text : string → string) : M OS (list config_error) :=
  if decide (file = "") then mret []
  else
    err ← Open file;
    mret match err with Some err => [Message (text (Transport.os_error err))] | None => [] end.

(** The messages of the conditions that hold. *)
Definition when (b : bool) (msg : string) : list config_error := if b then [Message msg] else [].

Definition validateClusterInfo (clusterName : string) (clusterInfo : Cluster.Cluster) : M OS (list config_error) :=
  let ca := Cluster.CertificateAuthority clusterInfo in
  if decide (clusterInfo = Cluster.zero) then mret [ErrEmptyCluster]
  else
    let errs :=
      (if decide (Cluster.Server clusterInfo = "") then
         [Message (if decide (clusterName = "") then "default cluster has no server defined"
                   else "no server found for cluster " +:+ Quote clusterName)]
       else []) ++
      when (bool_decide (ca ≠ "") && bool_decide (Cluster.CertificateAuthorityData clusterInfo ≠ ""))
        ("certificate-authority-data and certificate-authority are both specified for " +:+ clusterName +:+
         ". certificate-authority-data will override.") in
    opened ← open_error ca (λ err,
      "unable to read certificate-authority " +:+ ca +:+ " for " +:+ clusterName +:+ " due to " +:+ err);
    mret (errs ++ opened).

Definition methods (authInfo : AuthInfo.AuthInfo) : list string :=
  (if decide (AuthInfo.Token authInfo ≠ "") then ["token"] else []) ++
  (if decide (AuthInfo.Username authInfo ≠ "" ∨ AuthInfo.Password authInfo ≠ "") then ["basicAuth"] else []).

Definition validateAuthInfo (authInfoName : string) (authInfo : AuthInfo.AuthInfo) : M OS (list config_error) :=
  let cert := AuthInfo.ClientCertificate authInfo in
  let certData := AuthInfo.ClientCertificateData authInfo in
  let key := AuthInfo.ClientKey authInfo in
  let keyData := AuthInfo.ClientKeyData authInfo in
  errs ← (if decide (cert ≠ "" ∨ certData ≠ "") then
            let errs :=
              when (bool_decide (cert ≠ "") && bool_decide (certData ≠ ""))
                ("client-cert-data and client-cert are both specified for " +:+ authInfoName +:+ ". client-cert-data will override.") ++
              when (bool_decide (key ≠ "") && bool_decide (keyData ≠ ""))
                ("client-key-data and client-key are both specified for " +:+ authInfoName +:+ "; client-key-data will override") ++
              when (bool_decide (key = "") && bool_decide (keyData = ""))
                ("client-key-data or client-key must be specified for " +:+ authInfoName +:+
                 " to use the clientCert authentication method.") in
            c ← open_error cert (λ err, "unable to read client-cert " +:+ cert +:+ " for " +:+ authInfoName +:+ " due to " +:+ err);
            k ← open_error key (λ err, "unable to read client-key " +:+ key +:+ " for " +:+ authInfoName +:+ " due to " +:+ err);
            mret (errs ++ c ++ k)
          else mret []);
  mret (errs ++
    when (bool_decide (1 < length (methods authInfo))%nat)
      ("more than one authentication method found for " +:+ authInfoName +:+ "; found [" +:+ join " " (methods authInfo) +:+
       "], only one is allowed")).

(** [IsDNS952Label] of [util/validation/validation.go]. *)
Definition lower_letter (c : ascii) : bool := bool_decide (97 <= byte_value c <= 122).
Definition label_end (c : ascii) : bool := lower_letter c || is_digit c.
Fixpoint label_rest (s : string) : bool :=
  match s with
  | EmptyString => true
  | String c EmptyString => label_end c
  | String c s' => (label_end c || bool_decide (c = "-"%char)) && label_rest s'
  end.
Definition IsDNS952Label (value : string) : bool :=
  bool_decide (String.length value <= 24)%nat &&
  match value with EmptyString => false | String c s => lower_letter c && label_rest s end.

Definition validateContext (contextName : string) (context : KubeContext.KubeContext) (config : Config) : list config_error :=
  let user := KubeContext.AuthInfo context in
  let cluster := KubeContext.Cluster context in
  let namespace := KubeContext.Namespace context in
  (if decide (user = "") then [Message ("user was not specified for context " +:+ Quote contextName)]
   else match get (AuthInfos config) user with
        | None => [Message ("user " +:+ Quote user +:+ " was not found for context " +:+ Quote contextName)]
        | Some _ => []
        end) ++
  (if decide (cluster = "") then [Message ("cluster was not specified for context " +:+ Quote contextName)]
   else match get (Clusters config) cluster with
        | None => [Message ("cluster " +:+ Quote cluster +:+ " was not found for context " +:+ Quote contextName)]
        | Some _ => []
        end) ++
  when (bool_decide (namespace ≠ "") && negb (IsDNS952Label namespace))
    ("namespace " +:+ Quote namespace +:+ " for context " +:+ Quote contextName +:+
     " does not conform to the kubernetes DNS952 rules").

(** The errors of each key of a map, in the order of the map. *)
Fixpoint errors_of {A} (check : string → A → M OS (list config_error)) (m : gomap A) (keys : list string)
    : M OS (list config_error) :=
  match keys with
  | [] => mret []
  | key :: keys =>
      errs ← match get m key with Some x => check key x | None => mret [] end;
      rest ← errors_of check m keys;
      mret (errs ++ rest)
  end.
Definition keys_of {A} (m : gomap A) : list string := match m with Some m => map_range m | None => [] end.

Definition Validate (config : Config) : M OS (option config_error) :=
  if IsConfigEmpty config then mret (newErrConfigurationInvalid [ErrEmptyConfig])
  else
    let current :=
      if decide (CurrentContext config = "") then []
      else match get (Contexts config) (CurrentContext config) with
           | None => [errContextNotFound (CurrentContext config)]
           | Some _ => []
           end in
    x ← errors_of (λ name context, mret (validateContext name context config)) (Contexts config) (keys_of (Contexts config));
    a ← errors_of validateAuthInfo (AuthInfos config) (keys_of (AuthInfos config));
    c ← errors_of validateClusterInfo (Clusters config) (keys_of (Clusters config));
    mret (newErrConfigurationInvalid (current ++ x ++ a ++ c)).

(** [ConfirmUsable], the function; the method of the same name is below.  The user and
    the cluster of the context are dereferenced. *)
Definition deref {S A} (p : option A) : M S A :=
  match p with Some a => mret a | None => panic "invalid memory address or nil pointer dereference" end.
Definition ConfirmUsable (config : Config) (passedContextName : string) : M OS (option config_error) :=
  if IsConfigEmpty config then mret (newErrConfigurationInvalid [ErrEmptyConfig])
  else
    let contextName := if decide (passedContextName ≠ "") then passedContextName else CurrentContext config in
    if decide (contextName = "") then mret (Some ErrNoContext)
    else
      match get (Contexts config) contextName with
      | None => mret (newErrConfigurationInvalid [errContextNotFound contextName])
      | Some context =>
          authInfo ← deref (get (AuthInfos config) (KubeContext.AuthInfo context));
          a ← validateAuthInfo (KubeContext.AuthInfo context) authInfo;
          clusterInfo ← deref (get (Clusters config) (KubeContext.Cluster context));
          c ← validateClusterInfo (KubeContext.Cluster context) clusterInfo;
          mret (newErrConfigurationInvalid (validateContext contextName context config ++ a ++ c))
      end.

(** * loader.go *)

Definition RecommendedHomeFile : string := Join [RESTConfig.environ "HOME"; ".kube"; "config"].
Definition OldRecommendedHomeFile : string := Join [RESTConfig.environ "HOME"; "/.kube/.kubeconfig"].

(** [filepath.SplitList]. *)
Definition SplitList (path : string) : list string := if decide (path = "") then [] else Split colon path.

Definition NewDefaultClientConfigLoadingRules : ClientConfigLoadingRules :=
  let envVarFiles := RESTConfig.environ "KUBECONFIG" in
  if decide (envVarFiles ≠ "") then mkRules "" (SplitList envVarFiles) (Some ∅) false
  else mkRules "" [RecommendedHomeFile] (Some {[RecommendedHomeFile := OldRecommendedHomeFile]}) false.

(** One rule of [Migrate], without the case of a source that is a directory. *)
Definition migrate_one (destination source : string) : M OS (option config_error) :=
  err ← Stat destination;
  match err : option error with
  | None => mret None
  | Some err =>
      if negb (IsNotExist err) then mret (Some (FileError err))
      else
        err ← Stat source;
        match err : option error with
        | Some err => if IsNotExist err then mret None else mret (Some (FileError err))
        | None =>
            err ← Open source;
            match err : option error with
            | Some err => mret (Some (FileError err))
            | None =>
                err ← WriteFile destination "";
                match err : option error with
                | Some err => mret (Some (FileError err))
                | None =>
                    content ← ReadFile source;
                    match content with
                    | inl err => mret (Some (FileError err))
                    | inr content => err ← WriteFile destination content; mret (FileError <$> err)
                    end
                end
            end
        end
  end.
Fixpoint migrate (rules : gmap string string) (destinations : list string) : M OS (option config_error) :=
  match destinations with
  | [] => mret None
  | d :: ds =>
      err ← migrate_one d (default "" (rules !! d));
      match err : option config_error with Some err => mret (Some err) | None => migrate rules ds end
  end.
Definition Migrate (rules : ClientConfigLoadingRules) : M OS (option config_error) :=
  match MigrationRules rules with
  | None => mret None
  | Some m => migrate m (map_range m)
  end.

(** [Load], the function. *)
Definition Load_data (data : string) : error + Config :=
  if decide (data = "") then inr NewConfig else Decode_config data.

Definition LoadFromFile (filename : string) : M OS (error + Config) :=
  kubeconfigBytes ← ReadFile filename;
  match kubeconfigBytes with
  | inl err => mret (inl err)
  | inr kubeconfigBytes =>
      match Load_data kubeconfigBytes with
      | inl err => mret (inl err)
      | inr c => mret (inr (mkConfig (Kind c) (APIVersion c) (Preferences c)
          (Some (Cluster.set_origin filename <$> default ∅ (Clusters c)))
          (Some (AuthInfo.set_origin filename <$> default ∅ (AuthInfos c)))
          (Some (KubeContext.set_origin filename <$> default ∅ (Contexts c))) (CurrentContext c) (Extensions c)))
      end
  end.

(** [filepath.Abs]. *)
Definition Abs (path : string) : string + string :=
  if IsAbs path then inr (Clean path)
  else match RESTConfig.getwd with inl err => inl err | inr wd => inr (Join [wd; path]) end.

(** [ResolvePaths], on one reference. *)
Definition ResolvePath (base ref : string) : string :=
  if decide (ref = "") then ref else if IsAbs ref then ref else Join [base; ref].
Definition resolve_Cluster (base : string) (c : Cluster.Cluster) : Cluster.Cluster :=
  Cluster.mk (Cluster.LocationOfOrigin c) (Cluster.Server c) (Cluster.APIVersion c) (Cluster.InsecureSkipTLSVerify c)
    (ResolvePath base (Cluster.CertificateAuthority c)) (Cluster.CertificateAuthorityData c) (Cluster.Extensions c).
Definition resolve_AuthInfo (base : string) (a : AuthInfo.AuthInfo) : AuthInfo.AuthInfo :=
  AuthInfo.mk (AuthInfo.LocationOfOrigin a) (ResolvePath base (AuthInfo.ClientCertificate a))
    (AuthInfo.ClientCertificateData a) (ResolvePath base (AuthInfo.ClientKey a)) (AuthInfo.ClientKeyData a)
    (AuthInfo.Token a) (AuthInfo.Username a) (AuthInfo.Password a) (AuthInfo.Extensions a).

(** The loop of [ResolveLocalPaths] over the clusters or the users; with its error it
    has the map as it is by then. *)
Fixpoint resolve_all {A} (origin : A → string) (resolve : string → A → A) (keys : list string) (m : gmap string A)
    : gmap string A * option config_error :=
  match keys with
  | [] => (m, None)
  | key :: keys =>
      match m !! key with
      | None => resolve_all origin resolve keys m
      | Some x =>
          if decide (origin x = "") then resolve_all origin resolve keys m
          else match Abs (Dir (origin x)) with
               | inl err => (m, Some (Message ("Could not determine the absolute path of config file " +:+ origin x +:+ ": " +:+ err)))
               | inr base => resolve_all origin resolve keys (<[key := resolve base x]> m)
               end
      end
  end.
Definition resolve_map {A} (origin : A → string) (resolve : string → A → A) (m : gomap A) : gomap A * option config_error :=
  match m with
  | None => (None, None)
  | Some m => let '(m', err) := resolve_all origin resolve (map_range m) m in (Some m', err)
  end.
Definition ResolveLocalPaths (c : Config) : Config * option config_error :=
  let '(clusters, err) := resolve_map Cluster.LocationOfOrigin resolve_Cluster (Clusters c) in
  let c := mkConfig (Kind c) (APIVersion c) (Preferences c) clusters (AuthInfos c) (Contexts c) (CurrentContext c) (Extensions c) in
  match err with
  | Some err => (c, Some err)
  | None =>
      let '(authInfos, err) := resolve_map AuthInfo.LocationOfOrigin resolve_AuthInfo (AuthInfos c) in
      (mkConfig (Kind c) (APIVersion c) (Preferences c) (Clusters c) authInfos (Contexts c) (CurrentContext c) (Extensions c), err)
  end.

(** The loop of [Load] over the names of the files. *)
Fixpoint load_files (names : list string) : M OS (list config_error * list Config) :=
  match names with
  | [] => mret ([], [])
  | filename :: names =>
      if decide (filename = "") then load_files names
      else
        config ← LoadFromFile filename;
        rest ← load_files names;
        mret match config with
             | inl err =>
                 if IsNotExist err then rest
                 else (Message ("Error loading config file " +:+ double_quote +:+ filename +:+ double_quote +:+ ": " +:+
                                Transport.os_error err) :: rest.1, rest.2)
             | inr config => (rest.1, config :: rest.2)
             end
  end.

(** [Load], the method: the configuration, if there is one, and the error. *)
Definition Load (rules : ClientConfigLoadingRules) : M OS (option Config * option config_error) :=
  err ← Migrate rules;
  match err : option config_error with
  | Some err => mret (None, Some err)
  | None =>
      missing ← (if decide (ExplicitPath rules = "") then mret None
                 else err ← Stat (ExplicitPath rules);
                      mret match err : option error with
                           | Some err => if IsNotExist err then Some err else None
                           | None => None
                           end);
      match missing : option error with
      | Some err => mret (None, Some (FileError err))
      | None =>
          let kubeConfigFiles :=
            if decide (ExplicitPath rules = "") then Precedence rules else [ExplicitPath rules] in
          files ← load_files kubeConfigFiles;
          let '(errlist, kubeconfigs) := files : list config_error * list Config in
          mapConfig ← or_panic (merge_all NewConfig kubeconfigs);
          nonMapConfig ← or_panic (merge_all NewConfig (reverse kubeconfigs));
          config ← or_panic (merge_all NewConfig [mapConfig; nonMapConfig]);
          if DoNotResolvePaths rules then mret (Some config, NewAggregate errlist)
          else
            let '(config, err) := ResolveLocalPaths config in
            mret (Some config, NewAggregate (errlist ++ match err with Some err => [err] | None => [] end))
      end
  end.

(** * client_config.go *)

Definition server_only (server : string) : Cluster.Cluster := Cluster.mk "" server "" false "" "" None.
Definition DefaultCluster : Cluster.Cluster := server_only "http://localhost:8080".
Definition EnvVarCluster : Cluster.Cluster := server_only (RESTConfig.environ "KUBERNETES_MASTER").
Definition zero_overrides : ConfigOverrides := mkOverrides AuthInfo.zero Cluster.zero KubeContext.zero "".
Definition DefaultClientConfig : DirectClientConfig := mkDirect NewConfig "" zero_overrides None.

Definition NewDefaultClientConfig (config : Config) (overrides : ConfigOverrides) : DirectClientConfig :=
  mkDirect config (CurrentContext config) overrides None.
Definition NewNonInteractiveClientConfig (config : Config) (contextName : string) (overrides : ConfigOverrides) : DirectClientConfig :=
  mkDirect config contextName overrides None.
Definition NewInteractiveClientConfig (config : Config) (contextName : string) (overrides : ConfigOverrides)
    (fallbackReader : string * string) : DirectClientConfig :=
  mkDirect config contextName overrides (Some fallbackReader).

Section Direct.
Implicit Types (c : DirectClientConfig).

Definition getContextName c : string :=
  if decide (over_CurrentContext (overrides c) ≠ "") then over_CurrentContext (overrides c)
  else if decide (contextName c ≠ "") then contextName c
  else CurrentContext (config c).

(** The zero value, with what a map has for a name, and the override. *)
Definition merged `{Merge A} (zero : list A) (found : option A) (override : A) (empty : A) : option A :=
  merge_all empty (zero ++ match found with Some x => [x] | None => [] end ++ [override]).

Definition getContext c : option KubeContext.KubeContext :=
  merged [] (get (Contexts (config c)) (getContextName c)) (over_Context (overrides c)) KubeContext.zero.
Definition getAuthInfoName c : option string :=
  if decide (KubeContext.AuthInfo (over_Context (overrides c)) ≠ "") then Some (KubeContext.AuthInfo (over_Context (overrides c)))
  else KubeContext.AuthInfo <$> getContext c.
Definition getClusterName c : option string :=
  if decide (KubeContext.Cluster (over_Context (overrides c)) ≠ "") then Some (KubeContext.Cluster (over_Context (overrides c)))
  else KubeContext.Cluster <$> getContext c.
Definition getAuthInfo c : option AuthInfo.AuthInfo :=
  name ← getAuthInfoName c;
  merged [] (get (AuthInfos (config c)) name) (over_AuthInfo (overrides c)) AuthInfo.zero.
Definition getCluster c : option Cluster.Cluster :=
  name ← getClusterName c;
  merged [DefaultCluster; EnvVarCluster] (get (Clusters (config c)) name) (over_ClusterInfo (overrides c)) Cluster.zero.

(** [ConfirmUsable], the method. *)
Definition ConfirmUsable_ c : M OS (option config_error) :=
  authInfoName ← or_panic (getAuthInfoName c);
  authInfo ← or_panic (getAuthInfo c);
  a ← validateAuthInfo authInfoName authInfo;
  clusterName ← or_panic (getClusterName c);
  clusterInfo ← or_panic (getCluster c);
  k ← validateClusterInfo clusterName clusterInfo;
  match a ++ k with
  | [ErrEmptyCluster] => mret (newErrConfigurationInvalid [ErrEmptyConfig])
  | validationErrors => mret (newErrConfigurationInvalid validationErrors)
  end.

Definition canIdentifyUser (c : RESTConfig.Config) : bool :=
  bool_decide (RESTConfig.Username c ≠ "") ||
  (bool_decide (RESTConfig.CertFile (RESTConfig.TLS c) ≠ "") || bool_decide (RESTConfig.CertData (RESTConfig.TLS c) ≠ "")) ||
  bool_decide (RESTConfig.BearerToken c ≠ "").

Definition getUserIdentificationPartialConfig (a : AuthInfo.AuthInfo) (fallbackReader : option (string * string))
    : option RESTConfig.Config :=
  let mergedConfig := RESTConfig.zero_Config in
  let mergedConfig := if decide (AuthInfo.Token a ≠ "") then RESTConfig.set_BearerToken (AuthInfo.Token a) mergedConfig
                      else mergedConfig in
  let mergedConfig :=
    if decide (AuthInfo.ClientCertificate a ≠ "" ∨ AuthInfo.ClientCertificateData a ≠ "") then
      RESTConfig.set_TLS (RESTConfig.mkTLSClient (AuthInfo.ClientCertificate a) (AuthInfo.ClientKey a) ""
        (AuthInfo.ClientCertificateData a) (AuthInfo.ClientKeyData a) "") mergedConfig
    else mergedConfig in
  let mergedConfig :=
    if decide (AuthInfo.Username a ≠ "" ∨ AuthInfo.Password a ≠ "")
    then RESTConfig.set_BasicAuth (AuthInfo.Username a) (AuthInfo.Password a) mergedConfig else mergedConfig in
  match fallbackReader with
  | Some (user, password) =>
      if canIdentifyUser mergedConfig then Some mergedConfig
      else merge_all RESTConfig.zero_Config [RESTConfig.set_BasicAuth user password RESTConfig.zero_Config; mergedConfig]
  | None => Some mergedConfig
  end.

Definition getServerIdentificationPartialConfig (k : Cluster.Cluster) : option RESTConfig.Config :=
  merge_all RESTConfig.zero_Config [RESTConfig.set_Insecure (Cluster.InsecureSkipTLSVerify k)
    (RESTConfig.set_TLS (RESTConfig.mkTLSClient "" "" (Cluster.CertificateAuthority k) "" "" (Cluster.CertificateAuthorityData k))
       RESTConfig.zero_Config)].

(** The host of the configuration: a URL with a path is left without its query and its
    fragment. *)
Definition host_of (server : string) : string :=
  match ParseRequestURI server with
  | inr u => if decide (Opaque u = "" ∧ (1 < String.length (Path u))%nat)
             then URL_String (set_Fragment "" (set_RawQuery "" u)) else server
  | inl _ => server
  end.

Definition ClientConfig_ c : M OS (config_error + RESTConfig.Config) :=
  err ← ConfirmUsable_ c;
  match err : option config_error with
  | Some err => mret (inl err)
  | None =>
      configAuthInfo ← or_panic (getAuthInfo c);
      configClusterInfo ← or_panic (getCluster c);
      let clientConfig := RESTConfig.set_Host (host_of (Cluster.Server configClusterInfo)) RESTConfig.zero_Config in
      if RESTConfig.IsConfigTransportTLS clientConfig then
        user ← or_panic (getUserIdentificationPartialConfig configAuthInfo (fallbackReader c));
        clientConfig ← mergo_Merge clientConfig user;
        server ← or_panic (getServerIdentificationPartialConfig configClusterInfo);
        clientConfig ← mergo_Merge clientConfig server;
        mret (inr clientConfig)
      else mret (inr clientConfig)
  end.

(** [Namespace]: the name, and whether it is an override. *)
Definition Namespace_ c : M OS (config_error + (string * bool)) :=
  err ← ConfirmUsable_ c;
  match err : option config_error with
  | Some err => mret (inl err)
  | None =>
      configContext ← or_panic (getContext c);
      if decide (KubeContext.Namespace configContext = "") then mret (inr ("default", false))
      else mret (inr (KubeContext.Namespace configContext,
                      bool_decide (KubeContext.Namespace (over_Context (overrides c)) ≠ "")))
  end.
End Direct.

(** ** Inside a cluster *)

(** [inClusterClientConfig.Possible]. *)
Definition Possible : M OS bool :=
  err ← Stat RESTConfig.token_file;
  mret (bool_decide (RESTConfig.environ "KUBERNETES_SERVICE_HOST" ≠ "") &&
        bool_decide (RESTConfig.environ "KUBERNETES_SERVICE_PORT" ≠ "") &&
        match err with None => true | Some _ => false end).

(** * merged_client_builder.go *)

Local Abbreviation loading := (OS * DeferredLoadingClientConfig)%type.
Definition on_files {A} (m : M OS A) : M loading A := zoom fst (λ o s, (o, s.2)) m.

Definition NewNonInteractiveDeferredLoadingClientConfig (rules : ClientConfigLoadingRules) (overrides : ConfigOverrides)
    : DeferredLoadingClientConfig := mkDeferred rules overrides None None.
Definition NewInteractiveDeferredLoadingClientConfig (rules : ClientConfigLoadingRules) (overrides : ConfigOverrides)
    (fallbackReader : string * string) : DeferredLoadingClientConfig := mkDeferred rules overrides (Some fallbackReader) None.

(** [createClientConfig]: the second look at the field, under the lock, sees what the first
    one saw. *)
Definition createClientConfig : M loading (config_error + DirectClientConfig) :=
  d ← gets snd;
  match clientConfig d with
  | Some c => mret (inr c)
  | None =>
      r ← on_files (Load (loadingRules d));
      match r : option Config * option config_error with
      | (_, Some err) => mret (inl err)
      | (None, None) => panic "invalid memory address or nil pointer dereference"
      | (Some mergedConfig, None) =>
          let name := over_CurrentContext (def_overrides d) in
          let c := match def_fallbackReader d with
                   | Some reader => NewInteractiveClientConfig mergedConfig name (def_overrides d) reader
                   | None => NewNonInteractiveClientConfig mergedConfig name (def_overrides d)
                   end in
          modify (λ s : loading, (s.1, mkDeferred (loadingRules s.2) (def_overrides s.2) (def_fallbackReader s.2) (Some c))) ;;
          mret (inr c)
      end
  end.

Definition RawConfig : M loading (config_error + Config) :=
  c ← createClientConfig;
  match c : config_error + DirectClientConfig with
  | inl err => mret (inl err)
  | inr c => mret (inr (config c))
  end.

(** What [ClientConfig] does with the configuration of the files: the default one is
    replaced inside a cluster. *)
Definition in_cluster (mergedConfig : RESTConfig.Config) : M OS (config_error + RESTConfig.Config) :=
  defaultConfig ← ClientConfig_ DefaultClientConfig;
  possible ← Possible;
  match defaultConfig : config_error + RESTConfig.Config with
  | inr defaultConfig =>
      if possible && bool_decide (mergedConfig = defaultConfig) then
        r ← RESTConfig.InClusterConfig;
        mret match r : string + RESTConfig.Config with inl err => inl (Message err) | inr c => inr c end
      else mret (inr mergedConfig)
  | inl _ => mret (inr mergedConfig)
  end.
Definition ClientConfig : M loading (config_error + RESTConfig.Config) :=
  c ← createClientConfig;
  match c : config_error + DirectClientConfig with
  | inl err => mret (inl err)
  | inr c =>
      mergedConfig ← on_files (ClientConfig_ c);
      match mergedConfig : config_error + RESTConfig.Config with
      | inl err => mret (inl err)
      | inr mergedConfig => on_files (in_cluster mergedConfig)
      end
  end.
Definition Namespace : M loading (config_error + (string * bool)) :=
  c ← createClientConfig;
  match c : config_error + DirectClientConfig with
  | inl err => mret (inl err)
  | inr c => on_files (Namespace_ c)
  end.

(** What [app/server.go] asks for: the rules name one file, and the server is an
    override. *)
Definition flags_config (kubeconfig master : string) : DeferredLoadingClientConfig :=
  NewNonInteractiveDeferredLoadingClientConfig (mkRules kubeconfig [] None false)
    (mkOverrides AuthInfo.zero (server_only master) KubeContext.zero "").
Definition load_from_flags (kubeconfig master : string) : M OS (config_error + RESTConfig.Config) :=
  with_var (flags_config kubeconfig master) ClientConfig.

Definition BuildConfigFromFlags (masterUrl kubeconfigPath : string) : M OS (config_error + RESTConfig.Config) :=
  if decide (kubeconfigPath = "" ∧ masterUrl = "") then
    r ← RESTConfig.InClusterConfig;
    match r : string + RESTConfig.Config with
    | inr kubeconfig => mret (inr kubeconfig)
    | inl _ => load_from_flags kubeconfigPath masterUrl
    end
  else load_from_flags kubeconfigPath masterUrl.
End ClientCmd.
