(* ===== verification/ClientCmdProps.v ===== *)
(** The properties of [ClientCmd]: how the flags and a kubeconfig file choose the server
    and the credentials. *)

From Stdlib Require Import Ascii QArith.
From stdpp Require Import gmap strings list.
From S2P Require Import Prelude GoStrings Strconv GoURL GoURLProps ApiErrors Request OS Mergo.
From S2P Require Transport TransportProps.
From S2P Require RESTConfig RESTConfigProps.
From S2P Require Import ClientCmd.

Local Open Scope Z_scope.
Import RESTConfigProps.

Section ClientCmd.
Context {gf : GoFormats} {mo : MapOrder} {pr : RESTConfig.Process} {cp : RESTConfig.CertPools} {kc : KubeconfigCodec}.

(** ** Credentials *)

Lemma or_panic_Ret {S A} (a : option A) (x : A) (s s' : S) : or_panic a s = Ret x s' → a = Some x ∧ s' = s.
Proof. destruct a; [by intros [= <- <-]|done]. Qed.

Lemma validateAuthInfo_single name a o o' : validateAuthInfo name a o = Ret [] o' → (length (methods a) <= 1)%nat.
Proof.
  intros (errs & o1 & _ & He)%bind_Ret_inv. injection He as Hn _.
  apply app_nil in Hn as [_ Hw]. unfold when in Hw. case_bool_decide; [done|lia].
Qed.
Lemma ConfirmUsable_single c o o' : ConfirmUsable_ c o = Ret None o' →
  ∃ a, getAuthInfo c = Some a ∧ (length (methods a) <= 1)%nat.
Proof.
  intros (name & o1 & _ & H1)%bind_Ret_inv. apply bind_Ret_inv in H1 as (a & o2 & [Ha _]%or_panic_Ret & H2).
  exists a. split; [done|]. apply bind_Ret_inv in H2 as (errs & o3 & Hv & H3).
  apply bind_Ret_inv in H3 as (cn & o4 & _ & H4). apply bind_Ret_inv in H4 as (k & o5 & _ & H5).
  apply bind_Ret_inv in H5 as (ks & o6 & _ & H6).
  destruct errs as [|e errs]; [by eapply validateAuthInfo_single|]. cbn in H6.
  destruct e, (errs ++ ks); cbn in H6; discriminate H6.
Qed.

(** The configuration of the user has no host, and one method. *)
Lemma user_config_spec a reader uc : (length (methods a) <= 1)%nat →
  getUserIdentificationPartialConfig a reader = Some uc →
  RESTConfig.Host uc = "" ∧ (RESTConfig.Username uc = "" ∨ RESTConfig.BearerToken uc = "").
Proof.
  unfold methods, getUserIdentificationPartialConfig. intros Hm.
  set (u0 := if decide (AuthInfo.Username a ≠ "" ∨ AuthInfo.Password a ≠ "") then _ else _).
  assert (RESTConfig.Host u0 = "" ∧ (RESTConfig.Username u0 = "" ∨ RESTConfig.BearerToken u0 = "")) as [Hh Ho].
  { unfold u0. destruct (decide (AuthInfo.Token a ≠ "")), (decide (AuthInfo.ClientCertificate a ≠ "" ∨ AuthInfo.ClientCertificateData a ≠ "")),
      (decide (AuthInfo.Username a ≠ "" ∨ AuthInfo.Password a ≠ "")); cbn in *; auto; lia. }
  destruct reader as [[user password]|]; [|by intros [= <-]].
  destruct (canIdentifyUser u0) eqn:Hc; [by intros [= <-]|]. unfold merge_all.
  destruct (Merge_Config_total RESTConfig.zero_Config (RESTConfig.set_BasicAuth user password RESTConfig.zero_Config))
    as (d & -> & Hd1 & _ & _ & Hd2 & _). cbn [mbind option_bind].
  destruct (Merge_Config_total d u0) as (d' & -> & Hd3 & _ & _ & Hd4 & _). cbn [mbind option_bind]. intros [= <-].
  unfold canIdentifyUser in Hc. apply orb_false_iff in Hc as [_ Hb]. apply bool_decide_eq_false in Hb. apply dec_stable in Hb.
  rewrite Hd3, Hd4, Hh, Hb, Hd1, Hd2. cbn. by split; [|right].
Qed.

Lemma ClientConfig_spec c o rc o' : ClientConfig_ c o = Ret (inr rc) o' →
  guarded rc ∧ ∃ k, getCluster c = Some k ∧ RESTConfig.Host rc = host_of (Cluster.Server k).
Proof.
  intros (err & o1 & Hu & H1)%bind_Ret_inv. destruct err as [err|]; [done|].
  destruct (ConfirmUsable_single _ _ _ Hu) as (a & Ha & Hm).
  apply bind_Ret_inv in H1 as (a' & o2 & [Ha' _]%or_panic_Ret & H2).
  assert (a' = a) as -> by congruence.
  apply bind_Ret_inv in H2 as (k & o3 & [Hk _]%or_panic_Ret & H3). cbv zeta in H3.
  set (bare := RESTConfig.set_Host _ _) in H3.
  destruct (RESTConfig.IsConfigTransportTLS bare) eqn:Ht.
  - apply IsConfigTransportTLS_host in Ht.
    apply bind_Ret_inv in H3 as (uc & o4 & [Huc _]%or_panic_Ret & H4).
    destruct (user_config_spec _ _ _ Hm Huc) as [Hh Ho].
    destruct (Merge_Config_total bare uc) as (d & Hd & Hd1 & Hd2 & _ & Hd3 & _).
    run (mergo_Merge_Some _ _ _ o4 Hd) in H4.
    apply bind_Ret_inv in H4 as (sc & o5 & [Hsc _]%or_panic_Ret & H5).
    unfold getServerIdentificationPartialConfig, merge_all in Hsc.
    destruct (Merge_Config_total RESTConfig.zero_Config (RESTConfig.set_Insecure (Cluster.InsecureSkipTLSVerify k)
      (RESTConfig.set_TLS (RESTConfig.mkTLSClient "" "" (Cluster.CertificateAuthority k) "" "" (Cluster.CertificateAuthorityData k))
        RESTConfig.zero_Config))) as (sc' & Hsc' & Hs1 & Hs2 & _ & Hs3 & _).
    rewrite Hsc' in Hsc. injection Hsc as <-.
    destruct (Merge_Config_total d sc') as (d' & Hd' & Hd1' & Hd2' & _ & Hd3' & _).
    run (mergo_Merge_Some _ _ _ o5 Hd') in H5. injection H5 as <- _.
    rewrite Hs1, Hs2, Hs3 in *. cbn in Hd1', Hd2', Hd3'. rewrite Hd1, Hh in Hd1'. cbn in Hd1'.
    split; [|by exists k]. split; [intros _; rewrite Hd1'; exact Ht|]. rewrite Hd2', Hd3', Hd2, Hd3. unfold pick.
    destruct Ho as [-> | ->]; [left|right]; by rewrite decide_True.
  - injection H3 as <- _. split; [|by exists k]. split; [|by left]. by intros [?|?].
Qed.
Lemma InClusterConfig_guarded o rc o' : RESTConfig.InClusterConfig o = Ret (inr rc) o' → guarded rc.
Proof.
  unfold RESTConfig.InClusterConfig. case_decide; [done|]. intros (tok & o1 & _ & H1)%bind_Ret_inv.
  destruct tok as [|tok]; [done|]. apply bind_Ret_inv in H1 as (err & o2 & _ & H2). injection H2 as <- _.
  split; [intros _; apply https_text|by left].
Qed.

Lemma on_files_Ret {A} (m : M OS A) s a s' : on_files m s = Ret a s' → ∃ o, m s.1 = Ret a o ∧ s' = (o, s.2).
Proof. unfold on_files, zoom. destruct (m s.1); [intros [= <- <-]; eauto|done..]. Qed.
Lemma load_from_flags_guarded kubeconfig master o rc o' :
  load_from_flags kubeconfig master o = Ret (inr rc) o' → guarded rc.
Proof.
  intros (s & Hc & _)%with_var_inv. apply bind_Ret_inv in Hc as (c & s1 & _ & H1). destruct c as [|c]; [done|].
  apply bind_Ret_inv in H1 as (mc & s2 & Hm & H2). destruct mc as [|mc]; [done|].
  apply on_files_Ret in Hm as (o1 & Hm & _). apply on_files_Ret in H2 as (o2 & H2 & _).
  apply bind_Ret_inv in H2 as (dc & o3 & _ & H3). apply bind_Ret_inv in H3 as (possible & o4 & _ & H4).
  destruct dc as [|dc]; [injection H4 as <- _; by apply ClientConfig_spec in Hm as [? _]|].
  destruct (possible && _); [|injection H4 as <- _; by apply ClientConfig_spec in Hm as [? _]].
  apply bind_Ret_inv in H4 as (ic & o5 & Hi & H5). destruct ic as [|ic]; [done|]. injection H5 as <- _.
  by eapply InClusterConfig_guarded.
Qed.

(** ** The server *)

(** The first text that is not empty. *)
Fixpoint first_of (l : list string) : string :=
  match l with [] => "" | s :: l => if decide (s = "") then first_of l else s end.

Lemma Merge_Cluster_Server dst src d : deepMerge dst src = Some d →
  Cluster.Server d = pick (Cluster.Server dst) (Cluster.Server src).
Proof.
  unfold deepMerge at 1, Cluster.Merge_Cluster. rewrite !merge_string, merge_bool. cbn [mbind option_bind].
  destruct (deepMerge (Cluster.Extensions dst) _); [|done]. cbn. by intros [= <-].
Qed.
Lemma getCluster_Server c k : getCluster c = Some k →
  ∃ name, getClusterName c = Some name ∧
    Cluster.Server k = first_of [Cluster.Server (over_ClusterInfo (overrides c));
      from_option Cluster.Server "" (get (Clusters (config c)) name);
      RESTConfig.environ "KUBERNETES_MASTER"; "http://localhost:8080"].
Proof.
  unfold getCluster. destruct (getClusterName c) as [name|]; [|done]. cbn [mbind option_bind]. intros Hk.
  exists name. split; [done|]. revert Hk. unfold merged. cbn [app merge_all].
  destruct (deepMerge Cluster.zero DefaultCluster) as [d1|] eqn:E1; [|done]. cbn [mbind option_bind].
  destruct (deepMerge d1 EnvVarCluster) as [d2|] eqn:E2; [|done]. cbn [mbind option_bind].
  apply Merge_Cluster_Server in E1, E2. rewrite E1 in E2. unfold pick, EnvVarCluster, server_only in E2. cbn in E2.
  cbn [first_of]. unfold get.
  destruct (Clusters (config c) ≫= lookup name) as [f|]; cbn [app merge_all from_option].
  - destruct (deepMerge d2 f) as [d3|] eqn:E3; [|done]. cbn [mbind option_bind].
    destruct (deepMerge d3 _) as [d4|] eqn:E4; [|done]. intros [= <-].
    apply Merge_Cluster_Server in E3, E4. rewrite E4, E3, E2. unfold pick. repeat case_decide; done.
  - destruct (deepMerge d2 _) as [d4|] eqn:E4; [|done]. intros [= <-].
    apply Merge_Cluster_Server in E4. rewrite E4, E2. unfold pick. repeat case_decide; done.
Qed.

(** A configuration of the files without a context, and the rest as the flags have it. *)
Definition bare (server : string) : DirectClientConfig :=
  mkDirect NewConfig "" (mkOverrides AuthInfo.zero (server_only server) KubeContext.zero "") None.
Definition default_server : string := first_of [RESTConfig.environ "KUBERNETES_MASTER"; "http://localhost:8080"].

Lemma Merge_Config_zero (c : RESTConfig.Config) : deepMerge c RESTConfig.zero_Config = Some c.
Proof.
  destruct c as [h p x [t g b] u w k [a1 a2 a3 a4 a5 a6] i a q n]. unfold deepMerge. cbn.
  by destruct g, b, i.
Qed.
Lemma getCluster_bare server : getCluster (bare server) = Some (server_only (first_of [server; default_server])).
Proof.
  unfold getCluster, bare, default_server, getClusterName, merged, EnvVarCluster. cbn [over_ClusterInfo overrides].
  generalize (RESTConfig.environ "KUBERNETES_MASTER"). intros env. destruct env, server; reflexivity.
Qed.

Lemma getAuthInfo_bare server : getAuthInfo (bare server) = Some AuthInfo.zero.
Proof. reflexivity. Qed.
Lemma first_default server : first_of [server; default_server] ≠ "".
Proof. unfold default_server. cbn. by repeat case_decide. Qed.

Lemma or_panic_Some {S A} (a : A) (s : S) : or_panic (Some a) s = Ret a s.
Proof. done. Qed.
Lemma validateAuthInfo_zero name o : validateAuthInfo name AuthInfo.zero o = Ret [] o.
Proof. done. Qed.
Lemma validateClusterInfo_server name s o : s ≠ "" → validateClusterInfo name (server_only s) o = Ret [] o.
Proof.
  intros Hs. unfold validateClusterInfo. rewrite decide_False by (by intros [= ->]). cbn [Cluster.Server server_only].
  by rewrite (decide_False (P := s = "")).
Qed.

Lemma ClientConfig_bare server o :
  ClientConfig_ (bare server) o =
    Ret (inr (RESTConfig.set_Host (host_of (first_of [server; default_server])) RESTConfig.zero_Config)) o.
Proof.
  pose proof (first_default server) as Hne.
  assert (ConfirmUsable_ (bare server) o = Ret None o) as Hu.
  { unfold ConfirmUsable_. rewrite getCluster_bare, getAuthInfo_bare. run (or_panic_Some "" o). run (or_panic_Some _ o).
    run (validateAuthInfo_zero "" o). run (or_panic_Some "" o). run (or_panic_Some _ o).
    by run (validateClusterInfo_server "" _ o Hne). }
  unfold ClientConfig_. run Hu. rewrite getCluster_bare, getAuthInfo_bare. generalize (first_of [server; default_server]). intros s.
  run (or_panic_Some _ o). run (or_panic_Some _ o). cbv zeta.
  cbn [Cluster.Server server_only]. set (b := RESTConfig.set_Host _ _).
  destruct (RESTConfig.IsConfigTransportTLS b); [|done].
  assert (getUserIdentificationPartialConfig AuthInfo.zero (fallbackReader (bare server)) = Some RESTConfig.zero_Config) as -> by done.
  assert (getServerIdentificationPartialConfig (server_only s) = Some RESTConfig.zero_Config) as -> by done.
  run (or_panic_Some _ o). run (mergo_Merge_Some _ _ _ o (Merge_Config_zero b)).
  run (or_panic_Some _ o). by run (mergo_Merge_Some _ _ _ o (Merge_Config_zero b)).
Qed.

(** ** Loading *)

Lemma Stat_ok o path : faults o = [] →
  Stat path o = Ret (match files o !! path with Some _ => None | None => Some ErrNotExist end) o.
Proof. destruct o as [fs flts es]. cbn. intros ->. unfold Stat, next_fault. m_unfold. cbn. by destruct (fs !! path). Qed.

(** The process runs in a pod: it has the variables and the file of a service account. *)
Definition in_pod (o : OS) : bool :=
  bool_decide (RESTConfig.environ "KUBERNETES_SERVICE_HOST" ≠ "") &&
  bool_decide (RESTConfig.environ "KUBERNETES_SERVICE_PORT" ≠ "") &&
  match files o !! RESTConfig.token_file with Some _ => true | None => false end.
Lemma Possible_ok o : faults o = [] → Possible o = Ret (in_pod o) o.
Proof. intros Hf. unfold Possible, in_pod. run (Stat_ok o RESTConfig.token_file Hf). by destruct (files o !! _). Qed.

(** A configuration that is the default one is replaced by that of the cluster. *)
Definition or_cluster (o : OS) (rc : RESTConfig.Config) : outcome OS (config_error + RESTConfig.Config) :=
  if in_pod o && bool_decide (rc = RESTConfig.set_Host (host_of default_server) RESTConfig.zero_Config) then
    (r ← RESTConfig.InClusterConfig;
     mret match (r : string + RESTConfig.Config) with inl err => inl (Message err) | inr c => inr c end) o
  else Ret (inr rc) o.
Lemma first_of_default : first_of [""; default_server] = default_server.
Proof. unfold default_server. cbn. by repeat case_decide. Qed.
Lemma in_cluster_ok o rc : faults o = [] → in_cluster rc o = or_cluster o rc.
Proof.
  intros Hf. unfold in_cluster, or_cluster. change DefaultClientConfig with (bare "").
  run (ClientConfig_bare "" o). run (Possible_ok o Hf). rewrite first_of_default.
  by destruct (in_pod o && _).
Qed.

(** Merging into a configuration all of whose maps have been made. *)
Record all_made (c : Config) : Prop := {
  am_clusters : is_Some (Clusters c);
  am_users : is_Some (AuthInfos c);
  am_contexts : is_Some (Contexts c);
  am_extensions : is_Some (Extensions c);
  am_preferences : is_Some (Preferences.Extensions (Preferences c))
}.
Lemma New_made : all_made NewConfig. Proof. split; by eexists. Qed.

Definition joined {A} (d s : gomap A) : gomap A := Some (default ∅ d ∪ default ∅ s).
Lemma merge_joined {A} (d s : gomap A) : is_Some d → deepMerge d s = Some (joined d s).
Proof. intros [m ->]. destruct s as [s|]; [done|]. unfold joined. cbn. by rewrite (right_id_L ∅ (∪)). Qed.
Lemma Merge_Preferences_made dst src : is_Some (Preferences.Extensions dst) →
  ∃ p, deepMerge dst src = Some p ∧ is_Some (Preferences.Extensions p).
Proof.
  intros Hd. unfold deepMerge, Preferences.Merge_Preferences. rewrite merge_bool. cbn [mbind option_bind].
  rewrite merge_joined by done. eexists. split; [reflexivity|]. by eexists.
Qed.
Lemma Merge_made dst src : all_made dst → ∃ d, deepMerge dst src = Some d ∧ all_made d ∧
  Clusters d = joined (Clusters dst) (Clusters src) ∧ AuthInfos d = joined (AuthInfos dst) (AuthInfos src) ∧
  Contexts d = joined (Contexts dst) (Contexts src) ∧ CurrentContext d = pick (CurrentContext dst) (CurrentContext src).
Proof.
  intros [H1 H2 H3 H4 H5]. unfold deepMerge at 1, Merge_Config. rewrite !merge_string. cbn [mbind option_bind].
  destruct (Merge_Preferences_made _ (Preferences src) H5) as (p & -> & Hp). cbn [mbind option_bind].
  rewrite !merge_joined by done. cbn [mbind option_bind]. eexists. split; [reflexivity|].
  split; [split; [by eexists..|done]|]. by split_and!.
Qed.
Lemma merge_all_made dst srcs : all_made dst → ∃ d, merge_all dst srcs = Some d ∧ all_made d.
Proof.
  revert dst. induction srcs as [|src srcs IH]; intros dst Hd; [by exists dst|]. cbn [merge_all].
  destruct (Merge_made dst src Hd) as (d & -> & Hd' & _). by apply IH.
Qed.

(** The paths are resolved in place, and nothing else changes. *)
Lemma resolve_all_kept {A B} (f : A → B) (origin : A → string) resolve keys :
  (∀ base x, f (resolve base x) = f x) → ∀ m k, f <$> (resolve_all origin resolve keys m).1 !! k = f <$> m !! k.
Proof.
  intros Hf. induction keys as [|key keys IH]; intros m k; [done|]. cbn [resolve_all].
  destruct (m !! key) as [x|] eqn:Hx; [|apply IH]. case_decide; [apply IH|]. destruct (Abs _) as [err|base]; [done|].
  rewrite IH. destruct (decide (k = key)) as [->|Hk]; [|by rewrite lookup_insert_ne].
  rewrite lookup_insert_eq, Hx. cbn. by rewrite Hf.
Qed.
Lemma resolve_map_kept {A B} (f : A → B) (origin : A → string) resolve m k :
  (∀ base x, f (resolve base x) = f x) → f <$> get (resolve_map origin resolve m).1 k = f <$> get m k.
Proof.
  intros Hf. destruct m as [m|]; [|done]. unfold resolve_map, get.
  pose proof (resolve_all_kept f origin resolve (map_range m) Hf m k) as E. by destruct (resolve_all _ _ _ m).
Qed.
Lemma ResolveLocalPaths_kept c k :
  Cluster.Server <$> get (Clusters (ResolveLocalPaths c).1) k = Cluster.Server <$> get (Clusters c) k ∧
  Contexts (ResolveLocalPaths c).1 = Contexts c ∧ CurrentContext (ResolveLocalPaths c).1 = CurrentContext c.
Proof.
  unfold ResolveLocalPaths.
  pose proof (resolve_map_kept Cluster.Server Cluster.LocationOfOrigin resolve_Cluster (Clusters c) k (λ _ _, eq_refl)) as E.
  destruct (resolve_map Cluster.LocationOfOrigin resolve_Cluster (Clusters c)) as [cl [err|]]; [by cbn|].
  cbn [AuthInfos]. destruct (resolve_map AuthInfo.LocationOfOrigin resolve_AuthInfo (AuthInfos c)) as [au err]. by cbn.
Qed.

(** What [Load] makes of files that have been read. *)
Definition merge_files (kubeconfigs : list Config) : option Config :=
  mapConfig ← merge_all NewConfig kubeconfigs;
  nonMapConfig ← merge_all NewConfig (reverse kubeconfigs);
  merge_all NewConfig [mapConfig; nonMapConfig].
Lemma merge_files_made kubeconfigs : ∃ d, merge_files kubeconfigs = Some d ∧ all_made d.
Proof.
  unfold merge_files.
  destruct (merge_all_made NewConfig kubeconfigs New_made) as (d1 & -> & _). cbn [mbind option_bind].
  destruct (merge_all_made NewConfig (reverse kubeconfigs) New_made) as (d2 & -> & _). cbn [mbind option_bind].
  apply merge_all_made, New_made.
Qed.
Lemma Load_flags path o : faults o = [] →
  Load (mkRules path [] None false) o =
    if decide (path = "") then Ret (Some NewConfig, None) o
    else match files o !! path with
         | None => Ret (None, Some (FileError ErrNotExist)) o
         | Some _ =>
             (files ← load_files [path];
              d ← or_panic (merge_files files.2);
              mret (Some (ResolveLocalPaths d).1,
                    NewAggregate (files.1 ++ option_list (ResolveLocalPaths d).2))) o
         end.
Proof.
  intros Hf. unfold Load. cbn [MigrationRules Migrate ExplicitPath DoNotResolvePaths Precedence].
  rewrite bind_unfold. cbn [mret M_ret]. destruct (decide (path = "")) as [->|Hp].
  - rewrite bind_unfold. cbn [mret M_ret]. rewrite bind_unfold. cbn [mret M_ret load_files].
    assert (∀ A (f : A → string) r keys, resolve_all f r keys ∅ = (∅, None)) as Hr.
    { intros A f r keys. induction keys as [|k keys IH]; [done|]. cbn. by rewrite lookup_empty. }
    change (merge_all NewConfig []) with (Some NewConfig). change (merge_all NewConfig (reverse [])) with (Some NewConfig).
    run (or_panic_Some NewConfig o). run (or_panic_Some NewConfig o).
    change (merge_all NewConfig [NewConfig; NewConfig]) with (Some NewConfig). run (or_panic_Some NewConfig o).
    unfold ResolveLocalPaths, resolve_map. cbn [Clusters AuthInfos NewConfig]. by rewrite !Hr.
  - rewrite (bind_Ret _ _ _ (if files o !! path then None else Some ErrNotExist) o).
    2: { run (Stat_ok o path Hf). by destruct (files o !! path). }
    destruct (files o !! path); [|done]. apply bind_ext. intros [errs cs] o1. cbn [fst snd]. unfold merge_files.
    destruct (merge_all_made NewConfig cs New_made) as (d1 & -> & _). run (or_panic_Some d1 o1).
    destruct (merge_all_made NewConfig (reverse cs) New_made) as (d2 & -> & _). run (or_panic_Some d2 o1).
    cbn [mbind option_bind]. destruct (merge_all_made NewConfig [d1; d2] New_made) as (d & -> & _).
    run (or_panic_Some d o1). run (or_panic_Some d o1). destruct (ResolveLocalPaths d) as [c err]. by destruct err.
Qed.

(** The loading without its state: what is loaded is used once. *)
Definition with_server (c : Config) (server : string) : DirectClientConfig :=
  mkDirect c "" (mkOverrides AuthInfo.zero (server_only server) KubeContext.zero "") None.
Lemma on_files_unfold {A} (m : M OS A) o (d : DeferredLoadingClientConfig) : on_files m (o, d) =
  match m o with
  | Ret a o => Ret a (o, d) | Panic msg o => Panic msg (o, d) | Exit o => Exit (o, d) | Block o => Block (o, d)
  end.
Proof. done. Qed.
Lemma load_from_flags_eq kubeconfig master o :
  load_from_flags kubeconfig master o =
    (r ← Load (mkRules kubeconfig [] None false);
     match r : option Config * option config_error with
     | (_, Some err) => mret (inl err)
     | (None, None) => panic "invalid memory address or nil pointer dereference"
     | (Some c, None) =>
         mc ← ClientConfig_ (with_server c master);
         match mc : config_error + RESTConfig.Config with inl err => mret (inl err) | inr mc => in_cluster mc end
     end) o.
Proof.
  unfold load_from_flags, with_var, ClientConfig, createClientConfig. rewrite !bind_unfold.
  cbn [gets snd flags_config NewNonInteractiveDeferredLoadingClientConfig clientConfig loadingRules].
  rewrite bind_unfold, on_files_unfold.
  destruct (Load _ o) as [[[c|] [err|]] o1|?|?|?]; try done.
  rewrite bind_unfold. cbn [modify mret M_ret fst snd def_fallbackReader].
  change (def_fallbackReader (flags_config kubeconfig master)) with (@None (string * string)). cbv beta iota.
  rewrite !bind_unfold, on_files_unfold. change (NewNonInteractiveClientConfig c _ _) with (with_server c master).
  destruct (ClientConfig_ (with_server c master) o1) as [[err|mc] o2|?|?|?]; try done.
  rewrite on_files_unfold. by destruct (in_cluster mc o2).
Qed.

(** Without a kubeconfig file the server is the one of the command line, or that of
    the variable [KUBERNETES_MASTER], or [http://localhost:8080], and nothing else is set;
    in a pod, the configuration of the service account takes the place of one that is
    the default, be that given on the command line or not. *)
Theorem flags_without_file (master : string) (o : OS) :
  faults o = [] →
  load_from_flags "" master o =
    or_cluster o (RESTConfig.set_Host
      (host_of (first_of [master; RESTConfig.environ "KUBERNETES_MASTER"; "http://localhost:8080"])) RESTConfig.zero_Config).
Proof.
  intros Hf. rewrite load_from_flags_eq. rewrite bind_unfold, (Load_flags _ _ Hf), decide_True by done.
  change (with_server NewConfig master) with (bare master). run (ClientConfig_bare master o).
  rewrite (in_cluster_ok _ _ Hf). unfold default_server. do 2 f_equal. cbn. by repeat case_decide.
Qed.

(** ** A kubeconfig file *)

Lemma reads_or_panic {A} (a : option A) : reads id (or_panic a).
Proof. unfold or_panic. destruct a; auto with reads. Qed.
Lemma reads_merge (dst src : RESTConfig.Config) : reads id (mergo_Merge dst src).
Proof. unfold mergo_Merge. destruct (deepMerge dst src); auto with reads. Qed.
#[local] Hint Resolve reads_or_panic reads_merge : reads.
Lemma reads_open file text : reads id (open_error file text).
Proof. unfold open_error. solve_reads. Qed.
#[local] Hint Resolve reads_open : reads.
Lemma reads_ClientConfig c : reads id (ClientConfig_ c).
Proof. unfold ClientConfig_, ConfirmUsable_, validateClusterInfo, validateAuthInfo. solve_reads. Qed.

#[local] Hint Resolve reads_ClientConfig RESTConfigProps.reads_InClusterConfig : reads.
Lemma reads_in_cluster c : reads id (in_cluster c).
Proof. unfold in_cluster, Possible. solve_reads. Qed.
Lemma reads_load_files names : reads id (load_files names).
Proof. induction names; cbn [load_files]; unfold LoadFromFile; solve_reads. Qed.
#[local] Hint Resolve reads_in_cluster reads_load_files : reads.
Lemma reads_Load path : reads id (Load (mkRules path [] None false)).
Proof. unfold Load, Migrate. cbn [MigrationRules ExplicitPath Precedence DoNotResolvePaths]. solve_reads. Qed.
#[local] Hint Resolve reads_Load : reads.
Lemma reads_load_from_flags kubeconfig master : reads id (load_from_flags kubeconfig master).
Proof.
  intros o r o' Hf. rewrite load_from_flags_eq. unshelve refine ((_ : reads id _) o r o' Hf). solve_reads.
Qed.

Lemma lookup_joined {A} (d s : gomap A) k : get (joined d s) k = get d k ∪ get s k.
Proof. unfold get, joined. cbn. rewrite lookup_union. destruct d as [m|], s as [m'|]; cbn; rewrite ?lookup_empty; try done; by destruct (_ !! k). Qed.

(** One file is merged with itself. *)
Lemma merge_one c d : merge_files [c] = Some d →
  (∀ k, get (Clusters d) k = get (Clusters c) k) ∧ (∀ k, get (Contexts d) k = get (Contexts c) k) ∧
  CurrentContext d = CurrentContext c.
Proof.
  unfold merge_files. change (reverse [c]) with [c]. cbn [merge_all].
  destruct (Merge_made NewConfig c New_made) as (d1 & -> & Hm1 & Hc1 & _ & Hx1 & Hn1). cbn [mbind option_bind].
  destruct (Merge_made NewConfig d1 New_made) as (d2 & -> & Hm2 & Hc2 & _ & Hx2 & Hn2). cbn [mbind option_bind].
  destruct (Merge_made d2 d1 Hm2) as (d3 & -> & _ & Hc3 & _ & Hx3 & Hn3). cbn [mbind option_bind]. intros [= <-].
  assert (∀ A k (x : gomap A), get (Some ∅) k ∪ (get (Some ∅) k ∪ get x k) ∪ (get (Some ∅) k ∪ get x k) = get x k) as Hu.
  { intros A k x. unfold get. cbn. rewrite lookup_empty. by destruct (x ≫= lookup k). }
  split_and!.
  - intros k. rewrite Hc3, lookup_joined, Hc2, lookup_joined, Hc1, lookup_joined. apply Hu.
  - intros k. rewrite Hx3, lookup_joined, Hx2, lookup_joined, Hx1, lookup_joined. apply Hu.
  - rewrite Hn3, Hn2, Hn1. unfold pick. cbn. by repeat case_decide.
Qed.

Lemma getContext_Cluster c x : getContext c = Some x → over_Context (overrides c) = KubeContext.zero →
  KubeContext.Cluster x = from_option KubeContext.Cluster "" (get (Contexts (config c)) (getContextName c)).
Proof.
  intros Hx Ho. revert Hx. unfold getContext, merged. rewrite Ho.
  destruct (get (Contexts (config c)) (getContextName c)) as [f|]; cbn [app merge_all from_option]; [|by intros [= <-]].
  assert (∀ d s m : KubeContext.KubeContext, deepMerge d s = Some m → KubeContext.Cluster m = pick (KubeContext.Cluster d) (KubeContext.Cluster s)) as Hm.
  { intros d s m. unfold deepMerge at 1, KubeContext.Merge_KubeContext. rewrite !merge_string. cbn [mbind option_bind].
    destruct (deepMerge _ _); [|done]. by intros [= <-]. }
  destruct (deepMerge KubeContext.zero f) as [d1|] eqn:E1; [|done]. cbn [mbind option_bind].
  destruct (deepMerge d1 KubeContext.zero) as [d2|] eqn:E2; [|done]. intros [= <-].
  apply Hm in E1, E2. rewrite E2, E1. unfold pick. cbn. repeat case_decide; first [done|congruence].
Qed.

(** The server that a kubeconfig file names for its current context. *)
Definition file_server (c : Config) : string :=
  let cluster := from_option KubeContext.Cluster "" (get (Contexts c) (CurrentContext c)) in
  from_option Cluster.Server "" (get (Clusters c) cluster).

(** C21: with a kubeconfig file the server is the one of the command line, or else that of
    the cluster of the current context, or else the one without a file; no context or
    one that is not there is the same as a cluster without a server. *)
Theorem flags_with_file (path master data : string) (cfg : Config) (o o' : OS) (rc : RESTConfig.Config) :
  path ≠ "" → faults o = [] → files o !! path = Some data → Load_data data = inr cfg →
  load_from_flags path master o = Ret (inr rc) o' →
  let server := first_of [master; file_server cfg; RESTConfig.environ "KUBERNETES_MASTER"; "http://localhost:8080"] in
  RESTConfig.Host rc = host_of server ∧ o' = o ∨
  in_pod o = true ∧ host_of server = host_of default_server ∧ RESTConfig.InClusterConfig o = Ret (inr rc) o'.
Proof.
  intros Hp Hf Hfile Hload. rewrite load_from_flags_eq, bind_unfold, (Load_flags _ _ Hf), decide_False, Hfile by done.
  set (c' := mkConfig (Kind cfg) (APIVersion cfg) (Preferences cfg)
          (Some (Cluster.set_origin path <$> default ∅ (Clusters cfg)))
          (Some (AuthInfo.set_origin path <$> default ∅ (AuthInfos cfg)))
          (Some (KubeContext.set_origin path <$> default ∅ (Contexts cfg))) (CurrentContext cfg) (Extensions cfg)).
  assert (load_files [path] o = Ret ([], [c']) o) as Hl.
  { cbn [load_files]. rewrite decide_False by done. unfold LoadFromFile.
    rewrite (bind_Ret _ _ _ (inr c') o); [done|]. run (TransportProps.ReadFile_ok o path data Hf Hfile). by rewrite Hload. }
  run Hl. cbn [fst snd app]. destruct (merge_files_made [c']) as (d & Hd & _). rewrite Hd. run (or_panic_Some d o).
  cbn [mret M_ret]. destruct (ResolveLocalPaths d).2 as [err|]; [done|]. cbn [option_list NewAggregate].
  set (d' := (ResolveLocalPaths d).1).
  intros (mc & o1 & Hm & H2)%bind_Ret_inv. destruct mc as [|mc]; [done|].
  pose proof (reads_ClientConfig _ _ _ _ Hf Hm : o1 = o) as ->. apply ClientConfig_spec in Hm as (_ & k & Hk & Hh).
  apply getCluster_Server in Hk as (name & Hn & Hs). cbn [with_server overrides over_ClusterInfo config server_only Cluster.Server] in Hs.
  assert (from_option Cluster.Server "" (get (Clusters d') name) = file_server cfg) as Hfs.
  { unfold getClusterName in Hn. cbn [with_server overrides over_Context KubeContext.zero KubeContext.Cluster] in Hn.
    rewrite decide_False in Hn by tauto.
    destruct (getContext (with_server d' master)) as [x|] eqn:Hx; [|done]. injection Hn as <-.
    apply getContext_Cluster in Hx; [|done]. cbn [with_server config] in Hx.
    assert (getContextName (with_server d' master) = CurrentContext d') as HN by done. rewrite HN in Hx.
    destruct (merge_one c' d Hd) as (HC & HX & HCC). destruct (ResolveLocalPaths_kept d (KubeContext.Cluster x)) as (E1 & E2 & E3).
    fold d' in E1, E2, E3. rewrite E2, E3, HX, HCC in Hx. unfold file_server.
    assert (KubeContext.Cluster x = from_option KubeContext.Cluster "" (get (Contexts cfg) (CurrentContext cfg))) as <-.
    { rewrite Hx. cbn [c' Contexts CurrentContext]. unfold get. cbn. rewrite lookup_fmap.
      destruct (Contexts cfg) as [m|]; cbn; [|by rewrite lookup_empty]. by destruct (m !! _). }
    rewrite HC in E1. cbn [c' Clusters] in E1. unfold get in *. cbn in E1 |- *. rewrite lookup_fmap in E1.
    destruct (Clusters cfg) as [m|]; cbn in E1 |- *; [destruct (m !! _)|rewrite lookup_empty in E1];
      (destruct (Clusters d' ≫= _); cbn in *; congruence). }
  rewrite Hfs in Hs. rewrite Hs in Hh. rewrite (in_cluster_ok _ _ Hf) in H2. unfold or_cluster in H2.
  destruct (in_pod o) eqn:Hpod; cbn [andb] in H2; [|left; by injection H2 as <- <-].
  case_bool_decide as Heq; [|left; by injection H2 as <- <-]. right.
  apply bind_Ret_inv in H2 as (ic & o2 & Hi & H3). destruct ic as [|ic]; [done|].
  injection H3 as <- <-. split_and!; [done| |done]. by rewrite <-Hh, Heq.
Qed.

(** ** Credentials stay on encrypted connections *)

Lemma RoundTrip_URL rt : ∀ req, URL_ (Transport.RoundTrip rt req).2 = URL_ req.
Proof. induction rt; intros req; cbn [Transport.RoundTrip]; try case_decide; by rewrite ?IHrt. Qed.
Lemma URL_String_scheme u sch : Scheme u = sch → sch ≠ "" → ∃ t, URL_String u = sch +:+ ":" +:+ t.
Proof. intros <- Hs. unfold URL_String. rewrite decide_False by done. eexists. rewrite append_assoc. reflexivity. Qed.
Lemma URL_of_Scheme r u : baseURL r = Some u → Scheme (URL_of r) = Scheme u.
Proof. intros Hu. unfold URL_of. by rewrite Hu. Qed.
Lemma set_limits_user qps burst rc : same_user (RESTConfig.set_limits qps burst rc) rc.
Proof. done. Qed.

(** C20: the credentials of a kubeconfig file or of a service account are only sent over
    TLS: whatever the flags and the files say, if a client that is made from them adds an
    [Authorization] header to a request, then the URL of the request is one of [https]. *)
Theorem credentials_need_tls {kp : Transport.KeyPairs} {ck : RESTConfig.Clocks} {rg : RESTConfig.Registered}
    (kubeconfig master : string) (qps : Q) (burst : Z) (o o' : OS) cache s' (rc : RESTConfig.Config) (cl : RESTConfig.Client) :
  load_from_flags kubeconfig master o = Ret (inr rc) o' →
  RESTConfig.New (RESTConfig.set_limits qps burst rc) (o', cache) = Ret (inr cl) s' →
  ∀ tc (r : Request) (h : gmap string string), tc ∈ clients_of cl →
    baseURL r = Some (base (RESTConfig.rest tc)) → Header_Get "Authorization" h = "" →
    let sent := (Transport.RoundTrip (RESTConfig.transport tc) (mkHttpRequest (verb r) (URL_String (URL_of r)) h)).2 in
    Header_Get "Authorization" (req_Header sent) ≠ "" → ∃ rest, URL_ sent = "https:" +:+ rest.
Proof.
  intros Hrc Hcl tc r h Htc Hr Hh sent Hauth. apply load_from_flags_guarded in Hrc.
  rewrite <-(set_limits_user qps burst rc) in Hrc.
  pose proof (New_safe _ _ _ _ Hrc Hcl) as Hs. rewrite Forall_forall in Hs.
  pose proof (Hs tc Htc (mkHttpRequest (verb r) (URL_String (URL_of r)) h) Hh Hauth) as Hscheme.
  unfold sent. rewrite RoundTrip_URL. cbn [URL_].
  by apply (URL_String_scheme (URL_of r) "https"); [rewrite (URL_of_Scheme r _ Hr)|].
Qed.

(** ** Extensions *)

Lemma Merge_Cluster_Extensions d s :
  (Cluster.Extensions d = None → (∃ e, Cluster.Extensions s = Some e ∧ e ≠ ∅) → deepMerge d s = None) ∧
  (∀ m, Cluster.Extensions s = None → deepMerge d s = Some m → Cluster.Extensions m = Cluster.Extensions d).
Proof.
  unfold deepMerge at 1 2, Cluster.Merge_Cluster. rewrite !merge_string, merge_bool. cbn [mbind option_bind]. split.
  - intros Hd (e & Hs & He). rewrite Hd, Hs. unfold deepMerge, Merge_map. by rewrite (decide_False (P := e = ∅)).
  - intros m Hs. rewrite Hs. unfold deepMerge, Merge_map. cbn [mbind option_bind]. by intros [= <-].
Qed.

(** The package merges into a cluster whose map has not been made. *)
Theorem extensions_panic (c : DirectClientConfig) (name : string) (k : Cluster.Cluster) (e : gmap string Object) :
  getClusterName c = Some name → get (Clusters (config c)) name = Some k →
  Cluster.Extensions k = Some e → e ≠ ∅ →
  getCluster c = None ∧ ∀ o o', (∀ r, ConfirmUsable_ c o ≠ Ret r o') ∧ ∀ r, ClientConfig_ c o ≠ Ret r o'.
Proof.
  intros Hn Hk Hext He. assert (getCluster c = None) as Hnone.
  { unfold getCluster. rewrite Hn. cbn [mbind option_bind]. rewrite Hk. unfold merged. cbn [app merge_all].
    destruct (deepMerge Cluster.zero DefaultCluster) as [d1|] eqn:E1; [|done]. cbn [mbind option_bind].
    destruct (deepMerge d1 EnvVarCluster) as [d2|] eqn:E2; [|done]. cbn [mbind option_bind].
    apply Merge_Cluster_Extensions in E1; [|done]. apply Merge_Cluster_Extensions in E2; [|done].
    rewrite (proj1 (Merge_Cluster_Extensions d2 k)); [done|by rewrite E2, E1|by exists e]. }
  split; [done|]. assert (∀ o r o', ConfirmUsable_ c o ≠ Ret r o') as Hc.
  { intros o r o' (x1 & o1 & _ & H1)%bind_Ret_inv. apply bind_Ret_inv in H1 as (x2 & o2 & _ & H2).
    apply bind_Ret_inv in H2 as (x3 & o3 & _ & H3). apply bind_Ret_inv in H3 as (x4 & o4 & _ & H4).
    apply bind_Ret_inv in H4 as (x5 & o5 & [Hx _]%or_panic_Ret & _). congruence. }
  intros o o'. split; [intros r; apply Hc|]. intros r (err & o1 & Hu & _)%bind_Ret_inv. by eapply Hc.
Qed.

(** [ConfirmUsable], the function, notes that the user of a context is missing, and then
    takes it all the same. *)
Theorem ConfirmUsable_panics (c : Config) (name : string) (x : KubeContext.KubeContext) (o : OS) :
  name ≠ "" → get (Contexts c) name = Some x → KubeContext.AuthInfo x ≠ "" → get (AuthInfos c) (KubeContext.AuthInfo x) = None →
  validateContext name x c ≠ [] ∧
  ConfirmUsable c name o = Panic "invalid memory address or nil pointer dereference" o.
Proof.
  intros Hn Hx Ha Hnone. split; [unfold validateContext; by rewrite decide_False, Hnone by done|].
  unfold ConfirmUsable. assert (IsConfigEmpty c = false) as ->.
  { unfold IsConfigEmpty. assert (is_empty (Contexts c) = false) as ->; [|by rewrite andb_false_r].
    unfold is_empty, get in *. destruct (Contexts c) as [m|]; [|done]. cbn in Hx. case_bool_decide as E; [|done].
    by rewrite E, lookup_empty in Hx. }
  rewrite !(decide_True (P := name ≠ "")) by done. rewrite decide_False, Hx by done. rewrite bind_unfold. by rewrite Hnone.
Qed.
End ClientCmd.

(** * Witnesses *)
Section Witnesses.
#[local] Existing Instances plain_formats order_up pod legacy_group any_pair at_boot.

(** A file with one context, for a server of which the certificate is known. *)
Definition prod : Config := mkConfig "Config" "v1" NewPreferences
  (Some {["c" := Cluster.mk "" "https://10.0.0.1:6443" "" false "" "PEM" None]})
  (Some {["u" := AuthInfo.mk "" "" "" "" "" "secret" "" "" None]})
  (Some {["x" := KubeContext.mk "" "c" "u" "" None]}) "x" (Some ∅).
Definition one_text : KubeconfigCodec.
Proof.
  refine {| Decode_config data := if decide (data = "prod") then inr prod else inl (Errorf "yaml") |}.
  intros data err. case_decide; [done|by intros [= <-]].
Defined.
Definition any_roots : RESTConfig.CertPools.
Proof. by refine {| RESTConfig.Certificate := string; RESTConfig.ParseCertificate := inr; RESTConfig.pem_Decode _ := None |}. Defined.
#[local] Existing Instances one_text any_roots.
Definition disk : OS := mkOS {["/kubeconfig" := "prod"]} [] [].

Definition rest_config (kubeconfig master : string) : option RESTConfig.Config :=
  match load_from_flags kubeconfig master disk with Ret (inr rc) _ => Some rc | _ => None end.
Example prod_config : (λ rc, (RESTConfig.Host rc, RESTConfig.BearerToken rc, RESTConfig.CAData (RESTConfig.TLS rc))) <$>
  rest_config "/kubeconfig" "" = Some ("https://10.0.0.1:6443", "secret", "PEM").
Proof. vm_compute. reflexivity. Qed.
(** With the server of the command line the credentials of the file are dropped. *)
Example prod_elsewhere : (λ rc, (RESTConfig.Host rc, RESTConfig.BearerToken rc)) <$>
  rest_config "/kubeconfig" "http://master:8080" = Some ("http://master:8080", "").
Proof. vm_compute. reflexivity. Qed.

Lemma flags_with_file_witness : ∃ rc, rest_config "/kubeconfig" "" = Some rc ∧
  RESTConfig.Host rc = "https://10.0.0.1:6443".
Proof.
  destruct (load_from_flags "/kubeconfig" "" disk) as [[err|rc] o'|? ?|?|?] eqn:E; try (vm_compute in E; discriminate E).
  exists rc. split; [unfold rest_config; by rewrite E|].
  by destruct (flags_with_file "/kubeconfig" "" "prod" prod disk o' rc) as [[Hh _]|(_ & Hh & _)].
Defined.

(** The client that the file makes, and a request as it leaves it. *)
Definition prod_client : option RESTConfig.Client :=
  match load_from_flags "/kubeconfig" "" disk with
  | Ret (inr rc) o' => match RESTConfig.New (RESTConfig.set_limits 0%Q 0 rc) (o', ∅) with Ret (inr cl) _ => Some cl | _ => None end
  | _ => None
  end.
Definition a_request (cl : RESTConfig.Client) : Request :=
  let c := RESTConfig.rest (RESTConfig.client cl) in
  NewRequest true "GET" (Some (base c)) (versionedAPIPath c) (contentConfig c).
Definition sent_by (cl : RESTConfig.Client) : http_request :=
  (Transport.RoundTrip (RESTConfig.transport (RESTConfig.client cl))
     (mkHttpRequest (verb (a_request cl)) (URL_String (URL_of (a_request cl))) ∅)).2.
Lemma prod_authorized : (λ cl, Header_Get "Authorization" (req_Header (sent_by cl))) <$> prod_client = Some "Bearer secret".
Proof. vm_compute. reflexivity. Qed.

Lemma credentials_need_tls_witness : ∃ cl, prod_client = Some cl ∧
  Header_Get "Authorization" (req_Header (sent_by cl)) = "Bearer secret" ∧ ∃ rest, URL_ (sent_by cl) = "https:" +:+ rest.
Proof.
  pose proof prod_authorized as Ha. unfold prod_client in *.
  destruct (load_from_flags "/kubeconfig" "" disk) as [[err|rc] o'|? ?|?|?] eqn:E; try discriminate Ha.
  destruct (RESTConfig.New (RESTConfig.set_limits 0%Q 0 rc) (o', ∅)) as [[err|cl] s'|? ?|?|?] eqn:En; try discriminate Ha.
  exists cl. injection Ha as Ha. split; [reflexivity|]. split; [exact Ha|].
  assert (baseURL (a_request cl) = Some (base (RESTConfig.rest (RESTConfig.client cl)))) as Hr.
  { unfold a_request, NewRequest. cbv zeta. by destruct (decide _). }
  apply (credentials_need_tls "/kubeconfig" "" 0%Q 0 disk o' ∅ s' rc cl E En (RESTConfig.client cl) (a_request cl) ∅);
    [left|exact Hr|reflexivity|].
  change (Header_Get "Authorization" (req_Header (sent_by cl)) ≠ ""). by rewrite Ha.
Defined.
End Witnesses.
