(* ===== verification/FIFO.v ===== *)
(** [client/cache/fifo.go] of the vendored Kubernetes client: the queue the rate
    limiter is built on.

    Every method runs under the queue's lock.  [Pop] answers [Block] when it
    goes to [cond.Wait()] with nothing queued; the keys of deleted items it has
    skipped before that are gone from the queue. *)

From stdpp Require Import gmap strings list.
From S2P Require Import Prelude.

Record FIFO (obj : Type) := mkFIFO {
  items : gmap string obj;
  queue : list string;
  populated : bool;
  initialPopulationCount : nat
}.
Arguments mkFIFO {obj} _ _ _ _.
Arguments items {obj} _.
Arguments queue {obj} _.
Arguments populated {obj} _.
Arguments initialPopulationCount {obj} _.

Section FIFO.
Context {obj : Type} (keyFunc : obj → error + string).
Local Abbreviation FIFO := (FIFO obj).

Definition NewFIFO : FIFO := mkFIFO ∅ [] false 0.

Definition set_populated (f : FIFO) : FIFO :=
  mkFIFO (items f) (queue f) true (initialPopulationCount f).
Definition set_items (i : gmap string obj) (f : FIFO) : FIFO :=
  mkFIFO i (queue f) (populated f) (initialPopulationCount f).
Definition set_queue (q : list string) (f : FIFO) : FIFO :=
  mkFIFO (items f) q (populated f) (initialPopulationCount f).
Definition set_initialPopulationCount (n : nat) (f : FIFO) : FIFO :=
  mkFIFO (items f) (queue f) (populated f) n.

Definition HasSynced : M FIFO bool :=
  gets (λ f, populated f && bool_decide (initialPopulationCount f = 0)).

Definition Add (o : obj) : M FIFO (option error) :=
  match keyFunc o with
  | inl err => mret (Some (KeyError err))
  | inr id =>
      modify set_populated ;;
      modify (λ f, match items f !! id with
                   | None => set_queue (queue f ++ [id]) f
                   | Some _ => f
                   end) ;;
      modify (λ f, set_items (<[id := o]> (items f)) f) ;;
      mret None
  end.

Definition AddIfNotPresent (o : obj) : M FIFO (option error) :=
  match keyFunc o with
  | inl err => mret (Some (KeyError err))
  | inr id =>
      modify set_populated ;;
      exists_ ← gets (λ f, items f !! id);
      match exists_ with
      | Some _ => mret None
      | None =>
          modify (λ f, set_items (<[id := o]> (items f)) (set_queue (queue f ++ [id]) f)) ;;
          mret None
      end
  end.

Definition Update (o : obj) : M FIFO (option error) := Add o.

Definition Delete (o : obj) : M FIFO (option error) :=
  match keyFunc o with
  | inl err => mret (Some (KeyError err))
  | inr id =>
      modify set_populated ;;
      modify (λ f, set_items (delete id (items f)) f) ;;
      mret None
  end.

(** [Pop]'s loop, over the keys still queued. *)
Fixpoint Pop_loop (q : list string) (f : FIFO) : outcome FIFO obj :=
  match q with
  | [] => Block (set_queue [] f)
  | id :: q' =>
      let f := set_queue q' f in
      let f := if decide (0 < initialPopulationCount f)
               then set_initialPopulationCount (initialPopulationCount f - 1) f else f in
      match items f !! id with
      | None => Pop_loop q' f
      | Some item => Ret item (set_items (delete id (items f)) f)
      end
  end.

Definition Pop : M FIFO obj := λ f, Pop_loop (queue f) f.

Fixpoint Replace_loop (list : list obj) (new : gmap string obj) : error + gmap string obj :=
  match list with
  | [] => inr new
  | item :: list =>
      match keyFunc item with
      | inl err => inl (KeyError err)
      | inr key => Replace_loop list (<[key := item]> new)
      end
  end.

Definition Replace `{!MapOrder} (list : list obj) (resourceVersion : string)
    : M FIFO (option error) :=
  match Replace_loop list ∅ with
  | inl err => mret (Some err)
  | inr new =>
      modify (λ f, if populated f then f
                   else set_initialPopulationCount (size new) (set_populated f)) ;;
      modify (λ f, set_queue (map_range new) (set_items new f)) ;;
      mret None
  end.

Definition List `{!MapOrder} (f : FIFO) : list obj := omap (λ key, items f !! key) (map_range (items f)).
Definition ListKeys `{!MapOrder} (f : FIFO) : list string := map_range (items f).
Definition GetByKey (key : string) (f : FIFO) : error + option obj := inr (items f !! key).
Definition Get (o : obj) (f : FIFO) : error + option obj :=
  match keyFunc o with
  | inl err => inl (KeyError err)
  | inr key => GetByKey key f
  end.

(** The property [FIFO]'s comment says its methods depend on, in the direction
    that [Delete] leaves true: the items in the set are in the queue. *)
Record fifo_wf (f : FIFO) : Prop := {
  fifo_items id : is_Some (items f !! id) → id ∈ queue f
}.
End FIFO.
