(* ===== verification/RateLimiter.v ===== *)
(** [util/ratelimiter/ratelimiter.go]: a function whose invocations are coalesced
    in a one-key queue and spaced by a backoff window.

    The handler is code over a state [W] of its own.  The background loop
    [RunUntil] starts runs [handleOne(queue.Pop())] forever; one iteration is
    [Iterate], with the readings of the clock as arguments: [t1] and [t2] are
    the two [rlf.backOff.Clock.Now()] of [handleOne] and [t3] the reading inside
    [Next].  [utilwait.Until] recovers from a panic of an iteration
    ([recover_panic]). *)

From stdpp Require Import gmap strings list.
From S2P Require Import Prelude GoTime Wait PtrMap Backoff FIFO.

Local Open Scope Z_scope.

Definition maxBackOffPeriod : Duration := 30 * Second.

Record RateLimitedFunction (R : Type) := mkRateLimitedFunction {
  queue : FIFO R;
  backOffKey : string;
  backOff : Backoff
}.
Arguments mkRateLimitedFunction {R} _ _ _.
Arguments queue {R} _.
Arguments backOffKey {R} _.
Arguments backOff {R} _.

Section RateLimiter.
Context {R W : Type}.
Local Abbreviation RateLimitedFunction := (RateLimitedFunction R).

(** The key function of the queue: every resource has the same key. *)
Definition keyFunc (backOffKey : string) (_ : R) : error + string := inr backOffKey.

Definition NewRateLimitedFunction (backOffKey : string) (period : Duration)
    : RateLimitedFunction :=
  let fifo := NewFIFO in
  let backOff := NewBackOff period maxBackOffPeriod in
  mkRateLimitedFunction fifo backOffKey backOff.

Definition set_queue (q : FIFO R) (rlf : RateLimitedFunction) : RateLimitedFunction :=
  mkRateLimitedFunction q (backOffKey rlf) (backOff rlf).
Definition set_backOff (b : Backoff) (rlf : RateLimitedFunction) : RateLimitedFunction :=
  mkRateLimitedFunction (queue rlf) (backOffKey rlf) b.

Definition on_queue {A} (m : M (FIFO R) A) : M RateLimitedFunction A := zoom queue set_queue m.
Definition on_backOff {A} (m : M Backoff A) : M RateLimitedFunction A :=
  zoom backOff set_backOff m.

Definition Invoke (resource : R) : M RateLimitedFunction unit :=
  key ← gets backOffKey;
  on_queue (AddIfNotPresent (keyFunc key) resource) ;; mret tt.

(** The state of the rate limiter beside the handler's. *)
Definition on_rlf {A} (m : M RateLimitedFunction A) : M (RateLimitedFunction * W) A :=
  zoom fst (λ rlf s, (rlf, s.2)) m.
Definition on_world {A} (m : M W A) : M (RateLimitedFunction * W) A :=
  zoom snd (λ w s, (s.1, w)) m.

(** [handleOne].  An error of the handler is handed to [utilruntime.HandleError],
    which logs it. *)
Definition handleOne (Handler : M W (option error)) (resource : R) (t1 t2 t3 : Time)
    : M (RateLimitedFunction * W) unit :=
  key ← gets (λ s, backOffKey s.1);
  inBackOff ← on_rlf (on_backOff (IsInBackOffSinceUpdate key t1));
  if inBackOff : bool then
    on_rlf (on_queue (AddIfNotPresent (keyFunc key) resource)) ;; mret tt
  else
    on_world Handler ;;
    on_rlf (on_backOff (Next key t2 t3)).

(** One iteration of the loop that [RunUntil] starts. *)
Definition Iterate (Handler : M W (option error)) (t1 t2 t3 : Time)
    : M (RateLimitedFunction * W) unit :=
  recover_panic
    (resource ← on_rlf (on_queue Pop); handleOne Handler resource t1 t2 t3).

(** ** The state seen from outside *)

(** A request is waiting. *)
Definition pending (rlf : RateLimitedFunction) : Prop := FIFO.queue (queue rlf) ≠ [].

(** When the last run ended, if the key still has an entry. *)
Definition last_run (rlf : RateLimitedFunction) : option Time :=
  lastUpdate <$> entries (backOff rlf) !! backOffKey rlf.

(** The invariant of a rate limiter made with [period]. *)
Record rlf_wf (period : Duration) (rlf : RateLimitedFunction) : Prop := {
  rlf_queue : (∃ r, items (queue rlf) = {[ backOffKey rlf := r ]} ∧
                    FIFO.queue (queue rlf) = [backOffKey rlf]) ∨
              (items (queue rlf) = ∅ ∧ FIFO.queue (queue rlf) = []);
  rlf_backoff : backoff_wf (backOff rlf);
  rlf_max : maxDuration (backOff rlf) = maxBackOffPeriod;
  rlf_default : defaultDuration (backOff rlf) = period;
  rlf_window e : entries (backOff rlf) !! backOffKey rlf = Some e → backoff e = period
}.

(** Whether a run may start at [t]: the first run, or the window has passed, or
    the entry has expired. *)
Definition may_run (period : Duration) (rlf : RateLimitedFunction) (t : Time) : Prop :=
  match last_run rlf with
  | None => True
  | Some u => period ≤ t - u ∨ maxBackOffPeriod * 2 < t - u
  end.
#[export] Instance may_run_dec period rlf t : Decision (may_run period rlf t).
Proof. unfold may_run. destruct (last_run rlf); apply _. Defined.
End RateLimiter.
