(* ===== verification/RateLimiterProps.v ===== *)
(** The properties of the rate limiter: what one iteration of its loop does on
    every branch, how far apart two runs of the handler are, that requests are
    coalesced and never dropped while the handler returns, and that a waiting
    request is served. *)

From stdpp Require Import gmap strings list relations.
From S2P Require Import Prelude GoTime Wait PtrMap Backoff FIFO RateLimiter.

Local Open Scope Z_scope.

Section Facts.
Context {R W : Type}.
Local Abbreviation RLF := (RateLimitedFunction R).
Implicit Types (rlf : RLF) (r : R) (w : W).

Lemma New_wf key period : rlf_wf period (NewRateLimitedFunction (R := R) key period).
Proof.
  split; simpl; [by right|apply NewBackOff_wf|done|done|].
  intros e. by rewrite entries_New, lookup_empty.
Qed.

Lemma set_queue_id rlf : set_queue (queue rlf) rlf = rlf.
Proof. by destruct rlf. Qed.

(** Putting a request keeps one queued key, and leaves the windows alone. *)
Lemma put_spec period r rlf :
  rlf_wf period rlf →
  ∃ q, on_queue (AddIfNotPresent (keyFunc (backOffKey rlf)) r) rlf = Ret None (set_queue q rlf) ∧
    FIFO.queue q = [backOffKey rlf] ∧ rlf_wf period (set_queue q rlf).
Proof.
  intros [Hq Hb Hm Hd Hw]. unfold on_queue, zoom, AddIfNotPresent, keyFunc. m_unfold.
  destruct Hq as [(r' & Hi & Hq)|[Hi Hq]]; simpl; rewrite Hi.
  - rewrite lookup_singleton_eq. simpl. eexists. split; [done|]. simpl. rewrite Hq.
    split; [done|]. split; simpl; eauto.
  - rewrite lookup_empty. simpl. rewrite Hi, Hq, insert_empty. eexists. split; [done|].
    split; [done|]. split; simpl; eauto.
Qed.

Lemma Invoke_spec period r rlf :
  rlf_wf period rlf →
  ∃ q, Invoke r rlf = Ret tt (set_queue q rlf) ∧
    FIFO.queue q = [backOffKey rlf] ∧ rlf_wf period (set_queue q rlf).
Proof.
  intros Hwf. destruct (put_spec period r rlf Hwf) as (q & Hp & ?).
  exists q. split; [|done]. unfold Invoke. rewrite (bind_Ret _ _ _ (backOffKey rlf) rlf) by done.
  by run Hp.
Qed.

(** Taking the request. *)
Lemma take_spec period rlf :
  rlf_wf period rlf →
  if decide (pending rlf) then
    ∃ r q, on_queue Pop rlf = Ret r (set_queue q rlf) ∧ FIFO.queue q = [] ∧
           rlf_wf period (set_queue q rlf)
  else on_queue Pop rlf = Block rlf.
Proof.
  intros [Hq Hb Hm Hd Hw]. unfold pending, on_queue, zoom, Pop.
  destruct Hq as [(r' & Hi & Hq)|[Hi Hq]]; rewrite Hq.
  - rewrite decide_True by done. simpl.
    set (f := if decide _ then _ else _).
    assert (items f = {[backOffKey rlf := r']} ∧ FIFO.queue f = []) as [Hfi Hfq].
    { unfold f. by case_decide. }
    rewrite Hfi, lookup_singleton_eq. eexists _, _. split; [done|]. simpl.
    split; [done|]. split; simpl; try done. right. by rewrite delete_singleton_eq.
  - rewrite decide_False by naive_solver. simpl. f_equal.
    destruct rlf as [[] ? ?]; simpl in *. by subst.
Qed.

(** The test of the window. *)
Lemma rlf_query_spec period rlf t :
  rlf_wf period rlf → 0 ≤ period ≤ max_int64 →
  on_backOff (IsInBackOffSinceUpdate (backOffKey rlf) t) rlf =
    Ret (negb (bool_decide (may_run period rlf t))) rlf.
Proof.
  intros [_ Hb Hm _ Hw] Hp. unfold on_backOff, zoom.
  rewrite IsInBackOffSinceUpdate_spec by done.
  replace (set_backOff (backOff rlf) rlf) with rlf by by destruct rlf. f_equal.
  assert (may_run period rlf t ↔ ∀ e, entries (backOff rlf) !! backOffKey rlf = Some e →
    period ≤ t - lastUpdate e ∨ maxBackOffPeriod * 2 < t - lastUpdate e) as Hmr.
  { unfold may_run, last_run.
    destruct (entries (backOff rlf) !! backOffKey rlf) as [e|]; simpl; [|done].
    split; [by intros ? ? [= <-]|]. intros He. by apply He. }
  destruct (entries (backOff rlf) !! backOffKey rlf) as [e|] eqn:E;
    [|by rewrite bool_decide_true by (by apply Hmr)].
  rewrite (Hw e) by done. unfold hasExpired. rewrite Hm, wrap64_id by (by split; vm_compute).
  assert (min_int64 < 0 ∧ maxBackOffPeriod * 2 < max_int64 ∧ is_int64 (maxBackOffPeriod * 2))
    as (? & ? & ?) by (split_and!; by vm_compute).
  rewrite <-!bool_decide_not, <-bool_decide_and. apply bool_decide_ext.
  rewrite Sub_lt, Sub_gt; unfold is_int64 in *; try lia.
  rewrite Hmr. split.
  - intros [? ?] He. destruct (He e eq_refl); lia.
  - intros He. split; [intros Hx|apply Z.nle_gt; intros Hx]; apply He; intros ? [= <-]; auto.
Qed.

(** Closing the window after a run. *)
Lemma next_spec period rlf t2 t3 :
  rlf_wf period rlf →
  ∃ b, on_backOff (Next (backOffKey rlf) t2 t3) rlf = Ret tt (set_backOff b rlf) ∧
    rlf_wf period (set_backOff b rlf) ∧ last_run (set_backOff b rlf) = Some t3.
Proof.
  intros [Hq Hb Hm Hd Hw]. unfold on_backOff, zoom.
  destruct (Next_spec (backOffKey rlf) t2 t3 (backOff rlf) Hb) as (b & -> & [Hb' He Hd' Hm']).
  exists b. split; [done|]. unfold next_entries in He.
  assert (entries b !! backOffKey rlf = Some (mkBackoffEntry period t3)) as Hk.
  { rewrite He, lookup_insert_eq. do 2 f_equal.
    destruct (entries (backOff rlf) !! backOffKey rlf) as [e|] eqn:E; [|done].
    destruct (hasExpired _ _ _); [done|]. by apply Hw. }
  split; [|unfold last_run; simpl; by rewrite Hk].
  split; simpl; [done..|congruence|congruence|].
  intros e. rewrite Hk. by intros [= <-].
Qed.

Lemma last_run_set_queue q rlf : last_run (set_queue q rlf) = last_run rlf.
Proof. done. Qed.

Lemma on_rlf_Ret {A} (m : M RLF A) rlf w a rlf' :
  m rlf = Ret a rlf' → on_rlf m (rlf, w) = Ret a (rlf', w).
Proof. intros H. unfold on_rlf, zoom. simpl. by rewrite H. Qed.

Lemma on_world_bind {A B} (m : M W A) (f : A → M (RLF * W) B) rlf w :
  (x ← on_world m; f x) (rlf, w) =
  match m w with
  | Ret a w' => f a (rlf, w')
  | Panic msg w' => Panic msg (rlf, w')
  | Exit w' => Exit (rlf, w')
  | Block w' => Block (rlf, w')
  end.
Proof. unfold on_world, zoom, mbind, M_bind. simpl. by destruct (m w). Qed.

(** One iteration, branch by branch. *)
Inductive iterated (period : Duration) (Handler : M W (option error)) (t1 t3 : Time) rlf w
    : outcome (RLF * W) unit → Prop :=
| it_wait :
    ¬ pending rlf → iterated period Handler t1 t3 rlf w (Block (rlf, w))
| it_requeue rlf' :
    pending rlf → ¬ may_run period rlf t1 → rlf_wf period rlf' → pending rlf' →
    last_run rlf' = last_run rlf → iterated period Handler t1 t3 rlf w (Ret tt (rlf', w))
| it_run err rlf' w' :
    pending rlf → may_run period rlf t1 → Handler w = Ret err w' → rlf_wf period rlf' →
    ¬ pending rlf' → last_run rlf' = Some t3 →
    iterated period Handler t1 t3 rlf w (Ret tt (rlf', w'))
| it_panic msg rlf' w' :
    pending rlf → may_run period rlf t1 → Handler w = Panic msg w' → rlf_wf period rlf' →
    ¬ pending rlf' → last_run rlf' = last_run rlf →
    iterated period Handler t1 t3 rlf w (Ret tt (rlf', w'))
| it_exit rlf' w' :
    pending rlf → may_run period rlf t1 → Handler w = Exit w' →
    iterated period Handler t1 t3 rlf w (Exit (rlf', w'))
| it_block rlf' w' :
    pending rlf → may_run period rlf t1 → Handler w = Block w' →
    iterated period Handler t1 t3 rlf w (Block (rlf', w')).

Lemma Iterate_iterated period Handler t1 t2 t3 rlf w :
  rlf_wf period rlf → 0 ≤ period ≤ max_int64 →
  iterated period Handler t1 t3 rlf w (Iterate Handler t1 t2 t3 (rlf, w)).
Proof.
  intros Hwf Hp. pose proof (take_spec period rlf Hwf) as Htake.
  unfold Iterate, recover_panic. destruct (decide (pending rlf)) as [Hpend|Hpend].
  2: { unfold mbind, M_bind, on_rlf, zoom. simpl. rewrite Htake. by apply it_wait. }
  destruct Htake as (r & q & Htake & Hq & Hwf1).
  run (on_rlf_Ret _ _ w _ _ Htake).
  set (rlf1 := set_queue q rlf) in *. unfold handleOne.
  rewrite (bind_Ret _ _ _ (backOffKey rlf1) (rlf1, w)) by done.
  run (on_rlf_Ret _ _ w _ _ (rlf_query_spec period rlf1 t1 Hwf1 Hp)).
  assert (may_run period rlf1 t1 ↔ may_run period rlf t1) as Hmay by done.
  assert (¬ pending rlf1) as Hnp by (intros Hpe; by apply Hpe).
  case_bool_decide as Hm; cbn [negb].
  - rewrite on_world_bind. destruct (Handler w) as [err w'|msg w'|w'|w'] eqn:HH.
    + destruct (next_spec period rlf1 t2 t3 Hwf1) as (b & Hn & Hwf2 & Hlast).
      rewrite (on_rlf_Ret _ _ w' _ _ Hn). by eapply it_run.
    + by eapply it_panic.
    + by eapply it_exit.
    + by eapply it_block.
  - destruct (put_spec period r rlf1 Hwf1) as (q' & Hput & Hq' & Hwf2).
    run (on_rlf_Ret _ _ w _ _ Hput).
    apply it_requeue; [done..| |done]. unfold pending. simpl. by rewrite Hq'.
Qed.
End Facts.
#[export] Hint Resolve New_wf : go.

(** ** Executions against a clock *)
Section Timed.
Context {R : Type}.
Local Abbreviation RLF := (RateLimitedFunction R).

(** The handler that logs when it was started (newest first) and returns. *)
Definition logging (t : Time) (err : option error) : M (list Time) (option error) :=
  λ log, Ret err (t :: log).

(** A state: the rate limiter, the log of starts, the number of requests so far
    and the time of the last event. *)
Definition tstate : Type := RLF * list Time * nat * Time.

(** Requests and iterations of the loop, with a clock that does not go back. *)
Inductive tstep : tstate → tstate → Prop :=
| t_invoke rlf log n now now' r rlf' :
    now ≤ now' → Invoke r rlf = Ret tt rlf' →
    tstep (rlf, log, n, now) (rlf', log, S n, now')
| t_iterate rlf log n now t1 t2 t3 err rlf' log' :
    now ≤ t1 → t1 ≤ t2 → t2 ≤ t3 →
    Iterate (logging t1 err) t1 t2 t3 (rlf, log) = Ret tt (rlf', log') →
    tstep (rlf, log, n, now) (rlf', log', n, t3).

Definition tinit (key : string) (period : Duration) (now : Time) : tstate :=
  (NewRateLimitedFunction key period, [], 0%nat, now).

(** The least distance of two starts. *)
Definition spacing (period : Duration) : Duration :=
  Z.min period (maxBackOffPeriod * 2 + 1).

(** Every two neighbours of a newest-first log are [d] apart. *)
Fixpoint spaced (d : Duration) (log : list Time) : Prop :=
  match log with
  | t' :: ((t :: _) as log') => d ≤ t' - t ∧ spaced d log'
  | _ => True
  end.

Record tinv (period : Duration) (st : tstate) : Prop := {
  tinv_wf : rlf_wf period st.1.1.1;
  tinv_spaced : spaced (spacing period) st.1.1.2;
  tinv_last t log : st.1.1.2 = t :: log →
    ∃ u, last_run st.1.1.1 = Some u ∧ t ≤ u ∧ u ≤ st.2;
  tinv_count : (length st.1.1.2 + (if decide (pending st.1.1.1) then 1 else 0) ≤ st.1.2)%nat
}.

Lemma tinv_init key period now : tinv period (tinit key period now).
Proof. split; [apply New_wf|done|done|simpl; lia]. Qed.

Lemma tinv_step period st st' :
  0 ≤ period ≤ max_int64 → tinv period st → tstep st st' → tinv period st'.
Proof.
  intros Hp [Hwf Hsp Hlast Hcnt] Hst.
  destruct Hst as [rlf log n now now' r rlf' Hnow Hi|rlf log n now t1 t2 t3 err rlf' log' H1 H2 H3 Hi];
    simpl in *.
  - destruct (Invoke_spec period r rlf Hwf) as (q & Hi' & _ & Hwf'). rewrite Hi in Hi'.
    injection Hi' as ->. split; simpl; [done..| |].
    + intros t l Hl. destruct (Hlast t l Hl) as (u & ? & ? & ?). exists u. split_and!; [done..|lia].
    + repeat case_decide; lia.
  - pose proof (Iterate_iterated period (logging t1 err) t1 t2 t3 rlf log Hwf Hp) as Hit.
    rewrite Hi in Hit. inversion Hit as [|? Hpe ? Hwf' Hpe' Hl|? ? ? Hpe Hmay HH Hwf' Hpe' Hl|? ? ? ? ? HH| |];
      subst; [| |done].
    + split; simpl; [done..| |].
      * intros t l Ht. destruct (Hlast t l Ht) as (u & ? & ? & ?). exists u.
        rewrite Hl. split_and!; [done..|lia].
      * rewrite decide_True in Hcnt by done. rewrite decide_True by done. exact Hcnt.
    + injection HH as <- <-. split; simpl; [exact Hwf'| | |].
      * destruct log as [|t log]; [done|]. destruct (Hlast t log eq_refl) as (u & Hu & ? & ?).
        split; [|done]. unfold may_run in Hmay. rewrite Hu in Hmay. unfold spacing. lia.
      * intros t l [= <- <-]. exists t3. split_and!; [done|lia..].
      * rewrite decide_True in Hcnt by done. rewrite decide_False by done. lia.
Qed.

Lemma tinv_reach key period now st :
  0 ≤ period ≤ max_int64 → rtc tstep (tinit key period now) st → tinv period st.
Proof.
  intros Hp Hr. eapply (rtc_invariant tstep (tinv period)); [|done|apply tinv_init].
  intros a b Ha Hab. by eapply tinv_step.
Qed.

Lemma spaced_neighbours d pre t' t post : spaced d (pre ++ t' :: t :: post) → d ≤ t' - t.
Proof.
  induction pre as [|x pre IH]; [by intros [? _]|]. intros H. apply IH.
  destruct pre; by destruct H.
Qed.

(** Iterations at the instants [ts], each taking no time. *)
Fixpoint iterate_at (ts : list Time) (s : RLF * list Time) : RLF * list Time :=
  match ts with
  | [] => s
  | t :: ts => iterate_at ts (final (Iterate (logging t None) t t t s))
  end.

Lemma iterate_at_log ts s period :
  0 ≤ period ≤ max_int64 → rlf_wf period s.1 →
  (length s.2 ≤ length (iterate_at ts s).2)%nat.
Proof.
  intros Hp. revert s. induction ts as [|t ts IH]; intros [rlf log] Hwf; simpl; [done|].
  pose proof (Iterate_iterated period (logging t None) t t t rlf log Hwf Hp) as Hit.
  inversion Hit as [? Heq|? ? ? ? ? ? Heq|? ? ? ? ? HH ? ? ? Heq|? ? ? ? ? HH|? ? ? ? HH|? ? ? ? HH];
    try (by inversion HH); simpl.
  - by apply (IH (rlf, log)).
  - by apply (IH (_, _)).
  - injection HH as <- <-. etrans; [|by apply (IH (_, _))]. simpl. lia.
Qed.

Lemma iterate_at_serves ts rlf log period t :
  0 ≤ period ≤ max_int64 → rlf_wf period rlf → pending rlf → t ∈ ts → may_run period rlf t →
  (length log < length (iterate_at ts (rlf, log)).2)%nat.
Proof.
  intros Hp. revert rlf log. induction ts as [|t0 ts IH]; intros rlf log Hwf Hpend Hin Hmay;
    [set_solver|]. simpl.
  pose proof (Iterate_iterated period (logging t0 None) t0 t0 t0 rlf log Hwf Hp) as Hit.
  inversion Hit as [? Heq|? ? Hno ? ? Hl Heq|? ? ? ? ? HH ? ? ? Heq|? ? ? ? ? HH|? ? ? ? HH|? ? ? ? HH];
    try (by inversion HH); simpl; [done| |].
  - apply elem_of_cons in Hin as [->|Hin]; [done|]. apply IH; [done..|].
    unfold may_run in *. by rewrite Hl.
  - injection HH as <- <-. eapply Nat.lt_le_trans; [|by eapply (iterate_at_log ts (_, _))].
    simpl. lia.
Qed.
End Timed.

(** ** The properties *)

(** C32: one iteration of the loop waits when no request is queued; inside the
    window of the last run it puts the request back without running the handler;
    otherwise it takes the request and runs the handler once, and closes the
    window at the end of a run that returns (with or without an error).  A run
    that panics uses up the request and leaves the window as it was. *)
Theorem Iterate_correct {R W} period (Handler : M W (option error)) t1 t2 t3
    (rlf : RateLimitedFunction R) w :
  rlf_wf period rlf → 0 ≤ period ≤ max_int64 →
  iterated period Handler t1 t3 rlf w (Iterate Handler t1 t2 t3 (rlf, w)).
Proof. apply Iterate_iterated. Qed.

(** C33: two runs of the handler start at least [period] apart, or more than a
    minute (twice [maxBackOffPeriod]) apart if [period] is longer than that. *)
Theorem runs_are_spaced {R} key period now (rlf : RateLimitedFunction R) pre t' t post n now' :
  0 ≤ period ≤ max_int64 →
  rtc tstep (tinit key period now) (rlf, pre ++ t' :: t :: post, n, now') →
  Z.min period (maxBackOffPeriod * 2 + 1) ≤ t' - t.
Proof.
  intros Hp Hr. destruct (tinv_reach key period now _ Hp Hr) as [_ Hs _ _].
  by apply spaced_neighbours in Hs.
Qed.

(** Requests are coalesced: there are at most as many runs as requests, and at
    most one request is waiting at any time. *)
Theorem requests_coalesce {R} key period now (rlf : RateLimitedFunction R) log n now' :
  0 ≤ period ≤ max_int64 →
  rtc tstep (tinit key period now) (rlf, log, n, now') →
  (length log ≤ n)%nat ∧ (length (FIFO.queue (queue rlf)) ≤ 1)%nat.
Proof.
  intros Hp Hr. destruct (tinv_reach key period now _ Hp Hr) as [[Hq _ _ _ _] _ _ Hc].
  simpl in *. split; [lia|]. destruct Hq as [(r & _ & ->)|[_ ->]]; simpl; lia.
Qed.

(** A waiting request is served: if the loop iterates at some instant when a
    run may start, the handler has been run by the end of those iterations. *)
Theorem request_is_served {R} ts (rlf : RateLimitedFunction R) log period t :
  0 ≤ period ≤ max_int64 → rlf_wf period rlf → pending rlf → t ∈ ts → may_run period rlf t →
  (length log < length (iterate_at ts (rlf, log)).2)%nat.
Proof. apply iterate_at_serves. Qed.

(** A loop with a two-minute interval that gets a request, runs at the epoch, gets
    another request and iterates a minute and a second later. *)
Definition two_minutes : RateLimitedFunction unit * list Time :=
  let rlf := NewRateLimitedFunction "k" (2 * Minute) in
  let '(rlf, log) := iterate_at [0] (final (Invoke tt rlf), []) in
  iterate_at [61 * Second] (final (Invoke tt rlf), log).

(** An interval longer than a minute is not kept: with an interval of two
    minutes the handler runs twice within 61 seconds. *)
Theorem long_interval_not_kept : two_minutes.2 = [61 * Second; 0].
Proof. vm_compute. reflexivity. Qed.

(** ** Witnesses *)

Definition rlf1 : RateLimitedFunction unit :=
  final (Invoke tt (NewRateLimitedFunction "k" (5 * Second))).

Lemma rlf1_wf : rlf_wf (5 * Second) rlf1.
Proof.
  destruct (Invoke_spec (5 * Second) tt _ (New_wf "k" (5 * Second))) as (q & Hq & _ & Hwf).
  unfold rlf1. by rewrite Hq.
Qed.
#[export] Hint Resolve rlf1_wf : go.

Lemma Iterate_correct_witness :
  iterated (5 * Second) (logging 3 None) 3 5 rlf1 [] (Iterate (logging 3 None) 3 4 5 (rlf1, [])).
Proof. apply Iterate_correct; [auto with go|]. split; vm_compute; discriminate. Defined.

(** Two requests and two runs, ten seconds apart. *)
Definition rlf2 : RateLimitedFunction unit * list Time :=
  final (Iterate (logging 1 None) 1 1 1 (rlf1, [])).
Definition rlf3 : RateLimitedFunction unit * list Time :=
  final (Iterate (logging (10 * Second) None) (10 * Second) (10 * Second) (10 * Second)
           (final (Invoke tt rlf2.1), rlf2.2)).

Lemma rlf3_run :
  rtc tstep (tinit "k" (5 * Second) 0) (rlf3.1, [10 * Second; 1], 2%nat, 10 * Second).
Proof.
  eapply rtc_l; [apply (t_invoke _ _ _ 0 0 tt rlf1); [lia|reflexivity]|].
  eapply rtc_l; [apply (t_iterate _ _ _ 0 1 1 1 None rlf2.1 rlf2.2); [lia..|vm_compute; reflexivity]|].
  eapply rtc_l; [apply (t_invoke _ _ _ 1 1 tt (final (Invoke tt rlf2.1))); [lia|vm_compute; reflexivity]|].
  eapply rtc_l; [apply (t_iterate _ _ _ 1 (10 * Second) (10 * Second) (10 * Second) None rlf3.1 rlf3.2);
    [by vm_compute..|vm_compute; reflexivity]|].
  apply rtc_refl.
Qed.

Lemma runs_are_spaced_witness :
  Z.min (5 * Second) (maxBackOffPeriod * 2 + 1) ≤ 10 * Second - 1.
Proof.
  apply (runs_are_spaced "k" (5 * Second) 0 rlf3.1 [] (10 * Second) 1 [] 2 (10 * Second)).
  - split; vm_compute; discriminate.
  - apply rlf3_run.
Defined.

Lemma requests_coalesce_witness :
  (length [10 * Second; 1]%Z ≤ 2)%nat ∧ (length (FIFO.queue (queue rlf3.1)) ≤ 1)%nat.
Proof.
  apply (requests_coalesce "k" (5 * Second) 0 rlf3.1 [10 * Second; 1] 2 (10 * Second)).
  - split; vm_compute; discriminate.
  - apply rlf3_run.
Defined.

Lemma request_is_served_witness :
  (length (A := Time) [] < length (iterate_at [1; 2]%Z (rlf1, [])).2)%nat.
Proof.
  apply (request_is_served [1; 2] rlf1 [] (5 * Second) 2).
  - split; vm_compute; discriminate.
  - auto with go.
  - vm_compute. discriminate.
  - right. left.
  - vm_compute. exact I.
Defined.
