(* ===== verification/EventQueue.v ===== *)
(** [util/cache/eventqueue.go]: the queue of compressed watch events.

    The queue is written against the interface [StoreOps] of the backing store,
    as the Go struct is against [kcache.Store]; its theorems
    ([EventQueueFacts.v], [EventQueueSpec.v]) use only [StoreLaws].

    Every method runs under [eq.lock], so it is one transition of the state.
    [cond] counts the calls of [eq.cond.Broadcast()], which is what a waiting
    [Pop] can observe of the condition variable.  [Pop] answers [Block] when it
    goes to [cond.Wait()]: the lock is released with the state unchanged, and
    the thread runs [Pop]'s loop again after a broadcast. *)

From stdpp Require Import gmap strings list.
From S2P Require Import Prelude Types KStore.

(** [type watchEventEffect]. *)
Inductive watchEventEffect : Type :=
| watchEventEffectAdd | watchEventEffectCompress | watchEventEffectDelete.

#[export] Instance watchEventEffect_eq_dec : EqDecision watchEventEffect.
Proof. solve_decision. Defined.

(** The two-level maps, as functions of both keys; [None] is an absent entry. *)
Definition watchEventEffectMatrix (queued new : EventType) : option watchEventEffect :=
  match queued, new with
  | Added, Modified => Some watchEventEffectCompress
  | Added, Deleted => Some watchEventEffectDelete
  | Modified, Modified => Some watchEventEffectCompress
  | Modified, Deleted => Some watchEventEffectCompress
  | _, _ => None
  end.

Definition watchEventCompressionMatrix (queued new : EventType) : option EventType :=
  match queued, new with
  | Added, Modified => Some Added
  | Modified, Modified => Some Modified
  | Modified, Deleted => Some Deleted
  | _, _ => None
  end.

Record EventQueue (S : Type) := mkEventQueue {
  store : S;
  events : gmap string EventType;
  queue : list string;
  lastReplaceKey : string;
  cond : nat
}.
Arguments mkEventQueue {S} _ _ _ _ _.
Arguments store {S} _.
Arguments events {S} _.
Arguments queue {S} _.
Arguments lastReplaceKey {S} _.
Arguments cond {S} _.

Section EventQueue.
Context {obj S : Type} `{!StoreOps S obj} (keyFn : obj → error + string).
Local Abbreviation EventQueue := (EventQueue S).

Definition set_store (s : S) (eq : EventQueue) : EventQueue :=
  mkEventQueue s (events eq) (queue eq) (lastReplaceKey eq) (cond eq).
Definition set_events (ev : gmap string EventType) (eq : EventQueue) : EventQueue :=
  mkEventQueue (store eq) ev (queue eq) (lastReplaceKey eq) (cond eq).
Definition set_queue (q : list string) (eq : EventQueue) : EventQueue :=
  mkEventQueue (store eq) (events eq) q (lastReplaceKey eq) (cond eq).
Definition set_lastReplaceKey (k : string) (eq : EventQueue) : EventQueue :=
  mkEventQueue (store eq) (events eq) (queue eq) k (cond eq).
Definition Broadcast (eq : EventQueue) : EventQueue :=
  mkEventQueue (store eq) (events eq) (queue eq) (lastReplaceKey eq) (Datatypes.S (cond eq)).

(** [updateStore]. *)
Definition updateStore (key : string) (o : obj) (eventType : EventType)
    : M EventQueue (option error) := λ eq,
  if decide (eventType = Deleted) then Ret None eq
  else
    let '(err, st) :=
      if decide (eventType = Added) then store_Add o (store eq)
      else store_Update o (store eq) in
    Ret err (set_store st eq).

(** [queueWithout]. *)
Definition queueWithout (key : string) (eq : EventQueue) : list string :=
  filter (λ qkey, qkey ≠ key) (queue eq).

(** The [switch effect] of [handleEvent]. *)
Definition realizeEffect (key : string) (queuedEventType : option EventType)
    (newEventType : EventType) (effect : watchEventEffect) : M EventQueue unit :=
  match effect with
  | watchEventEffectAdd =>
      modify (λ eq, Broadcast (set_queue (queue eq ++ [key])
                                 (set_events (<[key := newEventType]> (events eq)) eq)))
  | watchEventEffectCompress =>
      match queuedEventType ≫= λ q, watchEventCompressionMatrix q newEventType with
      | None => panic "Invalid state transition"
      | Some t => modify (λ eq, set_events (<[key := t]> (events eq)) eq)
      end
  | watchEventEffectDelete =>
      modify (λ eq, set_queue (queueWithout key eq)
                      (set_events (delete key (events eq)) eq))
  end.

(** [handleEvent]. *)
Definition handleEvent (o : obj) (newEventType : EventType) : M EventQueue (option error) :=
  match keyFn o with
  | inl err => mret (Some err)
  | inr key =>
      queuedEventType ← gets (λ eq, events eq !! key);
      match (match queuedEventType with
             | None => Some watchEventEffectAdd
             | Some q => watchEventEffectMatrix q newEventType
             end) with
      | None => panic "Invalid state transition"
      | Some effect =>
          err ← updateStore key o newEventType;
          match err with
          | Some err => mret (Some err)
          | None => realizeEffect key queuedEventType newEventType effect ;; mret None
          end
      end
  end.

Definition Cancel : M EventQueue unit := modify Broadcast.

Definition Add (o : obj) : M EventQueue (option error) := handleEvent o Added.
Definition Update (o : obj) : M EventQueue (option error) := handleEvent o Modified.
Definition Delete (o : obj) : M EventQueue (option error) := handleEvent o Deleted.

(** [List]: the objects of the queued keys, in queue order. *)
Fixpoint List_loop (keys : list string) (s : S) : string + list obj :=
  match keys with
  | [] => inr []
  | key :: keys =>
      match store_GetByKey key s with
      | inl err => inl "Failure to get by key"
      | inr None => inl "Tried to list an ID not in backing store"
      | inr (Some item) =>
          match List_loop keys s with
          | inl msg => inl msg
          | inr items => inr (item :: items)
          end
      end
  end.

Definition List_ : M EventQueue (list obj) := λ eq,
  match List_loop (queue eq) (store eq) with
  | inl msg => Panic msg eq
  | inr items => Ret items eq
  end.

(** [list := make([]string, 0, len(eq.queue)); copy(list, eq.queue)]: [copy] copies no more
    elements than [list] has. *)
Definition ListKeys : M EventQueue (list string) := gets (λ eq, let list := [] in go_copy list (queue eq)).

Definition ContainedIDs : M EventQueue (gset string) := gets (λ eq, list_to_set (queue eq)).

(** [GetByKey] and [Get]: the item, if it exists, and the error. *)
Definition GetByKey (key : string) : M EventQueue (error + option obj) := λ eq,
  match events eq !! key with
  | None => Ret (inr None) eq
  | Some _ => Ret (store_GetByKey key (store eq)) eq
  end.

Definition Get (o : obj) : M EventQueue (error + option obj) :=
  match keyFn o with
  | inl err => mret (inl err)
  | inr key => GetByKey key
  end.

(** What [Pop] answers: the event type, the object and the error. *)
Definition pop_result : Type := EventType * option obj * option error.

(** The body of [Pop]'s loop after the wait, with its own test of the length. *)
Definition Pop_body : M EventQueue pop_result := λ eq,
  match queue eq with
  | [] => Ret (Error, None, Some EventQueueStopped) eq
  | key :: rest =>
      let eq := set_queue rest eq in
      let eventType := default NoEvent (events eq !! key) in
      let eq := set_events (delete key (events eq)) eq in
      let eq :=
        if bool_decide (lastReplaceKey eq ≠ "") && bool_decide (lastReplaceKey eq = key)
        then set_lastReplaceKey "" eq else eq in
      match store_GetByKey key (store eq) with
      | inl err => Ret (Error, None, Some err) eq
      | inr None => Panic "Pop() of key not in store" eq
      | inr (Some o) =>
          if decide (eventType = Deleted) then
            let '(err, st) := store_Delete o (store eq) in
            let eq := set_store st eq in
            match err with
            | Some err => Ret (Error, None, Some err) eq
            | None => Ret (eventType, Some o, None) eq
            end
          else Ret (eventType, Some o, None) eq
      end
  end.

(** [Pop]: [for len(eq.queue) == 0 { eq.cond.Wait() }], then the body. *)
Definition Pop : M EventQueue pop_result := λ eq,
  if decide (length (queue eq) = 0) then Block eq else Pop_body eq.

(** The loop of [Replace] over the objects. *)
Fixpoint Replace_loop (objects : list obj) : M EventQueue (option error) :=
  match objects with
  | [] => mret None
  | o :: objects =>
      match keyFn o with
      | inl err => mret (Some err)
      | inr key =>
          modify (λ eq, set_events (<[key := Modified]> (events eq))
                          (set_queue (queue eq ++ [key]) eq)) ;;
          Replace_loop objects
      end
  end.

Definition Replace (objects : list obj) (resourceVersion : string)
    : M EventQueue (option error) :=
  modify (λ eq, set_queue [] (set_events ∅ eq)) ;;
  err ← Replace_loop objects;
  match err with
  | Some err => mret (Some err)
  | None =>
      err ← (λ eq, let '(err, st) := store_Replace objects resourceVersion (store eq) in
                   Ret err (set_store st eq));
      match err with
      | Some err => mret (Some err)
      | None =>
          modify (λ eq,
            match last (queue eq) with
            | Some k => Broadcast (set_lastReplaceKey k eq)
            | None => set_lastReplaceKey "" eq
            end) ;;
          mret None
      end
  end.

Definition ListConsumed : M EventQueue bool :=
  gets (λ eq, bool_decide (lastReplaceKey eq = "")).

Definition NewEventQueueForStore (s : S) : EventQueue := mkEventQueue s ∅ [] "" 0.
End EventQueue.

(** [NewEventQueue]: the queue over a fresh [kcache.NewStore]. *)
Definition NewEventQueue {obj} : EventQueue (Cache.cacheStorage (obj := obj)) :=
  mkEventQueue Cache.NewStore ∅ [] "" 0.
