(* ===== verification/EventQueueFacts.v ===== *)
(** Facts about each method of the event queue, over any store that satisfies
    [StoreLaws]: what [handleEvent], [Pop] and [Replace] do on every branch,
    and the invariant [wf] of the queue's state. *)

From stdpp Require Import gmap strings list.
From S2P Require Import Prelude Types KStore EventQueue.

Section Facts.
Context {obj S : Type} `{!StoreOps S obj} (keyFn : obj → error + string)
  `{!StoreLaws S obj keyFn}.
Local Abbreviation EventQueue := (EventQueue S).
Implicit Types (eq : EventQueue) (o : obj) (k : string) (t : EventType).

(** The contents of the backing store. *)
Definition contents (eq : EventQueue) : gmap string obj := store_view (keyFn := keyFn) (store eq).

(** ** The invariant *)

Definition is_event (t : EventType) : Prop := t = Added ∨ t = Modified ∨ t = Deleted.

Record wf (eq : EventQueue) : Prop := {
  wf_nodup : NoDup (queue eq);
  wf_dom : ∀ k, k ∈ queue eq ↔ is_Some (events eq !! k);
  wf_types : ∀ k t, events eq !! k = Some t → is_event t;
  wf_stored : ∀ k, k ∈ queue eq → is_Some (contents eq !! k);
  wf_keys : ∀ k o, contents eq !! k = Some o → keyFn o = inr k;
  wf_last : lastReplaceKey eq ≠ "" →
    ∃ t, events eq !! lastReplaceKey eq = Some t ∧ t ≠ Added
}.

(** ** [handleEvent] branch by branch *)

(** The contents of the store after [updateStore]. *)
Definition updated (k : string) (o : obj) (t : EventType) (eq : EventQueue) : gmap string obj :=
  if decide (t = Deleted) then contents eq else <[k:=o]> (contents eq).

Lemma set_store_id eq : set_store (store eq) eq = eq.
Proof. by destruct eq. Qed.

Lemma updateStore_spec k o t eq :
  keyFn o = inr k →
  ∃ st, updateStore k o t eq = Ret None (set_store st eq) ∧
        store_view (keyFn := keyFn) st = updated k o t eq.
Proof.
  intros Hk. unfold updateStore, updated. case_decide.
  - exists (store eq). by rewrite set_store_id.
  - case_decide.
    + destruct (law_Add (keyFn := keyFn) o k (store eq) Hk) as [H1 H2].
      destruct (store_Add o (store eq)) as [e st]; simpl in *; subst. by eexists.
    + destruct (law_Update (keyFn := keyFn) o k (store eq) Hk) as [H1 H2].
      destruct (store_Update o (store eq)) as [e st]; simpl in *; subst. by eexists.
Qed.

(** The key is not pending: the event is queued at the tail. *)
Lemma handleEvent_new k o t eq :
  keyFn o = inr k → events eq !! k = None →
  ∃ eq', handleEvent keyFn o t eq = Ret None eq' ∧
    events eq' = <[k:=t]> (events eq) ∧ queue eq' = queue eq ++ [k] ∧
    contents eq' = updated k o t eq ∧ lastReplaceKey eq' = lastReplaceKey eq ∧
    cond eq' = Datatypes.S (cond eq).
Proof.
  intros Hk Hev. destruct (updateStore_spec k o t eq Hk) as (st & Hu & Hst).
  unfold handleEvent. rewrite Hk. m_unfold. rewrite Hev, Hu. simpl.
  eexists. split; [done|]. simpl. eauto.
Qed.

(** The key is pending and the pair of events compresses into one. *)
Lemma handleEvent_compress k o q t t' eq :
  keyFn o = inr k → events eq !! k = Some q →
  watchEventEffectMatrix q t = Some watchEventEffectCompress →
  watchEventCompressionMatrix q t = Some t' →
  ∃ eq', handleEvent keyFn o t eq = Ret None eq' ∧
    events eq' = <[k:=t']> (events eq) ∧ queue eq' = queue eq ∧
    contents eq' = updated k o t eq ∧ lastReplaceKey eq' = lastReplaceKey eq ∧
    cond eq' = cond eq.
Proof.
  intros Hk Hev He Hc. destruct (updateStore_spec k o t eq Hk) as (st & Hu & Hst).
  unfold handleEvent. rewrite Hk. m_unfold. rewrite Hev, He, Hu. simpl.
  rewrite Hc. simpl. eexists. split; [done|]. simpl. eauto.
Qed.

(** The key is pending and the pair of events cancels out. *)
Lemma handleEvent_delete k o q t eq :
  keyFn o = inr k → events eq !! k = Some q →
  watchEventEffectMatrix q t = Some watchEventEffectDelete →
  ∃ eq', handleEvent keyFn o t eq = Ret None eq' ∧
    events eq' = delete k (events eq) ∧ queue eq' = filter (λ x, x ≠ k) (queue eq) ∧
    contents eq' = updated k o t eq ∧ lastReplaceKey eq' = lastReplaceKey eq ∧
    cond eq' = cond eq.
Proof.
  intros Hk Hev He. destruct (updateStore_spec k o t eq Hk) as (st & Hu & Hst).
  unfold handleEvent. rewrite Hk. m_unfold. rewrite Hev, He, Hu. simpl.
  eexists. split; [done|]. simpl. eauto.
Qed.

(** The pair of events is not a valid sequence. *)
Lemma handleEvent_invalid k o q t eq :
  keyFn o = inr k → events eq !! k = Some q → watchEventEffectMatrix q t = None →
  handleEvent keyFn o t eq = Panic "Invalid state transition" eq.
Proof. intros Hk Hev He. unfold handleEvent. rewrite Hk. m_unfold. by rewrite Hev, He. Qed.

(** Every outcome of [handleEvent] is one of the four above. *)
Inductive handled (k : string) (o : obj) (t : EventType) (eq : EventQueue)
    : outcome EventQueue (option error) → Prop :=
| handled_new eq' :
    events eq !! k = None → events eq' = <[k:=t]> (events eq) →
    queue eq' = queue eq ++ [k] → contents eq' = updated k o t eq →
    lastReplaceKey eq' = lastReplaceKey eq → cond eq' = Datatypes.S (cond eq) →
    handled k o t eq (Ret None eq')
| handled_compress q t' eq' :
    events eq !! k = Some q → watchEventEffectMatrix q t = Some watchEventEffectCompress →
    watchEventCompressionMatrix q t = Some t' →
    events eq' = <[k:=t']> (events eq) →
    queue eq' = queue eq → contents eq' = updated k o t eq →
    lastReplaceKey eq' = lastReplaceKey eq → cond eq' = cond eq →
    handled k o t eq (Ret None eq')
| handled_delete eq' :
    events eq !! k = Some Added → t = Deleted →
    events eq' = delete k (events eq) →
    queue eq' = filter (λ x, x ≠ k) (queue eq) → contents eq' = contents eq →
    lastReplaceKey eq' = lastReplaceKey eq → cond eq' = cond eq →
    handled k o t eq (Ret None eq')
| handled_invalid q :
    events eq !! k = Some q → watchEventEffectMatrix q t = None →
    handled k o t eq (Panic "Invalid state transition" eq).

(** The two matrices agree on what compresses. *)
Lemma matrix_compress q t :
  watchEventEffectMatrix q t = Some watchEventEffectCompress ↔
  is_Some (watchEventCompressionMatrix q t).
Proof. rewrite is_Some_alt. by destruct q, t. Qed.

Lemma matrix_delete q t :
  watchEventEffectMatrix q t = Some watchEventEffectDelete ↔ q = Added ∧ t = Deleted.
Proof. split; [by destruct q, t|by intros [-> ->]]. Qed.

Lemma matrix_no_add q t : watchEventEffectMatrix q t ≠ Some watchEventEffectAdd.
Proof. by destruct q, t. Qed.

Lemma handleEvent_handled k o t eq :
  keyFn o = inr k → handled k o t eq (handleEvent keyFn o t eq).
Proof.
  intros Hk. destruct (events eq !! k) as [q|] eqn:Hev.
  2: { edestruct handleEvent_new as (eq' & -> & ?); [done..|]. destruct_and!.
       by constructor. }
  destruct (watchEventEffectMatrix q t) as [[]|] eqn:He.
  - by destruct (matrix_no_add q t).
  - pose proof He as [t' Ht']%matrix_compress.
    edestruct handleEvent_compress as (eq' & -> & ?); [done..|]. destruct_and!.
    by eapply handled_compress.
  - pose proof He as [-> ->]%matrix_delete.
    edestruct handleEvent_delete as (eq' & -> & ?); [done..|]. destruct_and!.
    by eapply handled_delete.
  - rewrite (handleEvent_invalid k o q) by done. by eapply handled_invalid.
Qed.

(** ** [Pop] *)

Lemma Pop_empty eq : queue eq = [] → Pop eq = Block eq.
Proof. intros H. unfold Pop. by rewrite H. Qed.

(** The state [Pop] leaves. *)
Definition popped (k : string) (rest : list string) (eq eq' : EventQueue) : Prop :=
  queue eq' = rest ∧ events eq' = delete k (events eq) ∧ cond eq' = cond eq ∧
  lastReplaceKey eq' = (if decide (lastReplaceKey eq = k) then "" else lastReplaceKey eq).

Lemma Pop_spec k rest o t eq :
  queue eq = k :: rest → events eq !! k = Some t → contents eq !! k = Some o →
  keyFn o = inr k →
  ∃ eq', Pop eq = Ret (t, Some o, None) eq' ∧ popped k rest eq eq' ∧
    contents eq' = (if decide (t = Deleted) then delete k (contents eq) else contents eq).
Proof.
  intros Hq Hev Hc Hk. unfold Pop, Pop_body. rewrite Hq. simpl. rewrite Hev. simpl.
  set (b := bool_decide _ && bool_decide _).
  assert ((if b then "" else lastReplaceKey eq) =
          if decide (lastReplaceKey eq = k) then "" else lastReplaceKey eq) as Hl.
  { unfold b. repeat case_bool_decide; repeat case_decide; simpl; congruence. }
  assert (∀ X Y : EventQueue, store (if b then X else Y) = if b then store X else store Y)
    as Hst by by destruct b.
  rewrite Hst. simpl. replace (if b then _ else _) with (store eq) by by destruct b.
  rewrite law_GetByKey. unfold contents in Hc. rewrite Hc. destruct (decide (t = Deleted)).
  - destruct (law_Delete (keyFn := keyFn) o k (store eq) Hk) as [H1 H2].
    destruct (store_Delete o (store eq)) as [err st]; simpl in *; subst err.
    eexists. split; [done|]. unfold popped, contents. rewrite <-Hl. by destruct b.
  - eexists. split; [done|]. unfold popped, contents. rewrite <-Hl. by destruct b.
Qed.

(** ** [Replace] *)

Lemma keys_ok objs :
  first_key_error keyFn objs = None → ∀ o, o ∈ objs → ∃ k, keyFn o = inr k.
Proof.
  induction objs as [|x objs IH]; simpl; intros H o; [set_solver|].
  destruct (keyFn x) eqn:E; [done|]. intros [->|Ho]%elem_of_cons; eauto.
Qed.

(** The keys of a list of objects. *)
Definition keys_of (objs : list obj) : list string :=
  omap (λ o, match keyFn o with inr k => Some k | inl _ => None end) objs.

Definition enqueue_all (ks : list string) (ev : gmap string EventType) : gmap string EventType :=
  foldl (λ ev k, <[k := Modified]> ev) ev ks.

Lemma Replace_loop_spec objs eq :
  first_key_error keyFn objs = None →
  Replace_loop keyFn objs eq =
    Ret None (set_events (enqueue_all (keys_of objs) (events eq))
                (set_queue (queue eq ++ keys_of objs) eq)).
Proof.
  revert eq. induction objs as [|o objs IH]; simpl; intros eq H.
  - rewrite app_nil_r. by destruct eq.
  - unfold keys_of. simpl. destruct (keyFn o) as [e|k] eqn:E; [done|]. m_unfold.
    rewrite IH by done. simpl. by rewrite <-app_assoc.
Qed.

Lemma enqueue_all_lookup ks ev k :
  enqueue_all ks ev !! k = if decide (k ∈ ks) then Some Modified else ev !! k.
Proof.
  revert ev. induction ks as [|k' ks IH]; simpl; intros ev; [done|].
  rewrite IH. repeat case_decide; try set_solver.
  - replace k' with k by set_solver. by rewrite lookup_insert_eq.
  - rewrite lookup_insert_ne; [done|set_solver].
Qed.

Lemma Replace_spec objs rv eq :
  first_key_error keyFn objs = None →
  ∃ eq', Replace keyFn objs rv eq = Ret None eq' ∧
    queue eq' = keys_of objs ∧ events eq' = enqueue_all (keys_of objs) ∅ ∧
    contents eq' = keyed_map keyFn objs ∧
    lastReplaceKey eq' = default "" (last (keys_of objs)) ∧
    cond eq' = (if decide (keys_of objs = []) then cond eq else Datatypes.S (cond eq)).
Proof.
  intros H. unfold Replace. m_unfold. rewrite Replace_loop_spec by done. simpl.
  destruct (law_Replace (keyFn := keyFn) objs rv (store eq) H) as [H1 H2].
  destruct (store_Replace objs rv (store eq)) as [e st]; simpl in *; subst e.
  eexists. split; [done|]. unfold contents. cbn [store set_store queue set_queue set_events].
  destruct (last (keys_of objs)) eqn:E; simpl; repeat split; try done.
  - rewrite decide_False; [done|]. intros E'. by rewrite E' in E.
  - apply last_None in E. by rewrite E.
Qed.

Lemma keyed_map_lookup objs k :
  first_key_error keyFn objs = None →
  is_Some (keyed_map keyFn objs !! k) ↔ k ∈ keys_of objs.
Proof.
  unfold keys_of. induction objs as [|o objs IH] using rev_ind; intros H.
  - unfold keyed_map. simpl. rewrite lookup_empty, is_Some_alt. set_solver.
  - assert (first_key_error keyFn objs = None ∧ ∃ k, keyFn o = inr k) as [Hf [k' Hk]].
    { clear IH. induction objs; simpl in *; repeat case_match; eauto; done. }
    rewrite (keyed_map_snoc _ _ _ k'), omap_app by done. simpl. rewrite Hk.
    destruct (decide (k = k')) as [->|].
    + rewrite lookup_insert_eq. split; [set_solver|eauto].
    + rewrite lookup_insert_ne, IH by done. set_solver.
Qed.

Lemma keyed_map_keys objs k o : keyed_map keyFn objs !! k = Some o → keyFn o = inr k.
Proof.
  unfold keyed_map.
  assert (∀ m : gmap string obj, (∀ k o, m !! k = Some o → keyFn o = inr k) →
    ∀ k o, foldl (λ m o, match keyFn o with inr k => <[k:=o]> m | inl _ => m end)
             m objs !! k = Some o → keyFn o = inr k) as Hgen.
  { induction objs as [|x objs IH]; simpl; intros m Hm; [done|].
    apply IH. destruct (keyFn x) eqn:E; [done|]. intros k' o'.
    rewrite lookup_insert_Some. naive_solver. }
  apply Hgen. intros ??. by rewrite lookup_empty.
Qed.
End Facts.
