(* ===== verification/EventQueueSpec.v ===== *)
(** What the event queue promises to its consumer.

    - [wf] is an invariant of all methods ([wf_preserved]).
    - The abstract contract: a producer owns a map of objects and announces its
      changes; a consumer applies the events it pops to a map of its own.
      [system] is the step relation of producer, queue and consumer; the
      refinement invariant [sim] says, key by key, how the pending event accounts
      for the difference between the two maps.  Draining the queue makes them
      equal ([drain_converges]) as long as no relist happens, and with relists no
      object is missed ([relist_complete]) but one that disappeared is never
      retracted ([relist_keeps_stale]).
    - [ListConsumed], the FIFO order and the waiting behaviour of [Pop]. *)

From stdpp Require Import gmap strings list relations.
From S2P Require Import Prelude Types KStore EventQueue EventQueueFacts.

Section Spec.
Context {obj S : Type} `{!StoreOps S obj} (keyFn : obj → error + string)
  `{!StoreLaws S obj keyFn}.
Local Abbreviation EventQueue := (EventQueue S).
Local Abbreviation contents := (contents (S := S) keyFn).
Local Abbreviation wf := (wf (S := S) keyFn).
Implicit Types (eq : EventQueue) (o : obj) (k : string) (t : EventType)
  (src mir : gmap string obj).

(** ** Calls *)

Inductive op : Type :=
| OpAdd (o : obj) | OpUpdate (o : obj) | OpDelete (o : obj)
| OpReplace (os : list obj) (rv : string) | OpPop | OpCancel.

Definition run_op (c : op) : M EventQueue unit :=
  match c with
  | OpAdd o => Add keyFn o ;; mret tt
  | OpUpdate o => Update keyFn o ;; mret tt
  | OpDelete o => Delete keyFn o ;; mret tt
  | OpReplace os rv => Replace keyFn os rv ;; mret tt
  | OpPop => Pop ;; mret tt
  | OpCancel => Cancel
  end.

(** What a caller owes: objects have keys, a deleted object is one the store
    holds, and a relist names every object once. *)
Definition op_ok (c : op) (eq : EventQueue) : Prop :=
  match c with
  | OpAdd o | OpUpdate o => ∃ k, keyFn o = inr k
  | OpDelete o => ∃ k, keyFn o = inr k ∧ is_Some (contents eq !! k)
  | OpReplace os _ => first_key_error keyFn os = None ∧ NoDup (keys_of keyFn os)
  | OpPop | OpCancel => True
  end.

(** ** Producer, queue, consumer *)

(** What a consumer that keeps a copy does with an event. *)
Definition consume (t : EventType) (o : obj) (mir : gmap string obj) : gmap string obj :=
  match keyFn o with
  | inl _ => mir
  | inr k =>
      match t with
      | Added | Modified => <[k:=o]> mir
      | Deleted => delete k mir
      | _ => mir
      end
  end.

(** The producer's announcements that are not relists, and when they are
    truthful about its objects [src]. *)
Inductive announce : gmap string obj → obj → EventType → gmap string obj → Prop :=
| announce_add src o k :
    keyFn o = inr k → src !! k = None → announce src o Added (<[k:=o]> src)
| announce_update src o k :
    keyFn o = inr k → is_Some (src !! k) → announce src o Modified (<[k:=o]> src)
| announce_delete src o k :
    keyFn o = inr k → is_Some (src !! k) → announce src o Deleted (delete k src).

(** Steps of the whole; [relists] says whether [Replace] may happen. *)
Inductive step (relists : bool)
    : EventQueue * gmap string obj * gmap string obj →
      EventQueue * gmap string obj * gmap string obj → Prop :=
| step_announce eq src mir o t src' eq' :
    announce src o t src' → handleEvent keyFn o t eq = Ret None eq' →
    step relists (eq, src, mir) (eq', src', mir)
| step_relist eq src mir os rv eq' :
    relists = true → first_key_error keyFn os = None → NoDup (keys_of keyFn os) →
    Replace keyFn os rv eq = Ret None eq' →
    step relists (eq, src, mir) (eq', keyed_map keyFn os, mir)
| step_pop eq src mir t o eq' :
    Pop eq = Ret (t, Some o, None) eq' →
    step relists (eq, src, mir) (eq', src, consume t o mir)
| step_cancel eq src mir eq' :
    Cancel eq = Ret tt eq' → step relists (eq, src, mir) (eq', src, mir).

(** The consumer pops until the queue is empty, [n] times at most. *)
Fixpoint drain (n : nat) (eq : EventQueue) (mir : gmap string obj)
    : option (EventQueue * gmap string obj) :=
  match n with
  | 0 => Some (eq, mir)
  | Datatypes.S n =>
      match Pop eq with
      | Ret (t, Some o, None) eq' => drain n eq' (consume t o mir)
      | Block _ => Some (eq, mir)
      | _ => None
      end
  end.

(** How the pending event of a key explains the producer's value [s], the
    consumer's [m] and the store's [st]; [strict] asks in addition that the
    consumer holds nothing the producer never had. *)
Definition key_rel (strict : Prop) (ev : option EventType) (s m st : option obj) : Prop :=
  match ev with
  | None => (∀ x, s = Some x → m = Some x ∧ st = Some x) ∧ (strict → s = None → m = None)
  | Some Added => (∃ x, s = Some x ∧ st = Some x) ∧ (strict → m = None)
  | Some Modified => (∃ x, s = Some x ∧ st = Some x) ∧ (strict → is_Some m)
  | Some Deleted => s = None ∧ is_Some st ∧ (strict → is_Some m)
  | Some _ => False
  end.

Record sim (strict : Prop) (eq : EventQueue) (src mir : gmap string obj) : Prop := {
  sim_wf : wf eq;
  sim_key k : key_rel strict (events eq !! k) (src !! k) (mir !! k) (contents eq !! k)
}.

(** ** Preservation of the invariant *)

Lemma wf_empty s :
  (∀ k o, store_view (keyFn := keyFn) s !! k = Some o → keyFn o = inr k) →
  wf (NewEventQueueForStore s).
Proof.
  intros H. split; simpl; try done; try set_solver; [constructor|..].
  intros k. rewrite lookup_empty, is_Some_alt. set_solver.
Qed.

Lemma updated_keys k o t eq :
  keyFn o = inr k → (∀ k o, contents eq !! k = Some o → keyFn o = inr k) →
  ∀ k' o', updated keyFn k o t eq !! k' = Some o' → keyFn o' = inr k'.
Proof.
  intros Hk Hkeys k' o'. unfold updated. case_decide; [by apply Hkeys|].
  rewrite lookup_insert_Some. naive_solver.
Qed.

Lemma updated_stored k o t eq k' :
  is_Some (contents eq !! k') ∨ (k' = k ∧ t ≠ Deleted) →
  is_Some (updated keyFn k o t eq !! k').
Proof.
  unfold updated. case_decide; [naive_solver|]. intros Hin.
  destruct (decide (k' = k)) as [->|]; [rewrite lookup_insert_eq; eauto|].
  rewrite lookup_insert_ne by done. naive_solver.
Qed.

Lemma wf_handle k o t eq :
  wf eq → keyFn o = inr k → is_event t → (t = Deleted → is_Some (contents eq !! k)) →
  wf (final (handleEvent keyFn o t eq)).
Proof.
  intros [Hnd Hdom Hty Hst Hks Hla] Hk Ht Hdel.
  assert (t = Deleted ∨ t ≠ Deleted) as Hdec by (destruct (decide (t = Deleted)); auto).
  destruct (handleEvent_handled keyFn k o t eq Hk)
    as [eq' Hn He Hq Hc Hl _|q t' eq' Hn Hm Hm' He Hq Hc Hl _|eq' Hn -> He Hq Hc Hl _|]; simpl.
  - assert (k ∉ queue eq) by (rewrite Hdom, Hn; by intros [? ?]).
    split; rewrite ?Hq, ?He, ?Hc, ?Hl.
    + apply NoDup_app; split_and!; [done|set_solver|apply NoDup_singleton].
    + intros k'. rewrite elem_of_app, list_elem_of_singleton, Hdom, lookup_insert_is_Some.
      destruct (decide (k = k')); naive_solver.
    + intros k' t'. rewrite lookup_insert_Some. naive_solver.
    + intros k' [Hk'|Hk']%elem_of_app; apply updated_stored; [auto|set_solver].
    + by apply updated_keys.
    + intros Hne. destruct (Hla Hne) as (t' & Ht' & ?). exists t'.
      by rewrite lookup_insert_ne by congruence.
  - assert (k ∈ queue eq) by (rewrite Hdom, Hn; eauto).
    split; rewrite ?Hq, ?He, ?Hc, ?Hl; try done.
    + intros k'. rewrite Hdom, lookup_insert_is_Some.
      destruct (decide (k = k')) as [->|]; [rewrite Hn|]; naive_solver.
    + intros k' t''. rewrite lookup_insert_Some. intros [[_ <-]|[_ ?]]; [|eauto].
      destruct q, t; simplify_eq/=; unfold is_event; auto.
    + intros k' Hk'. apply updated_stored. auto.
    + by apply updated_keys.
    + intros Hne. destruct (Hla Hne) as (q' & Hq' & ?).
      destruct (decide (k = lastReplaceKey eq)) as [->|];
        [|rewrite lookup_insert_ne by done; eauto].
      rewrite lookup_insert_eq. exists t'. split; [done|].
      destruct q, t; simplify_eq/=; congruence.
  - split; rewrite ?Hq, ?He, ?Hc, ?Hl; try done.
    + by apply NoDup_filter.
    + intros k'. rewrite list_elem_of_filter, Hdom, lookup_delete_is_Some. naive_solver.
    + intros k' t'. rewrite lookup_delete_Some. naive_solver.
    + intros k' [_ Hk']%list_elem_of_filter. auto.
    + intros Hne. destruct (Hla Hne) as (t' & Ht' & ?). exists t'.
      by rewrite lookup_delete_ne by congruence.
  - by split.
Qed.

(** The head of a well-formed queue pops to an event with its object. *)
Lemma wf_pop eq :
  wf eq → queue eq ≠ [] →
  ∃ k rest t o eq', queue eq = k :: rest ∧ events eq !! k = Some t ∧
    contents eq !! k = Some o ∧ keyFn o = inr k ∧ is_event t ∧
    Pop eq = Ret (t, Some o, None) eq' ∧ popped k rest eq eq' ∧
    contents eq' = (if decide (t = Deleted) then delete k (contents eq) else contents eq).
Proof.
  intros [Hnd Hdom Hty Hst Hks Hla] Hne. destruct (queue eq) as [|k rest] eqn:Hq; [done|].
  assert (k ∈ k :: rest) as Hin by set_solver.
  destruct (proj1 (Hdom k) Hin) as [t Ht]. destruct (Hst k Hin) as [o Ho].
  destruct (Pop_spec keyFn k rest o t eq) as (eq' & ? & ? & ?); eauto 15.
Qed.

Lemma wf_popped k rest t eq eq' :
  wf eq → queue eq = k :: rest → events eq !! k = Some t → popped k rest eq eq' →
  contents eq' = (if decide (t = Deleted) then delete k (contents eq) else contents eq) →
  wf eq'.
Proof.
  intros [Hnd Hdom Hty Hst Hks Hla] Hq Ht (Hq' & He & _ & Hl) Hc.
  rewrite Hq in *. apply NoDup_cons in Hnd as [Hk Hnd].
  assert (∀ k', k' ≠ k → contents eq' !! k' = contents eq !! k') as Hc'.
  { intros k' ?. rewrite Hc. case_decide; [|done]. by rewrite lookup_delete_ne. }
  split; rewrite ?Hq', ?He, ?Hl; try done.
  - intros k'. rewrite lookup_delete_is_Some, <-Hdom. set_solver.
  - intros k' t'. rewrite lookup_delete_Some. naive_solver.
  - intros k' Hk'. rewrite Hc' by set_solver. apply Hst. set_solver.
  - intros k' o'. rewrite Hc. case_decide; [rewrite lookup_delete_Some|]; naive_solver.
  - destruct (decide (lastReplaceKey eq = k)); [by intros []|]. intros Hne. rewrite lookup_delete_ne by congruence. auto.
Qed.

Lemma wf_Pop eq : wf eq → wf (final (Pop eq)).
Proof.
  intros Hwf. destruct (decide (queue eq = [])) as [Hq|Hq]; [by rewrite Pop_empty|].
  destruct (wf_pop eq Hwf Hq) as (k & rest & t & o & eq' & ? & ? & ? & ? & ? & -> & ? & ?).
  simpl. by eapply wf_popped.
Qed.

Lemma wf_Replace os rv eq :
  first_key_error keyFn os = None → NoDup (keys_of keyFn os) →
  wf (final (Replace keyFn os rv eq)).
Proof.
  intros Hf Hnd. destruct (Replace_spec keyFn os rv eq Hf) as (eq' & -> & Hq & He & Hc & Hl & _).
  simpl. split; rewrite ?Hq, ?He, ?Hc, ?Hl; try done.
  - intros k. rewrite enqueue_all_lookup, is_Some_alt.
    destruct (decide (k ∈ keys_of keyFn os)); [done|]. by rewrite lookup_empty.
  - intros k t. rewrite enqueue_all_lookup. unfold is_event.
    destruct (decide (k ∈ keys_of keyFn os)); [naive_solver|by rewrite lookup_empty].
  - intros k. by rewrite keyed_map_lookup.
  - intros k o. apply keyed_map_keys.
  - destruct (last (keys_of keyFn os)) as [k|] eqn:E; simpl; [|done]. intros _.
    exists Modified. rewrite enqueue_all_lookup, decide_True; [done|].
    apply last_Some in E as [l ->]. set_solver.
Qed.

(** ** The refinement *)

Lemma sim_change strict k eq eq' src src' mir mir' :
  sim strict eq src mir → wf eq' →
  (∀ k', k' ≠ k → events eq' !! k' = events eq !! k' ∧ src' !! k' = src !! k' ∧
                  mir' !! k' = mir !! k' ∧ contents eq' !! k' = contents eq !! k') →
  key_rel strict (events eq' !! k) (src' !! k) (mir' !! k) (contents eq' !! k) →
  sim strict eq' src' mir'.
Proof.
  intros [_ Hkey] Hwf Hother Hk. split; [done|]. intros k'.
  destruct (decide (k' = k)) as [->|Hne]; [done|].
  destruct (Hother k' Hne) as (-> & -> & -> & ->). apply Hkey.
Qed.

Lemma updated_other k k' o t eq :
  k' ≠ k → updated keyFn k o t eq !! k' = contents eq !! k'.
Proof. intros. unfold updated. case_decide; [done|]. by rewrite lookup_insert_ne. Qed.

Lemma updated_put k o t eq : t ≠ Deleted → updated keyFn k o t eq !! k = Some o.
Proof. intros. unfold updated. rewrite decide_False by done. apply lookup_insert_eq. Qed.

Lemma updated_delete k o eq : updated keyFn k o Deleted eq = contents eq.
Proof. done. Qed.

Lemma announce_inv src o t src' :
  announce src o t src' →
  ∃ k, keyFn o = inr k ∧ is_event t ∧ (∀ k', k' ≠ k → src' !! k' = src !! k') ∧
       ((t = Added ∧ src !! k = None ∧ src' !! k = Some o) ∨
        (t = Modified ∧ is_Some (src !! k) ∧ src' !! k = Some o) ∨
        (t = Deleted ∧ is_Some (src !! k) ∧ src' !! k = None)).
Proof.
  destruct 1 as [src o k|src o k|src o k]; exists k; unfold is_event;
    (split_and!; [done|naive_solver|intros; by rewrite ?lookup_insert_ne, ?lookup_delete_ne|]);
    rewrite ?lookup_insert_eq, ?lookup_delete_eq; naive_solver.
Qed.

(** The key of a deleted object is in the store. *)
Lemma sim_stored strict eq src mir k :
  sim strict eq src mir → is_Some (src !! k) → is_Some (contents eq !! k).
Proof.
  intros [_ Hkey] [x Hx]. specialize (Hkey k). rewrite Hx in Hkey.
  unfold key_rel in Hkey. destruct (events eq !! k) as [[]|]; naive_solver.
Qed.

(** What an announcement does to the relation at its key. *)
Lemma key_rel_announce strict ev s m st t s' (x : obj) :
  key_rel strict ev s m st →
  (t = Added ∧ s = None ∧ s' = Some x) ∨ (t = Modified ∧ is_Some s ∧ s' = Some x) ∨
    (t = Deleted ∧ is_Some s ∧ s' = None) →
  match ev with
  | None => key_rel strict (Some t) s' m (if decide (t = Deleted) then st else Some x)
  | Some q =>
      match watchEventEffectMatrix q t with
      | Some watchEventEffectDelete => key_rel strict None s' m st
      | Some _ => ∀ t', watchEventCompressionMatrix q t = Some t' →
                        key_rel strict (Some t') s' m (if decide (t = Deleted) then st else Some x)
      | None => q = Deleted ∧ t = Added
      end
  end.
Proof.
  intros H [(-> & -> & ->)|[(-> & [y ->] & ->)|(-> & [y ->] & ->)]];
    destruct ev as [[]|]; simpl in *; try done; try naive_solver.
Qed.

Lemma handle_sim strict eq src mir o t src' :
  sim strict eq src mir → announce src o t src' →
  (∃ eq', handleEvent keyFn o t eq = Ret None eq' ∧ sim strict eq' src' mir) ∨
  (handleEvent keyFn o t eq = Panic "Invalid state transition" eq ∧ t = Added ∧
   ∃ k, keyFn o = inr k ∧ events eq !! k = Some Deleted).
Proof.
  intros Hsim Hann. destruct (announce_inv _ _ _ _ Hann) as (k & Hk & Hty & Hoth & Hcase).
  pose proof (key_rel_announce strict _ _ _ _ t _ o (sim_key _ _ _ _ Hsim k) Hcase) as Hnew.
  assert (wf (final (handleEvent keyFn o t eq))) as Hwf.
  { eapply wf_handle; [apply Hsim|done..|]. intros ->.
    eapply sim_stored; [done|]. naive_solver. }
  assert (updated keyFn k o t eq !! k =
          if decide (t = Deleted) then contents eq !! k else Some o) as Hup.
  { case_decide as Ht; [by rewrite Ht|by apply updated_put]. }
  destruct (handleEvent_handled keyFn k o t eq Hk)
    as [eq' Hn He Hq Hc _ _|q t' eq' Hn Hm Hm' He Hq Hc _ _|eq' Hn -> He Hq Hc _ _|q Hn Hm];
    rewrite Hn in Hnew; simpl in Hwf.
  - left. exists eq'. split; [done|]. apply (sim_change _ k eq _ src _ mir); [done..| |].
    + intros k' ?. rewrite He, Hc, lookup_insert_ne, updated_other; auto.
    + by rewrite He, Hc, lookup_insert_eq, Hup.
  - left. exists eq'. split; [done|]. rewrite Hm in Hnew.
    apply (sim_change _ k eq _ src _ mir); [done..| |].
    + intros k' ?. rewrite He, Hc, lookup_insert_ne, updated_other; auto.
    + rewrite He, Hc, lookup_insert_eq, Hup. by apply Hnew.
  - left. exists eq'. split; [done|]. apply (sim_change _ k eq _ src _ mir); [done..| |].
    + intros k' ?. rewrite He, Hc, lookup_delete_ne; auto.
    + by rewrite He, Hc, lookup_delete_eq.
  - right. rewrite Hm in Hnew. destruct Hnew as [-> ->]. eauto.
Qed.

Lemma pop_sim strict eq src mir :
  sim strict eq src mir → queue eq ≠ [] →
  ∃ t o eq', Pop eq = Ret (t, Some o, None) eq' ∧ sim strict eq' src (consume t o mir) ∧
             length (queue eq) = Datatypes.S (length (queue eq')).
Proof.
  intros Hsim Hne.
  destruct (wf_pop eq (sim_wf _ _ _ _ Hsim) Hne)
    as (k & rest & t & o & eq' & Hq & Ht & Ho & Hk & Hev & HP & Hp & Hc).
  exists t, o, eq'. split; [done|]. pose proof Hp as (Hq' & He & _).
  rewrite Hq, Hq'. split; [|done]. pose proof (sim_key _ _ _ _ Hsim k) as Hkey.
  apply (sim_change _ k eq _ src _ mir); [done|by eapply wf_popped; [apply Hsim|..]| |].
  - intros k' ?. rewrite He, Hc, lookup_delete_ne by done. unfold consume. rewrite Hk.
    destruct Hev as [->|[->| ->]]; simpl;
      rewrite ?lookup_insert_ne, ?lookup_delete_ne by done; done.
  - rewrite Ht in Hkey. rewrite He, lookup_delete_eq. unfold consume. rewrite Hk, Hc.
    destruct Hev as [->|[->| ->]]; simpl in *.
    + rewrite lookup_insert_eq, Ho in *. destruct Hkey as [(x & -> & [= ->]) _]. naive_solver.
    + rewrite lookup_insert_eq, Ho in *. destruct Hkey as [(x & -> & [= ->]) _]. naive_solver.
    + rewrite !lookup_delete_eq. destruct Hkey as (-> & _ & _). naive_solver.
Qed.

Lemma relist_sim strict eq src mir os rv eq' :
  ¬ strict → first_key_error keyFn os = None → NoDup (keys_of keyFn os) →
  Replace keyFn os rv eq = Ret None eq' → sim strict eq' (keyed_map keyFn os) mir.
Proof.
  intros Hns Hf Hnd HR. pose proof (wf_Replace os rv eq Hf Hnd) as Hwf.
  destruct (Replace_spec keyFn os rv eq Hf) as (eq'' & HR' & Hq & He & Hc & _).
  rewrite HR in HR'. injection HR' as <-. rewrite HR in Hwf. split; [done|].
  intros k. rewrite He, Hc, enqueue_all_lookup.
  pose proof (keyed_map_lookup keyFn os k Hf) as Hkm.
  destruct (decide (k ∈ keys_of keyFn os)) as [Hin|Hin].
  - destruct (proj2 Hkm Hin) as [x ->]. simpl. naive_solver.
  - destruct (keyed_map keyFn os !! k) as [x|]; [naive_solver|].
    rewrite lookup_empty. simpl. naive_solver.
Qed.

Lemma step_sim relists eq src mir eq' src' mir' :
  step relists (eq, src, mir) (eq', src', mir') →
  sim (relists = false) eq src mir → sim (relists = false) eq' src' mir'.
Proof.
  inversion 1 as [???????? Hh|??????? Hrel Hf ? HR|?????? HP|???? HC]; subst; intros Hsim.
  - destruct (handle_sim _ _ _ _ _ _ _ Hsim ltac:(done)) as [(? & Heq & ?)|[Heq _]];
      rewrite Hh in Heq; by simplify_eq.
  - by eapply relist_sim; try done; rewrite Hrel.
  - destruct (decide (queue eq = [])) as [Hq|Hq]; [by rewrite Pop_empty in HP|].
    destruct (pop_sim _ _ _ _ Hsim Hq) as (? & ? & ? & Heq & ? & _).
    rewrite HP in Heq. by simplify_eq.
  - injection HC as <-. destruct Hsim as [[] Hkey]. split; [by split|exact Hkey].
Qed.

(** The initial state: an empty queue over an empty store, and nobody knows of
    any object. *)
Lemma sim_init strict s :
  store_view (keyFn := keyFn) s = ∅ → sim strict (NewEventQueueForStore s) ∅ ∅.
Proof.
  intros Hs. split.
  - apply wf_empty. intros k o. by rewrite Hs.
  - intros k. simpl. rewrite !lookup_empty. naive_solver.
Qed.

Lemma reach_sim relists s eq src mir :
  store_view (keyFn := keyFn) s = ∅ →
  rtc (step relists) (NewEventQueueForStore s, ∅, ∅) (eq, src, mir) →
  sim (relists = false) eq src mir.
Proof.
  intros Hs Hr.
  apply (rtc_invariant (step relists)
           (λ st, sim (relists = false) st.1.1 st.1.2 st.2) _ _) in Hr; [done| |by apply sim_init].
  intros [[e s0] m0] [[e' s1] m1] Hi Hst. by eapply step_sim.
Qed.

Lemma drain_sim strict n eq src mir :
  sim strict eq src mir → length (queue eq) ≤ n →
  ∃ eq' mir', drain n eq mir = Some (eq', mir') ∧ queue eq' = [] ∧ sim strict eq' src mir'.
Proof.
  revert eq mir. induction n as [|n IH]; simpl; intros eq mir Hsim Hlen.
  - exists eq, mir. destruct (queue eq) eqn:E; simpl in *; [done|lia].
  - destruct (decide (queue eq = [])) as [Hq|Hq].
    + rewrite Pop_empty by done. eauto.
    + destruct (pop_sim _ _ _ _ Hsim Hq) as (t & o & eq' & -> & Hsim' & Hl).
      apply IH; [done|lia].
Qed.

(** Nothing is pending: the relation is about the two maps alone. *)
Lemma sim_drained strict eq src mir k :
  sim strict eq src mir → queue eq = [] →
  (∀ x, src !! k = Some x → mir !! k = Some x) ∧ (strict → src !! k = None → mir !! k = None).
Proof.
  intros [Hwf Hkey] Hq. specialize (Hkey k).
  destruct (events eq !! k) as [t|] eqn:E.
  - assert (k ∈ queue eq) as Hin by (apply (wf_dom _ _ Hwf); eauto). rewrite Hq in Hin. set_solver.
  - simpl in Hkey. naive_solver.
Qed.

(** ** What is stored *)

(** A property of the objects that are announced holds of the ones in the store. *)
Lemma stored_announce (Q : obj → Prop) eq eq' o t k :
  keyFn o = inr k → handleEvent keyFn o t eq = Ret None eq' → Q o →
  (∀ k s, contents eq !! k = Some s → Q s) → ∀ k s, contents eq' !! k = Some s → Q s.
Proof.
  intros Hk Hh Ho Hst. pose proof (handleEvent_handled keyFn k o t eq Hk) as Hcase. rewrite Hh in Hcase.
  assert (∀ k' s, updated keyFn k o t eq !! k' = Some s → Q s) as Hup.
  { intros k' s. unfold updated. case_decide; [apply Hst|].
    rewrite lookup_insert_Some. intros [[_ <-]|[_ Hs]]; [done|by apply Hst in Hs]. }
  inversion Hcase as [? _ _ _ Hc _ _|? ? ? _ _ _ _ _ Hc _ _|? _ _ _ _ Hc _ _|]; subst; rewrite Hc;
    [apply Hup..|apply Hst].
Qed.
Lemma stored_relist (Q : obj → Prop) eq eq' os rv :
  first_key_error keyFn os = None → Replace keyFn os rv eq = Ret None eq' → Forall Q os →
  ∀ k s, contents eq' !! k = Some s → Q s.
Proof.
  intros Hf HR Hpl. destruct (Replace_spec keyFn os rv eq Hf) as (q' & HR' & _ & _ & Hc & _).
  rewrite HR in HR'. injection HR' as <-. rewrite Hc. unfold keyed_map.
  assert (∀ k s, (∅ : gmap string obj) !! k = Some s → Q s) as H0 by (intros ? ?; by rewrite lookup_empty).
  revert H0. clear -Hpl. generalize (∅ : gmap string obj). induction Hpl as [|o os Ho _ IH]; intros m Hm; [exact Hm|].
  cbn [foldl]. apply IH. intros k' s'. destruct (keyFn o); [apply Hm|].
  rewrite lookup_insert_Some. intros [[_ <-]|[_ ?]]; eauto.
Qed.

(** What a pop takes, and what it leaves. *)
Lemma pop_takes strict eq src mir t o eq' :
  sim strict eq src mir → Pop eq = Ret (t, Some o, None) eq' →
  ∃ k, keyFn o = inr k ∧ is_event t ∧ events eq !! k = Some t ∧ contents eq !! k = Some o ∧
    sim strict eq' src (consume t o mir) ∧ events eq' = delete k (events eq) ∧
    ∀ k s, contents eq' !! k = Some s → contents eq !! k = Some s.
Proof.
  intros Hsim Hpop. assert (queue eq ≠ []) as Hne by (intros Hq; by rewrite Pop_empty in Hpop).
  destruct (pop_sim _ _ _ _ Hsim Hne) as (t1 & o1 & q1 & Hpop1 & Hsim' & _).
  destruct (wf_pop _ (sim_wf _ _ _ _ Hsim) Hne)
    as (k & rest & t2 & o2 & q2 & _ & Ht & Ho & Hk & Hev & Hpop2 & (_ & He & _) & Hc).
  rewrite Hpop in Hpop1, Hpop2. injection Hpop1 as <- <- <-. injection Hpop2 as <- <- <-.
  exists k. split_and!; [done..|]. intros k' s. rewrite Hc. case_decide; [|done]. by rewrite lookup_delete_Some; intros [_ ?].
Qed.
Lemma consume_Some t o mir k k' s :
  keyFn o = inr k → is_event t → consume t o mir !! k' = Some s →
  (k' = k ∧ t ≠ Deleted ∧ s = o) ∨ (k' ≠ k ∧ mir !! k' = Some s).
Proof.
  intros Hk Ht. unfold consume. rewrite Hk. destruct (decide (k' = k)) as [->|Hne].
  - destruct Ht as [->|[->| ->]]; rewrite ?lookup_insert_eq, ?lookup_delete_eq; naive_solver.
  - destruct Ht as [->|[->| ->]]; rewrite ?lookup_insert_ne, ?lookup_delete_ne by done; auto.
Qed.

(** While no deletion is announced for a key none is pending. *)
Definition no_deletion k eq : Prop := events eq !! k ≠ Some Deleted.
Lemma no_deletion_announce k eq eq' o t k' :
  keyFn o = inr k' → handleEvent keyFn o t eq = Ret None eq' → (k' = k → t ≠ Deleted) →
  no_deletion k eq → no_deletion k eq'.
Proof.
  unfold no_deletion. intros Hk Hh Ht Hno. pose proof (handleEvent_handled keyFn k' o t eq Hk) as Hcase. rewrite Hh in Hcase.
  inversion Hcase as [? Hn He _ _ _ _|q t' ? Hn _ Hm He _ _ _ _|? _ _ He _ _ _ _|]; subst; rewrite He.
  - rewrite lookup_insert_Some. intros [[<- ->]|[_ ?]]; [by apply Ht|done].
  - rewrite lookup_insert_Some. intros [[<- ->]|[_ ?]]; [|done]. specialize (Ht eq_refl). rewrite Hn in Hno.
    destruct q, t; done.
  - by rewrite lookup_delete_Some; intros [_ ?].
Qed.
Lemma no_deletion_relist k eq eq' os rv :
  first_key_error keyFn os = None → Replace keyFn os rv eq = Ret None eq' → no_deletion k eq'.
Proof.
  intros Hf HR. destruct (Replace_spec keyFn os rv eq Hf) as (q' & HR' & _ & He & _).
  rewrite HR in HR'. injection HR' as <-. unfold no_deletion. rewrite He, enqueue_all_lookup. by case_decide; rewrite ?lookup_empty.
Qed.
End Spec.
