(* ===== verification/EventQueueProps.v ===== *)
(** The properties of the event queue, each with a witness on a concrete run.

    The witnesses use pairs of a key and a number as objects and the store that
    [NewEventQueue] creates. *)

From stdpp Require Import gmap strings list relations.
From S2P Require Import Prelude Types KStore EventQueue EventQueueFacts EventQueueSpec.

(** ** Concrete objects for the witnesses *)
Module Ex.
Definition obj : Type := string * nat.
Definition key (o : obj) : error + string :=
  if decide (o.1 = "bad") then inl (Errorf "object has no meta") else inr o.1.
#[global] Instance ops : StoreOps Cache.cacheStorage obj := Cache.cache_ops (mo := order_up) key.
#[global] Instance laws : StoreLaws Cache.cacheStorage obj key := Cache.cache_laws (mo := order_up) key.
Definition q0 : EventQueue (Cache.cacheStorage (obj := obj)) := NewEventQueueForStore Cache.NewStore.
End Ex.

Section Props.
Context {obj S : Type} `{!StoreOps S obj} (keyFn : obj → error + string)
  `{!StoreLaws S obj keyFn}.
Implicit Types (eq : EventQueue S) (src mir : gmap string obj).

(** Number of [Pop] calls in a sequence of calls. *)
Fixpoint pops (cs : list (op (obj := obj))) : nat :=
  match cs with
  | [] => 0
  | OpPop :: cs => Datatypes.S (pops cs)
  | _ :: cs => pops cs
  end.

(** Run a sequence of calls that contains no relist, each within its contract. *)
Inductive run_ops : list (op (obj := obj)) → EventQueue S → EventQueue S → Prop :=
| run_nil eq : run_ops [] eq eq
| run_cons c cs eq eq' :
    op_ok keyFn c eq → (∀ os rv, c ≠ OpReplace os rv) →
    run_ops cs (final (run_op keyFn c eq)) eq' → run_ops (c :: cs) eq eq'.

(** The state of a relist of the keys [ks] after [n] pops. *)
Record relisting (ks : list string) (n : nat) eq : Prop := {
  rel_wf : wf keyFn eq;
  rel_queue : drop n ks `prefix_of` queue eq;
  rel_events : ∀ k, k ∈ drop n ks → ∃ t, events eq !! k = Some t ∧ t ≠ Added;
  rel_last : lastReplaceKey eq = (if decide (n < length ks) then default "" (last ks) else "")
}.

Lemma final_bind_ret {A} (m : M (EventQueue S) A) eq :
  final ((m ;; mret tt) eq) = final (m eq).
Proof. m_unfold. by destruct (m eq). Qed.

Lemma relisting_handle ks n k o t eq :
  relisting ks n eq → keyFn o = inr k → is_event t →
  (t = Deleted → is_Some (contents keyFn eq !! k)) →
  relisting ks n (final (handleEvent keyFn o t eq)).
Proof.
  intros [Hwf [ext Hq] Hev Hla] Hk Ht Hdel.
  pose proof (wf_handle keyFn k o t eq Hwf Hk Ht Hdel) as Hwf'.
  destruct (handleEvent_handled keyFn k o t eq Hk)
    as [eq' Hn He Hq' _ Hl _|q t' eq' Hn Hm Hm' He Hq' _ Hl _|eq' Hn -> He Hq' _ Hl _|];
    simpl in *; [| | |by split; [|eexists| |]].
  - split; [done| | |by rewrite Hl].
    + rewrite Hq', Hq, <-app_assoc. by eexists.
    + intros k' Hk'. destruct (Hev k' Hk') as (t' & ? & ?). rewrite He.
      rewrite lookup_insert_ne by congruence. eauto.
  - split; [done| | |by rewrite Hl].
    + rewrite Hq', Hq. by eexists.
    + intros k' Hk'. destruct (Hev k' Hk') as (t'' & Hk'' & ?). rewrite He.
      destruct (decide (k = k')) as [->|]; [|rewrite lookup_insert_ne by done; eauto].
      rewrite lookup_insert_eq. exists t'. split; [done|].
      destruct q, t; simplify_eq/=; congruence.
  - assert (k ∉ drop n ks) as Hnin.
    { intros Hk'. destruct (Hev k Hk') as (? & ? & ?). congruence. }
    split; [done| | |by rewrite Hl].
    + rewrite Hq', Hq, filter_app, filter_ne_id by done. by eexists.
    + intros k' Hk'. destruct (Hev k' Hk') as (t' & ? & ?). rewrite He.
      rewrite lookup_delete_ne by congruence. eauto.
Qed.

Lemma relisting_pop ks n eq :
  NoDup ks → default "" (last ks) ≠ "" → relisting ks n eq →
  relisting ks (Datatypes.S n) (final (Pop eq)).
Proof.
  intros Hnd Hlast [Hwf [ext Hq] Hev Hla].
  destruct (decide (queue eq = [])) as [Hq0|Hq0].
  - rewrite Pop_empty by done. rewrite Hq0 in Hq. symmetry in Hq.
    apply app_nil in Hq as [Hd ->]. pose proof (length_drop ks n) as Hlen.
    rewrite Hd in Hlen. simpl in Hlen.
    assert (drop (Datatypes.S n) ks = []) as Hd' by (apply drop_ge; lia).
    split; simpl; rewrite ?Hd', ?Hla; [done|apply prefix_nil|set_solver|].
    by rewrite !decide_False by lia.
  - destruct (wf_pop keyFn eq Hwf Hq0)
      as (k & rest & t & o & eq' & Hqk & Ht & Ho & Hk & Hev' & -> & Hp & Hc). simpl.
    pose proof (wf_popped keyFn k rest t eq eq' Hwf Hqk Ht Hp Hc) as Hwf'.
    destruct Hp as (Hq' & He' & _ & Hl'). rewrite Hqk in Hq.
    destruct (drop n ks) as [|k0 ks'] eqn:Hd; simpl in Hq.
    + assert (length ks ≤ n) as Hn.
      { pose proof (length_drop ks n) as Hl. rewrite Hd in Hl. simpl in Hl. lia. }
      assert (drop (Datatypes.S n) ks = []) as Hd' by (apply drop_ge; lia).
      rewrite decide_False in Hla by lia.
      split; rewrite ?Hd', ?Hl', ?Hla; [done|apply prefix_nil|set_solver|].
      rewrite (decide_False (P := Datatypes.S n < length ks)) by lia. by destruct (decide ("" = k)).
    + injection Hq as <- ->. assert (drop (Datatypes.S n) ks = ks') as Hd'.
      { rewrite <-Nat.add_1_r, <-drop_drop, Hd. done. }
      assert (n < length ks) as Hn.
      { pose proof (length_drop ks n) as Hl. rewrite Hd in Hl. simpl in Hl. lia. }
      rewrite decide_True in Hla by done.
      assert (NoDup (k :: ks')) as Hnd'.
      { rewrite <-Hd. rewrite <-(take_drop n ks) in Hnd. by apply NoDup_app in Hnd as (_ & _ & ?). }
      pose proof (last_drop ks n Hn) as Hlk. rewrite Hd in Hlk. rewrite <-Hlk in Hla, Hlast.
      destruct (last (k :: ks')) as [kl|] eqn:El; [simpl in Hla, Hlast|done].
      assert (length ks' = length ks - Datatypes.S n) as Hlen
        by (rewrite <-Hd'; apply length_drop).
      split; rewrite ?Hd', ?Hl', ?Hla; [done|rewrite Hq'; by eexists| |].
      * intros k' Hk'. rewrite He'. destruct (Hev k') as (t' & ? & ?); [set_solver|].
        apply NoDup_cons in Hnd' as [? _]. rewrite lookup_delete_ne by set_solver. eauto.
      * rewrite <-Hlk. simpl. destruct (decide (ks' = [])) as [->|Hne].
        -- simpl in El, Hlen. simplify_eq. rewrite decide_True by done.
           by rewrite decide_False by lia.
        -- rewrite decide_False by (by eapply last_cons_ne).
           rewrite decide_True; [done|]. destruct ks'; simpl in *; [done|lia].
Qed.

Lemma relisting_run cs ks n eq eq' :
  NoDup ks → default "" (last ks) ≠ "" → run_ops cs eq eq' →
  relisting ks n eq → relisting ks (n + pops cs) eq'.
Proof.
  intros Hnd Hlast Hrun. revert n. induction Hrun as [eq|c cs eq eq' Hok Hnr _ IH];
    intros n Hr; simpl.
  - by rewrite Nat.add_0_r.
  - destruct c as [o|o|o|os rv| |]; simpl in *.
    + destruct Hok as [k Hk]. apply IH. rewrite final_bind_ret.
      eapply relisting_handle; [done..|by left|done].
    + destruct Hok as [k Hk]. apply IH. rewrite final_bind_ret.
      eapply relisting_handle; [done..|by right; left|done].
    + destruct Hok as (k & Hk & ?). apply IH. rewrite final_bind_ret.
      eapply relisting_handle; [done..|by right; right|done].
    + by destruct (Hnr os rv).
    + rewrite <-Nat.add_succ_comm. apply IH. rewrite final_bind_ret. by apply relisting_pop.
    + apply IH. destruct Hr as [[] ? ? ?]. split; [by split|done..].
Qed.

Lemma relisting_start os rv eq eq' :
  first_key_error keyFn os = None → NoDup (keys_of keyFn os) →
  Replace keyFn os rv eq = Ret None eq' → relisting (keys_of keyFn os) 0 eq'.
Proof.
  intros Hf Hnd HR. pose proof (wf_Replace keyFn os rv eq Hf Hnd) as Hwf.
  destruct (Replace_spec keyFn os rv eq Hf) as (eq'' & HR' & Hq & He & _ & Hl & _).
  rewrite HR in HR'. injection HR' as <-. rewrite HR in Hwf.
  split; rewrite ?drop_0; [done|by rewrite Hq| |].
  - intros k Hk. rewrite He, enqueue_all_lookup, decide_True by done. by exists Modified.
  - rewrite Hl. case_decide as Hn; [done|].
    destruct (keys_of keyFn os); simpl in *; [done|lia].
Qed.

(** ** Runs by computation *)

Inductive label : Type :=
| LAnnounce (o : obj) (t : EventType) | LRelist (os : list obj) | LPop | LCancel.

(** One step of the system, when it is allowed. *)
Definition play1 (relists : bool) (l : label) (st : EventQueue S * gmap string obj * gmap string obj)
    : option (EventQueue S * gmap string obj * gmap string obj) :=
  let '(eq, src, mir) := st in
  match l with
  | LAnnounce o t =>
      match keyFn o with
      | inl _ => None
      | inr k =>
          src' ← match t, src !! k with
                 | Added, None | Modified, Some _ => Some (<[k:=o]> src)
                 | Deleted, Some _ => Some (delete k src)
                 | _, _ => None
                 end;
          match handleEvent keyFn o t eq with
          | Ret None eq' => Some (eq', src', mir)
          | _ => None
          end
      end
  | LRelist os =>
      if relists && bool_decide (NoDup (keys_of keyFn os)) then
        match first_key_error keyFn os, Replace keyFn os "" eq with
        | None, Ret None eq' => Some (eq', keyed_map keyFn os, mir)
        | _, _ => None
        end
      else None
  | LPop =>
      match Pop eq with
      | Ret (t, Some o, None) eq' => Some (eq', src, consume keyFn t o mir)
      | _ => None
      end
  | LCancel => Some (final (Cancel eq), src, mir)
  end.

Fixpoint play (relists : bool) (ls : list label) st :=
  match ls with
  | [] => Some st
  | l :: ls => play1 relists l st ≫= play relists ls
  end.

Lemma play1_sound relists l st st' :
  play1 relists l st = Some st' → step keyFn relists st st'.
Proof.
  destruct st as [[eq src] mir]. destruct l as [o t|os| |]; simpl.
  - destruct (keyFn o) as [e|k] eqn:Hk; [done|].
    destruct t, (src !! k) eqn:Hs; simpl; try done;
      (destruct (handleEvent _ _ _ _) as [[]| | |] eqn:Hh; intros [= <-]);
      (eapply step_announce; [|done]); by constructor.
  - destruct relists; [|done]. case_bool_decide; [|done].
    destruct (first_key_error keyFn os) eqn:?; [done|].
    destruct (Replace _ _ _ _) as [[]| | |] eqn:?; intros [= <-]. by eapply step_relist.
  - destruct (Pop eq) as [[[t [o|]] [|]]| | |] eqn:?; intros [= <-]. by eapply step_pop.
  - intros [= <-]. by apply step_cancel.
Qed.

Lemma play_sound relists ls st st' :
  play relists ls st = Some st' → rtc (step keyFn relists) st st'.
Proof.
  revert st. induction ls as [|l ls IH]; simpl; intros st; [intros [= <-]; apply rtc_refl|].
  destruct (play1 relists l st) as [st1|] eqn:E; simpl; [|done]. intros H.
  eapply rtc_l; [by eapply play1_sound|by apply IH].
Qed.

(** ** The properties *)

(** C7: whatever legal sequence of announcements and pops (and cancellations)
    led here from an empty queue, popping the rest of the queue makes the
    consumer's copy equal to the producer's objects: compressing events loses
    and invents nothing. *)
Theorem drain_converges s eq src mir :
  store_view (keyFn := keyFn) s = ∅ →
  rtc (step keyFn false) (NewEventQueueForStore s, ∅, ∅) (eq, src, mir) →
  ∃ eq', drain keyFn (length (queue eq)) eq mir = Some (eq', src) ∧ queue eq' = [].
Proof.
  intros Hs Hr. pose proof (reach_sim keyFn _ _ _ _ _ Hs Hr) as Hsim.
  destruct (drain_sim keyFn _ (length (queue eq)) _ _ _ Hsim) as (eq' & mir' & Hd & Hq & Hsim');
    [done|]. exists eq'. rewrite Hd. split; [|done]. do 2 f_equal.
  apply map_eq. intros k.
  destruct (sim_drained keyFn _ _ _ _ k Hsim' Hq) as [Hsome Hnone].
  destruct (src !! k) as [x|]; [by rewrite (Hsome x)|]. by apply Hnone.
Qed.

(** C13: with relists ([Replace]) as well, draining still gives the consumer every
    object of the producer in its latest state. *)
Theorem relist_complete s eq src mir :
  store_view (keyFn := keyFn) s = ∅ →
  rtc (step keyFn true) (NewEventQueueForStore s, ∅, ∅) (eq, src, mir) →
  ∃ eq' mir', drain keyFn (length (queue eq)) eq mir = Some (eq', mir') ∧ queue eq' = [] ∧
    src ⊆ mir'.
Proof.
  intros Hs Hr. pose proof (reach_sim keyFn _ _ _ _ _ Hs Hr) as Hsim.
  destruct (drain_sim keyFn _ (length (queue eq)) _ _ _ Hsim) as (eq' & mir' & Hd & Hq & Hsim');
    [done|]. exists eq', mir'. split_and!; [done..|]. apply map_subseteq_spec.
  intros k x Hx. destruct (sim_drained keyFn _ _ _ _ k Hsim' Hq) as [Hsome _]. by apply Hsome.
Qed.

(** A truthful announcement is accepted without error unless it re-adds an
    object whose deletion is still queued; that one, and no other, panics, and
    it leaves the queue as it was. *)
Theorem announce_panics_iff_readd s relists eq src mir o k t src' :
  store_view (keyFn := keyFn) s = ∅ →
  rtc (step keyFn relists) (NewEventQueueForStore s, ∅, ∅) (eq, src, mir) →
  announce keyFn src o t src' → keyFn o = inr k →
  (t = Added ∧ events eq !! k = Some Deleted ∧
     handleEvent keyFn o t eq = Panic "Invalid state transition" eq) ∨
  (¬ (t = Added ∧ events eq !! k = Some Deleted) ∧
     ∃ eq', handleEvent keyFn o t eq = Ret None eq').
Proof.
  intros Hs Hr Ha Hk. pose proof (reach_sim keyFn _ _ _ _ _ Hs Hr) as Hsim.
  destruct (handle_sim keyFn _ _ _ _ _ _ _ Hsim Ha) as [(eq' & He & _)|(He & -> & k' & Hk' & ?)].
  - right. split; [|eauto]. intros [-> Hd].
    by rewrite (handleEvent_invalid keyFn k o Deleted) in He.
  - left. rewrite Hk in Hk'; injection Hk' as <-; auto.
Qed.

(** C30: every call made within its contract keeps the invariant of the queue:
    no key twice, exactly the queued keys have a pending event, each queued key
    has its object in the store, and the relist marker names a queued key. *)
Theorem wf_preserved c eq :
  wf keyFn eq → op_ok keyFn c eq → wf keyFn (final (run_op keyFn c eq)).
Proof.
  intros Hwf Hok. destruct c as [o|o|o|os rv| |]; simpl in *; rewrite ?final_bind_ret.
  - destruct Hok as [k Hk]. eapply wf_handle; [done..|by left|done].
  - destruct Hok as [k Hk]. eapply wf_handle; [done..|by right; left|done].
  - destruct Hok as (k & Hk & ?). eapply wf_handle; [done..|by right; right|done].
  - destruct Hok. by apply wf_Replace.
  - by apply wf_Pop.
  - by destruct Hwf; split.
Qed.

(** C31: [Pop] on a well-formed queue blocks exactly when the queue is empty;
    otherwise it takes the oldest key, answers its pending event with the object
    of the store and no error, forgets the event, and removes the object from
    the store exactly when the event is a deletion.  It never answers
    [EventQueueStopped]. *)
Theorem Pop_correct eq :
  wf keyFn eq →
  match queue eq with
  | [] => Pop eq = Block eq
  | k :: rest =>
      ∃ t o eq', Pop eq = Ret (t, Some o, None) eq' ∧
        events eq !! k = Some t ∧ contents keyFn eq !! k = Some o ∧
        queue eq' = rest ∧ events eq' = delete k (events eq) ∧
        contents keyFn eq' =
          (if decide (t = Deleted) then delete k (contents keyFn eq) else contents keyFn eq)
  end.
Proof.
  intros Hwf. destruct (queue eq) as [|k rest] eqn:Hq; [by apply Pop_empty|].
  destruct (wf_pop keyFn eq Hwf) as (k' & rest' & t & o & eq' & Hq' & ? & ? & ? & ? & ? & Hp & ?);
    [by rewrite Hq|]. rewrite Hq in Hq'. simplify_eq.
  destruct Hp as (? & ? & _). eauto 10.
Qed.

(** [Cancel] cannot unblock a [Pop]: however many cancellations happen, a
    [Pop] on an empty queue goes on waiting. *)
Theorem Cancel_does_not_unblock (n : nat) eq :
  queue eq = [] →
  Pop (Nat.iter n (λ q, final (Cancel q)) eq) =
    Block (Nat.iter n (λ q, final (Cancel q)) eq).
Proof.
  intros Hq. apply Pop_empty. by induction n as [|n IH]; simpl.
Qed.

(** No wake-up is lost: a call that makes an empty queue nonempty broadcasts
    on the condition variable [Pop] waits on. *)
Theorem no_lost_wakeup c eq :
  op_ok keyFn c eq → queue eq = [] → queue (final (run_op keyFn c eq)) ≠ [] →
  cond eq < cond (final (run_op keyFn c eq)).
Proof.
  intros Hok Hq. 
  assert (∀ k o t, keyFn o = inr k → queue (final (handleEvent keyFn o t eq)) ≠ [] →
    cond eq < cond (final (handleEvent keyFn o t eq))) as Hhandle.
  { intros k o t Hk.
    destruct (handleEvent_handled keyFn k o t eq Hk)
      as [eq' _ _ _ _ _ Hc|q t' eq' _ _ _ _ Hq' _ _ _|eq' _ _ _ Hq' _ _ _|]; simpl.
    - lia.
    - by rewrite Hq', Hq.
    - by rewrite Hq', Hq.
    - by rewrite Hq. }
  destruct c as [o|o|o|os rv| |]; simpl in *; rewrite ?final_bind_ret.
  - destruct Hok as [k Hk]. by eapply Hhandle.
  - destruct Hok as [k Hk]. by eapply Hhandle.
  - destruct Hok as (k & Hk & ?). by eapply Hhandle.
  - destruct Hok as [Hf _]. destruct (Replace_spec keyFn os rv eq Hf)
      as (eq' & -> & Hq' & _ & _ & _ & Hc). simpl. rewrite Hq', Hc. intros Hne.
    rewrite decide_False by done. lia.
  - rewrite Pop_empty by done. simpl. by rewrite Hq.
  - lia.
Qed.

(** After a relist, [ListConsumed] turns true exactly when as many pops have
    happened as the relist had objects, whatever other events come between. *)
Theorem ListConsumed_counts_relist os rv eq eq1 cs eq2 :
  first_key_error keyFn os = None → NoDup (keys_of keyFn os) →
  default "" (last (keys_of keyFn os)) ≠ "" →
  Replace keyFn os rv eq = Ret None eq1 → run_ops cs eq1 eq2 →
  ListConsumed eq2 = Ret (bool_decide (length (keys_of keyFn os) ≤ pops cs)) eq2.
Proof.
  intros Hf Hnd Hlast HR Hrun.
  destruct (relisting_run cs _ 0 eq1 eq2 Hnd Hlast Hrun) as [_ _ _ Hl];
    [by eapply relisting_start|]. simpl in Hl.
  unfold ListConsumed. m_unfold. f_equal. apply bool_decide_ext. rewrite Hl.
  case_decide; split; intros; try done; lia.
Qed.

(** When the key function fails inside a relist, [Replace] reports that
    error; it has by then dropped every pending event and queued the keys before
    the failure, while the store and the relist marker are the old ones. *)
Theorem Replace_key_error os o os' err rv eq :
  first_key_error keyFn os = None → keyFn o = inl err →
  ∃ eq', Replace keyFn (os ++ o :: os') rv eq = Ret (Some err) eq' ∧
    queue eq' = keys_of keyFn os ∧ events eq' = enqueue_all (keys_of keyFn os) ∅ ∧
    store eq' = store eq ∧ lastReplaceKey eq' = lastReplaceKey eq.
Proof.
  intros Hf Ho. unfold Replace. m_unfold. 
  assert (∀ q : EventQueue S, Replace_loop keyFn (os ++ o :: os') q =
    match Replace_loop keyFn os q with
    | Ret None q' => Replace_loop keyFn (o :: os') q'
    | out => out
    end) as Happ.
  { clear Hf. induction os as [|x os IH]; intros q; simpl; [done|].
    destruct (keyFn x); m_unfold; [done|]. apply IH. }
  rewrite Happ, Replace_loop_spec by done. simpl. rewrite Ho. simpl.
  eexists. split; [done|]. by split_and!.
Qed.

(** On a well-formed queue the readers succeed: [List] answers one object per
    queued key, in queue order and each the stored one, and [GetByKey] answers
    an object exactly for the pending keys.  [ListKeys] answers no keys, whatever is queued. *)
Theorem readers_correct eq :
  wf keyFn eq →
  (∃ items, List_ eq = Ret items eq ∧
     Forall2 (λ k o, contents keyFn eq !! k = Some o) (queue eq) items) ∧
  ListKeys eq = Ret [] eq ∧
  (∀ k, ∃ r, GetByKey k eq = Ret (inr r) eq ∧
     r = if decide (k ∈ queue eq) then contents keyFn eq !! k else None).
Proof.
  intros [Hnd Hdom _ Hst _ _]. split_and!; [|unfold ListKeys, gets, go_copy; by rewrite drop_nil|].
  - unfold List_. 
    assert (∃ items, List_loop (queue eq) (store eq) = inr items ∧
      Forall2 (λ k o, contents keyFn eq !! k = Some o) (queue eq) items) as (items & -> & H);
      [|by exists items].
    clear Hnd Hdom. induction (queue eq) as [|k ks IH]; simpl; [by exists []|].
    destruct IH as (items & -> & H); [set_solver|]. rewrite law_GetByKey.
    destruct (Hst k) as [o Ho]; [set_solver|]. unfold contents in Ho. rewrite Ho.
    exists (o :: items). by split; [|constructor].
  - intros k. unfold GetByKey. specialize (Hdom k). destruct (events eq !! k) eqn:E.
    + rewrite law_GetByKey. eexists. split; [done|]. rewrite decide_True; [done|naive_solver].
    + eexists. split; [done|]. rewrite decide_False; [done|].
      rewrite Hdom. by intros [? ?].
Qed.
End Props.

(** A run that announces an object, delivers it, and relists without it. *)
Definition stale_run : list (label (obj := Ex.obj)) :=
  [LAnnounce ("s", 1) Added; LPop; LRelist []].
Definition stale_end := Eval vm_compute in play Ex.key true stale_run (Ex.q0, ∅, ∅).

(** A relist never retracts an object: at the end of the run [stale_run] the
    queue is empty, so nothing more will ever be delivered, and the consumer
    still holds the object the producer lost. *)
Theorem relist_keeps_stale :
  ∃ eq src mir,
    rtc (step Ex.key true) (Ex.q0, ∅, ∅) (eq, src, mir) ∧
    queue eq = [] ∧ src !! "s" = None ∧ mir !! "s" = Some ("s", 1).
Proof.
  assert (play Ex.key true stale_run (Ex.q0, ∅, ∅) = stale_end) as E
    by (vm_compute; reflexivity).
  unfold stale_end in E. apply play_sound in E.
  do 3 eexists. split; [exact E|]. by split_and!.
Qed.

(** ** Witnesses *)

(** An addition compressed with an update, then a second object. *)
Definition trace1 : list (label (obj := Ex.obj)) :=
  [LAnnounce ("a", 1) Added; LAnnounce ("a", 2) Modified; LAnnounce ("b", 3) Added].
Definition state1 := Eval vm_compute in play Ex.key false trace1 (Ex.q0, ∅, ∅).

Lemma drain_converges_witness :
  match state1 with
  | Some (eq, src, mir) =>
      ∃ eq', drain Ex.key (length (queue eq)) eq mir = Some (eq', src) ∧ queue eq' = []
  | None => False
  end.
Proof.
  unfold state1. apply (drain_converges Ex.key Cache.NewStore); [reflexivity|].
  apply (play_sound Ex.key false trace1). vm_compute. reflexivity.
Defined.

(** A relist, a pop and an update of what is left. *)
Definition trace2 : list (label (obj := Ex.obj)) :=
  [LAnnounce ("a", 1) Added; LRelist [("a", 2); ("b", 3)]; LPop; LAnnounce ("b", 4) Modified].
Definition state2 := Eval vm_compute in play Ex.key true trace2 (Ex.q0, ∅, ∅).

Lemma relist_complete_witness :
  match state2 with
  | Some (eq, src, mir) =>
      ∃ eq' mir', drain Ex.key (length (queue eq)) eq mir = Some (eq', mir') ∧
        queue eq' = [] ∧ src ⊆ mir'
  | None => False
  end.
Proof.
  unfold state2. apply (relist_complete Ex.key Cache.NewStore); [reflexivity|].
  apply (play_sound Ex.key true trace2). vm_compute. reflexivity.
Defined.

(** A deletion is pending when the object is added again. *)
Definition trace3 : list (label (obj := Ex.obj)) :=
  [LAnnounce ("a", 1) Added; LPop; LAnnounce ("a", 1) Deleted].
Definition state3 := Eval vm_compute in play Ex.key false trace3 (Ex.q0, ∅, ∅).

Lemma announce_panics_witness :
  match state3 with
  | Some (eq, src, mir) =>
      (Added = Added ∧ events eq !! "a" = Some Deleted ∧
         handleEvent Ex.key ("a", 2) Added eq = Panic "Invalid state transition" eq) ∨
      (¬ (Added = Added ∧ events eq !! "a" = Some Deleted) ∧
         ∃ eq', handleEvent Ex.key ("a", 2) Added eq = Ret None eq')
  | None => False
  end.
Proof.
  unfold state3.
  eapply (announce_panics_iff_readd Ex.key Cache.NewStore false); [reflexivity| | |reflexivity].
  - apply (play_sound Ex.key false trace3). vm_compute. reflexivity.
  - apply (announce_add Ex.key _ ("a", 2) "a"); vm_compute; reflexivity.
Defined.

Lemma wf_q0 : wf Ex.key Ex.q0.
Proof. apply wf_empty. intros k o H. change ((∅ : gmap string Ex.obj) !! k = Some o) in H. by rewrite lookup_empty in H. Qed.

Definition q1 : EventQueue (Cache.cacheStorage (obj := Ex.obj)) :=
  final (handleEvent Ex.key ("a", 1) Added Ex.q0).

Lemma wf_q1 : wf Ex.key q1.
Proof. eapply wf_handle; [apply wf_q0|done|by left|done]. Qed.
#[export] Hint Resolve wf_q0 wf_q1 : go.

Lemma wf_preserved_witness :
  wf Ex.key (final (run_op Ex.key (OpDelete ("a", 1)) q1)).
Proof.
  apply wf_preserved; [auto with go|]. exists "a". split; [reflexivity|].
  exists ("a", 1). vm_compute. reflexivity.
Defined.

Lemma Pop_correct_witness :
  match queue q1 with
  | [] => Pop q1 = Block q1
  | k :: rest =>
      ∃ t o eq', Pop q1 = Ret (t, Some o, None) eq' ∧
        events q1 !! k = Some t ∧ contents Ex.key q1 !! k = Some o ∧
        queue eq' = rest ∧ events eq' = delete k (events q1) ∧
        contents Ex.key eq' =
          (if decide (t = Deleted) then delete k (contents Ex.key q1) else contents Ex.key q1)
  end.
Proof. apply Pop_correct, wf_q1. Defined.

Lemma Cancel_witness :
  Pop (Nat.iter 3 (λ q, final (Cancel q)) Ex.q0) =
    Block (Nat.iter 3 (λ q, final (Cancel q)) Ex.q0).
Proof. apply (Cancel_does_not_unblock 3 Ex.q0). reflexivity. Defined.

Lemma no_lost_wakeup_witness :
  cond Ex.q0 < cond (final (run_op Ex.key (OpReplace [("a", 1)] "") Ex.q0)).
Proof.
  apply (no_lost_wakeup Ex.key (OpReplace [("a", 1)] "") Ex.q0).
  - split; [reflexivity|]. apply (bool_decide_unpack _). vm_compute. exact I.
  - reflexivity.
  - vm_compute. discriminate.
Defined.

Definition q2 : EventQueue (Cache.cacheStorage (obj := Ex.obj)) :=
  final (Replace Ex.key [("a", 1); ("b", 2)] "" Ex.q0).
Definition calls2 : list (op (obj := Ex.obj)) := [OpPop; OpUpdate ("b", 3); OpPop].
Definition q3 : EventQueue (Cache.cacheStorage (obj := Ex.obj)) :=
  foldl (λ q c, final (run_op Ex.key c q)) q2 calls2.

Lemma ListConsumed_witness : ListConsumed q3 = Ret (bool_decide (2 ≤ pops calls2)) q3.
Proof.
  apply (ListConsumed_counts_relist Ex.key [("a", 1); ("b", 2)] "" Ex.q0 q2 calls2 q3).
  - reflexivity.
  - apply (bool_decide_unpack _). vm_compute. exact I.
  - vm_compute. discriminate.
  - vm_compute. reflexivity.
  - apply run_cons; [exact I|discriminate|].
    apply run_cons; [exists "b"; reflexivity|discriminate|].
    apply run_cons; [exact I|discriminate|]. apply run_nil.
Defined.

Lemma readers_witness :
  (∃ items, List_ q1 = Ret items q1 ∧
     Forall2 (λ k o, contents Ex.key q1 !! k = Some o) (queue q1) items) ∧
  ListKeys q1 = Ret [] q1 ∧
  (∀ k, ∃ r, GetByKey k q1 = Ret (inr r) q1 ∧
     r = if decide (k ∈ queue q1) then contents Ex.key q1 !! k else None).
Proof. apply readers_correct, wf_q1. Defined.
