(* ===== verification/Reflector.v ===== *)
(** [client/cache/reflector.go] and [listwatch.go] of the vendored Kubernetes code: the
    loop that lists a resource and then watches it, and puts what it reads in a store.

    The outside is an argument of the code.  A run of [ListAndWatch] is given the
    answer of the API server to its list request, and a [round] for each watch request:
    the answer, the readings of the clock and the random timeout.  The answer to a
    watch is an error or the [arrival]s at the [select] of [watchHandler], in order.
    An answer may depend on the request.  When an argument is used up, the reflector
    waits: the request has not been answered, or no case of the [select] is ready.
    While it waits the other threads may change the store: each answer and arrival has
    the function that says how ([meanwhile]).

    [timers] and [watches] count the timers and watches that have not been stopped;
    [requests] is the log of the requests. *)

From stdpp Require Import gmap strings list.
From S2P Require Import Prelude GoTime Types Wait.

Local Open Scope Z_scope.

(** The interface [Store] of [client/cache/store.go], the methods a reflector calls. *)
Class Store (S obj : Type) := {
  Store_Add : obj → M S (option error);
  Store_Update : obj → M S (option error);
  Store_Delete : obj → M S (option error);
  Store_Replace : list obj → string → M S (option error)
}.

(** What the code asks of [runtime.Object]s and of the packages [meta] and [reflect]:
    the dynamic type of an object; the resource version [meta.Accessor] gives, for an
    object and for a list; the items of a list; [apierrs.FromObject]. *)
Class ApiObject (obj lst : Type) := {
  TypeOf : obj → string;
  Accessor : obj → error + string;
  list_Accessor : lst → error + string;
  ExtractList : lst → error + list obj;
  FromObject : obj → error
}.

(** * listwatch.go *)

(** [api.ListOptions], the fields the reflector sets. *)
Record ListOptions := mkListOptions {
  ResourceVersion : string;
  TimeoutSeconds : option Z
}.

(** A request of the API server. *)
Record request := mkRequest {
  req_prefix : string;
  req_namespace : string;
  req_resource : string;
  req_options : ListOptions;
  req_fields : string
}.

(** The functions of a [ListWatch] send the request they are made of. *)
Record ListWatch := mkListWatch {
  ListFunc : ListOptions → request;
  WatchFunc : ListOptions → request
}.

Definition NewListWatchFromClient (resource namespace fieldSelector : string) : ListWatch :=
  mkListWatch
    (λ options, mkRequest "" namespace resource options fieldSelector)
    (λ options, mkRequest "watch" namespace resource options fieldSelector).

Definition timeoutFromListOptions (options : ListOptions) : Duration :=
  match TimeoutSeconds options with
  | Some s => wrap64 (s * Second)
  | None => 0
  end.

(** * The outside *)

(** An answer, and what other threads have done to the store when it comes. *)
Record after (S A : Type) := mkAfter { meanwhile : S → S; answer : A }.
Arguments mkAfter {S A} _ _.
Arguments meanwhile {S A} _.
Arguments answer {S A} _.

(** The errors of a watch request that the code tells apart: [url.Error] with what it
    wraps, a [net.OpError] with a [syscall.Errno] or something else. *)
Inductive url_cause : Type := OpError (errno : option Z) | OtherCause.
Inductive watch_error : Type := EOF | ErrUnexpectedEOF | UrlError (cause : url_cause) | OtherError.
Definition ECONNREFUSED : Z := 111.

(** The case a [select] of [watchHandler] takes; [Closed] is the end of the channel of
    events. *)
Inductive arrival (obj : Type) : Type := Stopped | ResyncFired | Event (t : EventType) (o : obj) | Closed.
Arguments Stopped {obj}.
Arguments ResyncFired {obj}.
Arguments Event {obj} _ _.
Arguments Closed {obj}.

(** One turn of the loop of [ListAndWatch]. *)
Record round (S obj : Type) := mkRound {
  now_timeout : Time;
  randTimeout : Duration;
  watch_answer : request → after S (watch_error + list (after S (arrival obj)));
  now_start : Time;
  now_end : Time;
  now_check : Time
}.
Arguments mkRound {S obj} _ _ _ _ _ _.
Arguments now_timeout {S obj} _.
Arguments randTimeout {S obj} _.
Arguments watch_answer {S obj} _ _.
Arguments now_start {S obj} _.
Arguments now_end {S obj} _.
Arguments now_check {S obj} _.

(** One run of [ListAndWatch]. *)
Record script (S obj lst : Type) := mkScript {
  now_resync : Time;
  list_answer : request → after S (error + lst);
  rounds : list (round S obj)
}.
Arguments mkScript {S obj lst} _ _ _.
Arguments now_resync {S obj lst} _.
Arguments list_answer {S obj lst} _ _.
Arguments rounds {S obj lst} _.

(** * reflector.go *)

Definition minWatchTimeout : Duration := 5 * Minute.
Definition forceResyncThreshold : Duration := 3 * Second.
Definition timeoutThreshold : Duration := 1 * Second.

(** [store] and [now] are not fields: they are parts of the state and of the rounds. *)
Record Reflector := mkReflector {
  name : string;
  expectedType : option string;
  listerWatcher : ListWatch;
  period : Duration;
  resyncPeriod : Duration;
  nextResync : Time;
  lastSyncResourceVersion : string
}.

Definition NewNamedReflector (name : string) (lw : ListWatch) (expectedType : option string)
    (resyncPeriod : Duration) : Reflector :=
  mkReflector name expectedType lw Second resyncPeriod zero_Time "".

Record state (S : Type) := mkState {
  reflector : Reflector;
  store : S;
  timers : Z;
  watches : Z;
  requests : list request
}.
Arguments mkState {S} _ _ _ _ _.
Arguments reflector {S} _.
Arguments store {S} _.
Arguments timers {S} _.
Arguments watches {S} _.
Arguments requests {S} _.

Definition errorResyncRequested : error := Errorf "resync channel fired".
Definition errorStopRequested : error := Errorf "Stop requested".

(** [timeoutForWatch].  The random timeout is an argument: the product of [minWatchTimeout]
    and a number from 1 to 2.  [int64(timeout.Seconds())] drops the fraction of the
    seconds (the floating-point number is exact enough below ten minutes). *)
Definition timeoutForWatch (r : Reflector) (now : Time) (randTimeout : Duration) : Z :=
  let timeout := wrap64 (Sub (nextResync r) now - timeoutThreshold) in
  let timeout :=
    if bool_decide (timeout < 0) || bool_decide (randTimeout < timeout) then randTimeout
    else timeout in
  Z.quot timeout Second.

Definition canForceResyncNow (r : Reflector) (now : Time) : bool :=
  if bool_decide (nextResync r = zero_Time) then false
  else bool_decide (nextResync r < now + forceResyncThreshold).

Section Reflector.
Context {S obj lst : Type} `{!Store S obj, !ApiObject obj lst}.
Local Abbreviation state := (state S).

Definition set_reflector r (s : state) : state :=
  mkState r (store s) (timers s) (watches s) (requests s).
Definition set_store st (s : state) : state :=
  mkState (reflector s) st (timers s) (watches s) (requests s).
Definition set_timers n (s : state) : state :=
  mkState (reflector s) (store s) n (watches s) (requests s).
Definition set_watches n (s : state) : state :=
  mkState (reflector s) (store s) (timers s) n (requests s).
Definition log_request q (s : state) : state :=
  mkState (reflector s) (store s) (timers s) (watches s) (requests s ++ [q]).
Definition set_nextResync t (r : Reflector) : Reflector := mkReflector (name r) (expectedType r)
  (listerWatcher r) (period r) (resyncPeriod r) t (lastSyncResourceVersion r).
Definition set_lastSync v (r : Reflector) : Reflector := mkReflector (name r) (expectedType r)
  (listerWatcher r) (period r) (resyncPeriod r) (nextResync r) v.

Definition on_store {A} (m : M S A) : M state A := zoom store set_store m.

(** The answer comes. *)
Definition await {A} (a : after S A) : M state A :=
  modify (λ s, set_store (meanwhile a (store s)) s) ;; mret (answer a).

(** [ListWatch.List] and [ListWatch.Watch]; a watch that is answered is open. *)
Definition List_ (lw : ListWatch) (options : ListOptions) (ans : request → after S (error + lst))
    : M state (error + lst) :=
  modify (log_request (ListFunc lw options)) ;; await (ans (ListFunc lw options)).

Definition Watch (lw : ListWatch) (options : ListOptions)
    (ans : request → after S (watch_error + list (after S (arrival obj))))
    : M state (watch_error + list (after S (arrival obj))) :=
  modify (log_request (WatchFunc lw options)) ;;
  w ← await (ans (WatchFunc lw options));
  match w with
  | inl err => mret (inl err)
  | inr events => modify (λ s, set_watches (watches s + 1) s) ;; mret (inr events)
  end.

(** [resyncChan]: whether there is a timer that may fire.  [cleanup] stops it. *)
Definition resyncChan (now : Time) : M state bool :=
  r ← gets reflector;
  if bool_decide (resyncPeriod r = 0) then
    modify (λ s, set_reflector (set_nextResync zero_Time (reflector s)) s) ;; mret false
  else
    modify (λ s, set_timers (timers s + 1)
      (set_reflector (set_nextResync (now + resyncPeriod r) (reflector s)) s)) ;;
    mret true.
Definition cleanup (resyncCh : bool) (s : state) : state :=
  if resyncCh then set_timers (timers s - 1) s else s.

Definition syncWith (items : list obj) (resourceVersion : string) : M state (option error) :=
  on_store (Store_Replace items resourceVersion).

Definition LastSyncResourceVersion : M state string :=
  gets (λ s, lastSyncResourceVersion (reflector s)).
Definition setLastSyncResourceVersion (v : string) : M state unit :=
  modify (λ s, set_reflector (set_lastSync v (reflector s)) s).

(** The [switch event.Type] of [watchHandler]; the errors of the store are dropped. *)
Definition store_event (event_Type : EventType) (event_Object : obj) : M S unit :=
  match event_Type with
  | Added => Store_Add event_Object ;; mret tt
  | Modified => Store_Update event_Object ;; mret tt
  | Deleted => Store_Delete event_Object ;; mret tt
  | _ => mret tt
  end.

(** What the loop of [watchHandler] does with an event: an error to return, or the new
    resource version if the event is understood. *)
Definition handle_event (event_Type : EventType) (event_Object : obj)
    : M state (error + option string) :=
  r ← gets reflector;
  if decide (event_Type = Error) then mret (inl (FromObject event_Object))
  else if bool_decide (expectedType r ≠ None) && bool_decide (expectedType r ≠ Some (TypeOf event_Object))
  then mret (inr None)
  else
    match Accessor event_Object with
    | inl err => mret (inr None)
    | inr newResourceVersion =>
        on_store (store_event event_Type event_Object) ;;
        setLastSyncResourceVersion newResourceVersion ;;
        mret (inr (Some newResourceVersion))
    end.

(** The loop of [watchHandler]: the error it returns, or the number of events when the
    channel is closed; with each, [*resourceVersion].  A channel of resyncs without a
    timer never fires. *)
Fixpoint watch_loop (arrivals : list (after S (arrival obj))) (resyncCh : bool)
    (resourceVersion : string) (eventCount : Z) : M state ((error + Z) * string) :=
  match arrivals with
  | [] => λ s, Block s
  | a :: arrivals =>
      case ← await a;
      match case with
      | Stopped => mret (inl errorStopRequested, resourceVersion)
      | ResyncFired =>
          if resyncCh then mret (inl errorResyncRequested, resourceVersion)
          else watch_loop arrivals resyncCh resourceVersion eventCount
      | Closed => mret (inr eventCount, resourceVersion)
      | Event t o =>
          res ← handle_event t o;
          match res with
          | inl err => mret (inl err, resourceVersion)
          | inr None => watch_loop arrivals resyncCh resourceVersion eventCount
          | inr (Some newResourceVersion) =>
              watch_loop arrivals resyncCh newResourceVersion (eventCount + 1)
          end
      end
  end.

Definition watchHandler (w : list (after S (arrival obj))) (resourceVersion : string)
    (resyncCh : bool) (now_start now_end : Time) : M state (option error * string) :=
  deferred (λ s, set_watches (watches s - 1) s) (
    res ← watch_loop w resyncCh resourceVersion 0;
    match res with
    | (inl err, resourceVersion) => mret (Some err, resourceVersion)
    | (inr eventCount, resourceVersion) =>
        let watchDuration := Sub now_end now_start in
        if bool_decide (watchDuration < 1 * Second) && bool_decide (eventCount = 0)
        then mret (Some (Errorf "very short watch"), resourceVersion)
        else mret (None, resourceVersion)
    end).

Definition connection_refused (err : watch_error) : bool :=
  match err with
  | UrlError (OpError (Some errno)) => bool_decide (errno = ECONNREFUSED)
  | _ => false
  end.

(** The loop of [ListAndWatch]. *)
Fixpoint ListAndWatch_loop (resyncCh : bool) (resourceVersion : string) (rs : list (round S obj))
    : M state (option error) :=
  match rs with
  | [] => λ s, Block s
  | rd :: rs =>
      r ← gets reflector;
      let options := mkListOptions resourceVersion
        (Some (timeoutForWatch r (now_timeout rd) (randTimeout rd))) in
      w ← Watch (listerWatcher r) options (watch_answer rd);
      match w with
      | inl err =>
          if connection_refused err then ListAndWatch_loop resyncCh resourceVersion rs
          else mret None
      | inr w =>
          res ← watchHandler w resourceVersion resyncCh (now_start rd) (now_end rd);
          match res with
          | (Some err, _) => mret None
          | (None, resourceVersion) =>
              r ← gets reflector;
              if canForceResyncNow r (now_check rd) then mret None
              else ListAndWatch_loop resyncCh resourceVersion rs
          end
      end
  end.

(** [ListAndWatch] from the answer of the list request on.  The texts of the errors leave
    out the values they format. *)
Definition sync_and_watch (resyncCh : bool) (rs : list (round S obj)) (l : error + lst)
    : M state (option error) :=
  match l with
  | inl err => mret (Some (Errorf "Failed to list"))
  | inr l =>
      match list_Accessor l with
      | inl err => mret (Some (Errorf "Unable to understand list result"))
      | inr resourceVersion =>
          match ExtractList l with
          | inl err => mret (Some (Errorf "Unable to understand list result"))
          | inr items =>
              err ← syncWith items resourceVersion;
              match err with
              | Some err => mret (Some (Errorf "Unable to sync list result"))
              | None =>
                  setLastSyncResourceVersion resourceVersion ;;
                  ListAndWatch_loop resyncCh resourceVersion rs
              end
          end
      end
  end.

Definition ListAndWatch (sc : script S obj lst) : M state (option error) :=
  resyncCh ← resyncChan (now_resync sc);
  deferred (cleanup resyncCh) (
    r ← gets reflector;
    l ← List_ (listerWatcher r) (mkListOptions "0" None) (list_answer sc);
    sync_and_watch resyncCh (rounds sc) l).

(** The loop that [RunUntil] starts in a goroutine; [Run] passes a channel that is never
    closed. *)
Definition RunUntil (stopped : bool) (runs : list (script S obj lst * bool)) : M state unit :=
  Until stopped ((λ r : script S obj lst * bool, (ListAndWatch r.1 ;; mret tt, r.2)) <$> runs).
Definition Run (runs : list (script S obj lst)) : M state unit :=
  RunUntil false ((λ sc, (sc, false)) <$> runs).
End Reflector.
