(* ===== verification/RESTListWatch.v ===== *)
(** The functions that [client/cache/listwatch.go] makes for a reflector, with the REST
    client they call: what a list and a watch send to the API server.

    [Reflector.ListWatch] has the same functions with requests as records; here are the
    URLs of those requests. *)

From Stdlib Require Import Ascii.
From stdpp Require Import gmap strings pretty list.
From S2P Require Import Prelude GoStrings GoTime Strconv GoURL GoURLProps QueryParams FieldSelector ApiErrors URLBackoff TokenBucket.
From S2P Require Import Reflector Request RequestProps.

Local Open Scope Z_scope.

Section ListWatch.
Context {gf : GoFormats} `{!MapOrder} {obj : Type} `{!Codec obj} {W : Type} `{!Outside W}.
Local Abbreviation conn := (conn W).

(** The chain of calls on a new request; [prefix] is the argument of [Prefix], if any. *)
Definition list_request (namespace resource : string) (ps : string + Values) (fieldSelector : option Selector)
    (r : Request) : Request :=
  FieldsSelectorParam fieldSelector (VersionedParams ps (Resource resource (Namespace namespace r))).
Definition watch_request (namespace resource : string) (ps : string + Values) (fieldSelector : option Selector)
    (r : Request) : Request :=
  list_request namespace resource ps fieldSelector (Prefix ["watch"] r).

Definition ListFunc_of (c : RESTClient) (resource namespace : string) (fieldSelector : option Selector)
    (options : ListOptions) : M conn (api_error + obj) :=
  r ← Get c;
  match EncodeParameters (ResourceVersion options) (TimeoutSeconds options) with
  | None => panic "reflect: call of a method on a zero Value"
  | Some ps => res ← Do (list_request namespace resource ps fieldSelector r); mret (Result_Get res)
  end.
Definition WatchFunc_of (c : RESTClient) (resource namespace : string) (fieldSelector : option Selector)
    (options : ListOptions) : M conn (api_error + watch_interface) :=
  r ← Get c;
  match EncodeParameters (ResourceVersion options) (TimeoutSeconds options) with
  | None => panic "reflect: call of a method on a zero Value"
  | Some ps => Watch (watch_request namespace resource ps fieldSelector r)
  end.
End ListWatch.

(** * The path of a request *)

Section Paths.
Context {gf : GoFormats}.

(** A name that is accepted is one segment, or empty. *)
Lemma IsValidPathSegmentName_plain name : IsValidPathSegmentName name = None → plain_segment name.
Proof.
  unfold IsValidPathSegmentName. intros Hv. destruct (decide (name = "")) as [->|Hne]; [by left|]. right.
  destruct (filter (λ illegalName, name = illegalName) NameMayNotBe) eqn:Hb; [|done].
  destruct (filter (λ illegalContent, Contains name illegalContent = true) NameMayNotContain) eqn:Hc; [|done].
  unfold NameMayNotBe, NameMayNotContain in *. rewrite !filter_cons in Hb, Hc. split; [done|..].
  - intros ->. by rewrite decide_True in Hb.
  - intros ->. by rewrite (decide_True (P := ".." = "..")) in Hb.
  - rewrite <-Contains_byte. destruct (Contains name (String slash "")) eqn:Hs; [|done].
    by rewrite (decide_True (P := Contains name "/" = true)) in Hc.
Qed.

(** The segments that the names of a request add to its path. *)
Definition tail_of (r : Request) : list string :=
  (if namespaceSet r && bool_decide (namespace r ≠ "") then ["namespaces"; namespace r] else []) ++
  (if decide (resource r ≠ "") then [ToLower (resource r)] else []) ++
  segments (resourceName r) ++ segments (subresource r) ++ segments (subpath r).

(** The prefix of the path is [segs], and the names are segments. *)
Record path_ok (segs : list string) (r : Request) : Prop := {
  po_prefix : pathPrefix r = path_of segs;
  po_segs : Forall normal segs;
  po_namespace : plain_segment (namespace r);
  po_resource : plain_segment (resource r);
  po_name : plain_segment (resourceName r);
  po_sub : plain_path (subresource r);
  po_path : plain_path (subpath r)
}.

Lemma lower_byte_fixed c d : d = slash ∨ d = "."%char → lower_byte c = d ↔ c = d.
Proof. unfold slash. intros [->| ->]; destruct c as [[] [] [] [] [] [] [] []]; vm_compute; split; congruence. Qed.
Lemma ToLower_slash s : has_byte slash (ToLower s) = has_byte slash s.
Proof.
  induction s as [|c s IH]; [done|]. cbn [ToLower has_byte]. rewrite IH. f_equal. apply bool_decide_ext.
  pose proof (lower_byte_fixed c slash (or_introl eq_refl)) as Hc. naive_solver.
Qed.
Lemma ToLower_normal s : normal s → normal (ToLower s).
Proof.
  intros [Hne Hd Hdd Hs]. assert (∀ c, lower_byte c = "."%char → c = "."%char) as Hdot by (intros c; apply lower_byte_fixed; auto).
  destruct s as [|c [|d [|e s]]]; [done|..]; split; cbn [ToLower]; try done;
    try (intros [= E]; rewrite ?(Hdot _ E) in *; done); try (rewrite <-ToLower_slash in Hs; exact Hs).
  intros [= E1 E2]. by rewrite (Hdot _ E1), (Hdot _ E2) in Hdd.
Qed.

Lemma segments_plain s : plain_segment s → segments s = if decide (s ≠ "") then [s] else [].
Proof.
  intros [->|Hs]; [by rewrite decide_False by tauto|]. rewrite decide_True by apply Hs. by apply segments_normal.
Qed.

Lemma bind_segments names :
  Forall plain_segment names → names ≫= segments = filter (λ s, s ≠ "") names.
Proof.
  induction 1 as [|s names Hs Hn IH]; [done|]. rewrite bind_cons, IH, (segments_plain s) by done.
  rewrite filter_cons. by destruct (decide (s ≠ "")).
Qed.
(** Adding a list of names to a path. *)
Lemma Join_names segs names :
  Forall normal segs → Forall plain_segment names →
  Join (path_of segs :: names) = path_of (segs ++ filter (λ s, s ≠ "") names) ∧
  Forall normal (segs ++ filter (λ s, s ≠ "") names).
Proof.
  intros Hsegs Hn. rewrite <-bind_segments by done. split.
  - apply Join_path; [done|]. eapply Forall_impl; [done|]. apply plain_segment_plain.
  - apply Forall_app. split; [done|]. induction Hn as [|s names Hs Hn IH]; [constructor|].
    rewrite bind_cons. apply Forall_app. split; [|done]. by apply plain_segments, plain_segment_plain.
Qed.

Lemma namespaces_normal : normal "namespaces". Proof. done. Qed.

(** The path of the URL is the prefix and those segments. *)
Lemma URL_path segs r : path_ok segs r →
  Path (URL_of r) = path_of (segs ++ tail_of r) ∧ Forall normal (segs ++ tail_of r).
Proof.
  intros [Hp Hsegs Hns Hres Hn Hs Hsub]. unfold tail_of.
  assert (Path (URL_of r) =
    let p1 := if namespaceSet r && bool_decide (namespace r ≠ "") then Join [path_of segs; "namespaces"; namespace r] else path_of segs in
    let p2 := if decide (resource r ≠ "") then Join [p1; ToLower (resource r)] else p1 in
    if decide (resourceName r ≠ "" ∨ subpath r ≠ "" ∨ subresource r ≠ "")
    then Join [p2; resourceName r; subresource r; subpath r] else p2) as ->.
  { unfold URL_of. rewrite Hp. by destruct (baseURL r). }
  set (t1 := if namespaceSet r && bool_decide (namespace r ≠ "") then ["namespaces"; namespace r] else []).
  assert ((if namespaceSet r && bool_decide (namespace r ≠ "") then Join [path_of segs; "namespaces"; namespace r] else path_of segs)
    = path_of (segs ++ t1) ∧ Forall normal (segs ++ t1)) as [-> H1].
  { unfold t1. destruct (namespaceSet r && bool_decide (namespace r ≠ "")) eqn:E; [|by rewrite app_nil_r].
    apply andb_true_iff in E as [_ E%bool_decide_eq_true].
    pose proof (Join_names segs ["namespaces"; namespace r] Hsegs) as HJ.
    rewrite !filter_cons_True, filter_nil in HJ by done. apply HJ.
    apply Forall_cons. split; [by right|by apply Forall_singleton]. }
  clearbody t1. rewrite app_assoc. revert H1. generalize (segs ++ t1). intros segs1 H1.
  set (t2 := if decide (resource r ≠ "") then [ToLower (resource r)] else []).
  assert ((if decide (resource r ≠ "") then Join [path_of segs1; ToLower (resource r)] else path_of segs1)
    = path_of (segs1 ++ t2) ∧ Forall normal (segs1 ++ t2)) as [E2 H2].
  { unfold t2. destruct (decide (resource r ≠ "")) as [E|E]; [|by rewrite app_nil_r].
    assert (normal (ToLower (resource r))) as Hl by (destruct Hres; [done|by apply ToLower_normal]).
    pose proof (Join_names segs1 [ToLower (resource r)] H1) as HJ.
    rewrite filter_cons_True, filter_nil in HJ by apply Hl. apply HJ, Forall_singleton. by right. }
  cbv zeta. rewrite E2, app_assoc. clearbody t2. clear E2. revert H2. generalize (segs1 ++ t2). intros segs2 H2. split.
  - destruct (decide _) as [E|E].
    + rewrite Join_path; [|done|]; [rewrite !bind_cons; unfold mbind, list_bind; by rewrite app_nil_r|].
      rewrite !Forall_cons. split_and!; [by apply plain_segment_plain|done|done|constructor].
    + assert (resourceName r = "" ∧ subresource r = "" ∧ subpath r = "") as (-> & -> & ->).
      { split_and!; apply dec_stable; tauto. }
      by rewrite app_nil_r.
  - repeat (apply Forall_app; split); [done|by apply plain_segments, plain_segment_plain|by apply plain_segments..].
Qed.

(** ** Building a request keeps its path in order *)

Lemma path_ok_params segs v r : path_ok segs r → path_ok segs (set_params v r).
Proof. by intros []. Qed.
Lemma path_ok_err segs e r : path_ok segs r → path_ok segs (set_err e r).
Proof. by intros []. Qed.
Lemma path_ok_setParam segs k v r : path_ok segs r → path_ok segs (setParam k v r).
Proof. intros Hr. unfold setParam. case_decide; [by apply path_ok_err|by apply path_ok_params]. Qed.
Lemma path_ok_versioned segs l r : path_ok segs r → path_ok segs (versioned_params l r).
Proof.
  revert r. induction l as [|[k v] l IH]; intros r Hr; [done|]. cbn [versioned_params].
  assert (match versioned_param k v r with inl r => path_ok segs r | inr r => path_ok segs r end) as Hp.
  { unfold versioned_param. repeat case_match; simplify_eq; eauto using path_ok_setParam, path_ok_err. }
  destruct (versioned_param k v r); [done|by apply IH].
Qed.

Lemma first_invalid_plain names : first_invalid names = None → Forall plain_segment names.
Proof.
  induction names as [|s names IH]; [constructor|]. cbn [first_invalid].
  destruct (IsValidPathSegmentName s) eqn:E; [done|]. intros H. constructor; [by apply IsValidPathSegmentName_plain|by apply IH].
Qed.
Lemma Join_plain names : Forall plain_segment names → plain_path (Join names).
Proof.
  intros Hn. rewrite Join_segments by done.
  assert (Forall normal (filter (λ seg, seg ≠ "") names)) as Hf.
  { induction Hn as [|s names [->|Hs] Hn IH]; [constructor|done|]. rewrite filter_cons_True by apply Hs. by constructor. }
  destruct (filter _ names) as [|s l]; [by apply plain_segment_plain; left|].
  unfold plain_path. rewrite (Split_join slash); [|by apply normal_no_slash|done].
  eapply Forall_impl; [done|]. by right.
Qed.

(** The calls that set names and parameters; the others take paths. *)
Definition named (call : builder_call) : bool :=
  match call with BPrefix _ | BSuffix _ | BAbsPath _ | BRequestURI _ => false | _ => true end.

Lemma path_ok_build `{!MapOrder} segs call r r' :
  path_ok segs r → named call = true → build call r = Some r' → path_ok segs r'.
Proof.
  intros Hr Hn. pose proof Hr as [Hp Hsegs Hns Hres Hname Hsub Hpath].
  destruct call as [| |name|names|name|name scoped| | |sel|k u|k v|ps|d]; try done; intros [= <-].
  - unfold Resource. destruct (err r); [done|]. case_decide; [by apply path_ok_err|].
    destruct (IsValidPathSegmentName name) eqn:E; [by apply path_ok_err|]. split; try done; by apply IsValidPathSegmentName_plain.
  - unfold SubResource. destruct (err r); [done|]. case_decide; [by apply path_ok_err|].
    destruct (first_invalid names) as [[s msg]|] eqn:E; [by apply path_ok_err|].
    split; try done. by apply Join_plain, first_invalid_plain.
  - unfold Name. destruct (err r); [done|]. case_decide; [by apply path_ok_err|]. case_decide; [by apply path_ok_err|].
    destruct (IsValidPathSegmentName name) eqn:E; [by apply path_ok_err|]. split; try done; by apply IsValidPathSegmentName_plain.
  - unfold NamespaceIfScoped, Namespace. destruct scoped; [|done]. destruct (err r); [done|].
    destruct (namespaceSet r); [by apply path_ok_err|].
    destruct (IsValidPathSegmentName name) eqn:E; [by apply path_ok_err|]. split; try done; by apply IsValidPathSegmentName_plain.
  - unfold FieldsSelectorParam. destruct (err r), sel as [sel|]; try done. destruct (Empty sel); [done|].
    destruct (Transform _ _); [by apply path_ok_err|by apply path_ok_setParam].
  - unfold UintParam. destruct (err r); [done|by apply path_ok_setParam].
  - unfold Param. destruct (err r); [done|by apply path_ok_setParam].
  - unfold VersionedParams. destruct (err r); [done|]. destruct ps; [by apply path_ok_err|by apply path_ok_versioned].
  - unfold Timeout. by destruct (err r).
Qed.
Lemma path_ok_build_all `{!MapOrder} segs calls r r' :
  path_ok segs r → Forall (λ call, named call = true) calls → build_all calls r = Some r' → path_ok segs r'.
Proof.
  intros Hr Hc. revert r Hr. induction Hc as [|call calls Hcall Hc IH]; intros r Hr; [by intros [= <-]|].
  cbn [build_all]. intros (r1 & H1 & H2)%bind_Some. by eapply IH, H2; eapply path_ok_build.
Qed.

(** A new request, for a base URL whose path has no need of cleaning. *)
Lemma NewRequest_path_ok client v u api content :
  plain_path (Path u) → plain_path api →
  path_ok (segments (Path u) ++ segments api) (NewRequest client v (Some u) api content).
Proof.
  intros Hu Hapi.
  assert (Join [Join ["/"; Path u]; api] = path_of (segments (Path u) ++ segments api)) as HJ.
  { change "/" with (path_of []). rewrite (Join_path [] [Path u]) by (by repeat constructor). cbn [mbind list_bind app].
    rewrite app_nil_r, Join_path; [cbn [mbind list_bind app]; by rewrite app_nil_r|by apply plain_segments|by constructor]. }
  assert (path_ok (segments (Path u) ++ segments api)
    (mkRequest client v (Some u) content (Join [Join ["/"; Path u]; api]) "" ∅ ∅ "" false "" "" "" 0 None)) as Hr.
  { split; cbn; [exact HJ|by apply Forall_app; split; apply plain_segments|by left..| |]; by apply plain_segment_plain; left. }
  unfold NewRequest. case_decide; [exact Hr|]. by destruct Hr.
Qed.
End Paths.

(** * What a list and a watch ask for *)

Section Asked.
Context {gf : GoFormats} `{!MapOrder}.

Lemma versioned_params_ordinary l r :
  Forall (λ p, p.1 ≠ "labelSelector" ∧ p.1 ≠ "fieldSelector" ∧ p.1 ≠ "timeout") l →
  versioned_params l r = set_params (foldl (λ v p, Values_Add p.1 p.2 v) (params r) l) r.
Proof.
  intros Hl. revert r. induction Hl as [|[k v] l (H1 & H2 & H3) Hl IH]; intros r; [by destruct r|].
  cbn [versioned_params]. cbn [fst] in *. unfold versioned_param, LabelSelectorQueryParam, FieldSelectorQueryParam, setParam.
  rewrite decide_False by tauto. rewrite decide_False by done. rewrite decide_False by set_solver.
  by rewrite IH.
Qed.

Lemma VersionedParams_list rv ts r :
  err r = None → params r = ∅ → VersionedParams (inr (list_params rv ts)) r = set_params (list_params rv ts) r.
Proof.
  intros He Hp. unfold VersionedParams. rewrite He. set (v := list_params rv ts).
  assert (∀ k vs, v !! k = Some vs → (k = "resourceVersion" ∨ k = "timeoutSeconds") ∧ vs ≠ []) as Hv
    by apply list_params_keys.
  rewrite versioned_params_ordinary.
  - f_equal. rewrite Hp. apply add_pairs_all.
    + intros k Hk. by apply Hv in Hk as [_ ?].
    + intros k. destruct (keys_perm v (map_range v) k (map_range_perm v)) as [Hnd Hin]. by apply at_key_range.
  - apply Forall_forall. intros [k x] Hkx. cbn.
    apply list_elem_of_bind in Hkx as (k' & Hx & Hk'). apply list_elem_of_fmap in Hx as (y & [= -> ->] & Hy).
    destruct (v !! k') as [vs|] eqn:E; [|inversion Hy]. apply Hv in E as [[->| ->] _]; done.
Qed.

(** The request of a list is the new request with its names and parameters. *)
Lemma list_request_fields ns res rv ts r :
  err r = None → params r = ∅ → namespaceSet r = false → resource r = "" →
  IsValidPathSegmentName ns = None → IsValidPathSegmentName res = None →
  list_request ns res (inr (list_params rv ts)) (Some Everything) r =
  set_params (list_params rv ts) (set_resource res (set_namespace ns r)).
Proof.
  intros He Hp Hns Hres Hvn Hvr. unfold list_request, Namespace. rewrite He, Hns, Hvn.
  unfold Resource. cbn [err resource set_namespace]. rewrite He, Hres, decide_False, Hvr by tauto.
  rewrite VersionedParams_list by done. unfold FieldsSelectorParam. cbn. by rewrite He.
Qed.
End Asked.

(** ** Properties *)

(** What the API server reads from the query of a list or watch. *)
Definition read_options {gf : GoFormats} (v : Values) : string * option Z :=
  (default "" (v !! "resourceVersion" ≫= head),
   (λ s, (ParseInt s 10).1) <$> (v !! "timeoutSeconds" ≫= head)).

(** The URL of a list ([prefix] empty) or watch (["watch"]). *)
Definition asked_url (rc : RESTClient) (prefix : list string) (ns res rv : string) (ts : option Z) : URL :=
  set_RawQuery (Encode (list_params rv ts))
    (set_Path (path_of (segments (Path (base rc)) ++ segments (versionedAPIPath rc) ++ prefix ++
                        (if decide (ns = "") then [] else ["namespaces"; ns]) ++ [ToLower res])) (base rc)).

(** A client whose URL is sound and whose paths have no need of cleaning, and names that are accepted of a
    namespace, which may be empty for all of them, and of a resource. *)
Record asks {gf : GoFormats} (rc : RESTClient) (ns res : string) : Prop := {
  as_sound : sound_URL (base rc);
  as_base : plain_path (Path (base rc));
  as_api : plain_path (versionedAPIPath rc);
  as_ns : IsValidPathSegmentName ns = None;
  as_res : IsValidPathSegmentName res = None;
  as_ne : res ≠ ""
}.

Section Theorems.
Context {gf : GoFormats} `{!MapOrder} {obj : Type} `{!Codec obj} {W : Type} `{!Outside W}.
Local Abbreviation conn := (conn (W * list event)).

Lemma URL_of_base r u :
  baseURL r = Some u → timeout r = 0 →
  URL_of r = set_RawQuery (Encode (params r)) (set_Path (Path (URL_of r)) u).
Proof. intros Hu Ht. unfold URL_of. by rewrite Hu, Ht. Qed.

(** The request of a list and of a watch, which differ in the prefix. *)
Lemma asked_request rc ns res rv ts prefix r0 :
  asks rc ns res →
  (prefix = [] ∧ r0 = NewRequest (Client rc) "GET" (Some (base rc)) (versionedAPIPath rc) (contentConfig rc) ∨
   prefix = ["watch"] ∧
     r0 = Prefix ["watch"] (NewRequest (Client rc) "GET" (Some (base rc)) (versionedAPIPath rc) (contentConfig rc))) →
  let r := list_request ns res (inr (list_params rv ts)) (Some Everything) r0 in
  err r = None ∧ verb r = "GET" ∧ baseURL r = Some (base rc) ∧ URL_of r = asked_url rc prefix ns res rv ts.
Proof.
  intros [_ Hbase Hapi Hns Hres Hne] Hr0 r.
  pose proof (NewRequest_path_ok (Client rc) "GET" (base rc) (versionedAPIPath rc) (contentConfig rc) Hbase Hapi) as Hok.
  set (r1 := NewRequest _ _ _ _ _) in *.
  assert (err r1 = None ∧ params r1 = ∅ ∧ namespaceSet r1 = false ∧ resource r1 = "" ∧ resourceName r1 = "" ∧
    subresource r1 = "" ∧ subpath r1 = "" ∧ timeout r1 = 0 ∧ verb r1 = "GET" ∧ baseURL r1 = Some (base rc)) as
    (He & Hp & Hns1 & Hres1 & Hname & Hsub & Hpath & Ht & Hv & Hu).
  { unfold r1, NewRequest. by case_decide. }
  set (segs := segments (Path (base rc)) ++ segments (versionedAPIPath rc)) in *.
  assert (path_ok (segs ++ prefix) r0 ∧ ∃ p, r0 = set_pathPrefix p r1) as [Hok0 [p ->]].
  { destruct Hr0 as [[-> ->]|[-> ->]]; [rewrite app_nil_r; split; [done|by exists (pathPrefix r1); destruct r1]|].
    unfold Prefix. rewrite He. split; [|by eexists]. destruct Hok as [Hp0 Hsegs Hns0 Hres0 Hname0 Hsub0 Hpath0].
    assert (normal "watch") as Hw by done.
    destruct (Join_names segs ["watch"]) as [HJ HJ2]; [done|by apply Forall_singleton; right|].
    rewrite filter_cons_True, filter_nil in HJ, HJ2 by done.
    split; cbn; [rewrite Hp0; exact HJ|done..]. }
  assert (r = set_params (list_params rv ts) (set_resource res (set_namespace ns (set_pathPrefix p r1)))) as Er
    by by apply list_request_fields.
  assert (path_ok (segs ++ prefix) r) as Hokr.
  { rewrite Er. destruct Hok0 as [Hp0 Hsegs Hns0 Hres0 Hname0 Hsub0 Hpath0].
    split; try done; cbn; by apply IsValidPathSegmentName_plain. }
  destruct (URL_path _ _ Hokr) as [HP _]. rewrite Er in HP |- *. clearbody r. clear Er Hokr r.
  split_and!; [done|done|done|].
  assert (tail_of (set_params (list_params rv ts) (set_resource res (set_namespace ns (set_pathPrefix p r1)))) =
    (if decide (ns = "") then [] else ["namespaces"; ns]) ++ [ToLower res]) as Htail.
  { unfold tail_of. cbn. rewrite Hname, Hsub, Hpath, decide_True by done. cbn.
    f_equal. case_bool_decide; by case_decide. }
  unfold segs in HP. rewrite Htail, <-!app_assoc in HP. rewrite (URL_of_base _ (base rc)) by done. unfold asked_url. by rewrite HP.
Qed.

(** Their URLs can be read. *)
Lemma Encode_no_hash v : has_byte "#" (Encode v) = false.
Proof.
  unfold Encode. assert (∀ s, has_byte "#" (QueryEscape s) = false) as HE by (intros s; by apply escape_no_byte).
  assert (∀ p, has_byte "#" (encode_pair p) = false) as Hp by (intros p; unfold encode_pair; by rewrite !has_byte_append, !HE).
  generalize (pairs v). intros l. induction l as [|p l IH]; [done|]. destruct l as [|q l]; [apply Hp|].
  change (join "&" (encode_pair <$> p :: q :: l)) with (encode_pair p +:+ "&" +:+ join "&" (encode_pair <$> q :: l)).
  by rewrite !has_byte_append, Hp, IH.
Qed.
Lemma asked_sound rc prefix ns res rv ts : asks rc ns res → sound_URL (asked_url rc prefix ns res rv ts).
Proof.
  intros [[Hs Hl Ho Hh Hb Hp Hr Hq] _ _ _ _ _]. unfold asked_url, path_of. split; cbn; try done; [|apply Encode_no_hash].
  right. by destruct (join _ _).
Qed.

(** The query tells the options, but for a timeout of zero. *)
Lemma asked_options rv ts :
  rv ≠ "<nil>" → (∀ z, ts = Some z → is_int64 z) →
  ParseQuery (Encode (list_params rv ts)) = list_params rv ts ∧
  read_options (list_params rv ts) = (rv, if decide (ts = Some 0) then None else ts).
Proof.
  intros Hrv Hts. split.
  { apply ParseQuery_Encode. intros k Hk. by apply list_params_keys in Hk as [_ ?]. }
  assert (list_params rv ts !! "resourceVersion" = option_param "resourceVersion" rv !! "resourceVersion") as E1.
  { unfold list_params. apply lookup_union_r. destruct ts; [case_decide|]; [done|by rewrite lookup_singleton_ne|done]. }
  assert (list_params rv ts !! "timeoutSeconds" = match ts with Some z => if decide (z = 0) then None else Some [pretty z] | None => None end) as E2.
  { unfold list_params. rewrite lookup_union_l.
    - destruct ts; [case_decide|]; [done|by rewrite lookup_singleton_eq|done].
    - unfold option_param. case_decide; [done|]. by rewrite lookup_singleton_ne. }
  unfold read_options. rewrite E1, E2. f_equal.
  - unfold option_param. destruct (decide (rv = "")) as [->|]; [done|]. rewrite lookup_singleton_eq. by rewrite decide_False.
  - destruct ts as [z|]; [|done]. destruct (decide (z = 0)) as [->|Hz]; [done|]. rewrite decide_False by congruence.
    cbn. unfold ParseInt. rewrite parse_int_pretty; [done|by right|by apply Hts].
Qed.

Lemma asked_requests good `{!Responsive W good} (rc : RESTClient) (ns res : string) (options : ListOptions)
    (c : conn) :
  let rv := ResourceVersion options in
  let ts := TimeoutSeconds options in
  let get prefix := URL_String (asked_url rc prefix ns res rv ts) in
  asks rc ns res → rv ≠ "<nil>" → (∀ z, ts = Some z → is_int64 z) →
  read_options (ParseQuery (RawQuery (asked_url rc [] ns res rv ts))) = (rv, if decide (ts = Some 0) then None else ts) ∧
  returns (ListFunc_of (obj := obj) rc res ns (Some Everything) options) c (λ _ c', ∃ evs,
    log c' = log c ++ evs ∧ (length (sent evs) <= 10)%nat ∧
    Forall (λ s, Method s.1.2 = "GET" ∧ URL_ s.1.2 = get []) (sent evs)) ∧
  returns (WatchFunc_of (obj := obj) rc res ns (Some Everything) options) c (λ _ c', ∃ evs s,
    log c' = log c ++ evs ∧ sent evs = [s] ∧ s.1.2 = mkHttpRequest "GET" (get ["watch"]) ∅).
Proof.
  destruct options as [rv ts]. cbn zeta. cbn [ResourceVersion TimeoutSeconds]. intros Hasks Hrv Hts. split_and!.
  - destruct (asked_options rv ts Hrv Hts) as [HQ HO]. unfold asked_url. cbn [RawQuery set_RawQuery]. by rewrite HQ.
  - unfold ListFunc_of, Get. cbn [ResourceVersion TimeoutSeconds]. apply post_bind. eapply post_weaken; [apply Verb_returns| |done].
    intros r c1 (-> & Hwf & _ & Hl & _). rewrite EncodeParameters_list_params. apply post_bind.
    destruct (asked_request rc ns res rv ts [] _ Hasks (or_introl (conj eq_refl eq_refl))) as (He & Hv & Hb & HU).
    eapply post_weaken; [by apply Do_refines| |done].
    intros result c2 (wait & evs & Hw & Hl2 & _ & _ & Hres). apply post_ret. exists (wait ++ evs).
    rewrite sent_app, (throttled_sent _ _ _ Hw), Hl2, Hl. split; [done|]. cbn [app].
    destruct (early_error _); [destruct Hres as (-> & _); split; [cbn; lia|constructor]|].
    destruct Hres as (h & ans & _ & Ha & _). destruct (attempts_sent _ _ _ _ _ _ _ _ Ha) as (waits & -> & _ & Hn & _).
    split; [rewrite length_app, length_fmap; cbn; lia|].
    apply Forall_app. split; [apply Forall_fmap, Forall_forall; intros w _|apply Forall_singleton]; exact (conj Hv (f_equal URL_String HU)).
  - unfold WatchFunc_of, Get. cbn [ResourceVersion TimeoutSeconds]. apply post_bind. eapply post_weaken; [apply Verb_returns| |done].
    intros r c1 (-> & Hwf & _ & Hl & _). rewrite EncodeParameters_list_params. unfold watch_request.
    destruct (asked_request rc ns res rv ts ["watch"] _ Hasks (or_intror (conj eq_refl eq_refl))) as (He & Hv & Hb & HU).
    eapply post_weaken; [apply (Watch_returns _ (base rc) (asked_url rc ["watch"] ns res rv ts) (base rc)); try done;
      rewrite ?HU; apply Parse_String; [by apply asked_sound|apply Hasks]| |done].
    intros result c2 (ans & _ & _ & Hl2 & _). eexists _, _. rewrite Hl2, Hl. split; [done|].
    rewrite sent_app, sent_pause. split; [done|]. cbn [fst snd]. f_equal; [exact Hv|exact (f_equal URL_String HU)].
Qed.

(** C18: names cannot leave their place in the path: whatever is passed for a namespace, a
    resource, a name or subresources, a request that is built is for the prefix of the
    client followed by these names, in order and each a segment of its own. *)
Theorem names_stay_in_path client v (u : URL) (api : string) (content : ContentConfig) (calls : list builder_call) (r : Request) :
  plain_path (Path u) → plain_path api → Forall (λ call, named call = true) calls →
  build_all calls (NewRequest client v (Some u) api content) = Some r →
  let segs := segments (Path u) ++ segments api in
  Path (URL_of r) = path_of (segs ++ tail_of r) ∧ segments (Path (URL_of r)) = segs ++ tail_of r ∧
  Forall normal (tail_of r).
Proof.
  intros Hu Hapi Hc Hr segs. pose proof (NewRequest_path_ok client v u api content Hu Hapi) as Hok.
  destruct (URL_path _ _ (path_ok_build_all _ _ _ _ Hok Hc Hr)) as [HP Hn]. fold segs in HP, Hn. rewrite HP.
  split_and!; [done|by apply segments_path_of|by apply Forall_app in Hn as [_ ?]].
Qed.

(** C17: what the functions of a reflector's [ListWatch] send: a list is one request up to
    ten times, a watch is sent once; the path has the namespace and the resource, and the
    server reads the options back from the query.  A timeout of zero is not sent. *)
Theorem reflector_requests good `{!Responsive W good} (rc : RESTClient) (ns res : string) (options : ListOptions)
    (c : conn) :
  let rv := ResourceVersion options in
  let ts := TimeoutSeconds options in
  let get prefix := URL_String (asked_url rc prefix ns res rv ts) in
  asks rc ns res → rv ≠ "<nil>" → (∀ z, ts = Some z → is_int64 z) →
  read_options (ParseQuery (RawQuery (asked_url rc [] ns res rv ts))) = (rv, if decide (ts = Some 0) then None else ts) ∧
  returns (ListFunc_of (obj := obj) rc res ns (Some Everything) options) c (λ _ c', ∃ evs,
    log c' = log c ++ evs ∧ (length (sent evs) <= 10)%nat ∧
    Forall (λ s, Method s.1.2 = "GET" ∧ URL_ s.1.2 = get []) (sent evs)) ∧
  returns (WatchFunc_of (obj := obj) rc res ns (Some Everything) options) c (λ _ c', ∃ evs s,
    log c' = log c ++ evs ∧ sent evs = [s] ∧ s.1.2 = mkHttpRequest "GET" (get ["watch"]) ∅).
Proof. exact (asked_requests good rc ns res options c). Qed.

(** The watch requests between one and two seconds before a resync have a timeout of
    zero, which is dropped from the query: they ask for a watch without a timeout. *)
Theorem short_watch_has_no_timeout (rc : RESTClient) (ns res rv : string) (r : Reflector) (now : Time) (rt : Duration) :
  Second <= Sub (nextResync r) now < 2 * Second → Second <= rt →
  timeoutForWatch r now rt = 0 ∧
  asked_url rc ["watch"] ns res rv (Some (timeoutForWatch r now rt)) = asked_url rc ["watch"] ns res rv None.
Proof.
  unfold timeoutForWatch, timeoutThreshold, Second. intros Hs Hr.
  assert (wrap64 (Sub (nextResync r) now - 1 * 1000000000) = Sub (nextResync r) now - 1000000000) as ->.
  { unfold wrap64. rewrite Z.mod_small; lia. }
  rewrite (bool_decide_eq_false_2 (Sub (nextResync r) now - 1000000000 < 0)) by lia.
  rewrite (bool_decide_eq_false_2 (rt < _)) by lia. cbn [orb]. rewrite Z.quot_small by lia. done.
Qed.
End Theorems.

(** * Witnesses *)
Section Witnesses.
#[local] Existing Instances plain_formats order_up no_codec busy_world busy_responds.

Lemma plain_path_master : plain_path "/" ∧ plain_path "/api/v1".
Proof. split; repeat (apply Forall_cons; split; [by (left + right)|]); constructor. Qed.
Lemma asks_services : asks master "" "services".
Proof. split; [|apply plain_path_master..|done|done|done]. split; try done. by right. Qed.

Definition log_calls : list builder_call :=
  [BNamespace "default" true; BResource "Pods"; BName "web"; BSubResource ["log"]].
Lemma names_stay_in_path_witness (u := mkURL "http" "" None "master:8080" "/" "" "" "") :
  ∃ r, build_all log_calls (NewRequest true "GET" (Some u) "/api/v1" (mkContentConfig "" (mkGroupVersion "" "v1"))) = Some r ∧
    Path (URL_of r) = "/api/v1/namespaces/default/pods/web/log".
Proof.
  destruct (build_all _ _) as [r|] eqn:E; [|vm_compute in E; discriminate]. exists r. split; [done|].
  destruct (names_stay_in_path true "GET" u "/api/v1" _ log_calls r (proj1 plain_path_master) (proj2 plain_path_master)
    ltac:(repeat constructor) E) as (HP & _). rewrite HP.
  vm_compute in E. injection E as <-. vm_compute. reflexivity.
Defined.
Definition services_watch : URL := asked_url master ["watch"] "" "services" "17" (Some 400).
Example services_watch_text : URL_String services_watch =
  "http://master:8080/api/v1/watch/services?resourceVersion=17&timeoutSeconds=400".
Proof. vm_compute. reflexivity. Qed.
Lemma reflector_requests_witness :
  read_options (ParseQuery (RawQuery services_watch)) = ("17", Some 400) ∧
  returns (WatchFunc_of (obj := string) master "services" "" (Some Everything) (mkListOptions "17" (Some 400))) start
    (λ _ c', ∃ evs s, log c' = log start ++ evs ∧ sent evs = [s] ∧ s.1.2 = mkHttpRequest "GET" (URL_String services_watch) ∅).
Proof.
  destruct (reflector_requests (obj := string) wants_retry master "" "services" (mkListOptions "17" (Some 400))
    start asks_services) as (HO & _ & HW); [done|by intros z [= <-]|].
  exact (conj HO HW).
Defined.
Lemma short_watch_has_no_timeout_witness 
    (r := set_nextResync (100 * Second) (NewNamedReflector "r" (NewListWatchFromClient "services" "" "") None 0)) :
  timeoutForWatch r (98 * Second + 500) (5 * Minute) = 0.
Proof. apply (short_watch_has_no_timeout master "" "services" "17" r); vm_compute; done. Defined.
End Witnesses.
