(* ===== verification/ReflectorProps.v ===== *)
(** What a reflector does for its store: the store follows the objects of the API server.

    The server is a function [at_] from resource versions to the objects at that
    version.  [honest] scripts answer requests according to it: a list has the objects
    of its version, and the events of a watch lead from the version asked for to the
    version of each event.  A store [mirrors] the server through a relation [R] if the
    methods keep it; three stores do: the plain store (here), the event queue with its
    consumer (here), and the queue inside the controller ([Reflection]). *)

From stdpp Require Import gmap strings list relations.
From S2P Require Import Prelude GoTime Wait Types KStore EventQueue EventQueueFacts EventQueueSpec.
From S2P Require Import Reflector.

Local Open Scope Z_scope.

(** A [ListWatch] passes the options on. *)
Definition passes_options (lw : ListWatch) : Prop := ∀ options,
  req_options (ListFunc lw options) = options ∧ req_options (WatchFunc lw options) = options.

Lemma passes_NewListWatchFromClient resource ns f : passes_options (NewListWatchFromClient resource ns f).
Proof. done. Qed.
(** ** A store that mirrors the server *)
Section Mirror.
Context {S obj lst : Type} `{!Store S obj, !ApiObject obj lst} (keyFn : obj → error + string).
(** How the store stands to the objects it has been told of, and the objects the server
    may have. *)
Variables (R : S → gmap string obj → Prop) (good : obj → Prop).
Implicit Types (s : state S) (src : gmap string obj) (o : obj) (rv : string).

(** A method that panics leaves the store with what it knew. *)
Class Mirrors := {
  mirrors_event st src o t src' :
    R st src → good o → announce keyFn src o t src' →
    post (store_event t o) st (λ _ st', R st' src') (λ st', R st' src);
  mirrors_replace st src os rv :
    R st src → Forall good os → first_key_error keyFn os = None → NoDup (keys_of keyFn os) →
    post (Store_Replace os rv) st
      (λ err st', match err with None => R st' (keyed_map keyFn os) | Some _ => R st' src end) (λ st', R st' src)
}.

(** ** An honest server *)
Variables (at_ : string → gmap string obj) (expected : option string).

(** What the code takes for an event it understands. *)
Definition understood o : option string :=
  if bool_decide (expected ≠ None) && bool_decide (expected ≠ Some (TypeOf o)) then None
  else match Accessor o with inl _ => None | inr rv => Some rv end.

(** Other threads leave alone what the store knows of the server. *)
Definition harmless (f : S → S) : Prop := ∀ st src, R st src → R (f st) src.

(** The events of a watch from [rv]. *)
Fixpoint honest_events rv (arrivals : list (after S (arrival obj))) : Prop :=
  match arrivals with
  | [] => True
  | a :: arrivals =>
      harmless (meanwhile a) ∧
      match answer a with
      | Event t o =>
          match understood o with
          | Some rv' =>
              if decide (t = Error) then True
              else ((is_event t ∧ good o ∧ announce keyFn (at_ rv) o t (at_ rv')) ∨ (t = NoEvent ∧ at_ rv' = at_ rv)) ∧
                   honest_events rv' arrivals
          | None => honest_events rv arrivals
          end
      | _ => honest_events rv arrivals
      end
  end.

Definition honest_round (rd : round S obj) : Prop := ∀ q,
  harmless (meanwhile (watch_answer rd q)) ∧
  match answer (watch_answer rd q) with
  | inl _ => True
  | inr arrivals => honest_events (ResourceVersion (req_options q)) arrivals
  end.

Definition honest_list (l : lst) : Prop := ∀ rv items,
  list_Accessor l = inr rv → ExtractList l = inr items →
  Forall good items ∧ first_key_error keyFn items = None ∧ NoDup (keys_of keyFn items) ∧
  keyed_map keyFn items = at_ rv.

Definition honest (sc : script S obj lst) : Prop :=
  (∀ q, harmless (meanwhile (list_answer sc q)) ∧
        match answer (list_answer sc q) with inl _ => True | inr l => honest_list l end) ∧
  Forall honest_round (rounds sc).

(** ** The invariant *)

(** The store is at the version [rv], the one the reflector says it last synced with. *)
Record synced rv s : Prop := {
  sy_store : R (store s) (at_ rv);
  sy_version : lastSyncResourceVersion (reflector s) = rv;
  sy_type : expectedType (reflector s) = expected;
  sy_lw : passes_options (listerWatcher (reflector s))
}.
Definition in_sync s : Prop := ∃ rv, synced rv s.

Context `{!Mirrors}.

Lemma await_synced {A} (a : after S A) rv s :
  harmless (meanwhile a) → synced rv s → post (await a) s (λ x s', x = answer a ∧ synced rv s') in_sync.
Proof. intros Hh []. split; [done|]. split; cbn; auto. Qed.

Lemma on_store_post {A} (m : M S A) s Q P :
  post m (store s) (λ a st, Q a (set_store st s)) (λ st, P (set_store st s)) → post (on_store m) s Q P.
Proof. unfold post, on_store, zoom. by destruct (m (store s)). Qed.

Lemma handle_event_synced t o rv s :
  synced rv s →
  match understood o with
  | Some rv' => if decide (t = Error) then True else
      (is_event t ∧ good o ∧ announce keyFn (at_ rv) o t (at_ rv')) ∨ (t = NoEvent ∧ at_ rv' = at_ rv)
  | None => True
  end →
  post (handle_event t o) s
    (λ res s', match res with
     | inl _ => synced rv s'
     | inr None => understood o = None ∧ synced rv s'
     | inr (Some rv') => t ≠ Error ∧ understood o = Some rv' ∧ synced rv' s'
     end) in_sync.
Proof.
  intros Hs Hh. pose proof Hs as [HR Hv Ht Hl]. unfold handle_event. apply post_gets.
  destruct (decide (t = Error)) as [->|Hne]; [by apply post_ret|].
  unfold understood in *. rewrite Ht. destruct (_ && _) eqn:E; [by apply post_ret|].
  destruct (Accessor o) as [err|rv'] eqn:Ea; [by apply post_ret|].
  apply post_bind, on_store_post. eapply post_weaken with (Q := λ _ st, R st (at_ rv')) (P := λ st, R st (at_ rv)).
  - destruct Hh as [(Hev & Hg & Ha)|[-> Heq]]; [by apply mirrors_event|].
    apply post_ret. by rewrite Heq.
  - intros [] st Hst. apply post_bind, post_modify, post_ret. split_and!; [done..|]. by split.
  - intros st Hst. exists rv. by split.
Qed.

Lemma watch_loop_synced arrivals resyncCh rv n s :
  synced rv s → honest_events rv arrivals →
  post (watch_loop arrivals resyncCh rv n) s (λ res s', synced res.2 s') in_sync.
Proof.
  revert rv n s. induction arrivals as [|a arrivals IH]; intros rv n s Hs Hh; cbn [watch_loop].
  { by exists rv. }
  destruct Hh as [Hm Hh]. apply post_bind. eapply post_weaken; [by apply (await_synced a rv)| |done].
  intros x s' [-> Hs']. destruct (answer a) as [| |t o|]; [by apply post_ret|..].
  - destruct resyncCh; [by apply post_ret|]. by apply IH.
  - apply post_bind. eapply post_weaken; [apply (handle_event_synced t o rv s' Hs')| |done].
    + destruct (understood o); [|done]. case_decide; [done|]. by destruct Hh.
    + intros [err|[rv'|]] s''; [by intros; apply post_ret|..].
      * intros (Ht & Hu & Hs''). rewrite Hu in Hh. rewrite decide_False in Hh by done.
        apply IH; [done|]. apply Hh.
      * intros [Hu Hs'']. rewrite Hu in Hh. by apply IH.
  - by apply post_ret.
Qed.

Lemma synced_set_watches rv n s : synced rv s → synced rv (set_watches n s).
Proof. intros []. by split. Qed.
Lemma in_sync_set_watches n s : in_sync s → in_sync (set_watches n s).
Proof. intros [rv ?]. exists rv. by apply synced_set_watches. Qed.

Lemma watchHandler_synced w resyncCh rv t1 t2 s :
  synced rv s → honest_events rv w →
  post (watchHandler w rv resyncCh t1 t2) s (λ res s', synced res.2 s') in_sync.
Proof.
  intros Hs Hh. unfold watchHandler. apply post_deferred, post_bind.
  eapply post_weaken; [by apply watch_loop_synced| |].
  - intros [[err|n] rv'] s' Hs'; cbn in Hs'; [|case_match]; apply post_ret; by apply synced_set_watches.
  - intros s' Hs'. split; [done|]. by apply in_sync_set_watches.
Qed.

Lemma Watch_synced lw options rd rv s :
  synced rv s → honest_round rd → ResourceVersion options = rv → passes_options lw →
  post (Watch lw options (watch_answer rd)) s
    (λ w s', synced rv s' ∧ match w with inl _ => True | inr arrivals => honest_events rv arrivals end) in_sync.
Proof.
  intros Hs Hr Hrv Hlw. unfold Watch. apply post_bind, post_modify, post_bind.
  destruct (Hr (WatchFunc lw options)) as [Hm Ha]. rewrite (proj2 (Hlw options)), Hrv in Ha.
  eapply post_weaken; [apply (await_synced _ rv _ Hm)| |done].
  - destruct Hs. by split.
  - intros x s' [-> Hs']. destruct (answer _) as [err|arrivals]; [by apply post_ret|].
    apply post_bind, post_modify, post_ret. split; [by apply synced_set_watches|done].
Qed.

Lemma ListAndWatch_loop_synced rs resyncCh rv s :
  synced rv s → Forall honest_round rs →
  post (ListAndWatch_loop resyncCh rv rs) s (λ _ s', in_sync s') in_sync.
Proof.
  intros Hs Hr. revert rv s Hs. induction Hr as [|rd rs Hrd _ IH]; intros rv s Hs; cbn [ListAndWatch_loop].
  { by exists rv. }
  apply post_gets, post_bind. eapply post_weaken; [apply (Watch_synced _ _ rd rv s Hs Hrd); [done|apply Hs]| |done].
  intros [err|arrivals] s' [Hs' Ha].
  - destruct (connection_refused err); [by apply IH|]. by exists rv.
  - apply post_bind. eapply post_weaken; [by apply watchHandler_synced| |done].
    intros [[err|] rv'] s'' Hs''; cbn in Hs''; [by exists rv'|].
    apply post_gets. destruct (canForceResyncNow _ _); [by exists rv'|]. by apply IH.
Qed.

Lemma in_sync_reflector s s' :
  in_sync s → store s' = store s → lastSyncResourceVersion (reflector s') = lastSyncResourceVersion (reflector s) →
  expectedType (reflector s') = expectedType (reflector s) →
  listerWatcher (reflector s') = listerWatcher (reflector s) → in_sync s'.
Proof. intros [rv []] Hst Hv Ht Hl. exists rv. split; by rewrite ?Hst, ?Hv, ?Ht, ?Hl. Qed.

Lemma ListAndWatch_in_sync sc s :
  honest sc → in_sync s → post (ListAndWatch sc) s (λ _ s', in_sync s') in_sync.
Proof.
  intros [Hl Hr] Hs. unfold ListAndWatch. apply post_bind.
  assert (post (resyncChan (now_resync sc)) s (λ _ s', in_sync s') in_sync) as Hrs.
  { unfold resyncChan. apply post_gets. case_bool_decide; apply post_bind, post_modify, post_ret;
      by eapply in_sync_reflector. }
  eapply post_weaken; [exact Hrs| |done]. clear s Hs Hrs. intros resyncCh s [rv Hs].
  assert (∀ s, in_sync s → in_sync (cleanup resyncCh s)) as Hclean.
  { intros s' Hs'. destruct resyncCh; [|done]. by eapply in_sync_reflector. }
  apply post_deferred. apply post_weaken with (Q := λ _, in_sync) (P := in_sync); [|by eauto..].
  apply post_gets, post_bind. unfold List_. apply post_bind, post_modify.
  destruct (Hl (ListFunc (listerWatcher (reflector s)) (mkListOptions "0" None))) as [Hm Ha].
  eapply post_weaken; [apply (await_synced _ rv _ Hm); destruct Hs; by split| |done].
  intros x s' [-> Hs']. unfold sync_and_watch. destruct (answer _) as [err|l]; [by exists rv|].
  destruct (list_Accessor l) as [err|rv'] eqn:Erv; [by exists rv|].
  destruct (ExtractList l) as [err|items] eqn:Eit; [by exists rv|].
  destruct (Ha rv' items) as (Hg & Hk & Hnd & Hat); [done..|].
  apply post_bind, on_store_post. pose proof Hs' as [].
  eapply post_weaken; [by apply mirrors_replace| |].
  - intros [err|] st Hst; [exists rv; by split|]. apply post_bind, post_modify.
    eapply post_weaken; [apply (ListAndWatch_loop_synced _ _ rv')| |]; try done. split; cbn; [by rewrite <-Hat|done..].
  - intros st Hst. exists rv. by split.
Qed.

(** However a run ends, and the loop of runs. *)
Lemma RunUntil_in_sync stopped runs s :
  Forall (λ r : script S obj lst * bool, honest r.1) runs → in_sync s →
  in_sync (final (RunUntil stopped runs s)).
Proof.
  intros Hr. unfold RunUntil. apply Until_keeps. apply Forall_fmap.
  eapply Forall_impl; [exact Hr|]. intros [sc b] Hsc s' Hs'. cbn. apply post_final.
  apply post_bind. eapply post_weaken; [by apply ListAndWatch_in_sync|by intros|done].
Qed.
End Mirror.

(** ** The plain store *)
Section PlainStore.
Context {S obj lst : Type} `{!StoreOps S obj} (keyFn : obj → error + string)
  `{!StoreLaws S obj keyFn, !ApiObject obj lst}.

(** The methods of a [StoreOps] never panic. *)
#[local] Instance store_of_ops : Store S obj := {|
  Store_Add o := λ s, Ret (store_Add o s).1 (store_Add o s).2;
  Store_Update o := λ s, Ret (store_Update o s).1 (store_Update o s).2;
  Store_Delete o := λ s, Ret (store_Delete o s).1 (store_Delete o s).2;
  Store_Replace os rv := λ s, Ret (store_Replace os rv s).1 (store_Replace os rv s).2 |}.

(** The store has exactly the objects of the server. *)
Definition mirrors_exactly (st : S) (src : gmap string obj) : Prop := store_view (keyFn := keyFn) st = src.

#[local] Instance plain_mirrors : Mirrors keyFn mirrors_exactly (λ _, True).
Proof.
  split; unfold mirrors_exactly.
  - intros st src o t src' Hst _ Ha.
    destruct Ha as [src o k Hk|src o k Hk|src o k Hk]; apply post_bind, post_ret; rewrite <-Hst; by apply law_Add || by apply law_Update || by apply law_Delete.
  - intros st src os rv <- _ Hk _. unfold post. cbn. destruct (law_Replace os rv st Hk) as [-> H]. exact H.
Qed.

(** C14: a reflector keeps a store equal to the server.  From a store that has the
    objects of the version the reflector has seen last, with a server that answers
    lists and watches truthfully, after any number of runs of the list-and-watch loop
    with any timing, refused connections, broken watches, resyncs and stops, wherever
    the loop has come to: the store has exactly the objects of the version that the
    reflector reports. *)
Theorem store_follows_server at_ stopped (runs : list (script S obj lst * bool)) (s : state S) :
  store_view (keyFn := keyFn) (store s) = at_ (lastSyncResourceVersion (reflector s)) →
  passes_options (listerWatcher (reflector s)) →
  Forall (λ r, honest keyFn mirrors_exactly (λ _, True) at_ (expectedType (reflector s)) r.1) runs →
  let s' := final (RunUntil stopped runs s) in
  store_view (keyFn := keyFn) (store s') = at_ (lastSyncResourceVersion (reflector s')).
Proof.
  intros Hst Hlw Hr. cbn zeta.
  destruct (RunUntil_in_sync keyFn mirrors_exactly (λ _, True) at_ (expectedType (reflector s)) stopped runs s)
    as [rv [HR Hv _ _]]; [done|by eexists|]. by rewrite Hv.
Qed.
End PlainStore.

(** ** Timeouts *)

(** The random timeout is from 5 to 10 minutes. *)
Definition rand_ok (t : Duration) : Prop := minWatchTimeout <= t <= 2 * minWatchTimeout.

Lemma timeoutForWatch_range r now rt : rand_ok rt → 0 <= timeoutForWatch r now rt <= 600.
Proof.
  unfold rand_ok, timeoutForWatch, minWatchTimeout, Minute, Second. intros H.
  set (t := wrap64 _). set (u := if _ || _ then rt else t).
  assert (0 <= u <= 600 * 1000000000) as Hu.
  { subst u. destruct (bool_decide_reflect (t < 0)), (bool_decide_reflect (rt < t)); cbn; lia. }
  split; [apply Z.quot_pos; lia|]. rewrite <-(Z.quot_mul 600 1000000000) by lia. apply Z.quot_le_mono; lia.
Qed.

(** The timeout of a watch request is from 0 to 600 seconds, for every clock.  If a
    resync is more than a second away, the watch is over a second before it; if it is
    nearer or past, or no resync is scheduled (the year-1 instant, for which the
    subtraction saturates and then wraps around to a huge timeout), the timeout is the
    random one, five minutes at least. *)
Theorem timeoutForWatch_bounds (r : Reflector) (now : Time) (rt : Duration) :
  rand_ok rt →
  0 <= timeoutForWatch r now rt <= 600 ∧
  (timeoutThreshold <= nextResync r - now →
     now + timeoutForWatch r now rt * Second <= nextResync r - timeoutThreshold) ∧
  (nextResync r - now < timeoutThreshold → 300 <= timeoutForWatch r now rt).
Proof.
  intros H. split; [by apply timeoutForWatch_range|].
  unfold rand_ok, timeoutForWatch, minWatchTimeout, timeoutThreshold, Minute, Second, Sub, wrap64, min_int64, max_int64 in *.
  set (d := nextResync r - now). split; intros Hd.
  - replace ((_ + 2 ^ 63) mod 2 ^ 64 - 2 ^ 63) with (Z.min (2 ^ 63 - 1) d - 1000000000)
      by (rewrite Z.mod_small; lia).
    set (t := Z.min _ _ - _). set (u := if _ || _ then rt else t).
    assert (0 <= u <= d - 1000000000) as Hu.
    { subst u. destruct (bool_decide_reflect (t < 0)), (bool_decide_reflect (rt < t)); cbn; lia. }
    pose proof (Z.mul_quot_le u 1000000000). lia.
  - set (t := (_ mod _ - _)). set (u := if _ || _ then rt else t).
    assert (t < 0 ∨ rt < t) as Ht.
    { subst t. destruct (decide (- 2 ^ 63 + 1000000000 <= d)).
      - left. rewrite Z.mod_small; lia.
      - right. set (x := Z.max _ _). assert (- 2 ^ 63 <= x < - 2 ^ 63 + 1000000000) by lia.
        rewrite <-(Z.mod_unique (x - 1 * 1000000000 + 2 ^ 63) (2 ^ 64) (-1) (x - 1000000000 + 2 ^ 63 + 2 ^ 64)); lia. }
    assert (u = rt) as ->.
    { subst u. destruct (bool_decide_reflect (t < 0)), (bool_decide_reflect (rt < t)); cbn; lia. }
    rewrite <-(Z.quot_mul 300 1000000000) by lia. apply Z.quot_le_mono; lia.
Qed.

(** ** Timers, watches and requests *)
Section Tidy.
Context {S obj lst : Type} `{!Store S obj, !ApiObject obj lst}.
Variable lw : ListWatch.
Implicit Types (s : state S) (Pq : request → Prop).

(** What the log of a run of code grows by. *)
Definition asked Pq s s' : Prop :=
  listerWatcher (reflector s') = lw ∧ ∃ qs, requests s' = requests s ++ qs ∧ Forall Pq qs.

(** Code that ends leaves as many timers and watches as it found; while it waits it has
    at most [a] timers and [b] watches of its own. *)
Definition uses {A} (a b : Z) Pq (m : M (state S) A) : Prop := ∀ s,
  listerWatcher (reflector s) = lw →
  asked Pq s (final (m s)) ∧
  match m s with
  | Ret _ s' | Panic _ s' => timers s' = timers s ∧ watches s' = watches s
  | Exit s' | Block s' =>
      timers s <= timers s' <= timers s + a ∧ watches s <= watches s' <= watches s + b
  end.

Lemma asked_refl Pq s : listerWatcher (reflector s) = lw → asked Pq s s.
Proof. intros H. split; [done|]. exists []. by rewrite app_nil_r. Qed.
Lemma asked_trans Pq s1 s2 s3 : asked Pq s1 s2 → asked Pq s2 s3 → asked Pq s1 s3.
Proof.
  intros [_ (qs & E & F)] [Hl (qs' & E' & F')]. split; [done|]. exists (qs ++ qs').
  rewrite E', E, app_assoc. split; [done|]. by apply Forall_app.
Qed.

Lemma uses_ret {A} a b Pq (x : A) : 0 <= a → 0 <= b → uses a b Pq (mret x).
Proof. intros ?? s Hs. split; [by apply asked_refl|done]. Qed.
Lemma uses_block {A} a b Pq : 0 <= a → 0 <= b → uses a b Pq (λ s, Block s : outcome _ A).
Proof. intros ?? s Hs. split; [by apply asked_refl|lia]. Qed.
Lemma uses_bind {A B} a b Pq (m : M (state S) A) (f : A → M (state S) B) :
  uses a b Pq m → (∀ x, uses a b Pq (f x)) → uses a b Pq (mbind f m).
Proof.
  intros Hm Hf s Hs. destruct (Hm s Hs) as [Ha Hc]. rewrite bind_unfold. destruct (m s) as [x s'|? s'|s'|s'].
  - destruct (Hf x s' (proj1 Ha)) as [Ha' Hc']. split; [by eapply asked_trans|]. destruct Hc as [-> ->] in Hc'. exact Hc'.
  - by split.
  - by split.
  - by split.
Qed.
Lemma uses_gets {A B} a b Pq (g : state S → A) (f : A → M (state S) B) :
  (∀ s, listerWatcher (reflector s) = lw → uses a b Pq (f (g s))) → uses a b Pq (mbind f (gets g)).
Proof. intros H s Hs. by apply (H s). Qed.
Lemma uses_modify a b Pq (g : state S → state S) :
  (∀ s, listerWatcher (reflector (g s)) = listerWatcher (reflector s) ∧ requests (g s) = requests s ∧
        timers (g s) = timers s ∧ watches (g s) = watches s) → uses a b Pq (modify g).
Proof.
  intros H s Hs. destruct (H s) as (Hl & Hr & Ht & Hw). cbn. split; [|done].
  split; [by rewrite Hl|]. exists []. by rewrite Hr, app_nil_r.
Qed.
Lemma uses_on_store {A} a b Pq (m : M S A) : 0 <= a → 0 <= b → uses a b Pq (on_store m).
Proof.
  intros ?? s Hs. unfold on_store, zoom.
  destruct (m (store s)); (split; [split; [done|]; exists []; by rewrite app_nil_r|cbn; lia]).
Qed.
Lemma uses_await {A} a b Pq (x : after S A) : 0 <= a → 0 <= b → uses a b Pq (await x).
Proof. intros. apply uses_bind; [by apply uses_modify|]. intros. by apply uses_ret. Qed.
Lemma uses_log a b Pq q : Pq q → uses a b Pq (modify (log_request q)).
Proof. intros Hq s Hs. split; [|done]. split; [done|]. exists [q]. auto. Qed.

Lemma uses_handle_event a b Pq t o : 0 <= a → 0 <= b → uses a b Pq (handle_event t o).
Proof.
  intros. unfold handle_event. apply uses_gets. intros s Hs.
  repeat case_match; try (by apply uses_ret).
  apply uses_bind; [by apply uses_on_store|]. intros [].
  apply uses_bind; [by apply uses_modify|]. intros []. by apply uses_ret.
Qed.

Lemma uses_watch_loop a b Pq arrivals resyncCh rv n :
  0 <= a → 0 <= b → uses a b Pq (watch_loop arrivals resyncCh rv n).
Proof.
  intros Ha Hb. revert rv n. induction arrivals as [|x arrivals IH]; intros rv n; cbn [watch_loop].
  { by apply uses_block. }
  apply uses_bind; [by apply uses_await|]. intros [| |t o|]; [by apply uses_ret| |  |by apply uses_ret].
  - destruct resyncCh; [by apply uses_ret|apply IH].
  - apply uses_bind; [by apply uses_handle_event|]. intros [err|[rv'|]]; [by apply uses_ret|apply IH..].
Qed.

(** [watchHandler] stops the watch that it is given. *)
Lemma watchHandler_stops Pq w rv resyncCh t1 t2 s :
  listerWatcher (reflector s) = lw →
  let o := watchHandler w rv resyncCh t1 t2 s in
  asked Pq s (final o) ∧ timers (final o) = timers s ∧
  watches (final o) = watches s - match o with Ret _ _ | Panic _ _ => 1 | _ => 0 end.
Proof.
  intros Hs. cbn zeta. unfold watchHandler, deferred.
  set (body := mbind _ _). assert (uses 0 0 Pq body) as Hb.
  { apply uses_bind; [by apply uses_watch_loop|]. intros [[err|n] rv']; [|case_match]; by apply uses_ret. }
  destruct (Hb s Hs) as [Ha Hc]. destruct (body s); cbn in *; (split; [exact Ha|lia]).
Qed.

(** A watch request of the loop. *)
Definition watch_request (q : request) : Prop := ∃ rv t,
  q = WatchFunc lw (mkListOptions rv (Some t)) ∧ 0 <= t <= 600.

Lemma uses_ext {A} a b Pq (m m' : M (state S) A) : (∀ s, m s = m' s) → uses a b Pq m' → uses a b Pq m.
Proof. intros E H s Hs. rewrite E. by apply H. Qed.

(** A watch request, and what is done with its answer. *)
Lemma uses_Watch {A} Pq options (ans : request → after S (watch_error + list (after S (arrival obj)))) (k : _ → M (state S) A) :
  Pq (WatchFunc lw options) → (∀ err, uses 0 1 Pq (k (inl err))) →
  (∀ w, uses 0 1 Pq (modify (λ s, set_watches (watches s + 1) s) ;; k (inr w))) →
  uses 0 1 Pq (Watch lw options ans ≫= k).
Proof.
  intros Hq Hl Hi. apply (uses_ext _ _ _ _ (modify (log_request (WatchFunc lw options)) ;;
    w ← await (ans (WatchFunc lw options));
    match w with
    | inl err => k (inl err)
    | inr events => modify (λ s, set_watches (watches s + 1) s) ;; k (inr events)
    end)).
  { intros s. unfold Watch, await. m_unfold. cbn. by destruct (answer (ans (WatchFunc lw options))). }
  apply uses_bind; [by apply uses_log|]. intros []. apply uses_bind; [by apply uses_await|].
  intros [err|w]; [apply Hl|apply Hi].
Qed.

(** The watch that is open while [watchHandler] runs. *)
Lemma uses_watchHandler {A} Pq w rv resyncCh t1 t2 (k : _ → M (state S) A) :
  (∀ res, uses 0 1 Pq (k res)) →
  uses 0 1 Pq (modify (λ s, set_watches (watches s + 1) s) ;; watchHandler w rv resyncCh t1 t2 ≫= k).
Proof.
  intros Hk s Hs. set (s1 := set_watches (watches s + 1) s).
  change ((modify _ ;; _) s) with ((watchHandler w rv resyncCh t1 t2 ≫= k) s1).
  destruct (watchHandler_stops Pq w rv resyncCh t1 t2 s1 Hs) as (Ha & Ht & Hw).
  rewrite bind_unfold. destruct (watchHandler _ _ _ _ _ s1) as [res s'|? s'|s'|s']; cbn in Ht, Hw.
  - destruct (Hk res s' (proj1 Ha)) as [Ha' Hc]. split; [by eapply (asked_trans _ s1)|].
    destruct (k res s'); lia.
  - split; [exact Ha|lia].
  - split; [exact Ha|lia].
  - split; [exact Ha|lia].
Qed.

Lemma uses_loop resyncCh rv (rs : list (round S obj)) :
  Forall (λ rd, rand_ok (randTimeout rd)) rs →
  uses 0 1 watch_request (ListAndWatch_loop resyncCh rv rs).
Proof.
  intros Hr. revert rv. induction Hr as [|rd rs Hrd _ IH]; intros rv; cbn [ListAndWatch_loop].
  { by apply uses_block. }
  apply uses_gets. intros s0 ->. apply uses_Watch.
  - eexists _, _. split; [done|]. by apply timeoutForWatch_range.
  - intros err. destruct (connection_refused err); [apply IH|by apply uses_ret].
  - intros w. apply uses_watchHandler. intros [[err|] rv']; [by apply uses_ret|].
    apply uses_gets. intros s _. destruct (canForceResyncNow _ _); [by apply uses_ret|apply IH].
Qed.

Lemma uses_sync_and_watch resyncCh (rs : list (round S obj)) (l : error + lst) :
  Forall (λ rd, rand_ok (randTimeout rd)) rs → uses 0 1 watch_request (sync_and_watch resyncCh rs l).
Proof.
  intros Hr. unfold sync_and_watch. repeat case_match; try by apply uses_ret.
  apply uses_bind; [by apply uses_on_store|]. intros [err|]; [by apply uses_ret|].
  apply uses_bind; [by apply uses_modify|]. intros []. by apply uses_loop.
Qed.
End Tidy.

(** C15: what a run of the list-and-watch loop asks for and leaves behind, whatever the
    API server answers and the store does: its requests are one list at version 0 and
    then watches, each with a timeout of at most ten minutes; when the run returns or
    panics it has stopped every watch and every timer it has started, and while it
    waits it has at most one of each. *)
Theorem ListAndWatch_tidy {S obj lst} `{!Store S obj, !ApiObject obj lst}
    (sc : script S obj lst) (s : state S) :
  Forall (λ rd, rand_ok (randTimeout rd)) (rounds sc) →
  let lw := listerWatcher (reflector s) in
  let s' := final (ListAndWatch sc s) in
  (∃ qs, requests s' = requests s ++ ListFunc lw (mkListOptions "0" None) :: qs ∧ Forall (watch_request lw) qs) ∧
  match ListAndWatch sc s with
  | Ret _ _ | Panic _ _ => timers s' = timers s ∧ watches s' = watches s
  | Exit _ | Block _ => timers s <= timers s' <= timers s + 1 ∧ watches s <= watches s' <= watches s + 1
  end.
Proof.
  intros Hr. cbn zeta. unfold ListAndWatch.
  assert (∃ b r, resyncChan (now_resync sc) s = Ret b (set_timers (timers s + Z.b2z b) (set_reflector r s)) ∧
    listerWatcher r = listerWatcher (reflector s)) as (b & r & E & Hlw).
  { unfold resyncChan. m_unfold. case_bool_decide.
    - exists false, (set_nextResync zero_Time (reflector s)). split; [|done]. rewrite Z.add_0_r. by destruct s.
    - exists true, (set_nextResync (now_resync sc + resyncPeriod (reflector s)) (reflector s)). by split. }
  run E. set (s1 := set_timers _ _). unfold deferred.
  set (q := ListFunc (listerWatcher (reflector s)) (mkListOptions "0" None)).
  set (ans := list_answer sc q).
  set (s2 := set_store (meanwhile ans (store s1)) (log_request q s1)).
  assert ((r0 ← gets reflector; l ← List_ (listerWatcher r0) (mkListOptions "0" None) (list_answer sc);
           sync_and_watch b (rounds sc) l) s1 = sync_and_watch b (rounds sc) (answer ans) s2) as ->.
  { subst q ans s2. cbn -[sync_and_watch]. unfold List_, await. m_unfold. cbn -[sync_and_watch].
    by rewrite Hlw. }
  destruct (uses_sync_and_watch (listerWatcher (reflector s)) b (rounds sc) (answer ans) Hr s2 Hlw)
    as [[_ (qs & Hqs & HF)] Hc].
  assert (requests s2 = requests s ++ [q] ∧ timers s2 = timers s + Z.b2z b ∧ watches s2 = watches s)
    as (Hq2 & Ht2 & Hw2) by done.
  rewrite Hq2, <-app_assoc in Hqs.
  assert (∀ s' : state S, requests (cleanup b s') = requests s') as Hcl by (by destruct b).
  rewrite Ht2, Hw2 in Hc. clearbody s2 ans.
  split; [exists qs; split; [|done]|];
    destruct (sync_and_watch b (rounds sc) (answer ans) s2) as [x s'|? s'|s'|s']; cbn in Hqs |- *;
    rewrite ?Hcl; try exact Hqs; destruct b; cbn in *; lia.
Qed.

(** ** A concrete run *)
Module Sample.
Definition key : ApiService → error + string := MetaNamespaceKeyFunc.
Abbreviation cache := (Cache.cacheStorage (obj := ApiService)).
#[local] Instance cache_ops : StoreOps cache ApiService := Cache.cache_ops (mo := order_up) key.
#[local] Instance cache_laws : StoreLaws cache ApiService key := Cache.cache_laws (mo := order_up) key.
#[local] Existing Instance store_of_ops.

Definition service_list : Type := string * list ApiService.

#[local] Instance services : ApiObject ApiService service_list := {|
  TypeOf _ := "*api.Service";
  Accessor o := inr (GetResourceVersion o);
  list_Accessor l := inr l.1;
  ExtractList l := inr l.2;
  FromObject _ := Errorf "status" |}.

Definition web (ip rv : string) : ApiService := mkApiService "default" "web" rv ip [].

(** The service is there at version 1, changed at 2 and gone at 3. *)
Definition server (rv : string) : gmap string ApiService :=
  if decide (rv = "1") then {["default/web" := web "10.0.0.1" "1"]}
  else if decide (rv = "2") then {["default/web" := web "10.0.0.2" "2"]}
  else ∅.

Definition quietly {A} (x : A) : after cache A := mkAfter id x.
Definition a_round (w : string → watch_error + list (arrival ApiService)) : round cache ApiService :=
  mkRound 10 (7 * Minute)
    (λ q, quietly match w (ResourceVersion (req_options q)) with
                  | inl e => inl e
                  | inr l => inr (quietly <$> l)
                  end) 10 (20 * Second) 30.
Definition sample : script cache ApiService service_list :=
  mkScript 0 (λ _, quietly (inr ("1", [web "10.0.0.1" "1"])))
    [a_round (λ _, inl (UrlError (OpError (Some ECONNREFUSED))));
     a_round (λ v, inr (if decide (v = "1") then [Event Modified (web "10.0.0.2" "2"); Closed] else []));
     a_round (λ v, inr (if decide (v = "2") then [Event Deleted (web "10.0.0.2" "3"); Stopped] else []))].

Definition lw : ListWatch := NewListWatchFromClient "services" "" "".
Definition start : state cache :=
  mkState (NewNamedReflector "r" lw (Some "*api.Service") 0) Cache.NewStore 0 0 [].

(** The log of the run: the refused watch is asked for again. *)
Example sample_log :
  (λ q, (req_prefix q, req_options q)) <$> requests (final (ListAndWatch sample start)) =
  [("", mkListOptions "0" None); ("watch", mkListOptions "1" (Some 420)); ("watch", mkListOptions "1" (Some 420));
   ("watch", mkListOptions "2" (Some 420))].
Proof. vm_compute. reflexivity. Qed.

Lemma harmless_id : harmless (mirrors_exactly (S := cache) key) id.
Proof. by intros st src. Qed.

Lemma honest_sample :
  honest key (mirrors_exactly (S := cache) key) (λ _, True) server (Some "*api.Service") sample.
Proof.
  split.
  - intros q. split; [apply harmless_id|]. intros rv items [= <-] [= <-].
    split_and!; [repeat constructor|reflexivity|apply (bool_decide_unpack _); vm_compute; exact I|reflexivity].
  - repeat (apply Forall_cons; split); [..|apply Forall_nil; exact I]; intros q; (split; [apply harmless_id|]); cbn.
    + exact I.
    + destruct (decide (ResourceVersion (req_options q) = "1")) as [->|]; cbn; [|exact I].
      split; [apply harmless_id|]. split; [|split; [apply harmless_id|exact I]]. left.
      split; [by right; left|]. split; [exact I|].
      change (announce key (server "1") (web "10.0.0.2" "2") Modified
                (<["default/web" := web "10.0.0.2" "2"]> (server "1"))).
      apply announce_update; [reflexivity|]. by eexists.
    + destruct (decide (ResourceVersion (req_options q) = "2")) as [->|]; cbn; [|exact I].
      split; [apply harmless_id|]. split; [|split; [apply harmless_id|exact I]]. left.
      split; [by right; right|]. split; [exact I|].
      change (announce key (server "2") (web "10.0.0.2" "3") Deleted (delete "default/web" (server "2"))).
      apply announce_delete; [reflexivity|]. by eexists.
Qed.

Lemma store_follows_server_witness :
  let s' := final (RunUntil false [(sample, true)] start) in
  store_view (keyFn := key) (store s') = server (lastSyncResourceVersion (reflector s')).
Proof.
  refine (store_follows_server key server false [(sample, true)] start _ _ _).
  - reflexivity.
  - apply passes_NewListWatchFromClient.
  - constructor; [exact honest_sample|constructor].
Defined.

Lemma timeoutForWatch_witness :
  0 <= timeoutForWatch (set_nextResync (100 * Second) (reflector start)) (10 * Second) (7 * Minute) <= 600 ∧
  10 * Second + timeoutForWatch (set_nextResync (100 * Second) (reflector start)) (10 * Second) (7 * Minute) * Second
    <= 99 * Second.
Proof.
  assert (rand_ok (7 * Minute)) as H by (vm_compute; split; discriminate).
  destruct (timeoutForWatch_bounds (set_nextResync (100 * Second) (reflector start)) (10 * Second) (7 * Minute) H)
    as (Hr & Hn & _).
  split; [exact Hr|]. apply Hn. vm_compute. discriminate.
Defined.

Lemma ListAndWatch_tidy_witness :
  timers (final (ListAndWatch sample start)) = 0 ∧ watches (final (ListAndWatch sample start)) = 0.
Proof.
  refine (proj2 (ListAndWatch_tidy sample start _)).
  repeat constructor; vm_compute; discriminate.
Defined.
End Sample.
