(* ===== verification/Configurer.v ===== *)
(** [util/config/configurer.go]: writing a configuration file through a temporary
    file, with a backup of the previous content.

    [glog.Fatalf] ends the process, so the [return err] after it is not
    reached. *)

From stdpp Require Import gmap strings list.
From S2P Require Import Prelude GoStrings OS.

Record Configurer := mkConfigurer { configFilePath : string }.

(** Whether the file can be opened for reading. *)
Definition canReadFile (path : string) : M OS bool :=
  err ← Open path;
  mret (match err with Some _ => false | None => true end).

Definition NewConfigurer (configFilePath : string) : M OS (error + Configurer) :=
  ok ← canReadFile configFilePath;
  if negb ok then mret (inl (Errorf "ConfigFile can not be found or not readable"))
  else mret (inr (mkConfigurer configFilePath)).

(** The names of the backup and of the temporary file. *)
Definition bak (c : Configurer) : string := configFilePath c +:+ ".bak".
Definition tmp (c : Configurer) : string := configFilePath c +:+ ".tmp".

Definition createConfigBackup (c : Configurer) : M OS (option error) :=
  r ← ReadFile (configFilePath c);
  match r with
  | inl err => fatal
  | inr cfgContent =>
      let backupConfigFileName := bak c in
      err ← WriteFile backupConfigFileName cfgContent;
      match err : option error with
      | Some err => fatal
      | None => mret None
      end
  end.

Definition WriteConfig (c : Configurer) (bs : string) : M OS (option error) :=
  err ← createConfigBackup c;
  match err : option error with
  | Some _ => fatal
  | None =>
      let tmpConfigFile := tmp c in
      err ← WriteFile tmpConfigFile bs;
      match err : option error with
      | Some err => mret (Some err)
      | None =>
          err ← Rename tmpConfigFile (configFilePath c);
          match err : option error with
          | Some err => mret (Some err)
          | None => mret None
          end
      end
  end.
