(* ===== verification/Instances.v ===== *)
(** [util/haproxy/haproxy.go] and [util/keepalived/keepalived.go]: a daemon with a
    configuration file that is written by a [Configurer] and a script that makes
    it read the file again.  The two packages have the same code over types of
    their own; the class [Daemon] is what they share. *)

From stdpp Require Import gmap strings list.
From S2P Require Import Prelude GoTime OS Configurer.

Module Haproxy.
Record HaproxyConfig := mkHaproxyConfig {
  ConfigPath : string;
  TemplatePath : string;
  ReloadScriptPath : string;
  ReloadInterval : Duration
}.

Record Haproxy := mkHaproxy { config : HaproxyConfig; configurer : Configurer }.

Definition NewInstance (cfg : HaproxyConfig) : M OS (error + Haproxy) :=
  r ← NewConfigurer (ConfigPath cfg);
  match r with
  | inl err => mret (inl err)
  | inr configurer => mret (inr (mkHaproxy cfg configurer))
  end.

Definition Reload (p : Haproxy) (cfgBytes : string) : M OS (option error) :=
  err ← WriteConfig (configurer p) cfgBytes;
  match err : option error with
  | Some err => mret (Some err)
  | None =>
      err ← CombinedOutput (ReloadScriptPath (config p));
      match err : option error with
      | Some err => mret (Some (Errorf "error reloading haproxy: %v"))
      | None => mret None
      end
  end.
End Haproxy.

Module Keepalived.
Record KeepalivedConfig := mkKeepalivedConfig {
  ConfigPath : string;
  TemplatePath : string;
  ReloadScriptPath : string;
  ReloadInterval : Duration
}.

Record Keepalived := mkKeepalived { config : KeepalivedConfig; configurer : Configurer }.

Definition NewInstance (cfg : KeepalivedConfig) : M OS (error + Keepalived) :=
  r ← NewConfigurer (ConfigPath cfg);
  match r with
  | inl err => mret (inl err)
  | inr configurer => mret (inr (mkKeepalived cfg configurer))
  end.

Definition Reload (k : Keepalived) (cfgBytes : string) : M OS (option error) :=
  err ← WriteConfig (configurer k) cfgBytes;
  match err : option error with
  | Some err => mret (Some err)
  | None =>
      err ← CombinedOutput (ReloadScriptPath (config k));
      match err : option error with
      | Some err => mret (Some (Errorf "error reloading keepalived: %v"))
      | None => mret None
      end
  end.
End Keepalived.

(** What the two packages promise to the proxier: the daemon's file, its script
    and a reload that runs the script after the file has been written. *)
Class Daemon (D : Type) := {
  daemon_configurer : D → Configurer;
  daemon_script : D → string;
  daemon_error : error;
  daemon_Reload : D → string → M OS (option error);
  daemon_Reload_eq d bs o : daemon_Reload d bs o =
    (err ← WriteConfig (daemon_configurer d) bs;
     match err : option error with
     | Some err => mret (Some err)
     | None =>
         err ← CombinedOutput (daemon_script d);
         mret (match err with Some _ => Some daemon_error | None => None end)
     end) o
}.

(** The two implementations, and the functions of the interface for each. *)
#[export] Program Instance Haproxy_daemon : Daemon Haproxy.Haproxy := {|
  daemon_configurer := Haproxy.configurer;
  daemon_script p := Haproxy.ReloadScriptPath (Haproxy.config p);
  daemon_error := Errorf "error reloading haproxy: %v";
  daemon_Reload := Haproxy.Reload
|}.
Next Obligation.
  intros p bs o. apply bind_ext; intros [|] ?; [done|]. by apply bind_ext; intros [|] ?.
Qed.

#[export] Program Instance Keepalived_daemon : Daemon Keepalived.Keepalived := {|
  daemon_configurer := Keepalived.configurer;
  daemon_script k := Keepalived.ReloadScriptPath (Keepalived.config k);
  daemon_error := Errorf "error reloading keepalived: %v";
  daemon_Reload := Keepalived.Reload
|}.
Next Obligation.
  intros k bs o. apply bind_ext; intros [|] ?; [done|]. by apply bind_ext; intros [|] ?.
Qed.
