(* ===== verification/DaemonProps.v ===== *)
(** The properties of the configuration writer and of the daemons' reloads: what
    is in the files when a call ends, whichever system calls fail and wherever
    the process is killed. *)

From stdpp Require Import gmap strings list.
From S2P Require Import Prelude GoStrings OS Configurer Instances.

Section Files.
Implicit Types (c : Configurer) (o : OS) (bs old : string).

(** The configuration file, the backup and the temporary file are different. *)
Lemma suffix_ne s t : t ≠ "" → s +:+ t ≠ s.
Proof.
  intros Ht Heq. apply Ht. assert (String.length (s +:+ t) = String.length s) as Hl by by rewrite Heq.
  rewrite length_append in Hl. destruct t; [done|simpl in Hl; lia].
Qed.

Lemma bak_ne c : bak c ≠ configFilePath c.
Proof. by apply suffix_ne. Qed.

Lemma tmp_ne c : tmp c ≠ configFilePath c.
Proof. by apply suffix_ne. Qed.

Lemma tmp_bak_ne c : tmp c ≠ bak c.
Proof. unfold tmp, bak. by intros ?%(inj (String.app (configFilePath c))). Qed.

(** The files a call of [WriteConfig] does not touch. *)
Definition same_others c o o' : Prop :=
  ∀ p, p ≠ configFilePath c → p ≠ bak c → p ≠ tmp c → files o' !! p = files o !! p.

(** How [WriteConfig] ends when the file holds [old]. *)
Definition write_post c bs old o (r : outcome OS (option error)) : Prop :=
  match r with
  | Ret None o' =>
      files o' !! configFilePath c = Some bs ∧ files o' !! bak c = Some old
  | Ret (Some _) o' =>
      files o' !! configFilePath c = Some old ∧ files o' !! bak c = Some old
  | Exit o' =>
      files o' !! configFilePath c = Some old ∨
      files o' !! configFilePath c = Some bs ∧ files o' !! bak c = Some old
  | Panic _ _ | Block _ => False
  end ∧ same_others c o (final r) ∧ execs (final r) = execs o.

Local Ltac files_done :=
  unfold same_others, partial_write in *; simpl in *;
  repeat first
    [ rewrite lookup_insert_eq | rewrite lookup_insert_ne by done
    | rewrite lookup_delete_eq | rewrite lookup_delete_ne by done ];
  try done.

(** The three files' writes, one system call after the other. *)
Lemma backup_spec c old o :
  files o !! configFilePath c = Some old →
  match createConfigBackup c o with
  | Ret r o' => r = None ∧ files o' = <[bak c := old]> (files o) ∧ execs o' = execs o
  | Exit o' =>
      execs o' = execs o ∧
      (files o' = files o ∨ ∃ part, files o' = <[bak c := part]> (files o))
  | Panic _ _ | Block _ => False
  end.
Proof.
  intros Hold. destruct o as [fs flts es]. simpl in *.
  unfold createConfigBackup, ReadFile, WriteFile, next_fault, partial_write. m_unfold.
  destruct flts as [|[|part|part] flts]; simpl; rewrite ?Hold; simpl; [by auto| |by auto..].
  destruct flts as [|[|[n|]|[n|]] flts]; simpl; eauto.
Qed.

Lemma WriteConfig_post c bs old o :
  files o !! configFilePath c = Some old → write_post c bs old o (WriteConfig c bs o).
Proof.
  intros Hold. pose proof (bak_ne c). pose proof (tmp_ne c). pose proof (tmp_bak_ne c).
  assert (files o !! configFilePath c = Some old) as Hcfg by done.
  pose proof (backup_spec c old o Hold) as Hb.
  unfold WriteConfig. apply (bind_case (write_post c bs old o)).
  destruct (createConfigBackup c o) as [r o1|? ?|o1|o1]; [|done| |done].
  2: { destruct Hb as [He Hf]. split; [left|split; [intros p ???|done]]; simpl;
       destruct Hf as [->|[part ->]]; by files_done. }
  destruct Hb as (-> & Hf & He). destruct o1 as [fs1 flts es]. simpl in Hf, He. subst fs1 es.
  unfold write_post, WriteFile, Rename, rename_file, next_fault, partial_write. m_unfold.
  destruct flts as [|[|[n|]|[n|]] flts]; simpl;
    [|destruct flts as [|[|[n|]|[n|]] flts]| | | |]; simpl;
    rewrite ?lookup_insert_eq; simpl; split_and!; files_done; auto;
    try (intros; files_done); try (right; split; files_done); try (left; files_done).
Qed.
End Files.

(** ** Reloading a daemon *)
Section Reload.
Context {D : Type} `{!Daemon D}.
Implicit Types (d : D) (o : OS) (bs old : string).

(** How a reload ends when the file holds [old]. *)
Definition reload_post d bs old o (r : outcome OS (option error)) : Prop :=
  let path := configFilePath (daemon_configurer d) in
  match r with
  | Ret None o' =>
      files o' !! path = Some bs ∧ execs o' = (daemon_script d, files o') :: execs o
  | Ret (Some e) o' =>
      files o' !! path = Some old ∧ execs o' = execs o ∨
      files o' !! path = Some bs ∧ e = daemon_error ∧
        (execs o' = execs o ∨ execs o' = (daemon_script d, files o') :: execs o)
  | Exit o' =>
      (files o' !! path = Some old ∨ files o' !! path = Some bs) ∧ execs o' = execs o
  | Panic _ _ | Block _ => False
  end ∧ same_others (daemon_configurer d) o (final r).

Lemma Reload_post d bs old o :
  files o !! configFilePath (daemon_configurer d) = Some old →
  reload_post d bs old o (daemon_Reload d bs o).
Proof.
  intros Hold. rewrite daemon_Reload_eq.
  pose proof (WriteConfig_post _ bs old o Hold) as (Hw & Ho & He).
  apply (bind_case (reload_post d bs old o)).
  destruct (WriteConfig _ bs o) as [[e|] o1|? ?|o1|o1]; simpl in *; [|clear Hold|done| |done].
  - split; [|done]. left. by destruct Hw.
  - destruct Hw as [Hw _]. destruct o1 as [fs flts es]. simpl in *.
    unfold reload_post, CombinedOutput, next_fault. m_unfold.
    destruct flts as [|[|[n|]|part] flts]; simpl; rewrite <-?He; split; auto.
  - split; [|done]. split; [|done]. naive_solver.
Qed.

(** When no call goes wrong a reload returns no error. *)
Lemma Reload_works d bs old o :
  faults o = [] → files o !! configFilePath (daemon_configurer d) = Some old →
  ∃ o', daemon_Reload d bs o = Ret None o' ∧ faults o' = [].
Proof.
  intros Hf Hold. rewrite daemon_Reload_eq. destruct o as [fs flts es]. simpl in *. subst flts.
  unfold WriteConfig, createConfigBackup, ReadFile, WriteFile, Rename, rename_file, CombinedOutput, next_fault.
  m_unfold. simpl. rewrite Hold. simpl. rewrite lookup_insert_eq. simpl. eauto.
Qed.

(** The content of the file and what the scripts found, after a reload. *)
Lemma reload_step d bs old o :
  files o !! configFilePath (daemon_configurer d) = Some old →
  let o' := final (daemon_Reload d bs o) in
  let path := configFilePath (daemon_configurer d) in
  (files o' !! path = Some old ∨ files o' !! path = Some bs) ∧
  ∃ new, execs o' = new ++ execs o ∧
    Forall (λ run, run.1 = daemon_script d ∧ run.2 !! path = Some bs) new.
Proof.
  intros Hold. pose proof (Reload_post d bs old o Hold) as [Hr _]. simpl.
  destruct (daemon_Reload d bs o) as [[e|] o1|? ?|o1|o1]; simpl in *; try done.
  - destruct Hr as [[? ?]|(? & _ & [?|?])]; (split; [auto|]).
    1,2: by exists [].
    eexists [_]; split; [done|]. by constructor.
  - destruct Hr as [? ?]. split; [auto|]. eexists [_]; split; [done|]. by constructor.
  - destruct Hr as [? ?]. split; [done|]. by exists [].
Qed.

(** Reloads one after the other, whatever each of them returns. *)
Definition reload_all d (bss : list string) : M OS unit :=
  for_each (λ bs, daemon_Reload d bs ;; mret tt) bss.

(** After any number of reloads with any failures, the configuration file holds one
    of the contents in full, and every script that was run found one of the new
    contents in full. *)
Lemma reload_all_spec d bss old o :
  let path := configFilePath (daemon_configurer d) in
  files o !! path = Some old →
  let o' := final (reload_all d bss o) in
  (∃ content, files o' !! path = Some content ∧ content ∈ old :: bss) ∧
  ∃ new, execs o' = new ++ execs o ∧
    Forall (λ run, run.1 = daemon_script d ∧ ∃ bs, bs ∈ bss ∧ run.2 !! path = Some bs) new.
Proof.
  simpl. revert old o. induction bss as [|bs bss IH]; intros old o Hold.
  { split; [exists old; split; [done|left]|]. by exists []. }
  pose proof (reload_step d bs old o Hold) as [Hc (new & He & Hnew)]. simpl in Hc, He, Hnew.
  set (path := configFilePath _) in *. unfold reload_all. simpl.
  destruct (daemon_Reload d bs o) as [r o1|msg o1|o1|o1] eqn:E.
  1: { rewrite (bind_Ret _ _ _ tt o1) by (by run E).
    assert (∃ c, files o1 !! path = Some c ∧ c ∈ old :: [bs]) as (c & Hc1 & Hc2)
      by (simpl in Hc; destruct Hc; eexists; (split; [done|set_solver])).
    destruct (IH c o1 Hc1) as [(c' & ? & Hc') (new' & He' & Hnew')]. split.
    { exists c'. split; [done|set_solver]. }
    exists (new' ++ new). unfold reload_all in He'. rewrite He'. simpl in He. rewrite He.
    split; [by rewrite app_assoc|]. apply Forall_app. split; eapply Forall_impl; try done; simpl.
    - intros run (? & b & ? & ?). split; [done|]. exists b. split; [set_solver|done].
    - intros run (? & ?). split; [done|]. exists bs. split; [set_solver|done]. }
  all: rewrite bind_unfold, bind_unfold, E; simpl in *; split;
    [destruct Hc; eexists; (split; [done|set_solver])|exists new; split; [done|]];
    eapply Forall_impl; try done; simpl; intros run (? & ?); split; [done|]; exists bs;
    split; [set_solver|done].
Qed.
End Reload.

(** ** The properties *)

(** C12: writing the configuration is atomic: whichever system call fails and
    wherever the process is killed, the configuration file holds all of the old
    content or all of the new one.  It holds the new one, and the backup the old
    one, exactly when the call returns no error, or when the process is killed
    after the last system call.  No other file is touched. *)
Theorem WriteConfig_atomic (c : Configurer) bs old (o : OS) :
  files o !! configFilePath c = Some old →
  write_post c bs old o (WriteConfig c bs o).
Proof. apply WriteConfig_post. Qed.

(** A reload, of either daemon, runs the script only after the new content is
    in the file and the script finds it there; an error of the writer leaves the
    old content and the script is not run, and only an error of the script is
    reported by the daemon's own message. *)
Theorem Reload_correct {D} `{!Daemon D} (d : D) bs old (o : OS) :
  files o !! configFilePath (daemon_configurer d) = Some old →
  reload_post d bs old o (daemon_Reload d bs o).
Proof. apply Reload_post. Qed.

(** An instance is made only if its configuration file can be opened; if the
    file is gone when it is to be written, the process exits and has changed
    no file. *)
Theorem missing_config (cfg : Haproxy.HaproxyConfig) bs (o : OS) :
  files o !! Haproxy.ConfigPath cfg = None →
  (∀ p o', Haproxy.NewInstance cfg o ≠ Ret (inr p) o') ∧
  ∃ o', Haproxy.Reload (Haproxy.mkHaproxy cfg (mkConfigurer (Haproxy.ConfigPath cfg))) bs o
          = Exit o' ∧ files o' = files o ∧ execs o' = execs o.
Proof.
  intros Hn. destruct o as [fs flts es]. simpl in Hn. split.
  - intros p o'. unfold Haproxy.NewInstance, NewConfigurer, canReadFile, Open, next_fault. m_unfold.
    by destruct flts as [|[|part|part] flts]; simpl; rewrite ?Hn.
  - unfold Haproxy.Reload, WriteConfig, createConfigBackup, ReadFile, next_fault. m_unfold.
    simpl. destruct flts as [|[|part|part] flts]; simpl; rewrite ?Hn; eauto.
Qed.

(** ** Witnesses *)

(** A disk with a configuration file, where the second write fails half way. *)
Definition disk : OS :=
  mkOS {[ "/h.cfg" := "old" ]} [Works; Works; Fails (Some 1)] [].
Definition hap : Haproxy.Haproxy :=
  Haproxy.mkHaproxy (Haproxy.mkHaproxyConfig "/h.cfg" "/h.tpl" "/reload.sh" 5%Z)
    (mkConfigurer "/h.cfg").

Lemma WriteConfig_atomic_witness :
  write_post (mkConfigurer "/h.cfg") "new" "old" disk
    (WriteConfig (mkConfigurer "/h.cfg") "new" disk).
Proof. apply WriteConfig_atomic. vm_compute. reflexivity. Defined.

Lemma Reload_correct_witness :
  reload_post hap "new" "old" disk (daemon_Reload hap "new" disk).
Proof. apply Reload_correct. vm_compute. reflexivity. Defined.
