(* ===== verification/IPAddr.v ===== *)
(** [util/ipaddr/addr.go]: the addresses of the network device.

    The [netlink] package is behind an interface: the class [Netlink] over a state [net]
    of the kernel's network configuration, with the laws [NetlinkLaws] that the program
    relies on ([ip addr add], [ip addr del] and [ip addr show] for one device).
    [Rtnetlink] is the vendored implementation, and proves them. *)

From Stdlib Require Import Ascii.
From stdpp Require Import gmap strings list pretty.
From S2P Require Import Prelude GoStrings.

Local Open Scope Z_scope.

(** [net.IP] and [net.IPMask]: byte slices. *)
Definition IP : Type := list Z.
Definition IPMask : Type := list Z.

(** [net.IP.To4]: an address of four bytes, or one of sixteen that holds one. *)
Definition To4 (ip : IP) : option IP :=
  if decide (length ip = 4%nat) then Some ip
  else if decide (length ip = 16%nat ∧ take 12 ip = replicate 10 0 ++ [255; 255])
       then Some (drop 12 ip) else None.

Definition uitoa (b : Z) : string := pretty (Z.to_N b).

Fixpoint dotted (bs : list Z) : string :=
  match bs with
  | [] => ""
  | [b] => uitoa b
  | b :: bs => uitoa b +:+ "." +:+ dotted bs
  end.

(** [net.IP.String] of an IPv4 address; [other] is the text of any other slice of
    bytes, which the program has no use of. *)
Definition IP_String (other : IP → string) (ip : IP) : string :=
  match To4 ip with
  | Some ip4 => dotted ip4
  | None => other ip
  end.

(** [net.CIDRMask]; [nil] is the empty mask. *)
Fixpoint mask_bytes (l : nat) (n : Z) : IPMask :=
  match l with
  | O => []
  | S l =>
      if decide (8 ≤ n) then 255 :: mask_bytes l (n - 8)
      else (255 - Z.shiftr 255 n) :: mask_bytes l 0
  end.
Definition CIDRMask (ones bits : Z) : IPMask :=
  if decide (bits = 32 ∨ bits = 128) then
    if decide (0 ≤ ones ≤ bits) then mask_bytes (Z.to_nat (bits / 8)) ones else []
  else [].

Definition DefaultMask : IPMask := CIDRMask 32 32.

Record IPNet := mkIPNet { ipnet_IP : IP; ipnet_Mask : IPMask }.

(** * The interface of package netlink *)

(** The attributes of a link that the program reads. *)
Record Link := mkLink { Attrs_Name : string; Attrs_Flags : Z; Attrs_Index : Z }.

Record Addr := mkAddr { addr_IPNet : IPNet; addr_Label : string }.

Definition FAMILY_V4 : Z := 2.
Definition FlagUp : Z := 1.

Class Netlink (net : Type) := {
  LinkByName : string → M net (error + Link);
  AddrAdd : Link → Addr → M net (option error);
  AddrDel : Link → Addr → M net (option error);
  AddrList : Link → Z → M net (error + list Addr);
  IP_other : IP → string
}.

(** An IPv4 address as the kernel reports it. *)
Definition is_ip4 (ip : IP) : Prop := length ip = 4%nat ∧ Forall (λ b, 0 ≤ b < 256) ip.

(** What is documented of the calls, for a link that has an index: [bound n l] are the
    IPv4 networks of the device, address and mask; listing reads them, adding and
    deleting change them.  A call without an error has changed the device; one with an
    error may have. *)
Class NetlinkLaws (net : Type) `{!Netlink net} := {
  bound : net → Link → list IPNet;
  bound_ip4 n l a : a ∈ bound n l → is_ip4 (ipnet_IP a);
  AddrList_spec n l : ∃ r n', AddrList l FAMILY_V4 n = Ret r n' ∧ bound n' l = bound n l ∧
    match r with inl _ => True | inr addrs => Attrs_Index l ≠ 0 → addr_IPNet <$> addrs = bound n l end;
  AddrAdd_spec n l ip p : is_ip4 ip → 0 ≤ p ≤ 32 → Attrs_Index l ≠ 0 →
    let a := mkIPNet ip (CIDRMask p 32) in
    ∃ err n' (done : Prop), AddrAdd l (mkAddr a "") n = Ret err n' ∧ (err = None → done) ∧
      ∀ b, b ∈ bound n' l ↔ done ∧ b = a ∨ b ∈ bound n l;
  AddrDel_spec n l ip p : is_ip4 ip → 0 ≤ p ≤ 32 → Attrs_Index l ≠ 0 →
    let a := mkIPNet ip (CIDRMask p 32) in
    ∃ err n' (done : Prop), AddrDel l (mkAddr a "") n = Ret err n' ∧ (err = None → done) ∧
      ∀ b, b ∈ bound n' l ↔ ¬ (done ∧ b = a) ∧ b ∈ bound n l
}.

(** * The runner *)
Record runner := mkRunner { link : Link }.

Section Runner.
Context {net : Type} `{!Netlink net}.

Definition New (device : string) : M net (error + runner) :=
  r ← LinkByName device;
  match r with
  | inl err => mret (inl (Errorf ("failed to find netlink named " +:+ device)))
  | inr link =>
      if decide (Z.land (Attrs_Flags link) FlagUp = 0)
      then mret (inl (Errorf "netlink %!s(MISSING) is DOWN, please make sure the netlink is up"))
      else mret (inr (mkRunner link))
  end.

Definition AddAddr (runner : runner) (ip : IP) : M net (option error) :=
  let addr := mkAddr (mkIPNet ip DefaultMask) "" in
  err ← AddrAdd (link runner) addr;
  match err : option error with
  | Some err => mret (Some err)
  | None => mret None
  end.

Definition DeleteAddr (runner : runner) (ip : IP) : M net (option error) :=
  let addr := mkAddr (mkIPNet ip DefaultMask) "" in
  err ← AddrDel (link runner) addr;
  match err : option error with
  | Some err => mret (Some err)
  | None => mret None
  end.

Definition GetAddrs (runner : runner) : M net (error + gmap string bool) :=
  r ← AddrList (link runner) FAMILY_V4;
  match r with
  | inl err =>
      mret (inl (Errorf ("failed to list address of netlink " +:+ Attrs_Name (link runner))))
  | inr addrList =>
      mret (inr (foldl (λ ips addr,
        let ip := ipnet_IP (addr_IPNet addr) in
        <[IP_String IP_other ip := true]> ips) ∅ addrList))
  end.
End Runner.
