(* ===== verification/Nl.v ===== *)
(** Package [nl] of [vishvananda/netlink] ([nl/nl_linux.go], [nl/addr_linux.go]): messages
    to the kernel, a request on a socket of its own, and reading what is answered.

    The kernel is a parameter: the class [Kernel] has the system calls on a netlink
    socket.  Bytes are [Z]s from 0 to 255; a struct that the code casts to bytes is laid
    out by [put], in the byte order of the machine ([Endian]). *)

From Stdlib Require Import Ascii.
From stdpp Require Import strings list pretty numbers.
From S2P Require Import Prelude GoStrings Strconv IPAddr.

Local Open Scope Z_scope.

(** * Bytes *)

Class Endian := big_endian : bool.

Fixpoint le (n : nat) (z : Z) : list Z :=
  match n with
  | O => []
  | S n => z mod 256 :: le n (z / 256)
  end.
Definition of_le (bs : list Z) : Z := foldr (λ b z, b + 256 * z) 0 bs.

(** An integer of [n] bytes in memory. *)
Definition put `{!Endian} (n : nat) (z : Z) : list Z := if big_endian then reverse (le n z) else le n z.
Definition get_bytes `{!Endian} (bs : list Z) : Z := of_le (if big_endian then reverse bs else bs).

(** The bytes of [b] from [i], [n] of them. *)
Definition at_ (i n : nat) (b : list Z) : list Z := take n (drop i b).

(** A slice of bytes that was read from the kernel: what it has, and the rest of its
    buffer.  [s[0:n]] may go past the end of the slice, but not of the buffer; [None] is
    its panic. *)
Record slice := mkSlice { sl : list Z; beyond : list Z }.
Definition upto (n : nat) (s : slice) : option (list Z) :=
  if decide (length (sl s ++ beyond s) < n)%nat then None else Some (take n (sl s ++ beyond s)).

(** * syscall constants *)
Definition NETLINK_ROUTE : Z := 0.
Definition RTM_NEWLINK : Z := 16.
Definition RTM_GETLINK : Z := 18.
Definition RTM_NEWADDR : Z := 20.
Definition RTM_DELADDR : Z := 21.
Definition RTM_GETADDR : Z := 22.
Definition NLM_F_REQUEST : Z := 1.
Definition NLM_F_MULTI : Z := 2.
Definition NLM_F_ACK : Z := 4.
Definition NLM_F_DUMP : Z := 768.
Definition NLM_F_CREATE : Z := 1024.
Definition NLM_F_EXCL : Z := 512.
Definition NLMSG_ERROR : Z := 2.
Definition NLMSG_DONE : Z := 3.
Definition IFA_ADDRESS : Z := 1.
Definition IFA_LOCAL : Z := 2.
Definition IFA_LABEL : Z := 3.
Definition IFA_FLAGS : Z := 8.
Definition IFLA_ADDRESS : Z := 1.
Definition IFLA_IFNAME : Z := 3.
Definition IFLA_MTU : Z := 4.
Definition IFLA_LINK : Z := 5.
Definition IFLA_MASTER : Z := 10.
Definition IFLA_TXQLEN : Z := 13.
Definition IFLA_LINKINFO : Z := 18.
Definition IFLA_IFALIAS : Z := 20.
Definition FAMILY_ALL : Z := 0.
Definition FAMILY_V6 : Z := 10.
Definition SizeofNlMsghdr : nat := 16.
(** An [Errno]: the program only passes it on, compares and prints it; here it is named by
    its number. *)
Definition Errno (n : Z) : error := Errorf ("errno " +:+ pretty n).
Definition ENODEV : error := Errno 19.
Definition EINVAL : error := Errno 22.

(** * The parameter: the kernel *)
Class Kernel (K : Type) := {
  Socket : Z → M K (error + Z);
  Bind : Z → M K (option error);
  Close : Z → M K unit;
  Sendto : Z → list Z → M K (option error);
  Recvfrom : Z → nat → M K (error + list Z);
  (** the port of the socket, if it is a netlink socket *)
  Getsockname : Z → M K (error + option Z);
  Getpagesize : nat;
  (** how many datagrams are waiting on a socket *)
  waiting : K → Z → nat;
  IP_text : IP → string
}.

(** * nl/nl_linux.go: data of a request *)

Definition GetIPFamily (ip : IP) : Z :=
  if decide (length ip <= 4)%nat then FAMILY_V4
  else match To4 ip with
       | Some _ => FAMILY_V4
       | None => FAMILY_V6
       end.

Record IfInfomsg := mkIfInfomsg {
  ifi_Family : Z; ifi_Type : Z; ifi_Index : Z; ifi_Flags : Z; ifi_Change : Z
}.
Definition NewIfInfomsg (family : Z) : IfInfomsg := mkIfInfomsg (family mod 256) 0 0 0 0.

Record IfAddrmsg := mkIfAddrmsg {
  ifa_Family : Z; ifa_Prefixlen : Z; ifa_Flags : Z; ifa_Scope : Z; ifa_Index : Z
}.
Definition NewIfAddrmsg (family : Z) : IfAddrmsg := mkIfAddrmsg (family mod 256) 0 0 0 0.

(** [RtAttr] with its data and children, and the two structs: the implementations of the
    interface [NetlinkRequestData] that addresses use. *)
Inductive NetlinkRequestData : Type :=
| ND_IfInfomsg (msg : IfInfomsg)
| ND_IfAddrmsg (msg : IfAddrmsg)
| ND_RtAttr (Type_ : Z) (Data : list Z) (children : list NetlinkRequestData).

Definition NewRtAttr (attrType : Z) (data : list Z) : NetlinkRequestData :=
  ND_RtAttr (attrType mod 65536) data [].

Definition rtaAlignOf (attrlen : Z) : Z := Z.land (attrlen + 4 - 1) (Z.lnot (4 - 1)).

Fixpoint data_Len (d : NetlinkRequestData) : Z :=
  match d with
  | ND_IfInfomsg _ => 16
  | ND_IfAddrmsg _ => 8
  | ND_RtAttr _ data children =>
      match children with
      | [] => 4 + Z.of_nat (length data)
      | _ =>
          let l := foldr (λ n l, rtaAlignOf n + l) 0 (List.map data_Len children) in
          rtaAlignOf (l + 4 + Z.of_nat (length data))
      end
  end.

Section Messages.
Context {en : Endian}.

Definition IfInfomsg_Serialize (msg : IfInfomsg) : list Z :=
  put 1 (ifi_Family msg) ++ [0] ++ put 2 (ifi_Type msg) ++ put 4 (ifi_Index msg) ++
  put 4 (ifi_Flags msg) ++ put 4 (ifi_Change msg).
Definition IfAddrmsg_Serialize (msg : IfAddrmsg) : list Z :=
  put 1 (ifa_Family msg) ++ put 1 (ifa_Prefixlen msg) ++ put 1 (ifa_Flags msg) ++
  put 1 (ifa_Scope msg) ++ put 4 (ifa_Index msg).

(** [DeserializeIfAddrmsg]; [None] is the panic of the slice expression. *)
Definition DeserializeIfAddrmsg (s : slice) : option IfAddrmsg :=
  match upto 8 s with
  | None => None
  | Some b => Some (mkIfAddrmsg (get_bytes (at_ 0 1 b)) (get_bytes (at_ 1 1 b)) (get_bytes (at_ 2 1 b))
               (get_bytes (at_ 3 1 b)) (get_bytes (at_ 4 4 b)))
  end.

(** The sign of an integer of four bytes. *)
Definition int32 (z : Z) : Z := (z + 2 ^ 31) mod 2 ^ 32 - 2 ^ 31.
Definition DeserializeIfInfomsg (s : slice) : option IfInfomsg :=
  match upto 16 s with
  | None => None
  | Some b => Some (mkIfInfomsg (get_bytes (at_ 0 1 b)) (get_bytes (at_ 2 2 b)) (int32 (get_bytes (at_ 4 4 b)))
               (get_bytes (at_ 8 4 b)) (get_bytes (at_ 12 4 b)))
  end.

(** [copy(buf[i:], data)]. *)
Definition copy (i : Z) (data buf : list Z) : list Z := list_inserts (Z.to_nat i) data buf.

(** [Serialize] of each kind of data; for an attribute, a buffer that is filled in. *)
Fixpoint data_Serialize (d : NetlinkRequestData) : list Z :=
  match d with
  | ND_IfInfomsg msg => IfInfomsg_Serialize msg
  | ND_IfAddrmsg msg => IfAddrmsg_Serialize msg
  | ND_RtAttr Type_ data children =>
      let len := data_Len d in
      let buf := replicate (Z.to_nat (rtaAlignOf len)) 0 in
      let buf := copy 4 data buf in
      let next := 4 + rtaAlignOf (Z.of_nat (length data)) in
      let buf := (foldl (λ st childBuf,
        (copy st.2 childBuf st.1, st.2 + rtaAlignOf (Z.of_nat (length childBuf))))
        (buf, next) (List.map data_Serialize children)).1 in
      let buf := if decide (len mod 65536 = 0) then buf else copy 0 (put 2 len) buf in
      copy 2 (put 2 Type_) buf
  end.

(** [syscall.NlMsghdr]. *)
Record NlMsghdr := mkNlMsghdr { hdr_Len : Z; hdr_Type : Z; hdr_Flags : Z; hdr_Seq : Z; hdr_Pid : Z }.
Definition hdr_bytes (h : NlMsghdr) : list Z :=
  put 4 (hdr_Len h) ++ put 2 (hdr_Type h) ++ put 2 (hdr_Flags h) ++ put 4 (hdr_Seq h) ++ put 4 (hdr_Pid h).

Record NetlinkRequest := mkNetlinkRequest { req_hdr : NlMsghdr; req_Data : list NetlinkRequestData }.

Definition AddData (data : NetlinkRequestData) (req : NetlinkRequest) : NetlinkRequest :=
  mkNetlinkRequest (req_hdr req) (req_Data req ++ [data]).

Definition set_Len (n : Z) (h : NlMsghdr) : NlMsghdr :=
  mkNlMsghdr (n mod 2 ^ 32) (hdr_Type h) (hdr_Flags h) (hdr_Seq h) (hdr_Pid h).
Definition Serialize (req : NetlinkRequest) : list Z :=
  let dataBytes := data_Serialize <$> req_Data req in
  let len := foldl (λ n b, n + Z.of_nat (length b)) (Z.of_nat SizeofNlMsghdr) dataBytes in
  hdr_bytes (set_Len len (req_hdr req)) ++ concat dataBytes.

(** ** Reading messages

    [syscall.ParseNetlinkMessage] of the standard library, and [ParseRouteAttr].  Each
    turn of a loop drops bytes, so as many turns as there are bytes are enough. *)
Record NetlinkMessage := mkNetlinkMessage { Header : NlMsghdr; Data : slice }.

Definition read_hdr (b : list Z) : NlMsghdr :=
  mkNlMsghdr (get_bytes (at_ 0 4 b)) (get_bytes (at_ 4 2 b)) (get_bytes (at_ 6 2 b))
    (get_bytes (at_ 8 4 b)) (get_bytes (at_ 12 4 b)).

Fixpoint ParseNetlinkMessage_loop (fuel : nat) (b rest : list Z) : error + list NetlinkMessage :=
  match fuel with
  | O => inr []
  | S fuel =>
      if decide (length b < SizeofNlMsghdr)%nat then inr []
      else
        let h := read_hdr b in
        let l := rtaAlignOf (hdr_Len h) in
        if bool_decide (hdr_Len h < 16) || bool_decide (Z.of_nat (length b) < l) then inl EINVAL
        else
          match ParseNetlinkMessage_loop fuel (drop (Z.to_nat l) b) rest with
          | inl err => inl err
          | inr ms =>
              let n := Z.to_nat (hdr_Len h) in
              inr (mkNetlinkMessage h (mkSlice (at_ 16 (n - 16) b) (drop n b ++ rest)) :: ms)
          end
  end.
Definition ParseNetlinkMessage (b : slice) : error + list NetlinkMessage :=
  ParseNetlinkMessage_loop (length (sl b)) (sl b) (beyond b).

Record NetlinkRouteAttr := mkNetlinkRouteAttr { attr_Type : Z; attr_Value : slice }.

(** [None] is the panic of [b[alen:]] when the padding of an attribute is missing. *)
Fixpoint ParseRouteAttr_loop (fuel : nat) (b rest : list Z) : option (error + list NetlinkRouteAttr) :=
  match fuel with
  | O => Some (inr [])
  | S fuel =>
      if decide (length b < 4)%nat then Some (inr [])
      else
        let len := get_bytes (at_ 0 2 b) in
        if bool_decide (len < 4) || bool_decide (Z.of_nat (length b) < len) then Some (inl EINVAL)
        else
          let alen := rtaAlignOf len in
          if decide (Z.of_nat (length b) < alen) then None
          else
            match ParseRouteAttr_loop fuel (drop (Z.to_nat alen) b) rest with
            | Some (inr attrs) =>
                let n := Z.to_nat len in
                Some (inr (mkNetlinkRouteAttr (get_bytes (at_ 2 2 b))
                  (mkSlice (at_ 4 (n - 4) b) (drop n b ++ rest)) :: attrs))
            | r => r
            end
  end.
Definition ParseRouteAttr (b : slice) : option (error + list NetlinkRouteAttr) :=
  ParseRouteAttr_loop (length (sl b)) (sl b) (beyond b).
End Messages.

(** * Requests

    The state: the kernel, and the variables of the packages, which are the counter of
    sequence numbers and whether links have to be looked up in a dump. *)
Record netlink (K : Type) := mkNetlink { kernel : K; nextSeqNr : Z; lookupByDump : bool }.
Arguments mkNetlink {K} _ _ _.
Arguments kernel {K} _.
Arguments nextSeqNr {K} _.
Arguments lookupByDump {K} _.

(** The bytes of a string. *)
Fixpoint bytes_of (s : string) : list Z :=
  match s with
  | EmptyString => []
  | String c s => Z.of_N (N_of_ascii c) :: bytes_of s
  end.
Definition ZeroTerminated (s : string) : list Z := bytes_of s ++ [0].
Definition string_of (bs : list Z) : string :=
  foldr (λ b s, String (ascii_of_N (Z.to_N b)) s) EmptyString bs.

Section Netlink.
Context {en : Endian} {K : Type} `{!Kernel K}.
Local Abbreviation netlink := (netlink K).

Definition set_kernel k (n : netlink) : netlink := mkNetlink k (nextSeqNr n) (lookupByDump n).
Definition on_kernel {A} (m : M K A) : M netlink A := zoom kernel set_kernel m.

Definition NewNetlinkRequest (proto flags : Z) : M netlink NetlinkRequest := λ n,
  let seq := (nextSeqNr n + 1) mod 2 ^ 32 in
  Ret (mkNetlinkRequest (mkNlMsghdr 16 (proto mod 65536) (Z.lor NLM_F_REQUEST (flags mod 65536)) seq 0) [])
    (mkNetlink (kernel n) seq (lookupByDump n)).

(** [getNetlinkSocket]: the file descriptor. *)
Definition getNetlinkSocket (protocol : Z) : M netlink (error + Z) :=
  r ← on_kernel (Socket protocol);
  match r with
  | inl err => mret (inl err)
  | inr fd =>
      err ← on_kernel (Bind fd);
      match err : option error with
      | Some err => on_kernel (Close fd) ;; mret (inl err)
      | None => mret (inr fd)
      end
  end.

Definition Send (fd : Z) (request : NetlinkRequest) : M netlink (option error) :=
  on_kernel (Sendto fd (Serialize request)).

Definition Receive (fd : Z) : M netlink (error + list NetlinkMessage) :=
  r ← on_kernel (Recvfrom fd Getpagesize);
  match r with
  | inl err => mret (inl err)
  | inr rb =>
      if decide (length rb < 16)%nat then mret (inl (Errorf "Got short response from netlink"))
      else mret (ParseNetlinkMessage (mkSlice rb (replicate (Getpagesize - length rb) 0)))
  end.

Definition GetPid (fd : Z) : M netlink (error + Z) :=
  r ← on_kernel (Getsockname fd);
  match r with
  | inl err => mret (inl err)
  | inr (Some pid) => mret (inr pid)
  | inr None => mret (inl (Errorf "Wrong socket type"))
  end.

(** The loop over the messages of one datagram: a result, or the messages that have been
    kept so far. *)
Fixpoint scan (msgs : list NetlinkMessage) (seq pid resType : Z) (res : list slice)
    : M netlink ((error + list slice) + list slice) :=
  match msgs with
  | [] => mret (inr res)
  | m :: msgs =>
      if decide (hdr_Seq (Header m) ≠ seq) then
        mret (inl (inl (Errorf ("Wrong Seq nr " +:+ pretty (hdr_Seq (Header m)) +:+ ", expected 1"))))
      else if decide (hdr_Pid (Header m) ≠ pid) then
        mret (inl (inl (Errorf ("Wrong pid " +:+ pretty (hdr_Pid (Header m)) +:+ ", expected " +:+ pretty pid))))
      else if decide (hdr_Type (Header m) = NLMSG_DONE) then mret (inl (inr res))
      else if decide (hdr_Type (Header m) = NLMSG_ERROR) then
        match upto 4 (Data m) with
        | None => panic "slice bounds out of range"
        | Some b =>
            let error := int32 (get_bytes b) in
            if decide (error = 0) then mret (inl (inr res)) else mret (inl (inl (Errno (- error))))
        end
      else if bool_decide (resType ≠ 0) && bool_decide (hdr_Type (Header m) ≠ resType) then
        scan msgs seq pid resType res
      else
        let res := res ++ [Data m] in
        if decide (Z.land (hdr_Flags (Header m)) NLM_F_MULTI = 0) then mret (inl (inr res))
        else scan msgs seq pid resType res
  end.

(** The loop over the datagrams; a receive on a socket without a datagram does not
    return, so one turn more than there are datagrams is enough. *)
Fixpoint receive_loop (fuel : nat) (fd seq pid resType : Z) (res : list slice)
    : M netlink (error + list slice) :=
  match fuel with
  | O => λ n, Block n
  | S fuel =>
      msgs ← Receive fd;
      match msgs with
      | inl err => mret (inl err)
      | inr msgs =>
          r ← scan msgs seq pid resType res;
          match r with
          | inl r => mret r
          | inr res => receive_loop fuel fd seq pid resType res
          end
      end
  end.

(** [defer s.Close()]. *)
Definition close (fd : Z) (n : netlink) : netlink := final (on_kernel (Close fd) n).

Definition Execute (sockType resType : Z) (req : NetlinkRequest) : M netlink (error + list slice) :=
  s ← getNetlinkSocket sockType;
  match s with
  | inl err => mret (inl err)
  | inr fd =>
      deferred (close fd) (
        err ← Send fd req;
        match err : option error with
        | Some err => mret (inl err)
        | None =>
            p ← GetPid fd;
            match p with
            | inl err => mret (inl err)
            | inr pid =>
                n ← get;
                receive_loop (S (waiting (kernel n) fd)) fd (hdr_Seq (req_hdr req)) pid resType []
            end
        end)
  end.

End Netlink.
