(* ===== verification/NetlinkLink.v ===== *)
(** [link.go] and [link_linux.go] of [vishvananda/netlink], as far as [LinkByName] needs
    them: asking the kernel for a link by its name, or for all links when it does not know
    how, and decoding what it answers.

    Decoding runs in the monad [M] over any state, since it may panic: an attribute can be
    shorter than what is read of it. *)

From Stdlib Require Import Ascii.
From stdpp Require Import strings list numbers.
From S2P Require Import Prelude GoStrings IPAddr Nl.

Local Open Scope Z_scope.

(** * link.go *)

Inductive namespace : Type := NsPid (pid : Z) | NsFd (fd : Z).

Record LinkAttrs := mkLinkAttrs {
  Index : Z; MTU : Z; TxQLen : Z; Name : string; HardwareAddr : list Z; Flags : Z;
  ParentIndex : Z; MasterIndex : Z; Namespace : option namespace; Alias : string
}.
Record Vxlan := mkVxlan {
  VxlanId : Z; VtepDevIndex : Z; SrcAddr : IP; Group : IP; TTL : Z; TOS : Z;
  Learning : bool; Proxy : bool; RSC : bool; L2miss : bool; L3miss : bool; UDPCSum : bool; NoAge : bool; GBP : bool;
  Age : Z; Limit : Z; Port : Z; PortLow : Z; PortHigh : Z
}.
Record Gretap := mkGretap {
  IKey : Z; OKey : Z; EncapSport : Z; EncapDport : Z; Local : IP; Remote : IP; IFlags : Z; OFlags : Z;
  PMtuDisc : Z; Ttl : Z; Tos : Z; EncapType : Z; EncapFlags : Z; gre_Link : Z
}.

(** What the kinds of links have besides the attributes.  The options of a bond are left
    out: no function that is modelled changes those of a link ([parseBondData]). *)
Inductive Kind : Type :=
| Device | Dummy | Ifb | Bridge
| Vlan (VlanId : Z)
| Macvlan (Mode : Z)
| Macvtap (Mode : Z)
| Veth (PeerName : string)
| GenericLink (LinkType : string)
| VxlanLink (vxlan : Vxlan)
| IPVlan (Mode : Z)
| Bond
| GretapLink (gre : Gretap).
Record Link := mkLink { Attrs : LinkAttrs; kind : Kind }.

Definition Type_ (link : Link) : string :=
  match kind link with
  | Device => "device" | Dummy => "dummy" | Ifb => "ifb" | Bridge => "bridge" | Vlan _ => "vlan"
  | Macvlan _ => "macvlan" | Macvtap _ => "macvtap" | Veth _ => "veth" | GenericLink t => t
  | VxlanLink _ => "vxlan" | IPVlan _ => "ipvlan" | Bond => "bond" | GretapLink _ => "gretap"
  end.

(** [&Vxlan{}] and [&Gretap{}]. *)
Definition zero_Vxlan : Vxlan :=
  mkVxlan 0 0 [] [] 0 0 false false false false false false false false 0 0 0 0 0.
Definition zero_Gretap : Gretap := mkGretap 0 0 0 0 [] [] 0 0 0 0 0 0 0 0.

Definition set_MTU v a := mkLinkAttrs (Index a) v (TxQLen a) (Name a) (HardwareAddr a) (Flags a) (ParentIndex a)
  (MasterIndex a) (Namespace a) (Alias a).
Definition set_TxQLen v a := mkLinkAttrs (Index a) (MTU a) v (Name a) (HardwareAddr a) (Flags a) (ParentIndex a)
  (MasterIndex a) (Namespace a) (Alias a).
Definition set_Name v a := mkLinkAttrs (Index a) (MTU a) (TxQLen a) v (HardwareAddr a) (Flags a) (ParentIndex a)
  (MasterIndex a) (Namespace a) (Alias a).
Definition set_HardwareAddr v a := mkLinkAttrs (Index a) (MTU a) (TxQLen a) (Name a) v (Flags a) (ParentIndex a)
  (MasterIndex a) (Namespace a) (Alias a).
Definition set_ParentIndex v a := mkLinkAttrs (Index a) (MTU a) (TxQLen a) (Name a) (HardwareAddr a) (Flags a) v
  (MasterIndex a) (Namespace a) (Alias a).
Definition set_MasterIndex v a := mkLinkAttrs (Index a) (MTU a) (TxQLen a) (Name a) (HardwareAddr a) (Flags a)
  (ParentIndex a) v (Namespace a) (Alias a).
Definition set_Alias v a := mkLinkAttrs (Index a) (MTU a) (TxQLen a) (Name a) (HardwareAddr a) (Flags a)
  (ParentIndex a) (MasterIndex a) (Namespace a) v.

Definition set_VxlanId v x := mkVxlan v (VtepDevIndex x) (SrcAddr x) (Group x) (TTL x) (TOS x) (Learning x)
  (Proxy x) (RSC x) (L2miss x) (L3miss x) (UDPCSum x) (NoAge x) (GBP x) (Age x) (Limit x) (Port x) (PortLow x)
  (PortHigh x).
Definition set_VtepDevIndex v x := mkVxlan (VxlanId x) v (SrcAddr x) (Group x) (TTL x) (TOS x) (Learning x)
  (Proxy x) (RSC x) (L2miss x) (L3miss x) (UDPCSum x) (NoAge x) (GBP x) (Age x) (Limit x) (Port x) (PortLow x)
  (PortHigh x).
Definition set_SrcAddr v x := mkVxlan (VxlanId x) (VtepDevIndex x) v (Group x) (TTL x) (TOS x) (Learning x)
  (Proxy x) (RSC x) (L2miss x) (L3miss x) (UDPCSum x) (NoAge x) (GBP x) (Age x) (Limit x) (Port x) (PortLow x)
  (PortHigh x).
Definition set_Group v x := mkVxlan (VxlanId x) (VtepDevIndex x) (SrcAddr x) v (TTL x) (TOS x) (Learning x)
  (Proxy x) (RSC x) (L2miss x) (L3miss x) (UDPCSum x) (NoAge x) (GBP x) (Age x) (Limit x) (Port x) (PortLow x)
  (PortHigh x).
Definition set_TTL v x := mkVxlan (VxlanId x) (VtepDevIndex x) (SrcAddr x) (Group x) v (TOS x) (Learning x)
  (Proxy x) (RSC x) (L2miss x) (L3miss x) (UDPCSum x) (NoAge x) (GBP x) (Age x) (Limit x) (Port x) (PortLow x)
  (PortHigh x).
Definition set_TOS v x := mkVxlan (VxlanId x) (VtepDevIndex x) (SrcAddr x) (Group x) (TTL x) v (Learning x)
  (Proxy x) (RSC x) (L2miss x) (L3miss x) (UDPCSum x) (NoAge x) (GBP x) (Age x) (Limit x) (Port x) (PortLow x)
  (PortHigh x).
Definition set_Learning v x := mkVxlan (VxlanId x) (VtepDevIndex x) (SrcAddr x) (Group x) (TTL x) (TOS x) v
  (Proxy x) (RSC x) (L2miss x) (L3miss x) (UDPCSum x) (NoAge x) (GBP x) (Age x) (Limit x) (Port x) (PortLow x)
  (PortHigh x).
Definition set_Proxy v x := mkVxlan (VxlanId x) (VtepDevIndex x) (SrcAddr x) (Group x) (TTL x) (TOS x)
  (Learning x) v (RSC x) (L2miss x) (L3miss x) (UDPCSum x) (NoAge x) (GBP x) (Age x) (Limit x) (Port x)
  (PortLow x) (PortHigh x).
Definition set_RSC v x := mkVxlan (VxlanId x) (VtepDevIndex x) (SrcAddr x) (Group x) (TTL x) (TOS x)
  (Learning x) (Proxy x) v (L2miss x) (L3miss x) (UDPCSum x) (NoAge x) (GBP x) (Age x) (Limit x) (Port x)
  (PortLow x) (PortHigh x).
Definition set_L2miss v x := mkVxlan (VxlanId x) (VtepDevIndex x) (SrcAddr x) (Group x) (TTL x) (TOS x)
  (Learning x) (Proxy x) (RSC x) v (L3miss x) (UDPCSum x) (NoAge x) (GBP x) (Age x) (Limit x) (Port x)
  (PortLow x) (PortHigh x).
Definition set_L3miss v x := mkVxlan (VxlanId x) (VtepDevIndex x) (SrcAddr x) (Group x) (TTL x) (TOS x)
  (Learning x) (Proxy x) (RSC x) (L2miss x) v (UDPCSum x) (NoAge x) (GBP x) (Age x) (Limit x) (Port x)
  (PortLow x) (PortHigh x).
Definition set_UDPCSum v x := mkVxlan (VxlanId x) (VtepDevIndex x) (SrcAddr x) (Group x) (TTL x) (TOS x)
  (Learning x) (Proxy x) (RSC x) (L2miss x) (L3miss x) v (NoAge x) (GBP x) (Age x) (Limit x) (Port x)
  (PortLow x) (PortHigh x).
Definition set_NoAge v x := mkVxlan (VxlanId x) (VtepDevIndex x) (SrcAddr x) (Group x) (TTL x) (TOS x)
  (Learning x) (Proxy x) (RSC x) (L2miss x) (L3miss x) (UDPCSum x) v (GBP x) (Age x) (Limit x) (Port x)
  (PortLow x) (PortHigh x).
Definition set_GBP v x := mkVxlan (VxlanId x) (VtepDevIndex x) (SrcAddr x) (Group x) (TTL x) (TOS x)
  (Learning x) (Proxy x) (RSC x) (L2miss x) (L3miss x) (UDPCSum x) (NoAge x) v (Age x) (Limit x) (Port x)
  (PortLow x) (PortHigh x).
Definition set_Age v x := mkVxlan (VxlanId x) (VtepDevIndex x) (SrcAddr x) (Group x) (TTL x) (TOS x)
  (Learning x) (Proxy x) (RSC x) (L2miss x) (L3miss x) (UDPCSum x) (NoAge x) (GBP x) v (Limit x) (Port x)
  (PortLow x) (PortHigh x).
Definition set_Limit v x := mkVxlan (VxlanId x) (VtepDevIndex x) (SrcAddr x) (Group x) (TTL x) (TOS x)
  (Learning x) (Proxy x) (RSC x) (L2miss x) (L3miss x) (UDPCSum x) (NoAge x) (GBP x) (Age x) v (Port x)
  (PortLow x) (PortHigh x).
Definition set_Port v x := mkVxlan (VxlanId x) (VtepDevIndex x) (SrcAddr x) (Group x) (TTL x) (TOS x)
  (Learning x) (Proxy x) (RSC x) (L2miss x) (L3miss x) (UDPCSum x) (NoAge x) (GBP x) (Age x) (Limit x) v
  (PortLow x) (PortHigh x).

Definition set_IKey v g := mkGretap v (OKey g) (EncapSport g) (EncapDport g) (Local g) (Remote g) (IFlags g)
  (OFlags g) (PMtuDisc g) (Ttl g) (Tos g) (EncapType g) (EncapFlags g) (gre_Link g).
Definition set_OKey v g := mkGretap (IKey g) v (EncapSport g) (EncapDport g) (Local g) (Remote g) (IFlags g)
  (OFlags g) (PMtuDisc g) (Ttl g) (Tos g) (EncapType g) (EncapFlags g) (gre_Link g).
Definition set_EncapSport v g := mkGretap (IKey g) (OKey g) v (EncapDport g) (Local g) (Remote g) (IFlags g)
  (OFlags g) (PMtuDisc g) (Ttl g) (Tos g) (EncapType g) (EncapFlags g) (gre_Link g).
Definition set_EncapDport v g := mkGretap (IKey g) (OKey g) (EncapSport g) v (Local g) (Remote g) (IFlags g)
  (OFlags g) (PMtuDisc g) (Ttl g) (Tos g) (EncapType g) (EncapFlags g) (gre_Link g).
Definition set_Local v g := mkGretap (IKey g) (OKey g) (EncapSport g) (EncapDport g) v (Remote g) (IFlags g)
  (OFlags g) (PMtuDisc g) (Ttl g) (Tos g) (EncapType g) (EncapFlags g) (gre_Link g).
Definition set_Remote v g := mkGretap (IKey g) (OKey g) (EncapSport g) (EncapDport g) (Local g) v (IFlags g)
  (OFlags g) (PMtuDisc g) (Ttl g) (Tos g) (EncapType g) (EncapFlags g) (gre_Link g).
Definition set_IFlags v g := mkGretap (IKey g) (OKey g) (EncapSport g) (EncapDport g) (Local g) (Remote g) v
  (OFlags g) (PMtuDisc g) (Ttl g) (Tos g) (EncapType g) (EncapFlags g) (gre_Link g).
Definition set_OFlags v g := mkGretap (IKey g) (OKey g) (EncapSport g) (EncapDport g) (Local g) (Remote g)
  (IFlags g) v (PMtuDisc g) (Ttl g) (Tos g) (EncapType g) (EncapFlags g) (gre_Link g).
Definition set_PMtuDisc v g := mkGretap (IKey g) (OKey g) (EncapSport g) (EncapDport g) (Local g) (Remote g)
  (IFlags g) (OFlags g) v (Ttl g) (Tos g) (EncapType g) (EncapFlags g) (gre_Link g).
Definition set_Ttl v g := mkGretap (IKey g) (OKey g) (EncapSport g) (EncapDport g) (Local g) (Remote g)
  (IFlags g) (OFlags g) (PMtuDisc g) v (Tos g) (EncapType g) (EncapFlags g) (gre_Link g).
Definition set_Tos v g := mkGretap (IKey g) (OKey g) (EncapSport g) (EncapDport g) (Local g) (Remote g)
  (IFlags g) (OFlags g) (PMtuDisc g) (Ttl g) v (EncapType g) (EncapFlags g) (gre_Link g).
Definition set_EncapType v g := mkGretap (IKey g) (OKey g) (EncapSport g) (EncapDport g) (Local g) (Remote g)
  (IFlags g) (OFlags g) (PMtuDisc g) (Ttl g) (Tos g) v (EncapFlags g) (gre_Link g).
Definition set_EncapFlags v g := mkGretap (IKey g) (OKey g) (EncapSport g) (EncapDport g) (Local g) (Remote g)
  (IFlags g) (OFlags g) (PMtuDisc g) (Ttl g) (Tos g) (EncapType g) v (gre_Link g).

(** * nl/link_linux.go *)
Definition IFLA_INFO_KIND : Z := 1.
Definition IFLA_INFO_DATA : Z := 2.
Definition IFLA_VLAN_ID : Z := 1.
Definition IFLA_IPVLAN_MODE : Z := 1.
Definition IFLA_MACVLAN_MODE : Z := 1.
Definition IFLA_VXLAN_ID : Z := 1.
Definition IFLA_VXLAN_LINK : Z := 3.
Definition IFLA_VXLAN_LOCAL : Z := 4.
Definition IFLA_VXLAN_LOCAL6 : Z := 17.
Definition IFLA_VXLAN_GROUP : Z := 2.
Definition IFLA_VXLAN_GROUP6 : Z := 16.
Definition IFLA_VXLAN_TTL : Z := 5.
Definition IFLA_VXLAN_TOS : Z := 6.
Definition IFLA_VXLAN_LEARNING : Z := 7.
Definition IFLA_VXLAN_PROXY : Z := 11.
Definition IFLA_VXLAN_RSC : Z := 12.
Definition IFLA_VXLAN_L2MISS : Z := 13.
Definition IFLA_VXLAN_L3MISS : Z := 14.
Definition IFLA_VXLAN_UDP_CSUM : Z := 18.
Definition IFLA_VXLAN_GBP : Z := 23.
Definition IFLA_VXLAN_AGEING : Z := 8.
Definition IFLA_VXLAN_LIMIT : Z := 9.
Definition IFLA_VXLAN_PORT : Z := 15.
Definition IFLA_VXLAN_PORT_RANGE : Z := 10.
Definition IFLA_GRE_OKEY : Z := 5.
Definition IFLA_GRE_IKEY : Z := 4.
Definition IFLA_GRE_LOCAL : Z := 6.
Definition IFLA_GRE_REMOTE : Z := 7.
Definition IFLA_GRE_ENCAP_SPORT : Z := 16.
Definition IFLA_GRE_ENCAP_DPORT : Z := 17.
Definition IFLA_GRE_IFLAGS : Z := 2.
Definition IFLA_GRE_OFLAGS : Z := 3.
Definition IFLA_GRE_TTL : Z := 8.
Definition IFLA_GRE_TOS : Z := 9.
Definition IFLA_GRE_PMTUDISC : Z := 10.
Definition IFLA_GRE_ENCAP_TYPE : Z := 14.
Definition IFLA_GRE_ENCAP_FLAGS : Z := 15.
Definition IFLA_BOND_MODE : Z := 1.
Definition IFLA_BOND_ACTIVE_SLAVE : Z := 2.
Definition IFLA_BOND_MIIMON : Z := 3.
Definition IFLA_BOND_UPDELAY : Z := 4.
Definition IFLA_BOND_DOWNDELAY : Z := 5.
Definition IFLA_BOND_USE_CARRIER : Z := 6.
Definition IFLA_BOND_ARP_INTERVAL : Z := 7.
Definition IFLA_BOND_ARP_VALIDATE : Z := 9.
Definition IFLA_BOND_ARP_ALL_TARGETS : Z := 10.
Definition IFLA_BOND_PRIMARY : Z := 11.
Definition IFLA_BOND_PRIMARY_RESELECT : Z := 12.
Definition IFLA_BOND_FAIL_OVER_MAC : Z := 13.
Definition IFLA_BOND_XMIT_HASH_POLICY : Z := 14.
Definition IFLA_BOND_RESEND_IGMP : Z := 15.
Definition IFLA_BOND_NUM_PEER_NOTIF : Z := 16.
Definition IFLA_BOND_ALL_SLAVES_ACTIVE : Z := 17.
Definition IFLA_BOND_MIN_LINKS : Z := 18.
Definition IFLA_BOND_LP_INTERVAL : Z := 19.
Definition IFLA_BOND_PACKETS_PER_SLAVE : Z := 20.
Definition IFLA_BOND_AD_LACP_RATE : Z := 21.
Definition IFLA_BOND_AD_SELECT : Z := 22.

(** * link_linux.go *)

(** ** Decoding *)
Section Decoding.
Context {en : Endian} {S : Type}.

(** [v[0:n]] and [v[0]]. *)
Definition upto_ (n : nat) (v : slice) : M S (list Z) :=
  match upto n v with None => panic "slice bounds out of range" | Some b => mret b end.
Definition index0 (v : slice) : M S Z :=
  match sl v with [] => panic "index out of range" | b :: _ => mret b end.
Definition nonzero (v : slice) : M S bool := b ← index0 v; mret (bool_decide (b ≠ 0)).
(** In the byte order of the machine, and of the network. *)
Definition Uint16 (v : slice) : M S Z := b ← upto_ 2 v; mret (get_bytes b).
Definition Uint32 (v : slice) : M S Z := b ← upto_ 4 v; mret (get_bytes b).
Definition ntohs (v : slice) : M S Z := b ← upto_ 2 v; mret (of_le (reverse b)).
Definition ntohl (v : slice) : M S Z := b ← upto_ 4 v; mret (of_le (reverse b)).
(** [string(v[:len(v)-1])]: a text without the zero at its end. *)
Definition text_of (v : slice) : M S string :=
  match sl v with
  | [] => panic "slice bounds out of range"
  | _ => mret (string_of (take (length (sl v) - 1) (sl v)))
  end.
Definition route_attrs (v : slice) : M S (error + list NetlinkRouteAttr) :=
  match ParseRouteAttr v with None => panic "slice bounds out of range" | Some r => mret r end.

(** A loop over attributes that changes a struct. *)
Fixpoint each {A} (f : Z → slice → A → M S A) (data : list NetlinkRouteAttr) (a : A) : M S A :=
  match data with
  | [] => mret a
  | datum :: data => a ← f (attr_Type datum) (attr_Value datum) a; each f data a
  end.

Definition vlan_attr (t : Z) (v : slice) (VlanId : Z) : M S Z :=
  if decide (t = IFLA_VLAN_ID) then Uint16 v else mret VlanId.
Definition parseVlanData (link : option Kind) (data : list NetlinkRouteAttr) : M S (option Kind) :=
  match link with
  | Some (Vlan i) => i ← each vlan_attr data i; mret (Some (Vlan i))
  | _ => panic "interface conversion"
  end.

(** [binary.Read] of the port range succeeds, and the ports are set if it does not. *)
Definition vxlan_attr (t : Z) (v : slice) (x : Vxlan) : M S Vxlan :=
  if decide (t = IFLA_VXLAN_ID) then b ← Uint32 v; mret (set_VxlanId b x)
  else if decide (t = IFLA_VXLAN_LINK) then b ← Uint32 v; mret (set_VtepDevIndex b x)
  else if decide (t = IFLA_VXLAN_LOCAL) then b ← upto_ 4 v; mret (set_SrcAddr b x)
  else if decide (t = IFLA_VXLAN_LOCAL6) then b ← upto_ 16 v; mret (set_SrcAddr b x)
  else if decide (t = IFLA_VXLAN_GROUP) then b ← upto_ 4 v; mret (set_Group b x)
  else if decide (t = IFLA_VXLAN_GROUP6) then b ← upto_ 16 v; mret (set_Group b x)
  else if decide (t = IFLA_VXLAN_TTL) then b ← index0 v; mret (set_TTL b x)
  else if decide (t = IFLA_VXLAN_TOS) then b ← index0 v; mret (set_TOS b x)
  else if decide (t = IFLA_VXLAN_LEARNING) then b ← nonzero v; mret (set_Learning b x)
  else if decide (t = IFLA_VXLAN_PROXY) then b ← nonzero v; mret (set_Proxy b x)
  else if decide (t = IFLA_VXLAN_RSC) then b ← nonzero v; mret (set_RSC b x)
  else if decide (t = IFLA_VXLAN_L2MISS) then b ← nonzero v; mret (set_L2miss b x)
  else if decide (t = IFLA_VXLAN_L3MISS) then b ← nonzero v; mret (set_L3miss b x)
  else if decide (t = IFLA_VXLAN_UDP_CSUM) then b ← nonzero v; mret (set_UDPCSum b x)
  else if decide (t = IFLA_VXLAN_GBP) then b ← nonzero v; mret (set_GBP b x)
  else if decide (t = IFLA_VXLAN_AGEING) then b ← Uint32 v; mret (set_NoAge (bool_decide (b = 0)) (set_Age b x))
  else if decide (t = IFLA_VXLAN_LIMIT) then b ← Uint32 v; mret (set_Limit b x)
  else if decide (t = IFLA_VXLAN_PORT) then b ← Uint16 v; mret (set_Port b x)
  else if decide (t = IFLA_VXLAN_PORT_RANGE) then upto_ 4 v ;; mret x
  else mret x.
Definition parseVxlanData (link : option Kind) (data : list NetlinkRouteAttr) : M S (option Kind) :=
  match link with
  | Some (VxlanLink x) => x ← each vxlan_attr data x; mret (Some (VxlanLink x))
  | _ => panic "interface conversion"
  end.

(** What is read goes into a new bond, which is dropped. *)
Definition bond_attr (t : Z) (v : slice) (_ : unit) : M S unit :=
  if decide (t ∈ [IFLA_BOND_MODE; IFLA_BOND_USE_CARRIER; IFLA_BOND_PRIMARY_RESELECT; IFLA_BOND_FAIL_OVER_MAC;
      IFLA_BOND_XMIT_HASH_POLICY; IFLA_BOND_NUM_PEER_NOTIF; IFLA_BOND_ALL_SLAVES_ACTIVE;
      IFLA_BOND_AD_LACP_RATE; IFLA_BOND_AD_SELECT]) then index0 v ;; mret tt
  else if decide (t ∈ [IFLA_BOND_ACTIVE_SLAVE; IFLA_BOND_MIIMON; IFLA_BOND_UPDELAY; IFLA_BOND_DOWNDELAY;
      IFLA_BOND_ARP_INTERVAL; IFLA_BOND_ARP_VALIDATE; IFLA_BOND_ARP_ALL_TARGETS; IFLA_BOND_PRIMARY;
      IFLA_BOND_RESEND_IGMP; IFLA_BOND_MIN_LINKS; IFLA_BOND_LP_INTERVAL; IFLA_BOND_PACKETS_PER_SLAVE]) then Uint32 v ;; mret tt
  else mret tt.
Definition parseBondData (link : option Kind) (data : list NetlinkRouteAttr) : M S (option Kind) :=
  each bond_attr data tt ;; mret link.

Fixpoint ipvlan_loop (data : list NetlinkRouteAttr) (Mode : Z) : M S Z :=
  match data with
  | [] => mret Mode
  | datum :: data =>
      if decide (attr_Type datum = IFLA_IPVLAN_MODE) then b ← Uint32 (attr_Value datum); mret (b mod 2 ^ 16)
      else ipvlan_loop data Mode
  end.
Definition parseIPVlanData (link : option Kind) (data : list NetlinkRouteAttr) : M S (option Kind) :=
  match link with
  | Some (IPVlan m) => m ← ipvlan_loop data m; mret (Some (IPVlan m))
  | _ => panic "interface conversion"
  end.

(** The modes of the kernel are powers of two, those of the package are numbered. *)
Definition macvlan_mode (b Mode : Z) : Z :=
  if decide (b = 1) then 1 else if decide (b = 2) then 2 else if decide (b = 4) then 3
  else if decide (b = 8) then 4 else if decide (b = 16) then 5 else Mode.
Fixpoint macvlan_loop (data : list NetlinkRouteAttr) (Mode : Z) : M S Z :=
  match data with
  | [] => mret Mode
  | datum :: data =>
      if decide (attr_Type datum = IFLA_MACVLAN_MODE) then b ← Uint32 (attr_Value datum); mret (macvlan_mode b Mode)
      else macvlan_loop data Mode
  end.
Definition parseMacvlanData (link : option Kind) (data : list NetlinkRouteAttr) : M S (option Kind) :=
  match link with
  | Some (Macvlan m) => m ← macvlan_loop data m; mret (Some (Macvlan m))
  | _ => panic "interface conversion"
  end.
Definition parseMacvtapData (link : option Kind) (data : list NetlinkRouteAttr) : M S (option Kind) :=
  match link with
  | Some (Macvtap m) => m ← macvlan_loop data m; mret (Some (Macvtap m))
  | _ => panic "interface conversion"
  end.

(** The two keys are exchanged. *)
Definition gretap_attr (t : Z) (v : slice) (g : Gretap) : M S Gretap :=
  if decide (t = IFLA_GRE_OKEY) then b ← ntohl v; mret (set_IKey b g)
  else if decide (t = IFLA_GRE_IKEY) then b ← ntohl v; mret (set_OKey b g)
  else if decide (t = IFLA_GRE_LOCAL) then b ← upto_ 4 v; mret (set_Local b g)
  else if decide (t = IFLA_GRE_REMOTE) then b ← upto_ 4 v; mret (set_Remote b g)
  else if decide (t = IFLA_GRE_ENCAP_SPORT) then b ← ntohs v; mret (set_EncapSport b g)
  else if decide (t = IFLA_GRE_ENCAP_DPORT) then b ← ntohs v; mret (set_EncapDport b g)
  else if decide (t = IFLA_GRE_IFLAGS) then b ← ntohs v; mret (set_IFlags b g)
  else if decide (t = IFLA_GRE_OFLAGS) then b ← ntohs v; mret (set_OFlags b g)
  else if decide (t = IFLA_GRE_TTL) then b ← index0 v; mret (set_Ttl b g)
  else if decide (t = IFLA_GRE_TOS) then b ← index0 v; mret (set_Tos b g)
  else if decide (t = IFLA_GRE_PMTUDISC) then b ← index0 v; mret (set_PMtuDisc b g)
  else if decide (t = IFLA_GRE_ENCAP_TYPE) then b ← Uint16 v; mret (set_EncapType b g)
  else if decide (t = IFLA_GRE_ENCAP_FLAGS) then b ← Uint16 v; mret (set_EncapFlags b g)
  else mret g.
Definition parseGretapData (link : option Kind) (data : list NetlinkRouteAttr) : M S (option Kind) :=
  match link with
  | Some (GretapLink g) => g ← each gretap_attr data g; mret (Some (GretapLink g))
  | _ => panic "interface conversion"
  end.

(** The two switches on the kind. *)
Definition kind_of (linkType : string) : Kind :=
  if decide (linkType = "dummy") then Dummy
  else if decide (linkType = "ifb") then Ifb
  else if decide (linkType = "bridge") then Bridge
  else if decide (linkType = "vlan") then Vlan 0
  else if decide (linkType = "veth") then Veth ""
  else if decide (linkType = "vxlan") then VxlanLink zero_Vxlan
  else if decide (linkType = "bond") then Bond
  else if decide (linkType = "ipvlan") then IPVlan 0
  else if decide (linkType = "macvlan") then Macvlan 0
  else if decide (linkType = "macvtap") then Macvtap 0
  else if decide (linkType = "gretap") then GretapLink zero_Gretap
  else GenericLink linkType.
Definition parse_data (linkType : string) (link : option Kind) (data : list NetlinkRouteAttr) : M S (option Kind) :=
  if decide (linkType = "vlan") then parseVlanData link data
  else if decide (linkType = "vxlan") then parseVxlanData link data
  else if decide (linkType = "bond") then parseBondData link data
  else if decide (linkType = "ipvlan") then parseIPVlanData link data
  else if decide (linkType = "macvlan") then parseMacvlanData link data
  else if decide (linkType = "macvtap") then parseMacvtapData link data
  else if decide (linkType = "gretap") then parseGretapData link data
  else mret link.

(** The loops of [linkDeserialize]: over the attributes of [IFLA_LINKINFO], with the link
    and its type so far, and over the attributes of the message. *)
Fixpoint info_loop (infos : list NetlinkRouteAttr) (link : option Kind) (linkType : string)
    : M S (error + (option Kind * string)) :=
  match infos with
  | [] => mret (inr (link, linkType))
  | info :: infos =>
      if decide (attr_Type info = IFLA_INFO_KIND) then
        linkType ← text_of (attr_Value info);
        info_loop infos (Some (kind_of linkType)) linkType
      else if decide (attr_Type info = IFLA_INFO_DATA) then
        data ← route_attrs (attr_Value info);
        match data with
        | inl err => mret (inl err)
        | inr data => link ← parse_data linkType link data; info_loop infos link linkType
        end
      else info_loop infos link linkType
  end.

(** A case of the switch that sets an attribute of the link. *)
Definition base_attr (t : Z) (v : slice) (base : LinkAttrs) : M S LinkAttrs :=
  if decide (t = IFLA_ADDRESS) then
    mret (if decide (Exists (λ b, b ≠ 0) (sl v)) then set_HardwareAddr (sl v) base else base)
  else if decide (t = IFLA_IFNAME) then name ← text_of v; mret (set_Name name base)
  else if decide (t = IFLA_MTU) then b ← Uint32 v; mret (set_MTU b base)
  else if decide (t = IFLA_LINK) then b ← Uint32 v; mret (set_ParentIndex b base)
  else if decide (t = IFLA_MASTER) then b ← Uint32 v; mret (set_MasterIndex b base)
  else if decide (t = IFLA_TXQLEN) then b ← Uint32 v; mret (set_TxQLen b base)
  else if decide (t = IFLA_IFALIAS) then alias ← text_of v; mret (set_Alias alias base)
  else mret base.
Fixpoint link_loop (attrs : list NetlinkRouteAttr) (base : LinkAttrs) (link : option Kind) (linkType : string)
    : M S (error + (LinkAttrs * option Kind)) :=
  match attrs with
  | [] => mret (inr (base, link))
  | attr :: attrs =>
      if decide (attr_Type attr = IFLA_LINKINFO) then
        infos ← route_attrs (attr_Value attr);
        match infos with
        | inl err => mret (inl err)
        | inr infos =>
            r ← info_loop infos link linkType;
            match r with
            | inl err => mret (inl err)
            | inr (link, linkType) => link_loop attrs base link linkType
            end
        end
      else
        base ← base_attr (attr_Type attr) (attr_Value attr) base;
        link_loop attrs base link linkType
  end.

(** The flags of [syscall] and of [net]. *)
Definition linkFlags (rawFlags : Z) : Z :=
  foldr (λ f flags, if decide (Z.land rawFlags f.1 = 0) then flags else Z.lor f.2 flags) 0
    [(1, 1); (2, 2); (8, 4); (16, 8); (4096, 16)].

Definition zero_attrs (index flags : Z) : LinkAttrs := mkLinkAttrs index 0 0 "" [] flags 0 0 None "".
Definition linkDeserialize (m : slice) : M S (error + Link) :=
  match DeserializeIfInfomsg m with
  | None => panic "slice bounds out of range"
  | Some msg =>
      if decide (length (sl m) < 16)%nat then panic "slice bounds out of range"
      else
        attrs ← route_attrs (mkSlice (drop 16 (sl m)) (beyond m));
        match attrs with
        | inl err => mret (inl err)
        | inr attrs =>
            r ← link_loop attrs (zero_attrs (ifi_Index msg) (linkFlags (ifi_Flags msg))) None "";
            match r with
            | inl err => mret (inl err)
            | inr (base, link) => mret (inr (mkLink base (default Device link)))
            end
        end
  end.
Fixpoint deserialize_all (msgs : list slice) : M S (error + list Link) :=
  match msgs with
  | [] => mret (inr [])
  | m :: msgs =>
      l ← linkDeserialize m;
      match l with
      | inl err => mret (inl err)
      | inr l =>
          r ← deserialize_all msgs;
          match r with inl err => mret (inl err) | inr res => mret (inr (l :: res)) end
      end
  end.
End Decoding.

(** ** Asking *)
Section Asking.
Context {en : Endian} {K : Type} `{!Kernel K}.
Local Abbreviation netlink := (netlink K).

Definition not_found : error := Errorf "Link not found".
Definition execGetLink (req : NetlinkRequest) : M netlink (error + Link) :=
  r ← Execute NETLINK_ROUTE 0 req;
  match r with
  | inl err => mret (inl (if decide (err = ENODEV) then not_found else err))
  | inr [] => mret (inl not_found)
  | inr [m] => linkDeserialize m
  | inr _ => mret (inl (Errorf "More than one link found"))
  end.

Definition LinkList : M netlink (error + list Link) :=
  req ← NewNetlinkRequest RTM_GETLINK NLM_F_DUMP;
  r ← Execute NETLINK_ROUTE RTM_NEWLINK (AddData (ND_IfInfomsg (NewIfInfomsg 0)) req);
  match r with
  | inl err => mret (inl err)
  | inr msgs => deserialize_all msgs
  end.

Definition linkByNameDump (name : string) : M netlink (error + Link) :=
  links ← LinkList;
  match links with
  | inl err => mret (inl err)
  | inr links =>
      mret match List.find (λ link, bool_decide (Name (Attrs link) = name)) links with
           | Some link => inr link
           | None => inl (Errorf ("Link " +:+ name +:+ " not found"))
           end
  end.

Definition set_lookupByDump (b : bool) (n : netlink) : netlink := mkNetlink (kernel n) (nextSeqNr n) b.

(** The request for a link by its name. *)
Definition name_request (name : string) (req : NetlinkRequest) : NetlinkRequest :=
  AddData (NewRtAttr IFLA_IFNAME (ZeroTerminated name)) (AddData (ND_IfInfomsg (NewIfInfomsg 0)) req).
Definition LinkByName (name : string) : M netlink (error + Link) :=
  n ← get;
  if lookupByDump n then linkByNameDump name
  else
    req ← NewNetlinkRequest RTM_GETLINK NLM_F_ACK;
    link ← execGetLink (name_request name req);
    match link with
    | inl err =>
        if decide (err = EINVAL) then modify (set_lookupByDump true) ;; linkByNameDump name
        else mret (inl err)
    | inr link => mret (inr link)
    end.
End Asking.
