(* ===== verification/Rtnetlink.v ===== *)
(** [addr.go] and [addr_linux.go] of [vishvananda/netlink]: adding, deleting and listing the
    addresses of a device, over [Nl] and [NetlinkLink]; and the class of [IPAddr] with the
    functions of this package. *)

From Stdlib Require Import Ascii.
From stdpp Require Import strings list pretty numbers.
From S2P Require Import Prelude GoStrings Strconv IPAddr Nl.
From S2P Require NetlinkLink.

Local Open Scope Z_scope.

(** * addr.go *)

(** [netlink.Addr]; a nil [IPNet] is [None]. *)
Record Addr := mkAddr { IPNet_ : option IPNet; Label : string; Flags : Z; Scope : Z }.

(** [net.IPMask.Size]: the ones and the bits, 0 and 0 for a mask that is not ones and
    then zeros. *)
Fixpoint leading_ones (n : nat) (v : Z) : Z :=
  match n with
  | O => 0
  | S n => if Z.testbit v 7 then 1 + leading_ones n (Z.land (2 * v) 255) else 0
  end.
Fixpoint simpleMaskLength (mask : IPMask) : Z :=
  match mask with
  | [] => 0
  | v :: mask =>
      if decide (v = 255) then
        let n := simpleMaskLength mask in if decide (n = -1) then -1 else 8 + n
      else
        let n := leading_ones 8 v in
        if decide (Z.land (Z.shiftl v n) 255 ≠ 0) then -1
        else if decide (Exists (λ b, b ≠ 0) mask) then -1 else n
  end.
Definition Mask_Size (mask : IPMask) : Z * Z :=
  let n := simpleMaskLength mask in
  if decide (n = -1) then (0, 0) else (n, 8 * Z.of_nat (length mask)).

(** [net.IP.To16]. *)
Definition To16 (ip : IP) : IP :=
  if decide (length ip = 4%nat) then replicate 10 0 ++ [255; 255] ++ ip
  else if decide (length ip = 16%nat) then ip else [].

Section Netlink.
Context {en : Endian} {K : Type} `{!Kernel K}.
Local Abbreviation netlink := (netlink K).

(** * addr_linux.go *)

(** [ensureIndex] on a copy of the attributes: the link of the program comes from
    [LinkByName] and has its index, so that there is nothing to set. *)
Definition ensureIndex (base : Link) : M netlink Link :=
  if decide (Attrs_Index base = 0) then
    r ← NetlinkLink.LinkByName (Attrs_Name base);
    match r with
    | inl err => mret base
    | inr newlink => mret (mkLink (Attrs_Name base) (Attrs_Flags base) (NetlinkLink.Index (NetlinkLink.Attrs newlink)))
    end
  else mret base.

(** The message of [addrHandle]; an address without an [IPNet] is a nil pointer. *)
Definition addr_request (base : Link) (ipnet : IPNet) (addr : Addr) (req : NetlinkRequest) : NetlinkRequest :=
  let family := GetIPFamily (ipnet_IP ipnet) in
  let prefixlen := (Mask_Size (ipnet_Mask ipnet)).1 in
  let msg := mkIfAddrmsg (ifa_Family (NewIfAddrmsg family)) (prefixlen mod 256) 0 (Scope addr mod 256)
    (Attrs_Index base mod 2 ^ 32) in
  let req := AddData (ND_IfAddrmsg msg) req in
  let addrData := if decide (family = FAMILY_V4) then default [] (To4 (ipnet_IP ipnet))
                  else To16 (ipnet_IP ipnet) in
  let req := AddData (NewRtAttr IFA_LOCAL addrData) req in
  let req := AddData (NewRtAttr IFA_ADDRESS addrData) req in
  let req := if decide (Flags addr ≠ 0) then AddData (NewRtAttr IFA_FLAGS (put 4 (Flags addr))) req else req in
  if decide (Label addr ≠ "") then AddData (NewRtAttr IFA_LABEL (ZeroTerminated (Label addr))) req else req.

Definition addrHandle (link : Link) (addr : Addr) (req : NetlinkRequest) : M netlink (option error) :=
  if bool_decide (Label addr ≠ "") && negb (HasPrefix (Label addr) (Attrs_Name link)) then
    mret (Some (Errorf "label must begin with interface name"))
  else
    base ← ensureIndex link;
    match IPNet_ addr with
    | None => panic "invalid memory address or nil pointer dereference"
    | Some ipnet =>
        r ← Execute NETLINK_ROUTE 0 (addr_request base ipnet addr req);
        match r with
        | inl err => mret (Some err)
        | inr _ => mret None
        end
    end.

Definition AddrAdd (link : Link) (addr : Addr) : M netlink (option error) :=
  req ← NewNetlinkRequest RTM_NEWADDR (Z.lor (Z.lor NLM_F_CREATE NLM_F_EXCL) NLM_F_ACK);
  addrHandle link addr req.
Definition AddrDel (link : Link) (addr : Addr) : M netlink (option error) :=
  req ← NewNetlinkRequest RTM_DELADDR NLM_F_ACK;
  addrHandle link addr req.

(** The loop of [AddrList] over the attributes of a message: [local], [dst], the label
    and the flags. *)
Fixpoint attr_loop (prefixlen : Z) (attrs : list NetlinkRouteAttr) (local dst : option IPNet)
    (label : string) (flags : Z) : M netlink (option IPNet * option IPNet * string * Z) :=
  match attrs with
  | [] => mret (local, dst, label, flags)
  | attr :: attrs =>
      let value := attr_Value attr in
      let net := Some (mkIPNet (sl value) (CIDRMask prefixlen (8 * Z.of_nat (length (sl value))))) in
      if decide (attr_Type attr = IFA_ADDRESS) then attr_loop prefixlen attrs local net label flags
      else if decide (attr_Type attr = IFA_LOCAL) then attr_loop prefixlen attrs net dst label flags
      else if decide (attr_Type attr = IFA_LABEL) then
        if decide (sl value = []) then panic "slice bounds out of range"
        else attr_loop prefixlen attrs local dst (string_of (take (length (sl value) - 1) (sl value))) flags
      else if decide (attr_Type attr = IFA_FLAGS) then
        match upto 4 value with
        | None => panic "slice bounds out of range"
        | Some b => attr_loop prefixlen attrs local dst label (get_bytes b)
        end
      else attr_loop prefixlen attrs local dst label flags
  end.

(** The loop of [AddrList] over the messages. *)
Fixpoint msg_loop (index family : Z) (msgs : list slice) (res : list Addr) : M netlink (error + list Addr) :=
  match msgs with
  | [] => mret (inr res)
  | m :: msgs =>
      match DeserializeIfAddrmsg m with
      | None => panic "slice bounds out of range"
      | Some msg =>
          if decide (ifa_Index msg ≠ index mod 2 ^ 32) then msg_loop index family msgs res
          else if bool_decide (family ≠ FAMILY_ALL) && bool_decide (ifa_Family msg ≠ family mod 256)
          then msg_loop index family msgs res
          else if decide (length (sl m) < 8)%nat then panic "slice bounds out of range"
          else
            match ParseRouteAttr (mkSlice (drop 8 (sl m)) (beyond m)) with
            | None => panic "slice bounds out of range"
            | Some (inl err) => mret (inl err)
            | Some (inr attrs) =>
                r ← attr_loop (ifa_Prefixlen msg) attrs None None "" 0;
                let '(local, dst, label, flags) := r in
                let ipnet := match local with Some _ => local | None => dst end in
                msg_loop index family msgs (res ++ [mkAddr ipnet label flags (ifa_Scope msg)])
            end
      end
  end.

(** [AddrList] with a link; the program never passes nil. *)
Definition AddrList (link : Link) (family : Z) : M netlink (error + list Addr) :=
  req ← NewNetlinkRequest RTM_GETADDR NLM_F_DUMP;
  let req := AddData (ND_IfInfomsg (NewIfInfomsg family)) req in
  r ← Execute NETLINK_ROUTE RTM_NEWADDR req;
  match r with
  | inl err => mret (inl err)
  | inr msgs =>
      base ← ensureIndex link;
      msg_loop (Attrs_Index base) family msgs []
  end.

(** * The interface of the program

    [IPAddr.Netlink], with the operations of this package.  The program makes addresses
    without flags and scope, and reads their [IPNet]s; of a link it reads the name, the
    flags and the index. *)
Definition plain_addr (addr : IPAddr.Addr) : Addr := mkAddr (Some (addr_IPNet addr)) (addr_Label addr) 0 0.

Fixpoint read_addrs (addrs : list Addr) : M netlink (error + list IPAddr.Addr) :=
  match addrs with
  | [] => mret (inr [])
  | a :: addrs =>
      match IPNet_ a with
      | None => panic "invalid memory address or nil pointer dereference"
      | Some ipnet =>
          r ← read_addrs addrs;
          match r with
          | inl err => mret (inl err)
          | inr l => mret (inr (IPAddr.mkAddr ipnet (Label a) :: l))
          end
      end
  end.

Definition read_link (link : NetlinkLink.Link) : Link :=
  let a := NetlinkLink.Attrs link in mkLink (NetlinkLink.Name a) (NetlinkLink.Flags a) (NetlinkLink.Index a).

#[export] Instance vishvananda_netlink : IPAddr.Netlink netlink := {|
  LinkByName name := r ← NetlinkLink.LinkByName name;
    match r with inl err => mret (inl err) | inr link => mret (inr (read_link link)) end;
  IPAddr.AddrAdd l a := AddrAdd l (plain_addr a);
  IPAddr.AddrDel l a := AddrDel l (plain_addr a);
  IPAddr.AddrList l family := r ← AddrList l family;
    match r with inl err => mret (inl err) | inr addrs => read_addrs addrs end;
  IP_other := IP_text |}.
End Netlink.
