(* ===== verification/IPAddrProps.v ===== *)
(** The properties of the device's addresses: the map that [GetAddrs] returns
    answers for an IPv4 address, by its text, whether the device has it. *)

From Stdlib Require Import Ascii.
From stdpp Require Import gmap strings list pretty.
From S2P Require Import Prelude GoStrings IPAddr.

Local Open Scope Z_scope.

Definition dot : ascii := ".".

(** The text of a byte has no dot, and different bytes have different texts. *)
Lemma uitoa_no_dot b : 0 ≤ b < 256 → has_byte dot (uitoa b) = false.
Proof.
  intros Hb. replace b with (Z.of_nat (Z.to_nat b)) by lia.
  assert (Z.to_nat b < 256)%nat as Hn by lia. revert Hn. generalize (Z.to_nat b). intros n Hn.
  assert (Forall (λ n, has_byte dot (uitoa (Z.of_nat n)) = false) (seq 0 256)) as Hall.
  { by apply (bool_decide_unpack _); vm_compute. }
  rewrite Forall_forall in Hall. apply Hall, elem_of_seq. lia.
Qed.

Lemma uitoa_inj b b' : 0 ≤ b → 0 ≤ b' → uitoa b = uitoa b' → b = b'.
Proof. unfold uitoa. intros ?? ?%(inj pretty). lia. Qed.

Lemma dotted_inj bs bs' :
  Forall (λ b, 0 ≤ b < 256) bs → Forall (λ b, 0 ≤ b < 256) bs' → length bs = length bs' →
  dotted bs = dotted bs' → bs = bs'.
Proof.
  revert bs'. induction bs as [|b bs IH]; intros [|b' bs'] Hbs Hbs' Hl Heq; try done.
  apply Forall_cons in Hbs as [Hb Hbs], Hbs' as [Hb' Hbs'].
  destruct bs as [|c bs], bs' as [|c' bs']; try done; cbn [dotted] in Heq.
  - f_equal. apply uitoa_inj; lia || done.
  - apply (head_inj dot) in Heq as [Heq1 Heq2]; [|by apply uitoa_no_dot..].
    apply uitoa_inj in Heq1 as ->; [|lia..]. f_equal. by apply IH; [| |simpl in *; lia|].
Qed.

Lemma IP_String_ip4 other ip : is_ip4 ip → IP_String other ip = dotted ip.
Proof. intros [Hl _]. unfold IP_String, To4. by rewrite decide_True. Qed.

Lemma IP_String_inj other ip ip' :
  is_ip4 ip → is_ip4 ip' → IP_String other ip = IP_String other ip' → ip = ip'.
Proof.
  intros Hip Hip'. rewrite !IP_String_ip4 by done. destruct Hip, Hip'.
  apply dotted_inj; congruence.
Qed.

(** The keys of a map made by inserting [true] in a loop. *)
Lemma keys_of_loop {A} (f : A → string) xs (m : gmap string bool) k :
  foldl (λ m x, <[f x := true]> m) m xs !! k =
  if decide (k ∈ f <$> xs) then Some true else m !! k.
Proof.
  revert m. induction xs as [|x xs IH]; intros m; cbn [foldl].
  - by rewrite decide_False by (intros H; inversion H).
  - rewrite IH. rewrite fmap_cons.
    destruct (decide (k ∈ f <$> xs)); [by rewrite decide_True by set_solver|].
    destruct (decide (k = f x)) as [->|].
    + rewrite lookup_insert_eq, decide_True; [done|set_solver].
    + rewrite lookup_insert_ne, decide_False by set_solver. done.
Qed.

Section Laws.
Context {net : Type} `{!Netlink net, !NetlinkLaws net}.
Implicit Types (n : net) (r : runner) (ip : IP).

(** The map has the texts of the device's addresses as keys. *)
Definition answers n r (m : gmap string bool) : Prop :=
  Attrs_Index (link r) ≠ 0 → ∀ k, m !! k = if decide (k ∈ (dotted ∘ ipnet_IP) <$> bound n (link r)) then Some true else None.

Lemma GetAddrs_spec n r :
  ∃ res n', GetAddrs r n = Ret res n' ∧ bound n' (link r) = bound n (link r) ∧
    match res with inl _ => True | inr m => answers n r m end.
Proof.
  unfold GetAddrs. destruct (AddrList_spec n (link r)) as (res & n' & Hl & Hb & Hres).
  run Hl. destruct res as [err|addrs]; [by eexists _, _|].
  eexists _, _. split; [done|]. split; [done|]. intros Hi k. specialize (Hres Hi). rewrite keys_of_loop, lookup_empty.
  assert ((λ x : Addr, IP_String IP_other (ipnet_IP (addr_IPNet x))) <$> addrs =
    (dotted ∘ ipnet_IP) <$> bound n (link r)) as ->; [|done].
  rewrite <-Hres, <-list_fmap_compose. apply list_fmap_ext. intros i a Ha. simpl.
  apply IP_String_ip4, (bound_ip4 n (link r)). rewrite <-Hres.
  apply list_elem_of_fmap_2, (list_elem_of_lookup_2 _ _ _ Ha).
Qed.

Lemma answers_has n r m ip :
  Attrs_Index (link r) ≠ 0 → answers n r m → is_ip4 ip →
  default false (m !! dotted ip) = true ↔ ∃ a, a ∈ bound n (link r) ∧ ipnet_IP a = ip.
Proof.
  intros Hi Hm Hip. rewrite (Hm Hi). split.
  - case_decide as Hin; [intros _|done]. apply list_elem_of_fmap in Hin as (a & Heq & Ha).
    exists a. split; [done|]. pose proof (bound_ip4 _ _ _ Ha) as [? ?]. destruct Hip.
    apply dotted_inj; [done..|congruence|by rewrite Heq].
  - intros (a & Ha & <-). rewrite decide_True; [done|].
    by apply (list_elem_of_fmap_2 (dotted ∘ ipnet_IP)).
Qed.
End Laws.

(** ** The properties *)

(** For a device that has an index (the ones the kernel knows), the answer of [GetAddrs] for the text of an IPv4 address is whether the
    device has the address, with any mask, and no other string is a key. *)
Theorem GetAddrs_correct {net} `{!Netlink net, !NetlinkLaws net} n r m n' :
  Attrs_Index (link r) ≠ 0 → GetAddrs r n = Ret (inr m) n' →
  (∀ ip, is_ip4 ip →
     default false (m !! dotted ip) = true ↔ ∃ a, a ∈ bound n (link r) ∧ ipnet_IP a = ip) ∧
  (∀ k, is_Some (m !! k) → ∃ ip, is_ip4 ip ∧ k = dotted ip).
Proof.
  destruct (GetAddrs_spec n r) as (res & n'' & -> & _ & Hres). intros Hi [= -> <-]. split.
  - intros ip. by apply answers_has.
  - intros k. rewrite (Hres Hi). case_decide as Hin; [intros _|by intros [? ?]].
    apply list_elem_of_fmap in Hin as (a & -> & Ha). exists (ipnet_IP a).
    split; [by eapply bound_ip4|done].
Qed.

(** Adding an address and deleting it are seen by [GetAddrs]: a listing after a
    call without an error has the address, respectively has it only with
    another mask, and the answer for every other address is unchanged. *)
Theorem AddAddr_roundtrip {net} `{!Netlink net, !NetlinkLaws net} n1 n2 n3 r ip m (add : bool) :
  is_ip4 ip → Attrs_Index (link r) ≠ 0 →
  (if add then AddAddr r ip else DeleteAddr r ip) n1 = Ret None n2 →
  GetAddrs r n2 = Ret (inr m) n3 →
  (default false (m !! dotted ip) = true ↔
     if add then True
     else ∃ a, a ∈ bound n1 (link r) ∧ ipnet_IP a = ip ∧ ipnet_Mask a ≠ DefaultMask) ∧
  ∀ ip', is_ip4 ip' → ip' ≠ ip →
    default false (m !! dotted ip') = true ↔ ∃ a, a ∈ bound n1 (link r) ∧ ipnet_IP a = ip'.
Proof.
  intros Hip Hi Hcall Hget. destruct (GetAddrs_spec n2 r) as (res & n' & Hg & _ & Hres).
  rewrite Hget in Hg. injection Hg as <- _. set (a := mkIPNet ip DefaultMask).
  assert (0 ≤ 32 ≤ 32) as H32 by lia.
  assert (∀ b, b ∈ bound n2 (link r) ↔
    if add then b = a ∨ b ∈ bound n1 (link r) else b ≠ a ∧ b ∈ bound n1 (link r)) as Hb.
  { unfold AddAddr, DeleteAddr in Hcall. destruct add.
    - destruct (AddrAdd_spec n1 (link r) ip 32 Hip H32 Hi) as (err & n & did & Hc & Hd & Hb).
      run Hc in Hcall. destruct err; [done|].
      injection Hcall as ->. intros b. rewrite Hb. specialize (Hd eq_refl). naive_solver.
    - destruct (AddrDel_spec n1 (link r) ip 32 Hip H32 Hi) as (err & n & did & Hc & Hd & Hb).
      run Hc in Hcall. destruct err; [done|].
      injection Hcall as ->. intros b. rewrite Hb. specialize (Hd eq_refl). naive_solver. }
  split; [|intros ip' Hip' Hne]; rewrite (answers_has n2 r m) by done; destruct add.
  - split; [done|intros _]. exists a. by rewrite Hb; auto.
  - split.
    + intros (b & [Hne Hin]%Hb & Heq). exists b. split_and!; [done..|].
      intros Hm. apply Hne. destruct b. simpl in *. by subst.
    + intros (b & Hin & Heq & Hm). exists b. rewrite Hb. split_and!; [|done..]. by intros ->.
  - split; [intros (b & [->|Hin]%Hb & Heq); [by destruct Hne|by exists b]|].
    intros (b & Hin & Heq). exists b. by rewrite Hb; auto.
  - split; [intros (b & [_ Hin]%Hb & Heq); by exists b|].
    intros (b & Hin & <-). exists b. rewrite Hb. split_and!; [|done..]. by intros ->.
Qed.

(** ** Witnesses *)

(** A kernel with one device, where every call works. *)
#[local] Instance IPNet_eq_dec : EqDecision IPNet.
Proof. solve_decision. Defined.
#[local] Instance is_ip4_dec ip : Decision (is_ip4 ip).
Proof. unfold is_ip4. apply _. Defined.

Definition ip4_nets (n : list IPNet) : list IPNet := filter (λ a, is_ip4 (ipnet_IP a)) n.

Definition one_device : Netlink (list IPNet) := {|
  LinkByName dev n := Ret (inr (mkLink dev 1 1)) n;
  AddrAdd _ a n := Ret None (addr_IPNet a :: n);
  AddrDel _ a n := Ret None (filter (λ b, b ≠ addr_IPNet a) n);
  AddrList _ _ n := Ret (inr ((λ a, mkAddr a "") <$> ip4_nets n)) n;
  IP_other _ := "?"
|}.

#[local] Existing Instance one_device.

#[local] Program Instance one_device_laws : NetlinkLaws (list IPNet) := {| bound n _ := ip4_nets n |}.
Next Obligation. intros n l a. unfold ip4_nets. by rewrite list_elem_of_filter; intros [? _]. Qed.
Next Obligation.
  intros n l. eexists _, n. split; [done|]. split; [done|].
  intros _. rewrite <-list_fmap_compose. apply list_fmap_id.
Qed.
Next Obligation.
  intros n l ip p Ha _ _ a. eexists None, _, True. split; [done|]. split; [done|]. intros b. unfold ip4_nets.
  rewrite !list_elem_of_filter. set_solver.
Qed.
Next Obligation.
  intros n l ip p Ha _ _ a. eexists None, _, True. split; [done|]. split; [done|]. intros b. unfold ip4_nets.
  rewrite !list_elem_of_filter. naive_solver.
Qed.

Definition lo_net : IPNet := mkIPNet [127; 0; 0; 1] [255; 0; 0; 0].
Definition lo : runner := mkRunner (mkLink "lo" 1 1).

Lemma GetAddrs_correct_witness :
  default false (({["127.0.0.1" := true]} : gmap string bool) !! dotted [127; 0; 0; 1]) = true ↔
  ∃ a, a ∈ bound [lo_net] (link lo) ∧ ipnet_IP a = [127; 0; 0; 1].
Proof.
  refine (proj1 (GetAddrs_correct [lo_net] lo {["127.0.0.1" := true]} [lo_net] _ _) [127; 0; 0; 1] _).
  - discriminate.
  - vm_compute. reflexivity.
  - apply (bool_decide_unpack _). vm_compute. exact I.
Defined.

Lemma AddAddr_roundtrip_witness :
  default false (({["127.0.0.1" := true]} : gmap string bool) !! dotted [127; 0; 0; 1]) = true ↔
  ∃ a, a ∈ bound [mkIPNet [10; 0; 0; 7] DefaultMask; lo_net] (link lo) ∧ ipnet_IP a = [127; 0; 0; 1].
Proof.
  refine (proj2 (AddAddr_roundtrip [mkIPNet [10; 0; 0; 7] DefaultMask; lo_net] [lo_net] [lo_net]
    lo [10; 0; 0; 7] {["127.0.0.1" := true]} false _ _ _ _) [127; 0; 0; 1] _ _).
  - apply (bool_decide_unpack _). vm_compute. exact I.
  - discriminate.
  - vm_compute. reflexivity.
  - vm_compute. reflexivity.
  - apply (bool_decide_unpack _). vm_compute. exact I.
  - discriminate.
Defined.
