(* ===== verification/RtnetlinkProps.v ===== *)
(** The messages of netlink against the kernel's interface: the format that the
    documentation of rtnetlink describes, parsing of what has been written, and
    requests and answers on a socket.

    [KernelLaws] is that documentation, in terms of the bytes of a message ([nlmsg],
    [rtattr]); [RtnetlinkCalls] goes on from it to the laws that the program relies
    on. *)

From Stdlib Require Import Ascii.
From stdpp Require Import strings pretty numbers list.
From S2P Require Import Prelude GoStrings Strconv IPAddr IPAddrProps Nl.

Local Open Scope Z_scope.

(** ** Integers in memory *)

Lemma length_le n z : length (le n z) = n.
Proof. revert z. induction n as [|n IH]; intros z; simpl; [done|]. by rewrite IH. Qed.

Lemma of_le_le n z : 0 <= z < 256 ^ Z.of_nat n → of_le (le n z) = z.
Proof.
  revert z. induction n as [|n IH]; intros z Hz; [simpl in *; lia|].
  cbn [le of_le foldr]. fold (of_le (le n (z / 256))). rewrite IH.
  - pose proof (Z.div_mod z 256). lia.
  - rewrite Nat2Z.inj_succ, Z.pow_succ_r in Hz by lia. split; [apply Z.div_pos; lia|].
    apply Z.div_lt_upper_bound; lia.
Qed.

(** The bytes depend on the value modulo the width. *)
Lemma le_mod n z : le n (z mod 256 ^ Z.of_nat n) = le n z.
Proof.
  revert z. induction n as [|n IH]; intros z; [done|]. cbn [le].
  assert (0 < 256 ^ Z.of_nat n) by (apply Z.pow_pos_nonneg; lia).
  rewrite Nat2Z.inj_succ, Z.pow_succ_r, Z.rem_mul_r by lia. pose proof (Z.mod_pos_bound z 256).
  set (a := z mod 256) in *. set (b := (z / 256) mod 256 ^ Z.of_nat n).
  replace (a + 256 * b) with (a + b * 256) by lia.
  rewrite Z.mod_add, Z.div_add, (Z.mod_small a), (Z.div_small a) by lia. f_equal. apply IH.
Qed.

Lemma rtaAlignOf_eq n : 0 <= n → rtaAlignOf n = 4 * ((n + 3) / 4).
Proof.
  intros H. unfold rtaAlignOf. change (Z.lnot (4 - 1)) with (Z.lnot (Z.ones 2)).
  rewrite <-Z.ldiff_land, Z.ldiff_ones_r, Z.shiftr_div_pow2, Z.shiftl_mul_pow2 by lia.
  change (2 ^ 2) with 4. replace (n + 4 - 1) with (n + 3) by lia. lia.
Qed.
Lemma rtaAlignOf_4 n : 0 <= n → n mod 4 = 0 → rtaAlignOf n = n.
Proof. intros H Hm. rewrite rtaAlignOf_eq by done. pose proof (Z.div_mod n 4). 
  replace (n + 3) with (3 + n / 4 * 4) by lia. rewrite Z.div_add by lia. change (3 / 4) with 0. lia. Qed.
Lemma rtaAlignOf_bounds n : 0 <= n → n <= rtaAlignOf n < n + 4.
Proof. intros H. rewrite rtaAlignOf_eq by done. pose proof (Z.div_mod (n + 3) 4). pose proof (Z.mod_pos_bound (n + 3) 4). lia. Qed.

Lemma rtaAlignOf_add4 n : 0 <= n → rtaAlignOf (4 + n) = 4 + rtaAlignOf n.
Proof.
  intros H. rewrite !rtaAlignOf_eq by lia. replace (4 + n + 3) with (n + 3 + 1 * 4) by lia.
  rewrite Z.div_add by lia. lia.
Qed.

Lemma rtaAlignOf_16 n : 0 <= n → n mod 4 = 0 → rtaAlignOf (16 + n) = 16 + n.
Proof.
  intros H Hm. replace (16 + n) with (4 + (4 + (4 + (4 + n)))) by lia.
  rewrite !rtaAlignOf_add4, rtaAlignOf_4 by lia. lia.
Qed.

Section Bytes.
Context {en : Endian}.

Lemma length_put n z : length (put n z) = n.
Proof. unfold put. destruct big_endian; by rewrite ?length_reverse, length_le. Qed.
Lemma put_mod n z : put n (z mod 256 ^ Z.of_nat n) = put n z.
Proof. unfold put. by rewrite le_mod. Qed.
Lemma get_put n z : 0 <= z < 256 ^ Z.of_nat n → get_bytes (put n z) = z.
Proof. intros H. unfold get_bytes, put. destruct big_endian; rewrite ?reverse_involutive; by apply of_le_le. Qed.

(** Reading a field past another, and at the head. *)
Lemma at_skip i n (a b : list Z) : (length a <= i)%nat → at_ i n (a ++ b) = at_ (i - length a) n b.
Proof. intros H. unfold at_. by rewrite drop_app_ge. Qed.
Lemma at_here n (a b : list Z) : length a = n → at_ 0 n (a ++ b) = a.
Proof. intros <-. unfold at_. rewrite drop_0. apply take_app_length. Qed.
Lemma at_all n (a : list Z) : length a = n → at_ 0 n a = a.
Proof. intros <-. unfold at_. rewrite drop_0. apply firstn_all. Qed.
(** A slice that is long enough is not left. *)
Lemma upto_in n s : (n <= length (sl s))%nat → upto n s = Some (take n (sl s)).
Proof.
  intros H. unfold upto. rewrite decide_False by (rewrite length_app; lia). f_equal. by apply take_app_le.
Qed.

End Bytes.

(** Reads the fields of a struct. *)
Ltac read_fields :=
  repeat (rewrite at_skip by (rewrite ?length_put; simpl; lia));
  rewrite ?length_put; simpl Nat.sub;
  repeat first [rewrite at_here by apply length_put | rewrite at_all by apply length_put].

(** ** Messages, as rtnetlink documents them *)
Section Format.
Context {en : Endian}.

Definition nlmsg (type flags seq pid : Z) (payload : list Z) : list Z :=
  hdr_bytes (mkNlMsghdr (16 + Z.of_nat (length payload)) type flags seq pid) ++ payload.

Definition rtattr (type : Z) (v : list Z) : list Z :=
  put 2 (4 + Z.of_nat (length v)) ++ put 2 type ++ v ++
  replicate (Z.to_nat (rtaAlignOf (Z.of_nat (length v)) - Z.of_nat (length v))) 0.

Definition hdr_ok (h : NlMsghdr) : Prop :=
  0 <= hdr_Len h < 2 ^ 32 ∧ 0 <= hdr_Type h < 2 ^ 16 ∧ 0 <= hdr_Flags h < 2 ^ 16 ∧
  0 <= hdr_Seq h < 2 ^ 32 ∧ 0 <= hdr_Pid h < 2 ^ 32.

Lemma length_hdr_bytes h : length (hdr_bytes h) = 16%nat.
Proof. unfold hdr_bytes. by rewrite !length_app, !length_put. Qed.

Lemma read_hdr_bytes h b : hdr_ok h → read_hdr (hdr_bytes h ++ b) = h.
Proof.
  destruct h as [l t f s p]. unfold hdr_ok, read_hdr, hdr_bytes. cbn. intros (?&?&?&?&?).
  rewrite <-!app_assoc.
  f_equal; read_fields; by apply get_put.
Qed.

Lemma length_IfAddrmsg m : length (IfAddrmsg_Serialize m) = 8%nat.
Proof. unfold IfAddrmsg_Serialize. by rewrite !length_app, !length_put. Qed.

Lemma IfAddrmsg_read m b s : sl s = IfAddrmsg_Serialize m ++ b →
  0 <= ifa_Family m < 256 → 0 <= ifa_Prefixlen m < 256 → 0 <= ifa_Flags m < 256 → 0 <= ifa_Scope m < 256 →
  0 <= ifa_Index m < 2 ^ 32 → DeserializeIfAddrmsg s = Some m.
Proof.
  intros Hs. unfold DeserializeIfAddrmsg. rewrite upto_in by (rewrite Hs, length_app, length_IfAddrmsg; lia).
  rewrite Hs, take_app_length' by (by rewrite length_IfAddrmsg).
  destruct m as [f p fl sc i]. unfold IfAddrmsg_Serialize. cbn. intros.
  do 2 f_equal; read_fields; by apply get_put.
Qed.

(** ** Parsing what has been written *)

Record message := mkMessage { m_hdr : NlMsghdr; m_data : list Z }.
Definition msg_bytes (m : message) : list Z := hdr_bytes (m_hdr m) ++ m_data m.
Definition msg_ok (m : message) : Prop :=
  hdr_ok (m_hdr m) ∧ hdr_Len (m_hdr m) = 16 + Z.of_nat (length (m_data m)) ∧ Z.of_nat (length (m_data m)) mod 4 = 0.
(** A message that has been read, without the rest of the buffer. *)
Definition view (m : NetlinkMessage) : message := mkMessage (Header m) (sl (Data m)).

Lemma length_msg_bytes m : length (msg_bytes m) = (16 + length (m_data m))%nat.
Proof. unfold msg_bytes. by rewrite length_app, length_hdr_bytes. Qed.

Lemma parse_messages_loop ms rest fuel :
  Forall msg_ok ms → (length (concat (msg_bytes <$> ms)) <= fuel)%nat →
  ∃ ms', ParseNetlinkMessage_loop fuel (concat (msg_bytes <$> ms)) rest = inr ms' ∧ view <$> ms' = ms.
Proof.
  intros Hok. revert fuel. induction Hok as [|m ms (Hh & Hl & Hm) _ IH]; intros fuel Hf; cbn [fmap list_fmap concat] in *.
  { by destruct fuel; exists []. }
  set (more := concat (msg_bytes <$> ms)) in *. rewrite length_app, length_msg_bytes in Hf.
  destruct fuel as [|fuel]; [lia|]. cbn [ParseNetlinkMessage_loop].
  rewrite length_app, length_msg_bytes. rewrite decide_False by (unfold SizeofNlMsghdr; lia).
  unfold msg_bytes. rewrite <-!app_assoc, (read_hdr_bytes _ _ Hh), Hl.
  rewrite rtaAlignOf_16 by lia.
  rewrite (bool_decide_eq_false_2 (16 + _ < 16)) by lia.
  rewrite (bool_decide_eq_false_2 (Z.of_nat _ < _)) by lia. simpl orb.
  rewrite app_assoc, drop_app_length' by (rewrite length_app, length_hdr_bytes; lia).
  destruct (IH fuel) as (ms' & -> & Hms); [lia|]. eexists. split; [done|]. cbn. rewrite Hms. f_equal.
  destruct m as [h d]. unfold view. cbn in *. f_equal.
  rewrite <-app_assoc, at_skip by (rewrite length_hdr_bytes; lia). rewrite length_hdr_bytes.
  apply at_here. lia.
Qed.
Lemma parse_messages ms s :
  Forall msg_ok ms → sl s = concat (msg_bytes <$> ms) →
  ∃ ms', ParseNetlinkMessage s = inr ms' ∧ view <$> ms' = ms.
Proof. intros ? Hs. unfold ParseNetlinkMessage. rewrite Hs. by apply parse_messages_loop. Qed.

Record attribute := mkAttribute { a_type : Z; a_value : list Z }.
Definition aview (a : NetlinkRouteAttr) : attribute := mkAttribute (attr_Type a) (sl (attr_Value a)).
Definition attr_bytes (a : attribute) : list Z := rtattr (a_type a) (a_value a).
Definition attr_ok (a : attribute) : Prop :=
  0 <= a_type a < 2 ^ 16 ∧ 4 + Z.of_nat (length (a_value a)) < 2 ^ 16.

Lemma length_rtattr t v : Z.of_nat (length (rtattr t v)) = rtaAlignOf (4 + Z.of_nat (length v)).
Proof.
  unfold rtattr. rewrite !length_app, !length_put, length_replicate, rtaAlignOf_add4 by lia.
  pose proof (rtaAlignOf_bounds (Z.of_nat (length v))). lia.
Qed.

Lemma parse_attrs_loop l tail fuel :
  Forall attr_ok l → (length (concat (attr_bytes <$> l)) <= fuel)%nat →
  ∃ l', ParseRouteAttr_loop fuel (concat (attr_bytes <$> l)) tail = Some (inr l') ∧ aview <$> l' = l.
Proof.
  intros Hok. revert fuel. induction Hok as [|a l (Ht & Hl) _ IH]; intros fuel Hf; cbn [fmap list_fmap concat] in *.
  { by destruct fuel; exists []. }
  set (rest := concat (attr_bytes <$> l)) in *. rewrite length_app in Hf.
  pose proof (length_rtattr (a_type a) (a_value a)) as Hlen. fold (attr_bytes a) in Hlen.
  pose proof (rtaAlignOf_bounds (4 + Z.of_nat (length (a_value a)))) as Hb.
  destruct fuel as [|fuel]; [lia|]. cbn [ParseRouteAttr_loop]. rewrite length_app.
  rewrite decide_False by lia.
  assert (get_bytes (at_ 0 2 (attr_bytes a ++ rest)) = 4 + Z.of_nat (length (a_value a))) as ->.
  { unfold attr_bytes, rtattr. rewrite <-!app_assoc. read_fields. apply get_put. lia. }
  assert (get_bytes (at_ 2 2 (attr_bytes a ++ rest)) = a_type a) as ->.
  { unfold attr_bytes, rtattr. rewrite <-!app_assoc. read_fields. by apply get_put. }
  rewrite (bool_decide_eq_false_2 (_ < 4)) by lia. rewrite (bool_decide_eq_false_2 (Z.of_nat _ < _)) by lia. simpl orb.
  rewrite decide_False by lia. rewrite drop_app_length' by lia. destruct (IH fuel) as (l' & -> & Hl'); [lia|].
  eexists. split; [done|]. cbn [fmap list_fmap]. rewrite Hl'. f_equal. destruct a as [t v]. unfold aview.
  cbn [attr_Type attr_Value sl a_type a_value] in *. f_equal.
  unfold attr_bytes, rtattr. cbn [a_type a_value]. rewrite <-!app_assoc.
  rewrite !at_skip by (rewrite ?length_put; lia). rewrite !length_put. simpl Nat.sub. apply at_here. lia.
Qed.
Lemma parse_attrs l s :
  Forall attr_ok l → sl s = concat (attr_bytes <$> l) → ∃ l', ParseRouteAttr s = Some (inr l') ∧ aview <$> l' = l.
Proof. intros ? Hs. unfold ParseRouteAttr. rewrite Hs. by apply parse_attrs_loop. Qed.

(** ** What the code writes *)

Lemma inserts_middle (k a b c : list Z) :
  length b = length k → list_inserts (length a) k (a ++ b ++ c) = a ++ k ++ c.
Proof.
  revert a b. induction k as [|y k IH]; intros a [|x b] Hl; try done. cbn [list_inserts].
  change (a ++ (x :: b) ++ c) with (a ++ [x] ++ (b ++ c)). rewrite app_assoc.
  replace (S (length a)) with (length (a ++ [x])) by (rewrite length_app; simpl; lia).
  rewrite IH by (simpl in Hl; lia). rewrite <-app_assoc. simpl.
  rewrite <-(Nat.add_0_r (length a)). by rewrite insert_app_r.
Qed.

Lemma attr_Serialize t v :
  0 <= t < 2 ^ 16 → 4 + Z.of_nat (length v) < 2 ^ 16 → data_Serialize (NewRtAttr t v) = rtattr t v.
Proof.
  intros Ht Hl. cbn [data_Serialize NewRtAttr data_Len foldl List.map fst snd].
  set (n := 4 + Z.of_nat (length v)). set (pad := Z.to_nat (rtaAlignOf (Z.of_nat (length v)) - Z.of_nat (length v))).
  pose proof (rtaAlignOf_bounds (Z.of_nat (length v))) as Hb.
  assert (replicate (Z.to_nat (rtaAlignOf n)) 0 = [0; 0; 0; 0] ++ replicate (length v) 0 ++ replicate pad 0) as ->.
  { subst n pad. rewrite rtaAlignOf_add4 by lia.
    change [0; 0; 0; 0] with (replicate 4 0). rewrite <-!replicate_add. f_equal. lia. }
  unfold copy. change (Z.to_nat 4) with (length [0; 0; 0; 0]). rewrite inserts_middle by apply length_replicate.
  rewrite decide_False by (rewrite Z.mod_small; lia).
  pose proof (inserts_middle (put 2 n) [] [0; 0] ([0; 0] ++ v ++ replicate pad 0)) as E1.
  rewrite length_put in E1. cbn in E1. change (Z.to_nat 0) with 0%nat. cbn. rewrite E1 by done. clear E1.
  rewrite (Z.mod_small t) by lia.
  pose proof (inserts_middle (put 2 t) (put 2 n) [0; 0] (v ++ replicate pad 0)) as E2.
  rewrite !length_put in E2. change (Z.to_nat 2) with 2%nat. exact (E2 eq_refl).
Qed.

Lemma foldl_lengths (l : list (list Z)) a :
  foldl (λ n b, n + Z.of_nat (length b)) a l = a + Z.of_nat (length (concat l)).
Proof.
  revert a. induction l as [|b l IH]; intros a; simpl; [lia|]. rewrite IH, length_app. lia.
Qed.

Lemma Serialize_nlmsg l t f s p data :
  Serialize (mkNetlinkRequest (mkNlMsghdr l t f s p) data) = nlmsg t f s p (concat (data_Serialize <$> data)).
Proof.
  unfold Serialize, nlmsg, hdr_bytes. cbn [req_hdr req_Data set_Len hdr_Len hdr_Type hdr_Flags hdr_Seq hdr_Pid].
  rewrite foldl_lengths. change (2 ^ 32) with (256 ^ Z.of_nat 4). by rewrite put_mod.
Qed.

(** The payload of a request to add or delete an IPv4 address. *)
Definition addr_payload (index prefixlen : Z) (ip : IP) : list Z :=
  IfAddrmsg_Serialize (mkIfAddrmsg FAMILY_V4 prefixlen 0 0 index) ++ rtattr IFA_LOCAL ip ++ rtattr IFA_ADDRESS ip.
Definition dump_payload : list Z := IfInfomsg_Serialize (mkIfInfomsg FAMILY_V4 0 0 0 0).

(** The address a message reports: the last [IFA_LOCAL], or else the last
    [IFA_ADDRESS]. *)
Record kaddr := mkKaddr { ka_msg : IfAddrmsg; ka_attrs : list attribute }.
Definition attr_net (prefixlen : Z) (a : attribute) : IPNet :=
  mkIPNet (a_value a) (CIDRMask prefixlen (8 * Z.of_nat (length (a_value a)))).
Definition last_net (e : kaddr) (type : Z) : option IPNet :=
  attr_net (ifa_Prefixlen (ka_msg e)) <$> last (filter (λ a, a_type a = type) (ka_attrs e)).
Definition entry_net (e : kaddr) : option IPNet :=
  match last_net e IFA_LOCAL with Some x => Some x | None => last_net e IFA_ADDRESS end.

Definition entry_payload (e : kaddr) : list Z :=
  IfAddrmsg_Serialize (ka_msg e) ++ concat (attr_bytes <$> ka_attrs e).
Definition answer (type flags seq pid : Z) (payload : list Z) : message :=
  mkMessage (mkNlMsghdr (16 + Z.of_nat (length payload)) type flags seq pid) payload.
(** A part of a dump. *)
Definition multi_msg (type seq pid : Z) (payload : list Z) : message := answer type NLM_F_MULTI seq pid payload.
Definition done_msg (seq pid : Z) : message := answer NLMSG_DONE NLM_F_MULTI seq pid (put 4 0).

Record entry_ok (e : kaddr) : Prop := {
  eo_family : 0 <= ifa_Family (ka_msg e) < 256;
  eo_prefix : 0 <= ifa_Prefixlen (ka_msg e) < 256;
  eo_flags : 0 <= ifa_Flags (ka_msg e) < 256;
  eo_scope : 0 <= ifa_Scope (ka_msg e) < 256;
  eo_index : 0 <= ifa_Index (ka_msg e) < 2 ^ 32;
  eo_attrs : Forall attr_ok (ka_attrs e);
  eo_label : Forall (λ a, a_type a = IFA_LABEL → a_value a ≠ []) (ka_attrs e);
  eo_flag_attr : Forall (λ a, a_type a = IFA_FLAGS → 4 <= Z.of_nat (length (a_value a))) (ka_attrs e);
  eo_size : Z.of_nat (length (entry_payload e)) < 2 ^ 31;
  eo_net : ifa_Family (ka_msg e) = FAMILY_V4 → is_Some (entry_net e)
}.

(** *** Links

    A message about a link; the text in an attribute ends with a zero. *)
Record klink := mkKlink { kl_msg : IfInfomsg; kl_attrs : list attribute }.
Definition link_payload (e : klink) : list Z := IfInfomsg_Serialize (kl_msg e) ++ concat (attr_bytes <$> kl_attrs e).
Definition text (v : list Z) : string := string_of (take (length v - 1) v).
Definition link_name (e : klink) : string :=
  default "" ((text ∘ a_value) <$> last (filter (λ a, a_type a = IFLA_IFNAME) (kl_attrs e))).

Definition link_dump_payload : list Z := IfInfomsg_Serialize (mkIfInfomsg 0 0 0 0 0).
Definition name_payload (name : string) : list Z := link_dump_payload ++ rtattr IFLA_IFNAME (ZeroTerminated name).
(** A name that can be sent. *)
Definition name_ok (name : string) : Prop := Forall (λ b, b ≠ 0) (bytes_of name) ∧ Z.of_nat (String.length name) < 2 ^ 15.

(** How long an attribute is at least, by its type: those of a link and those of its kind. *)
Definition needs (widths : list (Z * Z)) (t : Z) : Z := foldr (λ w n, if decide (t = w.1) then w.2 else n) 0 widths.
Definition link_widths : list (Z * Z) :=
  [(IFLA_IFNAME, 1); (IFLA_IFALIAS, 1); (IFLA_MTU, 4); (IFLA_LINK, 4); (IFLA_MASTER, 4); (IFLA_TXQLEN, 4)].
Definition option_widths (kind : string) : list (Z * Z) :=
  if decide (kind = "vlan") then [(1, 2)]
  else if decide (kind = "ipvlan") then [(1, 4)]
  else if decide (kind = "macvlan") then [(1, 4)]
  else if decide (kind = "macvtap") then [(1, 4)]
  else if decide (kind = "vxlan") then
    [(1, 4); (2, 4); (3, 4); (4, 4); (5, 1); (6, 1); (7, 1); (8, 4); (9, 4); (10, 4); (11, 1); (12, 1); (13, 1); (14, 1);
     (15, 2); (16, 16); (17, 16); (18, 1); (23, 1)]
  else if decide (kind = "bond") then
    [(1, 1); (2, 4); (3, 4); (4, 4); (5, 4); (6, 1); (7, 4); (9, 4); (10, 4); (11, 4); (12, 1); (13, 1); (14, 1); (15, 4);
     (16, 1); (17, 1); (18, 4); (19, 4); (20, 4); (21, 1); (22, 1)]
  else if decide (kind = "gretap") then
    [(2, 2); (3, 2); (4, 4); (5, 4); (6, 4); (7, 4); (8, 1); (9, 1); (10, 1); (14, 2); (15, 2); (16, 2); (17, 2)]
  else [].
Definition long_enough (widths : list (Z * Z)) (a : attribute) : Prop := needs widths (a_type a) <= Z.of_nat (length (a_value a)).

(** Attributes inside of an attribute. *)
Definition nested (v : list Z) (l : list attribute) : Prop := v = concat (attr_bytes <$> l) ∧ Forall attr_ok l.
(** The options follow the kind they belong to. *)
Fixpoint infos_ok (kind : string) (infos : list attribute) : Prop :=
  match infos with
  | [] => True
  | i :: infos =>
      if decide (a_type i = 1) then a_value i ≠ [] ∧ infos_ok (text (a_value i)) infos
      else if decide (a_type i = 2) then
        (∃ data, nested (a_value i) data ∧ Forall (long_enough (option_widths kind)) data) ∧ infos_ok kind infos
      else infos_ok kind infos
  end.
Definition last_kind (kind : string) (infos : list attribute) : string :=
  default kind ((text ∘ a_value) <$> last (filter (λ a, a_type a = 1) infos)).
Fixpoint attrs_ok (kind : string) (attrs : list attribute) : Prop :=
  match attrs with
  | [] => True
  | a :: attrs =>
      if decide (a_type a = IFLA_LINKINFO) then
        ∃ infos, nested (a_value a) infos ∧ infos_ok kind infos ∧ attrs_ok (last_kind kind infos) attrs
      else long_enough link_widths a ∧ attrs_ok kind attrs
  end.
Record link_ok (e : klink) : Prop := {
  lo_family : 0 <= ifi_Family (kl_msg e) < 256;
  lo_type : 0 <= ifi_Type (kl_msg e) < 2 ^ 16;
  lo_index : 0 < ifi_Index (kl_msg e) < 2 ^ 31;
  lo_flags : 0 <= ifi_Flags (kl_msg e) < 2 ^ 32;
  lo_change : 0 <= ifi_Change (kl_msg e) < 2 ^ 32;
  lo_attr_ok : Forall attr_ok (kl_attrs e);
  lo_attrs : attrs_ok "" (kl_attrs e);
  lo_size : Z.of_nat (length (link_payload e)) < 2 ^ 31
}.
End Format.

(** ** What rtnetlink documents

    The tables of the kernel: [t_bound i] are the IPv4 networks of the device with index
    [i], and the links.  [queue k fd] are the datagrams that wait on a socket.  A request
    to change an address is acknowledged by an error message, with code 0 for success, and
    then, and only then, has been carried out; a dump is answered by one message for each
    entry of a table, spread over datagrams in any way, and a last one; a request for a
    link by its name is answered by an error message or by that link, and by what is not
    read any more.  Any call may fail. *)
Record table := mkTable { t_bound : Z → list IPNet; t_links : list klink }.

Class KernelLaws (K : Type) `{en : Endian, !Kernel K} := {
  ktable : K → table;
  queue : K → Z → list (list Z);
  port : Z → Z;
  kbound_ip4 k i a : a ∈ t_bound (ktable k) i → is_ip4 (ipnet_IP a);
  links_ok k : Forall link_ok (t_links (ktable k));
  port_range fd : 0 <= port fd < 2 ^ 32;
  waiting_queue k fd : waiting k fd = length (queue k fd);
  Socket_law p k : ∃ r k', Socket p k = Ret r k' ∧ ktable k' = ktable k ∧
    match r with inl _ => True | inr fd => queue k' fd = [] end;
  Bind_law fd k : ∃ r k', Bind fd k = Ret r k' ∧ ktable k' = ktable k ∧ queue k' fd = queue k fd;
  Close_law fd k : ∃ k', Close fd k = Ret tt k' ∧ ktable k' = ktable k;
  Getsockname_law fd k : ∃ r k', Getsockname fd k = Ret r k' ∧ ktable k' = ktable k ∧ queue k' fd = queue k fd ∧
    match r with inr (Some pid) => pid = port fd | _ => True end;
  Recvfrom_law fd k d ds : queue k fd = d :: ds →
    ∃ r k', Recvfrom fd Getpagesize k = Ret r k' ∧ ktable k' = ktable k ∧
      match r with inl _ => True | inr b => b = d ∧ queue k' fd = ds end;
  change_law (add : bool) fd k seq index p ip :
    is_ip4 ip → 0 <= p <= 32 → 0 <= seq < 2 ^ 32 → 0 <= index < 2 ^ 32 →
    ∃ r k', Sendto fd (nlmsg (if add then RTM_NEWADDR else RTM_DELADDR) (if add then 1541 else 5) seq 0
        (addr_payload index p ip)) k = Ret r k' ∧
      match r with
      | Some _ => ktable k' = ktable k
      | None => ∃ code aflags echo,
          let ack := answer NLMSG_ERROR aflags seq (port fd) (put 4 code ++ echo) in
          queue k' fd = queue k fd ++ [msg_bytes ack] ∧ msg_ok ack ∧ - 2 ^ 31 <= code < 2 ^ 31 ∧
          t_links (ktable k') = t_links (ktable k) ∧
          ∀ i b, b ∈ t_bound (ktable k') i ↔
            if add then (i = index ∧ code = 0 ∧ b = mkIPNet ip (CIDRMask p 32)) ∨ b ∈ t_bound (ktable k) i
            else ¬ (i = index ∧ code = 0 ∧ b = mkIPNet ip (CIDRMask p 32)) ∧ b ∈ t_bound (ktable k) i
      end;
  dump_law fd k seq :
    0 <= seq < 2 ^ 32 →
    ∃ r k', Sendto fd (nlmsg RTM_GETADDR 769 seq 0 dump_payload) k = Ret r k' ∧ ktable k' = ktable k ∧
      match r with
      | Some _ => True
      | None => ∃ dgs entries,
          queue k' fd = queue k fd ++ ((λ ms, concat (msg_bytes <$> ms)) <$> dgs) ∧
          concat dgs = (multi_msg RTM_NEWADDR seq (port fd) <$> (entry_payload <$> entries)) ++ [done_msg seq (port fd)] ∧
          Forall entry_ok entries ∧
          ∀ i, t_bound (ktable k) i = omap (λ e,
            if decide (ifa_Family (ka_msg e) = FAMILY_V4 ∧ ifa_Index (ka_msg e) = i) then entry_net e else None) entries
      end;
  link_dump_law fd k seq :
    0 <= seq < 2 ^ 32 →
    ∃ r k', Sendto fd (nlmsg RTM_GETLINK 769 seq 0 link_dump_payload) k = Ret r k' ∧ ktable k' = ktable k ∧
      match r with
      | Some _ => True
      | None => ∃ dgs,
          queue k' fd = queue k fd ++ ((λ ms, concat (msg_bytes <$> ms)) <$> dgs) ∧
          concat dgs = (multi_msg RTM_NEWLINK seq (port fd) <$> (link_payload <$> t_links (ktable k))) ++ [done_msg seq (port fd)]
      end;
  link_law fd k seq payload :
    0 <= seq < 2 ^ 32 →
    ∃ r k', Sendto fd (nlmsg RTM_GETLINK 5 seq 0 payload) k = Ret r k' ∧ ktable k' = ktable k ∧
      match r with
      | Some _ => True
      | None => ∃ reply more, queue k' fd = queue k fd ++ msg_bytes reply :: more ∧ msg_ok reply ∧
          ((∃ code aflags echo, reply = answer NLMSG_ERROR aflags seq (port fd) (put 4 code ++ echo) ∧ - 2 ^ 31 <= code < 2 ^ 31) ∨
           (∃ e rflags, reply = answer RTM_NEWLINK rflags seq (port fd) (link_payload e) ∧ Z.land rflags NLM_F_MULTI = 0 ∧
              e ∈ t_links (ktable k) ∧ ∀ name, name_ok name → payload = name_payload name → link_name e = name))
      end
}.
Definition kbound {K} `{KernelLaws K} (k : K) : Z → list IPNet := t_bound (ktable k).
Definition klinks {K} `{KernelLaws K} (k : K) : list klink := t_links (ktable k).

(** ** Reading the answers *)
Section Answers.
Context {K : Type} {en : Endian} {kn : Kernel K}.
Implicit Types (n : netlink K).

Lemma answer_ok type flags seq pid payload :
  0 <= type < 2 ^ 16 → 0 <= flags < 2 ^ 16 → 0 <= seq < 2 ^ 32 → 0 <= pid < 2 ^ 32 →
  Z.of_nat (length payload) < 2 ^ 31 → Z.of_nat (length payload) mod 4 = 0 →
  msg_ok (answer type flags seq pid payload).
Proof. intros. unfold msg_ok, hdr_ok. cbn. repeat split; lia. Qed.

Lemma attrs_aligned l : Z.of_nat (length (concat (attr_bytes <$> l))) mod 4 = 0.
Proof.
  induction l as [|a l IH]; [done|]. cbn [fmap list_fmap concat]. rewrite length_app, Nat2Z.inj_add.
  unfold attr_bytes at 1. rewrite length_rtattr, rtaAlignOf_eq by lia.
  rewrite Z.mul_comm, Z.add_comm, Z.mod_add by lia. done.
Qed.

(** What a message of a dump can hold. *)
Definition payload_ok (p : list Z) : Prop := Z.of_nat (length p) < 2 ^ 31 ∧ Z.of_nat (length p) mod 4 = 0.
Lemma multi_msg_ok type seq pid p :
  payload_ok p → 0 <= type < 2 ^ 16 → 0 <= seq < 2 ^ 32 → 0 <= pid < 2 ^ 32 → msg_ok (multi_msg type seq pid p).
Proof. intros [??] ???. by apply answer_ok. Qed.
Lemma aligned_after (n : nat) (l : list Z) : Z.of_nat n mod 4 = 0 → Z.of_nat (length l) mod 4 = 0 → Z.of_nat (n + length l) mod 4 = 0.
Proof. intros Hn Hl. rewrite Nat2Z.inj_add, Z.add_mod, Hn, Hl by lia. done. Qed.
Lemma entry_payload_ok e : entry_ok e → payload_ok (entry_payload e).
Proof.
  intros He. split; [apply He|]. unfold entry_payload. rewrite length_app, length_IfAddrmsg.
  apply aligned_after; [done|apply attrs_aligned].
Qed.
Lemma length_IfInfomsg m : length (IfInfomsg_Serialize m) = 16%nat.
Proof. unfold IfInfomsg_Serialize. by rewrite !length_app, !length_put. Qed.
Lemma link_payload_ok e : link_ok e → payload_ok (link_payload e).
Proof.
  intros He. split; [apply He|]. unfold link_payload. rewrite length_app, length_IfInfomsg.
  apply aligned_after; [done|apply attrs_aligned].
Qed.

Lemma done_msg_ok seq pid : 0 <= seq < 2 ^ 32 → 0 <= pid < 2 ^ 32 → msg_ok (done_msg seq pid).
Proof. intros. apply answer_ok; try done; by rewrite length_put. Qed.

Lemma NewNetlinkRequest_spec proto flags n :
  0 <= proto < 2 ^ 16 → 0 <= flags < 2 ^ 16 →
  ∃ seq, NewNetlinkRequest proto flags n =
    Ret (mkNetlinkRequest (mkNlMsghdr 16 proto (Z.lor NLM_F_REQUEST flags) seq 0) []) (mkNetlink (kernel n) seq (lookupByDump n)) ∧
    0 <= seq < 2 ^ 32.
Proof.
  intros Hp Hf. eexists. split; [|by apply (Z.mod_pos_bound (nextSeqNr n + 1))].
  unfold NewNetlinkRequest. change 65536 with (2 ^ 16). by rewrite !Z.mod_small by done.
Qed.

(** Scanning a message with the numbers that are expected. *)
Lemma scan_answer m type flags seq pid payload msgs resType res n :
  view m = answer type flags seq pid payload →
  scan (m :: msgs) seq pid resType res n =
  (if decide (type = NLMSG_DONE) then mret (inl (inr res))
   else if decide (type = NLMSG_ERROR) then
     match upto 4 (Data m) with
     | None => panic "slice bounds out of range"
     | Some b =>
         let error := int32 (get_bytes b) in
         if decide (error = 0) then mret (inl (inr res)) else mret (inl (inl (Errno (- error))))
     end
   else if bool_decide (resType ≠ 0) && bool_decide (type ≠ resType) then scan msgs seq pid resType res
   else if decide (Z.land flags NLM_F_MULTI = 0) then mret (inl (inr (res ++ [Data m])))
   else scan msgs seq pid resType (res ++ [Data m])) n.
Proof.
  destruct m as [h d]. intros [= -> Hd]. cbn [scan Header Data hdr_Seq hdr_Pid hdr_Type hdr_Flags].
  rewrite (decide_False (P := seq ≠ seq)) by auto. by rewrite (decide_False (P := pid ≠ pid)) by auto.
Qed.

(** Scanning the messages of a dump. *)
Definition dump_type (type : Z) : Prop := type = RTM_NEWADDR ∨ type = RTM_NEWLINK.
Lemma dump_type_range type : dump_type type → 0 <= type < 2 ^ 16.
Proof. by intros [-> | ->]. Qed.
Lemma scan_entries type seq pid ps ms rest res n :
  dump_type type → view <$> ms = multi_msg type seq pid <$> ps →
  scan (ms ++ rest) seq pid type res n = scan rest seq pid type (res ++ (Data <$> ms)) n.
Proof.
  intros Ht. revert ps res. induction ms as [|m ms IH]; intros [|p ps] res H; try done; [by rewrite app_nil_r|].
  rewrite !fmap_cons in H. apply (inj2 cons) in H as [Hm Hms]. cbn [app]. rewrite (scan_answer m _ _ _ _ _ _ _ _ _ Hm).
  transitivity (scan (ms ++ rest) seq pid type (res ++ [Data m]) n).
  { by destruct Ht as [-> | ->]. }
  rewrite (IH ps) by done. by rewrite <-app_assoc.
Qed.
Lemma scan_done type seq pid m res n :
  view m = done_msg seq pid → scan [m] seq pid type res n = Ret (inl (inr res)) n.
Proof. intros Hm. by rewrite (scan_answer m _ _ _ _ _ _ _ _ _ Hm). Qed.

(** What has been read of a dump. *)
Lemma entries_data type seq pid ps (ms : list NetlinkMessage) :
  view <$> ms = multi_msg type seq pid <$> ps → sl <$> (Data <$> ms) = ps.
Proof.
  revert ps. induction ms as [|m ms IH]; intros [|p ps] H; try done. rewrite !fmap_cons in H. apply (inj2 cons) in H as [Hm Hms].
  cbn. f_equal; [|by apply IH]. by apply (f_equal m_data) in Hm.
Qed.

(** Receiving them. *)
Context {kl : KernelLaws K}.

Definition dgram (ms : list message) : list Z := concat (msg_bytes <$> ms).

Lemma Receive_spec fd ms ds n :
  queue (kernel n) fd = dgram ms :: ds → Forall msg_ok ms →
  ∃ r k', Receive fd n = Ret r (set_kernel k' n) ∧ ktable k' = ktable (kernel n) ∧
    match r with inl _ => True | inr ms' => view <$> ms' = ms ∧ queue k' fd = ds end.
Proof.
  intros Hq Hok. destruct (Recvfrom_law fd (kernel n) _ _ Hq) as (r & k' & E & Hb & Hr).
  unfold Receive. rewrite bind_unfold. unfold on_kernel, zoom. rewrite E.
  destruct r as [err|b]; [by eexists _, _|]. destruct Hr as [-> Hq'].
  case_decide; [by eexists _, _|].
  destruct (parse_messages ms (mkSlice (dgram ms) (replicate (Getpagesize - length (dgram ms)) 0)) Hok eq_refl) as (ms' & -> & Hms). by eexists _, _.
Qed.

Lemma dump_ok type seq pid ps :
  dump_type type → Forall payload_ok ps → 0 <= seq < 2 ^ 32 → 0 <= pid < 2 ^ 32 →
  Forall msg_ok ((multi_msg type seq pid <$> ps) ++ [done_msg seq pid]).
Proof.
  intros Ht Hp ??. apply Forall_app. split; [|by apply Forall_singleton, done_msg_ok].
  apply Forall_fmap. eapply Forall_impl; [exact Hp|]. intros p ?. apply multi_msg_ok; try done. by apply dump_type_range.
Qed.

Lemma receive_dump type fd seq pid dgs : ∀ fuel ps res n,
  dump_type type → queue (kernel n) fd = dgram <$> dgs →
  concat dgs = (multi_msg type seq pid <$> ps) ++ [done_msg seq pid] →
  Forall payload_ok ps → 0 <= seq < 2 ^ 32 → 0 <= pid < 2 ^ 32 → (length dgs < fuel)%nat →
  ∃ r k', receive_loop fuel fd seq pid type res n = Ret r (set_kernel k' n) ∧
    ktable k' = ktable (kernel n) ∧
    match r with inl _ => True | inr l => sl <$> l = (sl <$> res) ++ ps end.
Proof.
  induction dgs as [|d dgs IH]; intros fuel ps res n Ht Hq Hc Hps Hseq Hpid Hf.
  { by apply (f_equal length) in Hc; rewrite length_app, Nat.add_comm in Hc. }
  destruct fuel as [|fuel]; [lia|]. cbn [receive_loop fmap list_fmap concat] in *.
  pose proof (dump_ok type seq pid ps Ht Hps Hseq Hpid) as Hok. rewrite <-Hc in Hok. apply Forall_app in Hok as [Hd _].
  destruct (Receive_spec fd d _ n Hq Hd) as (r & k' & E & Hb & Hr). run E.
  destruct r as [err|ms]; [by eexists _, _|]. destruct Hr as [<- Hq'].
  destruct (decide (concat dgs = [])) as [Hnil|Hne].
  - rewrite Hnil, app_nil_r in Hc. apply fmap_app_inv in Hc as (ms1 & ms2 & Hms & H2 & ->).
    symmetry in Hms. destruct ms2 as [|m [|]]; try done. apply (inj2 cons) in H2 as [Hm _].
    rewrite bind_unfold, (scan_entries type seq pid ps), scan_done by done. eexists _, _. split; [done|]. split; [done|].
    by rewrite fmap_app, (entries_data type seq pid ps).
  - destruct (exists_last Hne) as (l & x & Hl). rewrite Hl, app_assoc in Hc.
    apply app_inj_tail in Hc as [Hc ->]. symmetry in Hc. apply fmap_app_inv in Hc as (ps1 & ps2 & Hms & -> & ->).
    apply Forall_app in Hps as [_ Hps].
    rewrite bind_unfold, <-(app_nil_r ms), (scan_entries type seq pid ps1) by done. cbn [scan mret M_ret].
    destruct (IH fuel ps2 (res ++ (Data <$> ms)) (set_kernel k' n)) as (r' & k'' & E' & Hb' & Hr');
      try done; [simpl in Hf; lia|].
    exists r', k''. split; [exact E'|]. split; [by rewrite Hb'|]. destruct r'; [done|].
    by rewrite Hr', !fmap_app, (entries_data type seq pid ps1), app_assoc.
Qed.

Lemma int32_small z : - 2 ^ 31 <= z < 2 ^ 31 → int32 (z mod 2 ^ 32) = z.
Proof. intros Hz. unfold int32. rewrite Zplus_mod_idemp_l, Z.mod_small; lia. Qed.
Lemma get_put_mod (w : nat) z : get_bytes (put w z) = z mod 256 ^ Z.of_nat w.
Proof. rewrite <-(put_mod w z). apply get_put, Z.mod_pos_bound, Z.pow_pos_nonneg; lia. Qed.

(** Receiving an acknowledgement. *)
Lemma receive_ack fd seq pid code aflags echo more fuel n :
  let ack := answer NLMSG_ERROR aflags seq pid (put 4 code ++ echo) in
  queue (kernel n) fd = dgram [ack] :: more → msg_ok ack → - 2 ^ 31 <= code < 2 ^ 31 → (0 < fuel)%nat →
  ∃ r k', receive_loop fuel fd seq pid 0 [] n = Ret r (set_kernel k' n) ∧ ktable k' = ktable (kernel n) ∧
    (∀ l, r = inr l → code = 0 ∧ l = []).
Proof.
  intros ack Hq Hok Hc Hf. destruct fuel as [|fuel]; [lia|]. cbn [receive_loop].
  destruct (Receive_spec fd [ack] more n Hq) as (r & k' & E & Hb & Hr); [by apply Forall_singleton|]. run E.
  destruct r as [err|ms]; [by eexists _, _|]. destruct Hr as [Hms Hq']. destruct ms as [|m [|]]; try done.
  apply (inj2 cons) in Hms as [Hm _]. rewrite bind_unfold, (scan_answer m _ _ _ _ _ _ _ _ _ Hm).
  rewrite decide_False by done. rewrite decide_True by done.
  assert (sl (Data m) = put 4 code ++ echo) as Hd by (by apply (f_equal m_data) in Hm).
  rewrite upto_in by (rewrite Hd, length_app, length_put; lia). rewrite Hd, take_app_length' by (by rewrite length_put).
  rewrite get_put_mod. change (256 ^ Z.of_nat 4) with (2 ^ 32). cbn zeta. rewrite int32_small by done.
  case_decide; eexists _, _; (split; [done|]); (split; [done|]); by intros l [= <-].
Qed.

(** Receiving a link. *)
Lemma receive_link fd seq pid rflags p more fuel n :
  let reply := answer RTM_NEWLINK rflags seq pid p in
  queue (kernel n) fd = dgram [reply] :: more → msg_ok reply → Z.land rflags NLM_F_MULTI = 0 → (0 < fuel)%nat →
  ∃ r k', receive_loop fuel fd seq pid 0 [] n = Ret r (set_kernel k' n) ∧ ktable k' = ktable (kernel n) ∧
    match r with inl _ => True | inr l => sl <$> l = [p] end.
Proof.
  intros reply Hq Hok Hm Hf. destruct fuel as [|fuel]; [lia|]. cbn [receive_loop].
  destruct (Receive_spec fd [reply] more n Hq) as (r & k' & E & Hb & Hr); [by apply Forall_singleton|]. run E.
  destruct r as [err|ms]; [by eexists _, _|]. destruct Hr as [Hms Hq']. destruct ms as [|m [|]]; try done.
  apply (inj2 cons) in Hms as [Hv _]. rewrite bind_unfold, (scan_answer m _ _ _ _ _ _ _ _ _ Hv).
  rewrite !(decide_False (P := RTM_NEWLINK = _)) by done. cbn [bool_decide andb].
  rewrite (bool_decide_eq_false_2 (0 ≠ 0)) by auto. cbn [andb]. rewrite decide_True by done.
  eexists _, _. split; [done|]. split; [done|]. cbn. f_equal. by apply (f_equal m_data) in Hv.
Qed.

(** A request on a socket of its own, in terms of what sending and receiving do. *)
Lemma Execute_post resType req n (P : error + list slice → K → Prop) :
  (∀ err k', ktable k' = ktable (kernel n) → P (inl err) k') →
  (∀ r k k', ktable k' = ktable k → P r k → P r k') →
  (∀ fd k, ktable k = ktable (kernel n) → queue k fd = [] →
     ∃ r k', Sendto fd (Serialize req) k = Ret r k' ∧ (∀ err, P (inl err) k') ∧
       (r = None → ∀ n' fuel, ktable (kernel n') = ktable k' → queue (kernel n') fd = queue k' fd →
          (length (queue k' fd) < fuel)%nat →
          ∃ r k'', receive_loop fuel fd (hdr_Seq (req_hdr req)) (port fd) resType [] n' = Ret r (set_kernel k'' n') ∧ P r k'')) →
  ∃ r n', Execute NETLINK_ROUTE resType req n = Ret r n' ∧ P r (kernel n').
Proof.
  intros Herr Hb Hsend. unfold Execute, getNetlinkSocket.
  destruct (Socket_law NETLINK_ROUTE (kernel n)) as (r1 & k1 & E1 & B1 & Q1).
  rewrite !bind_unfold. unfold on_kernel at 1, zoom at 1. rewrite E1.
  destruct r1 as [err|fd]; [eexists _, _; split; [done|]; by apply Herr|].
  destruct (Bind_law fd k1) as (r2 & k2 & E2 & B2 & Q2).
  rewrite bind_unfold. unfold on_kernel at 1, zoom at 1. cbn [kernel set_kernel]. rewrite E2.
  destruct r2 as [err|].
  { destruct (Close_law fd k2) as (k3 & E3 & B3). rewrite bind_unfold. unfold on_kernel, zoom. cbn [kernel set_kernel].
    rewrite E3. eexists _, _. split; [done|]. apply Herr. cbn. congruence. }
  cbn [mret M_ret]. unfold deferred. rewrite Q1 in Q2.
  destruct (Hsend fd k2) as (r3 & k3 & E3 & P3 & R3); [congruence|done|].
  assert (∀ n', ∃ k', close fd n' = set_kernel k' n' ∧ ktable k' = ktable (kernel n')) as Hclose.
  { intros n'. destruct (Close_law fd (kernel n')) as (k' & E & B). exists k'. unfold close, on_kernel, zoom. by rewrite E. }
  rewrite bind_unfold. unfold Send, on_kernel at 1, zoom at 1. cbn [kernel set_kernel]. rewrite E3.
  destruct r3 as [err|].
  { destruct (Hclose (set_kernel k3 (set_kernel k2 (set_kernel k1 n)))) as (k4 & E4 & B4). cbn [mret M_ret].
    eexists _, _. split; [done|]. rewrite E4. by eapply Hb. }
  destruct (Getsockname_law fd k3) as (r4 & k4 & E4 & B4 & Q4 & Hp).
  unfold GetPid. rewrite !bind_unfold. unfold on_kernel at 1, zoom at 1. cbn [kernel set_kernel]. rewrite E4.
  destruct r4 as [err|[pid|]].
  - cbn [mret M_ret]. eexists _, _. split; [done|].
    destruct (Hclose (set_kernel k4 (set_kernel k3 (set_kernel k2 (set_kernel k1 n))))) as (k5 & E5 & B5).
    rewrite E5. eapply Hb; [|apply P3]. cbn in *. congruence.
  - subst pid. cbn [mret M_ret]. rewrite bind_unfold. cbn [get kernel set_kernel].
    destruct (R3 eq_refl (set_kernel k4 (set_kernel k3 (set_kernel k2 (set_kernel k1 n)))) (S (waiting k4 fd)))
      as (r5 & k5 & E5 & P5); [done|done|rewrite waiting_queue, Q4; lia|].
    rewrite E5. destruct (Hclose (set_kernel k5 (set_kernel k4 (set_kernel k3 (set_kernel k2 (set_kernel k1 n))))))
      as (k6 & E6 & B6). eexists _, _. split; [done|]. rewrite E6. by eapply Hb.
  - cbn [mret M_ret]. eexists _, _. split; [done|].
    destruct (Hclose (set_kernel k4 (set_kernel k3 (set_kernel k2 (set_kernel k1 n))))) as (k5 & E5 & B5).
    rewrite E5. eapply Hb; [|apply P3]. cbn in *. congruence.
Qed.
End Answers.
