(* ===== verification/NetlinkLinkProps.v ===== *)
(** Finding links: a message about a link is decoded to a link with its name, index and
    flags, whatever its kind, and [LinkByName] returns a link of the kernel with the name
    that was asked for. *)

From Stdlib Require Import Ascii.
From stdpp Require Import strings numbers list.
From S2P Require Import Prelude GoStrings IPAddr Nl NetlinkLink RtnetlinkProps.

Local Open Scope Z_scope.

(** ** Decoding *)
Section Decoding.
Context {en : Endian} {S : Type}.

(** Returns, and leaves the state. *)
Definition pure {A} (m : M S A) : Prop := ∀ s, ∃ a, m s = Ret a s.
Lemma pure_ret {A} (a : A) : pure (mret a).
Proof. intros s. by exists a. Qed.
Lemma pure_bind {A B} (m : M S A) (f : A → M S B) : pure m → (∀ a, pure (f a)) → pure (m ≫= f).
Proof. intros Hm Hf s. destruct (Hm s) as [a Ha], (Hf a s) as [b Hb]. exists b. by run Ha. Qed.

Lemma pure_upto n v : Z.of_nat n <= Z.of_nat (length (sl v)) → pure (upto_ n v).
Proof. intros H s. unfold upto_. rewrite upto_in by lia. by eexists. Qed.
Lemma pure_index0 v : 1 <= Z.of_nat (length (sl v)) → pure (index0 v).
Proof. intros H s. unfold index0. destruct (sl v); [by simpl in H|by eexists]. Qed.
Lemma text_of_spec v (s : S) : sl v ≠ [] → text_of v s = Ret (text (sl v)) s.
Proof. intros H. unfold text_of, text. by destruct (sl v). Qed.

Lemma pure_Uint32 v : 4 <= Z.of_nat (length (sl v)) → pure (Uint32 v).
Proof. intros H. apply pure_bind; [by apply pure_upto|intros; apply pure_ret]. Qed.

(** Reads of an attribute that is as long as the table says. *)
Ltac width Hn := match type of Hn with ?a <= ?b => let x := eval vm_compute in a in change (x <= b) in Hn end.
Ltac read_int v Hn s := width Hn; destruct (pure_Uint32 v Hn s) as [b E]; run E; by eexists.
Ltac solve_read Hn :=
  width Hn;
  unfold nonzero, Uint16, Uint32, ntohs, ntohl;
  repeat first [apply pure_ret|apply pure_bind; [|intros]|apply pure_upto; lia|apply pure_index0; lia].
Ltac solve_attr :=
  intros t v x Hn; unfold vlan_attr, vxlan_attr, bond_attr, gretap_attr;
  repeat (case_decide; [subst t; solve_read Hn|]); try apply pure_ret.

Definition reads_attr {A} (kind : string) (f : Z → slice → A → M S A) : Prop :=
  ∀ t v x, needs (option_widths kind) t <= Z.of_nat (length (sl v)) → pure (f t v x).
Lemma vlan_reads : reads_attr "vlan" vlan_attr.
Proof. solve_attr. Qed.
Lemma vxlan_reads : reads_attr "vxlan" vxlan_attr.
Proof. solve_attr. Qed.
Lemma gretap_reads : reads_attr "gretap" gretap_attr.
Proof. solve_attr. Qed.
Lemma bond_reads : reads_attr "bond" bond_attr.
Proof.
  intros t v x Hn. unfold bond_attr.
  repeat (case_decide as H; [repeat (apply elem_of_cons in H as [H|H]; [subst t; solve_read Hn|]); by apply not_elem_of_nil in H|clear H]).
  apply pure_ret.
Qed.

Definition options_ok (kind : string) (data : list NetlinkRouteAttr) : Prop :=
  Forall (long_enough (option_widths kind)) (aview <$> data).
Lemma each_pure {A} kind (f : Z → slice → A → M S A) data a : reads_attr kind f → options_ok kind data → pure (each f data a).
Proof.
  unfold options_ok. rewrite Forall_fmap. intros Hf Hd. revert a. induction Hd as [|d l Hd _ IH]; intros a; [apply pure_ret|].
  apply pure_bind; [by apply Hf|done].
Qed.
Lemma mode_loops data m : Forall (long_enough [(1, 4)]) (aview <$> data) → pure (ipvlan_loop data m) ∧ pure (macvlan_loop data m).
Proof.
  rewrite Forall_fmap. intros Hd. induction Hd as [|d l Hd _ [IH1 IH2]]; [split; apply pure_ret|].
  assert (attr_Type d = 1 → pure (Uint32 (attr_Value d))) as Hu.
  { intros E. unfold compose, long_enough, aview in Hd. cbn [a_type a_value] in Hd. rewrite E in Hd. solve_read Hd. }
  cbn [ipvlan_loop macvlan_loop]. unfold IFLA_IPVLAN_MODE, IFLA_MACVLAN_MODE.
  destruct (decide (attr_Type d = 1)); [|done]. split; (apply pure_bind; [by apply Hu|intros; apply pure_ret]).
Qed.

(** What is not read as it should be: the range of ports of a VXLAN, and the keys of a GRE
    device, of which each is taken for the other. *)
Lemma port_range_not_read data : ∀ x x' (s s' : S), each vxlan_attr data x s = Ret x' s' →
  PortLow x' = PortLow x ∧ PortHigh x' = PortHigh x.
Proof.
  assert (∀ t v x x' (s s' : S), vxlan_attr t v x s = Ret x' s' → PortLow x' = PortLow x ∧ PortHigh x' = PortHigh x) as Hone.
  { intros t v x x' s s'. unfold vxlan_attr.
    repeat (case_decide; [by intros (b & s1 & _ & [= <- _])%bind_Ret_inv|]). by intros [= <- _]. }
  induction data as [|d data IH]; intros x x' s s'; [by intros [= <- _]|]. cbn [each].
  intros (x1 & s1 & [H1 H2]%Hone & [H3 H4]%IH)%bind_Ret_inv. split; congruence.
Qed.
Lemma gretap_keys_exchanged k1 k2 (s : S) :
  let datum t k := mkNetlinkRouteAttr t (mkSlice [0; 0; 0; k] []) in
  each gretap_attr [datum IFLA_GRE_IKEY k1; datum IFLA_GRE_OKEY k2] zero_Gretap s =
    Ret (set_IKey k2 (set_OKey k1 zero_Gretap)) s.
Proof.
  assert (∀ k (s : S), ntohl (mkSlice [0; 0; 0; k] []) s = Ret k s) as Hk.
  { intros k s'. unfold ntohl. change (Ret (k + 256 * 0) s' = Ret k s'). f_equal. lia. }
  intros datum. change (each gretap_attr _ _ s) with
    ((g ← (b ← ntohl (mkSlice [0; 0; 0; k1] []); mret (set_OKey b zero_Gretap)) : M S Gretap;
      g ← (b ← ntohl (mkSlice [0; 0; 0; k2] []); mret (set_IKey b g)); mret g) s).
  rewrite (bind_Ret _ _ _ (set_OKey k1 zero_Gretap) s) by (by run (Hk k1 s)).
  by rewrite (bind_Ret _ _ _ (set_IKey k2 (set_OKey k1 zero_Gretap)) s) by (by run (Hk k2 s)).
Qed.

(** The kind of a link, without its options, and that it is the one of a type. *)
Definition shape (k : Kind) : Z :=
  match k with
  | Device => 0 | Dummy => 1 | Ifb => 2 | Bridge => 3 | Vlan _ => 4 | Macvlan _ => 5 | Macvtap _ => 6 | Veth _ => 7
  | GenericLink _ => 8 | VxlanLink _ => 9 | IPVlan _ => 10 | Bond => 11 | GretapLink _ => 12
  end.
Definition fits (link : option Kind) (linkType : string) : Prop :=
  match link with None => linkType = "" | Some k => shape k = shape (kind_of linkType) end.

(** The assertions of the types of links hold. *)
Lemma parse_data_fits linkType link data (s : S) : fits link linkType → options_ok linkType data →
  ∃ link', parse_data linkType link data s = Ret link' s ∧ fits link' linkType.
Proof.
  intros Hf Hd. unfold parse_data.
  repeat (case_decide; [subst linkType; (destruct link as [k|]; [|done]); destruct k; try done|]); [..|by exists link].
  - destruct (each_pure "vlan" _ data VlanId vlan_reads Hd s) as [i E]. unfold parseVlanData. run E. by eexists.
  - destruct (each_pure "vxlan" _ data vxlan vxlan_reads Hd s) as [i E]. unfold parseVxlanData. run E. by eexists.
  - destruct (each_pure "bond" _ data tt bond_reads Hd s) as [i E]. unfold parseBondData. run E. by eexists.
  - destruct (proj1 (mode_loops data Mode Hd) s) as [i E]. unfold parseIPVlanData. run E. by eexists.
  - destruct (proj2 (mode_loops data Mode Hd) s) as [i E]. unfold parseMacvlanData. run E. by eexists.
  - destruct (proj2 (mode_loops data Mode Hd) s) as [i E]. unfold parseMacvtapData. run E. by eexists.
  - destruct (each_pure "gretap" _ data gre gretap_reads Hd s) as [i E]. unfold parseGretapData. run E. by eexists.
Qed.

(** ** The attributes of a message *)

Lemma route_attrs_nested v l (s : S) : nested (sl v) l → ∃ attrs, route_attrs v s = Ret (inr attrs) s ∧ aview <$> attrs = l.
Proof. intros [Hv Hl]. destruct (parse_attrs l v Hl Hv) as (attrs & E & Ha). exists attrs. unfold route_attrs. by rewrite E. Qed.

Lemma last_kind_cons kind i infos :
  last_kind kind (i :: infos) = last_kind (if decide (a_type i = 1) then text (a_value i) else kind) infos.
Proof.
  unfold last_kind. rewrite filter_cons. case_decide; [|done]. rewrite last_cons. by destruct (last _).
Qed.

Lemma info_loop_fits infos : ∀ link kind (s : S), infos_ok kind (aview <$> infos) → fits link kind →
  ∃ link', info_loop infos link kind s = Ret (inr (link', last_kind kind (aview <$> infos))) s ∧
    fits link' (last_kind kind (aview <$> infos)).
Proof.
  induction infos as [|i infos IH]; intros link kind s Hok Hf; [by exists link|].
  rewrite fmap_cons in *. rewrite last_kind_cons. cbn [infos_ok info_loop] in *. unfold IFLA_INFO_KIND, IFLA_INFO_DATA.
  change (a_type (aview i)) with (attr_Type i) in *. change (a_value (aview i)) with (sl (attr_Value i)) in *.
  case_decide as H1; [|case_decide as H2].
  - destruct Hok as [Hne Hok]. run (text_of_spec (attr_Value i) s Hne). by apply IH.
  - destruct Hok as [(data & Hn & Hd) Hok]. destruct (route_attrs_nested _ _ s Hn) as (attrs & E & <-). run E.
    destruct (parse_data_fits kind link attrs s Hf Hd) as (link' & E' & Hf'). run E'. by apply IH.
  - by apply IH.
Qed.

(** The name of a link is that of its last attribute for it. *)
Definition name_after (name : string) (attrs : list attribute) : string :=
  default name ((text ∘ a_value) <$> last (filter (λ a, a_type a = IFLA_IFNAME) attrs)).
Lemma name_after_cons name a attrs :
  name_after name (a :: attrs) = name_after (if decide (a_type a = IFLA_IFNAME) then text (a_value a) else name) attrs.
Proof. unfold name_after. rewrite filter_cons. case_decide; [|done]. rewrite last_cons. by destruct (last _). Qed.

Lemma base_attr_spec t v base (s : S) : needs link_widths t <= Z.of_nat (length (sl v)) →
  ∃ base', base_attr t v base s = Ret base' s ∧ Index base' = Index base ∧ Flags base' = Flags base ∧
    Name base' = name_after (Name base) [mkAttribute t (sl v)].
Proof.
  intros Hn. rewrite name_after_cons. cbn [a_type a_value name_after filter list_filter last fmap option_fmap default].
  unfold base_attr. assert (1 <= Z.of_nat (length (sl v)) → sl v ≠ []) as Hne by (intros H; by destruct (sl v)).
  destruct (decide (t = IFLA_ADDRESS)) as [->|_]; [eexists; split; [done|]; by case_decide|].
  destruct (decide (t = IFLA_IFNAME)) as [->|Hname]; [width Hn; run (text_of_spec v s (Hne Hn)); by eexists|].
  destruct (decide (t = IFLA_MTU)) as [->|_]; [read_int v Hn s|].
  destruct (decide (t = IFLA_LINK)) as [->|_]; [read_int v Hn s|].
  destruct (decide (t = IFLA_MASTER)) as [->|_]; [read_int v Hn s|].
  destruct (decide (t = IFLA_TXQLEN)) as [->|_]; [read_int v Hn s|].
  destruct (decide (t = IFLA_IFALIAS)) as [->|_]; [width Hn; run (text_of_spec v s (Hne Hn)); by eexists|].
  by eexists.
Qed.

Lemma link_loop_spec attrs : ∀ base link kind (s : S), attrs_ok kind (aview <$> attrs) → fits link kind →
  ∃ base' link', link_loop attrs base link kind s = Ret (inr (base', link')) s ∧
    Index base' = Index base ∧ Flags base' = Flags base ∧ Name base' = name_after (Name base) (aview <$> attrs).
Proof.
  induction attrs as [|a attrs IH]; intros base link kind s Hok Hf; [by eexists _, _|].
  rewrite fmap_cons in *. cbn [attrs_ok link_loop] in *. rewrite name_after_cons.
  change (a_type (aview a)) with (attr_Type a) in *. change (a_value (aview a)) with (sl (attr_Value a)) in *.
  case_decide as H1.
  - destruct Hok as (infos & Hn & Hi & Hok). destruct (route_attrs_nested _ _ s Hn) as (l & E & <-). run E.
    destruct (info_loop_fits l link kind s Hi Hf) as (link' & E' & Hf'). run E'. rewrite decide_False by (by rewrite H1).
    by apply IH.
  - destruct Hok as [Hlong Hok].
    destruct (base_attr_spec (attr_Type a) (attr_Value a) base s Hlong) as (base' & E & Hi & Hfl & Hname). run E.
    destruct (IH base' link kind s Hok Hf) as (b & l & E' & Hi' & Hf' & Hn'). exists b, l. split; [exact E'|].
    rewrite Hi', Hf', Hn', Hi, Hfl, Hname. rewrite name_after_cons. done.
Qed.

(** A link that was made from a message. *)
Definition decodes (l : Link) (e : klink) : Prop :=
  Index (Attrs l) = ifi_Index (kl_msg e) ∧ Flags (Attrs l) = linkFlags (ifi_Flags (kl_msg e)) ∧ Name (Attrs l) = link_name e.

Lemma IfInfomsg_read msg b v : sl v = IfInfomsg_Serialize msg ++ b →
  0 <= ifi_Family msg < 256 → 0 <= ifi_Type msg < 2 ^ 16 → - 2 ^ 31 <= ifi_Index msg < 2 ^ 31 →
  0 <= ifi_Flags msg < 2 ^ 32 → 0 <= ifi_Change msg < 2 ^ 32 → DeserializeIfInfomsg v = Some msg.
Proof.
  intros Hs. unfold DeserializeIfInfomsg. rewrite upto_in by (rewrite Hs, length_app, length_IfInfomsg; lia).
  rewrite Hs, take_app_length' by (by rewrite length_IfInfomsg).
  destruct msg as [f t i fl c]. unfold IfInfomsg_Serialize. cbn [ifi_Family ifi_Type ifi_Index ifi_Flags ifi_Change]. intros.
  do 2 f_equal; read_fields; try (by apply get_put).
  rewrite get_put_mod. by apply int32_small.
Qed.

(** A message about a link is decoded, whatever kind it is. *)
Lemma linkDeserialize_spec e m (s : S) : link_ok e → sl m = link_payload e →
  ∃ l, linkDeserialize m s = Ret (inr l) s ∧ decodes l e.
Proof.
  intros [Hf Ht Hi Hfl Hc Hao Ha _] Hm. unfold linkDeserialize. unfold link_payload in Hm.
  rewrite (IfInfomsg_read _ _ _ Hm) by (try done; lia).
  rewrite decide_False by (rewrite Hm, length_app, length_IfInfomsg; lia).
  destruct (route_attrs_nested (mkSlice (drop 16 (sl m)) (beyond m)) (kl_attrs e) s) as (attrs & E & Hat).
  { split; [|done]. cbn [sl]. by rewrite Hm, drop_app_length' by (by rewrite length_IfInfomsg). }
  run E. rewrite <-Hat in Ha.
  destruct (link_loop_spec attrs (zero_attrs (ifi_Index (kl_msg e)) (linkFlags (ifi_Flags (kl_msg e)))) None "" s Ha eq_refl)
    as (base & link & E' & H1 & H2 & H3).
  run E'. eexists. split; [done|]. split; [exact H1|]. split; [exact H2|]. cbn [Attrs]. rewrite H3, Hat. done.
Qed.
Lemma deserialize_all_spec es : ∀ msgs (s : S), Forall link_ok es → sl <$> msgs = link_payload <$> es →
  ∃ ls, deserialize_all msgs s = Ret (inr ls) s ∧ Forall2 decodes ls es.
Proof.
  induction es as [|e es IH]; intros [|m msgs] s Hes Hm; try done; [by exists []|].
  rewrite !fmap_cons in Hm. apply (inj2 cons) in Hm as [Hm Hms]. apply Forall_cons in Hes as [He Hes].
  cbn [deserialize_all]. destruct (linkDeserialize_spec e m s He Hm) as (l & E & Hl). run E.
  destruct (IH msgs s Hes Hms) as (ls & E' & Hls). run E'. exists (l :: ls). split; [done|]. by apply Forall2_cons.
Qed.
End Decoding.

(** ** Asking *)
Section Asking.
Context {K : Type} {en : Endian} {kn : Kernel K} {kl : KernelLaws K}.
Implicit Types (n : netlink K).

(** Asking changes no table. *)
Definition same_table n n' : Prop := ktable (kernel n') = ktable (kernel n).

Lemma LinkList_spec n : ∃ r n', LinkList n = Ret r n' ∧ same_table n n' ∧
  ∀ ls, r = inr ls → Forall2 decodes ls (klinks (kernel n)).
Proof.
  unfold LinkList. destruct (NewNetlinkRequest_spec RTM_GETLINK NLM_F_DUMP n) as (seq & E & Hseq); [done..|]. run E.
  set (req := AddData _ _). set (n1 := mkNetlink _ _ _).
  destruct (Execute_post (kl := kl) RTM_NEWLINK req n1 (λ r k', ktable k' = ktable (kernel n) ∧
    ∀ msgs, r = inr msgs → sl <$> msgs = link_payload <$> klinks (kernel n))) as (r & n' & E' & Hk & Hr).
  - by intros.
  - intros r k k' -> H. exact H.
  - intros fd k Hb Hq. change (ktable k = ktable (kernel n)) in Hb. unfold req, AddData. cbn [req_hdr req_Data app]. rewrite Serialize_nlmsg.
    destruct (link_dump_law fd k seq Hseq) as (r & k' & E1 & Hb' & Hr).
    exists r, k'. split; [by rewrite <-E1; cbn [fmap list_fmap concat]; rewrite app_nil_r|].
    split; [intros; split; [by rewrite Hb', Hb|done]|]. intros -> n2 fuel Hbn Hqn Hf.
    destruct Hr as (dgs & Hq' & Hc). rewrite Hq in Hq'. cbn [app] in Hq'.
    destruct (receive_dump RTM_NEWLINK fd seq (port fd) dgs fuel (link_payload <$> t_links (ktable k)) [] n2)
      as (r & k'' & E2 & Hb2 & Hr); [by right|by rewrite Hqn, Hq'|done| |done|apply port_range|by rewrite Hq', length_fmap in Hf|].
    { apply Forall_fmap. eapply Forall_impl; [apply links_ok|apply link_payload_ok]. }
    exists r, k''. split; [exact E2|]. split; [by rewrite Hb2, Hbn, Hb', Hb|]. intros msgs ->. rewrite Hr. cbn.
    unfold klinks. by rewrite Hb.
  - run E'. destruct r as [err|msgs]; [by eexists _, _|].
    destruct (deserialize_all_spec (klinks (kernel n)) msgs n' (links_ok _) (Hr msgs eq_refl)) as (ls & El & Hls).
    exists (inr ls), n'. split; [exact El|]. split; [done|]. by intros ls' [= <-].
Qed.

Definition found (n : netlink K) (name : string) (l : Link) : Prop :=
  ∃ e, e ∈ klinks (kernel n) ∧ decodes l e ∧ (name_ok name → link_name e = name).

Lemma linkByNameDump_spec name n : ∃ r n', linkByNameDump name n = Ret r n' ∧ same_table n n' ∧
  ∀ l, r = inr l → found n name l.
Proof.
  unfold linkByNameDump. destruct (LinkList_spec n) as (r & n' & E & Hs & Hr). run E.
  destruct r as [err|ls]; [by eexists _, _|]. eexists _, n'. split; [done|]. split; [done|].
  specialize (Hr ls eq_refl). intros l. destruct (List.find _ ls) as [l'|] eqn:Hf; [|done]. intros [= ->].
  apply List.find_some in Hf as [Hin Hname%bool_decide_eq_true]. apply list_elem_of_In in Hin.
  apply list_elem_of_lookup in Hin as [i Hi]. destruct (Forall2_lookup_l _ _ _ _ _ Hr Hi) as (e & He & Hd).
  exists e. split; [by eapply list_elem_of_lookup_2|]. split; [done|]. intros _. destruct Hd as (_ & _ & Hd). congruence.
Qed.

(** The request for a name, as rtnetlink wants it. *)
Lemma length_bytes_of name : length (bytes_of name) = String.length name.
Proof. induction name as [|c name IH]; [done|]. cbn. by rewrite IH. Qed.
Lemma name_request_bytes name : name_ok name →
  concat (data_Serialize <$> [ND_IfInfomsg (NewIfInfomsg 0); NewRtAttr IFLA_IFNAME (ZeroTerminated name)]) = name_payload name.
Proof.
  intros [_ Hl]. cbn [fmap list_fmap concat]. rewrite attr_Serialize; [by rewrite app_nil_r|done|].
  unfold ZeroTerminated. rewrite length_app, length_bytes_of. simpl. lia.
Qed.

Lemma by_name_spec name n : ∃ r n', (req ← NewNetlinkRequest RTM_GETLINK NLM_F_ACK; execGetLink (name_request name req)) n = Ret r n' ∧
  same_table n n' ∧ ∀ l, r = inr l → found n name l.
Proof.
  destruct (NewNetlinkRequest_spec RTM_GETLINK NLM_F_ACK n) as (seq & E & Hseq); [done..|]. run E.
  set (req := name_request _ _). set (n1 := mkNetlink _ _ _).
  destruct (Execute_post (kl := kl) 0 req n1 (λ r k', ktable k' = ktable (kernel n) ∧
    ∀ msgs, r = inr msgs → msgs = [] ∨ ∃ m e, msgs = [m] ∧ sl m = link_payload e ∧ e ∈ klinks (kernel n) ∧
      (name_ok name → link_name e = name))) as (r & n' & E' & Hk & Hr).
  - by intros.
  - intros r k k' -> H. exact H.
  - intros fd k Hb Hq. change (ktable k = ktable (kernel n)) in Hb. unfold req, name_request, AddData. cbn [req_hdr req_Data app]. rewrite Serialize_nlmsg.
    set (payload := concat _).
    destruct (link_law fd k seq payload Hseq) as (r & k' & E1 & Hb' & Hr).
    exists r, k'. split; [exact E1|]. split; [intros; split; [by rewrite Hb', Hb|done]|]. intros -> n2 fuel Hbn Hqn Hf.
    destruct Hr as (reply & more & Hq' & Hok & Hrep). rewrite Hq in Hq'. cbn [app] in Hq'.
    assert (queue (kernel n2) fd = dgram [reply] :: more) as Hq2 by (unfold dgram; cbn; by rewrite app_nil_r, Hqn, Hq').
    assert (0 < fuel)%nat as Hpos by lia.
    destruct Hrep as [(code & aflags & echo & -> & Hcode)|(e & rflags & -> & Hm & He & Hname)].
    + destruct (receive_ack fd seq (port fd) code aflags echo more fuel n2 Hq2 Hok Hcode Hpos) as (r & k'' & E2 & Hb2 & Hr).
      exists r, k''. split; [exact E2|]. split; [by rewrite Hb2, Hbn, Hb', Hb|]. intros msgs Hmsgs. left. by apply Hr.
    + destruct (receive_link fd seq (port fd) rflags _ more fuel n2 Hq2 Hok Hm Hpos) as (r & k'' & E2 & Hb2 & Hr).
      exists r, k''. split; [exact E2|]. split; [by rewrite Hb2, Hbn, Hb', Hb|]. intros msgs ->. right.
      destruct msgs as [|m [|]]; try done. exists m, e. split; [done|]. split; [by injection Hr|].
      split; [by unfold klinks; rewrite <-Hb|]. intros Hn. apply Hname; [done|]. by apply name_request_bytes.
  - unfold execGetLink. run E'. destruct r as [err|msgs]; [by eexists _, _|].
    destruct (Hr msgs eq_refl) as [-> | (m & e & -> & Hm & He & Hname)]; [by eexists _, _|].
    assert (link_ok e) as Hok by (pose proof (links_ok (kernel n)) as Hall; rewrite Forall_forall in Hall; by apply Hall).
    destruct (linkDeserialize_spec e m n' Hok Hm) as (l & El & Hl).
    exists (inr l), n'. split; [exact El|]. split; [done|]. intros l' [= <-]. by exists e.
Qed.

(** Either way a link is found, or there is an error. *)
Lemma LinkByName_finds name n : ∃ r n', NetlinkLink.LinkByName name n = Ret r n' ∧ same_table n n' ∧
  ∀ l, r = inr l → found n name l.
Proof.
  unfold NetlinkLink.LinkByName. rewrite bind_unfold. cbn [get].
  destruct (lookupByDump n); [apply linkByNameDump_spec|].
  destruct (by_name_spec name n) as (r & n1 & E & Hs & Hr). 
  apply bind_Ret_inv in E as (req & n0 & E0 & E). run E0. run E.
  destruct r as [err|l]; [|by eexists _, _]. case_decide; [|by eexists _, _].
  destruct (linkByNameDump_spec name (set_lookupByDump true n1)) as (r & n2 & E2 & Hs2 & Hr2).
  rewrite bind_unfold. cbn [modify]. exists r, n2. split; [exact E2|].
  unfold same_table, found, klinks in *. cbn [kernel set_lookupByDump] in *. rewrite Hs in *. split; [done|]. exact Hr2.
Qed.
End Asking.
