(* ===== verification/RtnetlinkCalls.v ===== *)
(** The calls of the netlink package: what they send is the request that rtnetlink
    documents, and they read back what the kernel answers.  So a kernel with
    [KernelLaws] gives the laws that the program relies on ([vishvananda_laws]).  A
    kernel that decodes requests shows that there is one ([Toy]). *)

From Stdlib Require Import Ascii.
From stdpp Require Import gmap strings pretty numbers list.
From S2P Require Import Prelude GoStrings Strconv IPAddr IPAddrProps Nl Rtnetlink RtnetlinkProps.
From S2P Require NetlinkLink NetlinkLinkProps.

Local Open Scope Z_scope.

(** ** The requests *)
Section Requests.
Context {en : Endian}.

Lemma Mask_Size_CIDRMask p : 0 <= p <= 32 → Mask_Size (CIDRMask p 32) = (p, 32).
Proof.
  intros Hp. replace p with (Z.of_nat (Z.to_nat p)) by lia.
  assert (Z.to_nat p < 33)%nat as Hn by lia. revert Hn. generalize (Z.to_nat p). intros n Hn.
  assert (Forall (λ n, Mask_Size (CIDRMask (Z.of_nat n) 32) = (Z.of_nat n, 32)) (seq 0 33)) as Hall.
  { by apply (bool_decide_unpack _); vm_compute. }
  rewrite Forall_forall in Hall. apply Hall, elem_of_seq. lia.
Qed.

(** What is sent for an IPv4 network without a label, flags and scope. *)
Lemma addr_request_bytes base ip p l t f s :
  is_ip4 ip → 0 <= p <= 32 →
  Serialize (addr_request base (mkIPNet ip (CIDRMask p 32)) (mkAddr (Some (mkIPNet ip (CIDRMask p 32))) "" 0 0)
    (mkNetlinkRequest (mkNlMsghdr l t f s 0) [])) =
  nlmsg t f s 0 (addr_payload (Attrs_Index base mod 2 ^ 32) p ip).
Proof.
  intros [Hl Hb] Hp. unfold addr_request. cbn [ipnet_IP ipnet_Mask Flags Label Scope].
  assert (GetIPFamily ip = FAMILY_V4) as -> by (unfold GetIPFamily; by rewrite decide_True by (rewrite Hl; lia)).
  rewrite Mask_Size_CIDRMask by done. unfold To4. rewrite !(decide_True (P := _ = _)) by done.
  rewrite (decide_False (P := 0 ≠ 0)) by auto. rewrite (decide_False (P := "" ≠ "")) by auto.
  unfold AddData. cbn [req_hdr req_Data app default fst from_option id ifa_Family NewIfAddrmsg].
  rewrite Serialize_nlmsg. f_equal. cbn [fmap list_fmap concat]. rewrite !attr_Serialize by (rewrite ?Hl; done).
  unfold addr_payload. rewrite (Z.mod_small p) by lia. by rewrite app_nil_r.
Qed.
End Requests.

(** ** Reading addresses back *)
Section Reading.
Context {K : Type} {en : Endian} {kn : Kernel K}.
Implicit Types (n : netlink K).

Definition last_attr (prefixlen type : Z) (attrs : list attribute) : option IPNet :=
  attr_net prefixlen <$> last (filter (λ a, a_type a = type) attrs).

Lemma last_attr_cons p type a attrs :
  last_attr p type (a :: attrs) =
  match last_attr p type attrs with
  | Some x => Some x
  | None => if decide (a_type a = type) then Some (attr_net p a) else None
  end.
Proof.
  unfold last_attr. rewrite filter_cons. case_decide; [rewrite last_cons|]; by destruct (last _).
Qed.

(** The loop over the attributes keeps the last of each kind. *)
Lemma attr_loop_spec p l local dst label flags n :
  let attrs := aview <$> l in
  Forall (λ a, a_type a = IFA_LABEL → a_value a ≠ []) attrs →
  Forall (λ a, a_type a = IFA_FLAGS → 4 <= Z.of_nat (length (a_value a))) attrs →
  ∃ label' flags', attr_loop p l local dst label flags n =
    Ret (last_attr p IFA_LOCAL attrs ∪ local, last_attr p IFA_ADDRESS attrs ∪ dst, label', flags') n.
Proof.
  cbn zeta. revert local dst label flags. induction l as [|a l IH]; intros local dst label flags Hl Hf;
    [by destruct local, dst; eexists _, _|].
  rewrite fmap_cons in *. apply Forall_cons in Hl as [Hl1 Hl], Hf as [Hf1 Hf]. cbn [attr_loop].
  rewrite !last_attr_cons. set (attrs := aview <$> l) in *.
  change (mkIPNet (sl (attr_Value a)) _) with (attr_net p (aview a)). cbn [aview a_type a_value] in *.
  assert (∀ local' dst' label flags, (if decide (attr_Type a = IFA_LOCAL) then Some (attr_net p (aview a)) else local) = local' →
    (if decide (attr_Type a = IFA_ADDRESS) then Some (attr_net p (aview a)) else dst) = dst' →
    ∃ label' flags', attr_loop p l local' dst' label flags n =
    Ret (match last_attr p IFA_LOCAL attrs with Some x => Some x
         | None => if decide (attr_Type a = IFA_LOCAL) then Some (attr_net p (aview a)) else None end ∪ local,
         match last_attr p IFA_ADDRESS attrs with Some x => Some x
         | None => if decide (attr_Type a = IFA_ADDRESS) then Some (attr_net p (aview a)) else None end ∪ dst,
         label', flags') n) as Hgo.
  { intros ? ? label0 flags0 <- <-. edestruct IH as (label' & flags' & E); [done..|]. exists label', flags'. rewrite E.
    do 2 case_decide; by destruct (last_attr p IFA_LOCAL attrs), (last_attr p IFA_ADDRESS attrs), local, dst. }
  clear IH. revert Hgo. destruct (decide (attr_Type a = IFA_ADDRESS)) as [H1|H1], (decide (attr_Type a = IFA_LOCAL)) as [H2|H2];
    intros Hgo; [by rewrite H1 in H2|by apply Hgo..|].
  case_decide as H3; [|case_decide as H4; [|by apply Hgo]].
  - rewrite decide_False by auto. by apply Hgo.
  - rewrite upto_in by (specialize (Hf1 H4); lia). by apply Hgo.
Qed.

(** The networks of the entries of a dump that are of a device. *)
Definition entry_of (i : Z) (e : kaddr) : option IPNet :=
  if decide (ifa_Family (ka_msg e) = FAMILY_V4 ∧ ifa_Index (ka_msg e) = i) then entry_net e else None.

Lemma msg_loop_spec index es msgs res n :
  Forall entry_ok es → sl <$> msgs = entry_payload <$> es →
  ∃ l, msg_loop index FAMILY_V4 msgs res n = Ret (inr (res ++ l)) n ∧
    IPNet_ <$> l = Some <$> omap (entry_of (index mod 2 ^ 32)) es.
Proof.
  intros Hes. revert msgs res. induction Hes as [|e es He Hes IH]; intros [|m msgs] res Hmsgs; try done.
  { exists []. by rewrite app_nil_r. }
  rewrite !fmap_cons in Hmsgs. apply (inj2 cons) in Hmsgs as [Hm Hmsgs]. cbn [omap list_omap msg_loop].
  destruct He as [? ? ? ? ? Ha Hl Hf _ Hn]. unfold entry_payload in Hm.
  rewrite (IfAddrmsg_read (ka_msg e) _ _ Hm) by done. unfold entry_of at 1.
  case_decide as Hi. { rewrite decide_False by (by intros []). by apply IH. }
  change (FAMILY_V4 mod 256) with FAMILY_V4.
  destruct (decide (ifa_Family (ka_msg e) = FAMILY_V4)) as [Hv|Hv].
  2: { rewrite (bool_decide_eq_true_2 (ifa_Family _ ≠ _)) by done. rewrite (bool_decide_eq_true_2 (FAMILY_V4 ≠ _)) by done.
       simpl andb. rewrite (decide_False (P := _ ∧ _)) by (by intros []). by apply IH. }
  rewrite (bool_decide_eq_false_2 (ifa_Family _ ≠ _)) by auto. rewrite andb_false_r.
  rewrite decide_False by (rewrite Hm, length_app, length_IfAddrmsg; lia).
  destruct (parse_attrs (ka_attrs e) (mkSlice (drop 8 (sl m)) (beyond m)) Ha) as (attrs & -> & Hat).
  { cbn. by rewrite Hm, drop_app_length' by (by rewrite length_IfAddrmsg). }
  rewrite <-Hat in Hl, Hf.
  destruct (attr_loop_spec (ifa_Prefixlen (ka_msg e)) attrs None None "" 0 n Hl Hf) as (label & flags & E).
  rewrite Hat in E. rewrite bind_unfold, E. specialize (Hn Hv). rewrite decide_True by done.
  destruct Hn as [x Hx]. rewrite Hx. cbv beta iota zeta.
  assert (match last_attr (ifa_Prefixlen (ka_msg e)) IFA_LOCAL (ka_attrs e) ∪ None with
    | Some _ => last_attr (ifa_Prefixlen (ka_msg e)) IFA_LOCAL (ka_attrs e) ∪ None
    | None => last_attr (ifa_Prefixlen (ka_msg e)) IFA_ADDRESS (ka_attrs e) ∪ None end = Some x) as ->.
  { unfold entry_net, last_net in Hx. fold (last_attr (ifa_Prefixlen (ka_msg e)) IFA_LOCAL (ka_attrs e)) in Hx.
    fold (last_attr (ifa_Prefixlen (ka_msg e)) IFA_ADDRESS (ka_attrs e)) in Hx.
    by destruct (last_attr _ IFA_LOCAL _), (last_attr _ IFA_ADDRESS _). }
  edestruct IH as (l & E' & Hnets); [done|]. rewrite E'.
  eexists (_ :: l). rewrite <-app_assoc. split; [done|]. cbn. by rewrite Hnets.
Qed.

Lemma read_addrs_spec l nets n :
  IPNet_ <$> l = Some <$> nets →
  ∃ l', read_addrs l n = Ret (inr l') n ∧ addr_IPNet <$> l' = nets.
Proof.
  revert nets. induction l as [|a l IH]; intros [|x nets] H; try done; [by eexists|].
  injection H as Hx H. cbn [read_addrs]. rewrite Hx. destruct (IH nets H) as (l' & E & Hl).
  rewrite bind_unfold, E. eexists. split; [done|]. cbn. by rewrite Hl.
Qed.
End Reading.

Lemma string_of_bytes_of s : string_of (bytes_of s) = s.
Proof. induction s as [|c s IH]; [done|]. unfold string_of in *. cbn [bytes_of foldr]. by rewrite IH, N2Z.id, ascii_N_embedding. Qed.

(** ** The operations *)
Section Operations.
Context {K : Type} {en : Endian} {kn : Kernel K} {kl : KernelLaws K}.
Implicit Types (n : netlink K).

(** What a change of an address has done to the devices. *)
Definition changed (add : bool) (index : Z) (a : IPNet) (did : bool) (k k' : K) : Prop :=
  ∀ i b, b ∈ kbound k' i ↔
    if add then (i = index ∧ did ∧ b = a) ∨ b ∈ kbound k i
    else ¬ (i = index ∧ did ∧ b = a) ∧ b ∈ kbound k i.

Lemma changed_not add index a k k' : ktable k' = ktable k → changed add index a false k k'.
Proof. intros H i b. unfold kbound. rewrite H. destruct add; naive_solver. Qed.

(** Both changes send one request, about the link itself when it has an index. *)
Definition change (add : bool) (l : Link) (a : IPNet) : M (netlink K) (option error) :=
  if add then AddrAdd l (plain_addr (IPAddr.mkAddr a "")) else AddrDel l (plain_addr (IPAddr.mkAddr a "")).
Definition change_request (add : bool) (l : Link) (a : IPNet) (seq : Z) : NetlinkRequest :=
  addr_request l a (plain_addr (IPAddr.mkAddr a ""))
    (mkNetlinkRequest (mkNlMsghdr 16 (if add then RTM_NEWADDR else RTM_DELADDR) (if add then 1541 else 5) seq 0) []).

Lemma change_Execute add l a n :
  Attrs_Index l ≠ 0 → ∃ seq, 0 <= seq < 2 ^ 32 ∧
    change add l a n =
    (r ← Execute NETLINK_ROUTE 0 (change_request add l a seq);
     match r with inl err => mret (Some err) | inr _ => mret None end) (mkNetlink (kernel n) seq (lookupByDump n)).
Proof.
  intros Hi. destruct (NewNetlinkRequest_spec (if add then RTM_NEWADDR else RTM_DELADDR) (if add then 1540 else 4) n)
    as (seq & E & Hseq); [by destruct add..|].
  exists seq. split; [done|]. unfold change, AddrAdd, AddrDel.
  assert (∀ req, addrHandle l (plain_addr (IPAddr.mkAddr a "")) req =
    (r ← Execute NETLINK_ROUTE 0 (addr_request l a (plain_addr (IPAddr.mkAddr a "")) req);
     match r with inl err => mret (Some err) | inr _ => mret None end)) as Hh.
  { intros req. unfold addrHandle, ensureIndex. by rewrite (decide_False (P := Attrs_Index l = 0)) by done. }
  destruct add; rewrite bind_unfold; [change (Z.lor _ NLM_F_ACK) with 1540|change NLM_F_ACK with 4];
    by rewrite E, Hh.
Qed.

Lemma change_spec (add : bool) l ip p n :
  is_ip4 ip → 0 <= p <= 32 → Attrs_Index l ≠ 0 →
  let a := mkIPNet ip (CIDRMask p 32) in
  ∃ err n' (did : bool), change add l a n = Ret err n' ∧
    (err = None → did) ∧ changed add (Attrs_Index l mod 2 ^ 32) a did (kernel n) (kernel n').
Proof.
  intros Hip Hp Hi a. destruct (change_Execute add l a n Hi) as (seq & Hseq & ->).
  destruct (Execute_post (kl := kl) 0 (change_request add l a seq) (mkNetlink (kernel n) seq (lookupByDump n))
    (λ r k', ∃ did : bool, (∀ l, r = inr l → did) ∧ changed add (Attrs_Index l mod 2 ^ 32) a did (kernel n) k'))
    as (r & n' & E & did & Hd & Hc).
  - intros err k' Hb. exists false. split; [done|by apply changed_not].
  - intros r k k' Hb (did & Hd & Hc). exists did. split; [done|]. intros i b. unfold kbound. rewrite Hb. apply Hc.
  - intros fd k Hb Hq. unfold change_request, a, plain_addr. cbn [addr_IPNet addr_Label].
    rewrite addr_request_bytes by done. cbn [kernel] in *.
    destruct (change_law add fd k seq (Attrs_Index l mod 2 ^ 32) p ip) as (r & k' & E & Hr);
      [done|done|done|by apply Z.mod_pos_bound|].
    exists r, k'. split; [done|]. destruct r as [err|].
    { split; [|done]. intros ?. exists false. split; [done|]. apply changed_not. congruence. }
    destruct Hr as (code & aflags & echo & Hq' & Hok & Hcode & _ & Hch). rewrite Hq in Hq'.
    assert (changed add (Attrs_Index l mod 2 ^ 32) a (bool_decide (code = 0)) (kernel n) k') as Hc.
    { intros i b. unfold kbound. rewrite Hch, Hb. pose proof (bool_decide_spec (code = 0)). destruct add; tauto. }
    split; [by intros; exists (bool_decide (code = 0))|]. intros _ n' fuel Hb' Hq'' Hf.
    destruct (receive_ack fd seq (port fd) code aflags echo [] fuel n') as (r & k'' & E' & Hb'' & Hz); [|done..|lia|].
    { rewrite Hq'', Hq'. cbn. unfold dgram. cbn. by rewrite app_nil_r. }
    eexists r, k''. split; [exact E'|]. exists (bool_decide (code = 0)). split; [by intros l' [? _]%Hz; apply bool_decide_spec|].
      intros i b. unfold kbound. rewrite Hb'', Hb'. apply Hc.
  - rewrite bind_unfold, E. destruct r as [err|msgs]; eexists _, _, did; (split; [done|]); (split; [|done]); [done|].
    intros _. by eapply Hd.
Qed.

(** Listing sends one request too, and gets the entries of every device. *)
Lemma dump_spec seq n :
  0 <= seq < 2 ^ 32 → let req := mkNetlinkRequest (mkNlMsghdr 16 RTM_GETADDR 769 seq 0)
    [ND_IfInfomsg (NewIfInfomsg FAMILY_V4)] in
  ∃ r n', Execute NETLINK_ROUTE RTM_NEWADDR req n = Ret r n' ∧ ktable (kernel n') = ktable (kernel n) ∧
    ∀ msgs, r = inr msgs → ∃ es, Forall entry_ok es ∧ sl <$> msgs = entry_payload <$> es ∧
      ∀ i, kbound (kernel n) i = omap (entry_of i) es.
Proof.
  intros Hseq req. apply (Execute_post (kl := kl) RTM_NEWADDR req n (λ r k',
    ktable k' = ktable (kernel n) ∧ ∀ msgs, r = inr msgs → ∃ es, Forall entry_ok es ∧ sl <$> msgs = entry_payload <$> es ∧
      ∀ i, kbound (kernel n) i = omap (entry_of i) es)).
  - by intros.
  - intros r k k' -> H. exact H.
  - intros fd k Hb Hq. unfold req at 1. rewrite Serialize_nlmsg.
    destruct (dump_law fd k seq Hseq) as (r & k' & E & Hb' & Hr).
    exists r, k'. split; [by rewrite <-E; cbn [fmap list_fmap concat]; rewrite app_nil_r|].
    split; [intros; split; [congruence|done]|]. intros -> n' fuel Hbn Hqn Hf.
    destruct Hr as (dgs & es & Hq' & Hc & Hok & Hes). rewrite Hq in Hq'. cbn [app] in Hq'.
    destruct (receive_dump RTM_NEWADDR fd seq (port fd) dgs fuel (entry_payload <$> es) [] n') as (r & k'' & E' & Hb'' & Hr);
      [by left|by rewrite Hqn, Hq'|done| |done|apply port_range|by rewrite Hq', length_fmap in Hf|].
    { apply Forall_fmap. eapply Forall_impl; [exact Hok|apply entry_payload_ok]. }
    exists r, k''. split; [exact E'|]. split; [congruence|]. intros msgs ->. exists es. split; [done|].
    split; [by rewrite Hr|]. intros i. unfold kbound. rewrite <-Hb. apply Hes.
Qed.

Lemma ensureIndex_spec l n :
  ∃ l' n', ensureIndex l n = Ret l' n' ∧ ktable (kernel n') = ktable (kernel n) ∧
    (Attrs_Index l ≠ 0 → l' = l).
Proof.
  unfold ensureIndex. case_decide as Hi; [|by eexists _, _].
  destruct (NetlinkLinkProps.LinkByName_finds (Attrs_Name l) n) as (r & n' & E & Hs & _).
  run E. by destruct r; eexists _, _.
Qed.

Lemma AddrList_entries l n :
  ∃ r n', IPAddr.AddrList l FAMILY_V4 n = Ret r n' ∧ ktable (kernel n') = ktable (kernel n) ∧
    ∀ addrs, r = inr addrs → Attrs_Index l ≠ 0 →
      addr_IPNet <$> addrs = kbound (kernel n) (Attrs_Index l mod 2 ^ 32).
Proof.
  cbn [IPAddr.AddrList vishvananda_netlink]. unfold AddrList.
  destruct (NewNetlinkRequest_spec RTM_GETADDR NLM_F_DUMP n) as (seq & E & Hseq); [done..|].
  rewrite !bind_unfold, E. unfold AddData. cbn [req_hdr req_Data app].
  destruct (dump_spec seq (mkNetlink (kernel n) seq (lookupByDump n)) Hseq) as (r & n1 & E1 & Hb1 & Hr).
  rewrite bind_unfold. change (Z.lor NLM_F_REQUEST NLM_F_DUMP) with 769. rewrite E1.
  destruct r as [err|msgs]; [by eexists _, _|].
  destruct (Hr msgs eq_refl) as (es & Hes & Hms & Hk). cbn [kernel] in *.
  destruct (ensureIndex_spec l n1) as (l' & n2 & E2 & Hb2 & Hl'). rewrite bind_unfold, E2.
  destruct (msg_loop_spec (Attrs_Index l') es msgs [] n2 Hes Hms) as (as_ & E3 & Hnets). rewrite E3. cbn [app].
  destruct (read_addrs_spec as_ _ n2 Hnets) as (addrs & E4 & Ha). rewrite E4.
  eexists _, n2. split; [done|]. split; [by rewrite Hb2, Hb1|]. intros addrs' [= <-] Hi. rewrite Ha, Hl' by done.
  by rewrite Hk.
Qed.

(** The laws that the program relies on. *)
#[export] Program Instance vishvananda_laws : NetlinkLaws (netlink K) := {|
  bound n l := kbound (kernel n) (Attrs_Index l mod 2 ^ 32) |}.
Next Obligation. intros n l a. apply kbound_ip4. Qed.
Next Obligation.
  intros n l. destruct (AddrList_entries l n) as (r & n' & E & Hb & Hr). exists r, n'. split; [done|].
  split; [unfold kbound; by rewrite Hb|]. destruct r; [done|]. by apply Hr.
Qed.
Next Obligation.
  intros n l ip p Hip Hp Hi a. destruct (change_spec true l ip p n Hip Hp Hi) as (err & n' & did & E & Hd & Hc).
  exists err, n', (Is_true did). split; [exact E|]. split; [done|]. intros b. rewrite (Hc _ b). naive_solver.
Qed.
Next Obligation.
  intros n l ip p Hip Hp Hi a. destruct (change_spec false l ip p n Hip Hp Hi) as (err & n' & did & E & Hd & Hc).
  exists err, n', (Is_true did). split; [exact E|]. split; [done|]. intros b. rewrite (Hc _ b). naive_solver.
Qed.
End Operations.

(** ** A kernel that decodes requests

    A table of addresses by device, three links, and the datagrams that wait on each socket;
    a dump is answered with a datagram for each address or link.  An old one does not know
    links by their name. *)
Module Toy.
#[local] Existing Instance IPNet_eq_dec.
#[local] Existing Instance is_ip4_dec.
#[export] Instance little : Endian := false.

Record toy := mkToy { old : bool; nets : list (Z * IPNet); queues : gmap Z (list (list Z)); next : Z }.

Definition prefix (x : Z * IPNet) : Z := (Mask_Size (ipnet_Mask x.2)).1.
Definition valid (x : Z * IPNet) : Prop :=
  0 <= x.1 < 2 ^ 32 ∧ is_ip4 (ipnet_IP x.2) ∧ 0 <= prefix x <= 32 ∧ ipnet_Mask x.2 = CIDRMask (prefix x) 32.
#[export] Instance valid_dec x : Decision (valid x).
Proof. unfold valid. apply _. Defined.

Definition nets_of (k : toy) (i : Z) : list IPNet :=
  snd <$> filter (λ x, x.1 = i) (filter valid (nets k)).
Definition queue_of (k : toy) (fd : Z) : list (list Z) := default [] (queues k !! fd).
Definition set_queue (fd : Z) (ds : list (list Z)) (k : toy) : toy := mkToy (old k) (nets k) (<[fd := ds]> (queues k)) (next k).
Definition port_of (fd : Z) : Z := fd mod 2 ^ 32.

Definition entry (x : Z * IPNet) : kaddr :=
  mkKaddr (mkIfAddrmsg FAMILY_V4 (prefix x) 0 0 x.1) [mkAttribute IFA_LOCAL (ipnet_IP x.2)].

(** The links: a loopback device, an Ethernet device and a VLAN on it. *)
Definition name_attr (name : string) : attribute := mkAttribute IFLA_IFNAME (ZeroTerminated name).
Definition a_link (index flags : Z) (attrs : list attribute) : klink := mkKlink (mkIfInfomsg 0 1 index flags 0) attrs.
Definition vlan_info (id : Z) : list Z :=
  concat (attr_bytes <$> [mkAttribute 1 (ZeroTerminated "vlan"); mkAttribute 2 (concat (attr_bytes <$> [mkAttribute 1 (put 2 id)]))]).
Definition links : list klink :=
  [a_link 1 73 [name_attr "lo"];
   a_link 2 4099 [name_attr "eth0"; mkAttribute IFLA_MTU (put 4 1500); mkAttribute IFLA_ADDRESS [82; 84; 0; 1; 2; 3]];
   a_link 3 4098 [name_attr "eth0.5"; mkAttribute IFLA_LINK (put 4 2); mkAttribute IFLA_LINKINFO (vlan_info 5)]].
(** The answer to a request for a link, and the errors ENODEV and EINVAL. *)
Definition asked_name (data : slice) : string :=
  match ParseRouteAttr (mkSlice (drop 16 (sl data)) (beyond data)) with
  | Some (inr (a :: _)) => text (sl (attr_Value a))
  | _ => ""
  end.
Definition link_answer (old : bool) (seq pid : Z) (name : string) : message :=
  if old then answer NLMSG_ERROR 0 seq pid (put 4 (-22) ++ [])
  else match List.find (λ e, bool_decide (link_name e = name)) links with
       | Some e => answer RTM_NEWLINK 0 seq pid (link_payload e)
       | None => answer NLMSG_ERROR 0 seq pid (put 4 (-19) ++ [])
       end.

(** The device and the network that a request names. *)
Definition decode_addr (data : slice) : option (Z * IPNet) :=
  match DeserializeIfAddrmsg data, ParseRouteAttr (mkSlice (drop 8 (sl data)) (beyond data)) with
  | Some m, Some (inr (a :: _)) => Some (ifa_Index m, mkIPNet (sl (attr_Value a)) (CIDRMask (ifa_Prefixlen m) 32))
  | _, _ => None
  end.

(** The error code and the table: EEXIST is 17, EADDRNOTAVAIL is 99. *)
Definition change_table (add : bool) (x : Z * IPNet) (l : list (Z * IPNet)) : Z * list (Z * IPNet) :=
  if add then if decide (x ∈ l) then (-17, l) else (0, x :: l)
  else if decide (x ∈ l) then (0, filter (λ y, y ≠ x) l) else (-99, l).

Definition send (fd : Z) (b : list Z) : M toy (option error) := λ k,
  match ParseNetlinkMessage (mkSlice b []) with
  | inr [m] =>
      let seq := hdr_Seq (Header m) in
      let type := hdr_Type (Header m) in
      if decide (type = RTM_GETADDR) then
        let dump := (λ m, [m]) <$> (multi_msg RTM_NEWADDR seq (port_of fd) <$> (entry_payload <$> (entry <$> filter valid (nets k)))) ++ [done_msg seq (port_of fd)] in
        Ret None (set_queue fd (queue_of k fd ++ (dgram <$> dump)) k)
      else if decide (type = RTM_GETLINK) then
        if decide (hdr_Flags (Header m) = 769) then
          let dump := (λ m, [m]) <$> (multi_msg RTM_NEWLINK seq (port_of fd) <$> (link_payload <$> links)) ++ [done_msg seq (port_of fd)] in
          Ret None (set_queue fd (queue_of k fd ++ (dgram <$> dump)) k)
        else Ret None (set_queue fd (queue_of k fd ++ [msg_bytes (link_answer (old k) seq (port_of fd) (asked_name (Data m)))]) k)
      else if decide (type = RTM_NEWADDR ∨ type = RTM_DELADDR) then
        match decode_addr (Data m) with
        | Some x =>
            let '(code, l) := change_table (bool_decide (type = RTM_NEWADDR)) x (nets k) in
            let ack := answer NLMSG_ERROR 0 seq (port_of fd) (put 4 code ++ []) in
            Ret None (set_queue fd (queue_of k fd ++ [msg_bytes ack]) (mkToy (old k) l (queues k) (next k)))
        | None => Ret (Some EINVAL) k
        end
      else Ret (Some EINVAL) k
  | _ => Ret (Some EINVAL) k
  end.

#[export] Instance toy_kernel : Kernel toy := {|
  Socket _ k := Ret (inr (next k)) (mkToy (old k) (nets k) (<[next k := []]> (queues k)) (next k + 1));
  Bind _ k := Ret None k;
  Close _ k := Ret tt k;
  Sendto := send;
  Recvfrom fd _ k := match queue_of k fd with [] => Block k | d :: ds => Ret (inr d) (set_queue fd ds k) end;
  Getsockname fd k := Ret (inr (Some (port_of fd))) k;
  Getpagesize := 4096;
  waiting k fd := length (queue_of k fd);
  IP_text _ := "?" |}.

Lemma elem_of_nets_of k i b : b ∈ nets_of k i ↔ valid (i, b) ∧ (i, b) ∈ nets k.
Proof.
  unfold nets_of. rewrite list_elem_of_fmap. split.
  - intros ([j b'] & -> & H). rewrite !list_elem_of_filter in H. destruct H as (<- & ? & ?). done.
  - intros [Hv Hin]. exists (i, b). split; [done|]. by rewrite !list_elem_of_filter.
Qed.

Lemma change_table_spec add x l code l' i b :
  change_table add x l = (code, l') → valid x →
  (valid (i, b) ∧ (i, b) ∈ l' ↔
     if add then ((i, b) = x ∧ code = 0) ∨ (valid (i, b) ∧ (i, b) ∈ l)
     else ¬ ((i, b) = x ∧ code = 0) ∧ valid (i, b) ∧ (i, b) ∈ l).
Proof.
  intros H Hv. unfold change_table in H. destruct add; case_decide as Hin; injection H as <- <-.
  - split; [auto|]. by intros [[_ ?]|?].
  - rewrite elem_of_cons. split; [intros [? [?|?]]; auto|]. intros [[-> _]|[? ?]]; auto.
  - rewrite list_elem_of_filter. naive_solver.
  - split; [|tauto]. intros [? ?]. split; [|done]. by intros [_ ?].
Qed.

Lemma entry_entry_ok x : valid x → entry_ok (entry x).
Proof.
  intros (Hi & [Hl Hb] & Hp & Hm). split; cbn [entry ka_msg ka_attrs ifa_Family ifa_Prefixlen ifa_Flags ifa_Scope ifa_Index];
    try done; [lia| | | |].
  - apply Forall_singleton. split; cbn; [done|]. by rewrite Hl.
  - apply Forall_singleton. by cbn.
  - apply Forall_singleton. by cbn.
  - unfold entry_payload. rewrite length_app, length_IfAddrmsg. cbn [fmap list_fmap concat entry ka_attrs].
    rewrite app_nil_r, Nat2Z.inj_add. unfold attr_bytes. rewrite length_rtattr. cbn. by rewrite Hl.
Qed.

(** The dump lists what the table has. *)
Lemma nets_of_dump k i :
  nets_of k i = omap (entry_of i) (entry <$> filter valid (nets k)).
Proof.
  unfold nets_of. assert (Forall valid (filter valid (nets k))) as Hv.
  { apply Forall_forall. intros x [? _]%list_elem_of_filter. done. }
  induction Hv as [|x l Hx Hv IH]; [done|]. rewrite filter_cons. cbn [fmap list_fmap omap list_omap].
  unfold entry_of at 1. cbn [entry ka_msg ifa_Family ifa_Index].
  destruct (decide (x.1 = i)) as [Hi|Hi]; [|by rewrite decide_False by (by intros [])].
  rewrite decide_True by done. cbn [fmap list_fmap]. rewrite IH.
  assert (entry_net (entry x) = Some x.2) as ->; [|done].
  destruct Hx as (_ & [Hl _] & _ & Hm). destruct x as [j [ip mask]]. cbn [fst snd ipnet_IP ipnet_Mask] in *.
  unfold entry_net, last_net. cbn [entry ka_msg ka_attrs ifa_Prefixlen fst snd ipnet_IP].
  rewrite filter_cons_True by done. cbn. unfold attr_net. cbn [a_value]. rewrite Hl. do 2 f_equal. by symmetry.
Qed.

(** A request, parsed. *)
Lemma parse_request type flags seq payload :
  0 <= type < 2 ^ 16 → 0 <= flags < 2 ^ 16 → 0 <= seq < 2 ^ 32 →
  Z.of_nat (length payload) < 2 ^ 31 → Z.of_nat (length payload) mod 4 = 0 →
  ∃ m, ParseNetlinkMessage (mkSlice (nlmsg type flags seq 0 payload) []) = inr [m] ∧
    view m = answer type flags seq 0 payload.
Proof.
  intros. destruct (parse_messages [answer type flags seq 0 payload] (mkSlice (nlmsg type flags seq 0 payload) []))
    as (ms & E & Hms); [by apply Forall_singleton, answer_ok|by cbn [fmap list_fmap concat]; rewrite app_nil_r|].
  destruct ms as [|m [|]]; try done. apply (inj2 cons) in Hms as [Hm _]. by exists m.
Qed.

Lemma length_addr_payload index p ip : length ip = 4%nat → length (addr_payload index p ip) = 24%nat.
Proof.
  intros Hl. apply Nat2Z.inj. unfold addr_payload. rewrite !length_app, length_IfAddrmsg, !Nat2Z.inj_add, !length_rtattr.
  by rewrite Hl.
Qed.

Lemma decode_addr_payload index p ip s :
  is_ip4 ip → 0 <= p <= 32 → 0 <= index < 2 ^ 32 → sl s = addr_payload index p ip →
  decode_addr s = Some (index, mkIPNet ip (CIDRMask p 32)).
Proof.
  intros [Hl _] Hp Hi Hs. unfold decode_addr. unfold addr_payload in Hs.
  rewrite (IfAddrmsg_read _ _ _ Hs) by (cbn; try done; lia).
  destruct (parse_attrs [mkAttribute IFA_LOCAL ip; mkAttribute IFA_ADDRESS ip]
    (mkSlice (drop 8 (sl s)) (beyond s))) as (l & -> & Hat).
  - apply Forall_cons. split; [|apply Forall_singleton]; split; cbn; try done; by rewrite Hl.
  - cbn [sl fmap list_fmap concat]. by rewrite app_nil_r, Hs, drop_app_length' by (by rewrite length_IfAddrmsg).
  - destruct l as [|a l]; [done|]. rewrite fmap_cons in Hat. apply (inj2 cons) in Hat as [Ha _].
    injection Ha as _ Ha. by rewrite Ha.
Qed.

Lemma queue_set fd ds k : queue_of (set_queue fd ds k) fd = ds.
Proof. unfold queue_of, set_queue. cbn. by rewrite lookup_insert_eq. Qed.
Lemma nets_of_set fd ds k : nets_of (set_queue fd ds k) = nets_of k.
Proof. done. Qed.

Lemma port_of_range fd : 0 <= port_of fd < 2 ^ 32.
Proof. by apply Z.mod_pos_bound. Qed.

Lemma valid_net i ip p : is_ip4 ip → 0 <= p <= 32 → 0 <= i < 2 ^ 32 → valid (i, mkIPNet ip (CIDRMask p 32)).
Proof. intros. unfold valid, prefix. cbn [fst snd ipnet_Mask ipnet_IP]. rewrite Mask_Size_CIDRMask by done. done. Qed.

Lemma send_change (add : bool) fd k seq flags index p ip :
  is_ip4 ip → 0 <= p <= 32 → 0 <= seq < 2 ^ 32 → 0 <= flags < 2 ^ 16 → 0 <= index < 2 ^ 32 →
  send fd (nlmsg (if add then RTM_NEWADDR else RTM_DELADDR) flags seq 0 (addr_payload index p ip)) k =
  let '(code, l) := change_table add (index, mkIPNet ip (CIDRMask p 32)) (nets k) in
  Ret None (set_queue fd (queue_of k fd ++ [msg_bytes (answer NLMSG_ERROR 0 seq (port_of fd) (put 4 code ++ []))])
    (mkToy (old k) l (queues k) (next k))).
Proof.
  intros Hip Hp Hseq Hf Hi.
  destruct (parse_request (if add then RTM_NEWADDR else RTM_DELADDR) flags seq (addr_payload index p ip))
    as (m & E & Hm); [by destruct add|done|done|destruct Hip; by rewrite length_addr_payload..|].
  unfold send. rewrite E. destruct m as [h d]. injection Hm as -> Hd. cbn [Header Data hdr_Type hdr_Seq].
  rewrite (decode_addr_payload index p ip) by done. by destruct add.
Qed.

Lemma send_dump fd k seq flags :
  0 <= seq < 2 ^ 32 → 0 <= flags < 2 ^ 16 →
  send fd (nlmsg RTM_GETADDR flags seq 0 dump_payload) k =
  Ret None (set_queue fd (queue_of k fd ++ (dgram <$>
    ((λ m, [m]) <$> (multi_msg RTM_NEWADDR seq (port_of fd) <$> (entry_payload <$> (entry <$> filter valid (nets k)))) ++ [done_msg seq (port_of fd)]))) k).
Proof.
  intros Hseq Hf. destruct (parse_request RTM_GETADDR flags seq dump_payload) as (m & E & Hm); [done..|].
  unfold send. rewrite E. destruct m as [h d]. by injection Hm as -> _.
Qed.

Lemma concat_singletons {A} (l : list A) : concat ((λ x, [x]) <$> l) = l.
Proof. induction l as [|x l IH]; [done|]. cbn. by rewrite <-IH at 2. Qed.

(** The first message has the header that comes first. *)
Lemma first_header v m ms : ParseNetlinkMessage v = inr (m :: ms) → Header m = read_hdr (sl v).
Proof.
  unfold ParseNetlinkMessage. destruct (length (sl v)) as [|fuel]; [done|]. cbn [ParseNetlinkMessage_loop]. case_decide; [done|]. cbv zeta.
  destruct (_ || _); [done|]. destruct (ParseNetlinkMessage_loop _ _ _); [done|]. by intros [= <- _].
Qed.
Lemma request_header type flags seq payload m :
  0 <= type < 2 ^ 16 → 0 <= flags < 2 ^ 16 → 0 <= seq < 2 ^ 32 →
  ParseNetlinkMessage (mkSlice (nlmsg type flags seq 0 payload) []) = inr [m] →
  ∃ l, Header m = mkNlMsghdr l type flags seq 0.
Proof.
  intros Ht Hf Hs ->%first_header. eexists. unfold nlmsg, hdr_bytes. cbn [sl hdr_Len hdr_Type hdr_Flags hdr_Seq hdr_Pid].
  rewrite <-(put_mod 4 (16 + _)). change (256 ^ Z.of_nat 4) with (2 ^ 32).
  apply (read_hdr_bytes (mkNlMsghdr _ type flags seq 0)). split; [|done]. by apply Z.mod_pos_bound.
Qed.

Lemma send_link_dump fd k seq :
  0 <= seq < 2 ^ 32 →
  send fd (nlmsg RTM_GETLINK 769 seq 0 link_dump_payload) k =
  Ret None (set_queue fd (queue_of k fd ++ (dgram <$>
    ((λ m, [m]) <$> (multi_msg RTM_NEWLINK seq (port_of fd) <$> (link_payload <$> links)) ++ [done_msg seq (port_of fd)]))) k).
Proof.
  intros Hseq. destruct (parse_request RTM_GETLINK 769 seq link_dump_payload) as (m & E & Hm); [done..|].
  unfold send. rewrite E. destruct m as [h d]. by injection Hm as -> _.
Qed.

(** Every request for a link gets an answer, and one for a name the link of that name. *)
Lemma send_link fd k seq payload : 0 <= seq < 2 ^ 32 →
  (∃ err, send fd (nlmsg RTM_GETLINK 5 seq 0 payload) k = Ret (Some err) k) ∨
  ∃ name, send fd (nlmsg RTM_GETLINK 5 seq 0 payload) k =
    Ret None (set_queue fd (queue_of k fd ++ [msg_bytes (link_answer (old k) seq (port_of fd) name)]) k) ∧
    ∀ name', name_ok name' → payload = name_payload name' → name' = name.
Proof.
  intros Hseq. unfold send. destruct (ParseNetlinkMessage _) as [err|[|m [|]]] eqn:E; try (left; by eexists).
  destruct (request_header RTM_GETLINK 5 seq payload m ltac:(done) ltac:(done) Hseq E) as (len & Hh).
  rewrite Hh. cbn [hdr_Type hdr_Flags hdr_Seq]. right. exists (asked_name (Data m)). split; [done|]. intros name Hn ->.
  destruct (parse_request RTM_GETLINK 5 seq (name_payload name)) as (m' & E' & Hm); [done..| | |].
  1,2: destruct Hn as [_ Hl]; unfold name_payload; rewrite length_app, Nat2Z.inj_add, length_rtattr;
    unfold ZeroTerminated; rewrite length_app, NetlinkLinkProps.length_bytes_of.
  { pose proof (rtaAlignOf_bounds (4 + Z.of_nat (String.length name + 1))). unfold link_dump_payload. rewrite length_IfInfomsg.
    simpl length in *. lia. }
  { unfold link_dump_payload. rewrite length_IfInfomsg, rtaAlignOf_eq, (Z.mul_comm 4), Z.mod_add by lia. done. }
  rewrite E in E'. injection E' as <-. apply (f_equal m_data) in Hm. cbn in Hm.
  unfold asked_name. destruct (parse_attrs [name_attr name] (mkSlice (drop 16 (sl (Data m))) (beyond (Data m)))) as (l & -> & Hl).
  - apply Forall_singleton. split; cbn; [done|]. destruct Hn as [_ Hl]. unfold ZeroTerminated.
    rewrite length_app, NetlinkLinkProps.length_bytes_of. simpl length. lia.
  - cbn [sl fmap list_fmap concat]. by rewrite app_nil_r, Hm.
  - destruct l as [|a l]; [done|]. rewrite fmap_cons in Hl. apply (inj2 cons) in Hl as [Ha _].
    apply (f_equal a_value) in Ha. cbn in Ha. rewrite Ha. unfold text, ZeroTerminated.
    rewrite length_app, Nat.add_sub, take_app_length. symmetry. apply string_of_bytes_of.
Qed.

Lemma links_are_ok : Forall link_ok links.
Proof.
  assert (∀ l, attr_ok l ↔ bool_decide (0 <= a_type l < 2 ^ 16) && bool_decide (4 + Z.of_nat (length (a_value l)) < 2 ^ 16) = true) as Hb.
  { intros l. unfold attr_ok. by rewrite andb_true_iff, !bool_decide_eq_true. }
  repeat (apply Forall_cons; split); [..|constructor];
    (split; [done..| | |by vm_compute]); [by repeat (apply Forall_cons; split; [by apply Hb|])| |by repeat (apply Forall_cons; split; [by apply Hb|])| |by repeat (apply Forall_cons; split; [by apply Hb|])|].
  - split; [by vm_compute|done].
  - split; [by vm_compute|]. split; [by vm_compute|]. split; [by vm_compute|done].
  - split; [by vm_compute|]. split; [by vm_compute|]. 
    exists [mkAttribute 1 (ZeroTerminated "vlan"); mkAttribute 2 (concat (attr_bytes <$> [mkAttribute 1 (put 2 5)]))].
    split; [split; [done|by repeat (apply Forall_cons; split; [by apply Hb|])]|]. split; [|done].
    split; [done|]. split; [|done]. exists [mkAttribute 1 (put 2 5)].
    split; [split; [done|by repeat (apply Forall_cons; split; [by apply Hb|])]|]. apply Forall_singleton. by vm_compute.
Qed.

#[export] Program Instance toy_laws : KernelLaws toy := {|
  ktable k := mkTable (nets_of k) links; queue := queue_of; port := port_of; port_range := port_of_range;
  links_ok _ := links_are_ok |}.
Next Obligation. intros k i a [Hv _]%elem_of_nets_of. apply Hv. Qed.
Next Obligation. done. Qed.
Next Obligation.
  intros p k. eexists _, _. split; [done|]. split; [done|]. unfold queue_of. cbn. by rewrite lookup_insert_eq.
Qed.
Next Obligation. intros fd k. by eexists _, _. Qed.
Next Obligation. intros fd k. by eexists. Qed.
Next Obligation. intros fd k. by eexists _, _. Qed.
Next Obligation.
  intros fd k d ds Hq. cbn. rewrite Hq. eexists _, _. split; [done|]. split; [done|]. split; [done|apply queue_set].
Qed.
Next Obligation.
  intros add fd k seq index p ip Hip Hp Hseq Hi. cbn [Sendto toy_kernel]. rewrite send_change by (by destruct add).
  destruct (change_table add (index, mkIPNet ip (CIDRMask p 32)) (nets k)) as [code l] eqn:E.
  eexists _, _. split; [done|]. exists code, 0, []. rewrite queue_set. split; [done|].
  assert (- 2 ^ 31 <= code < 2 ^ 31 ) as Hc.
  { unfold change_table in E. destruct add; case_decide; by injection E as <- _. }
  split; [|split; [done|split; [done|]]].
  { apply answer_ok; try done; [apply port_of_range|by rewrite app_nil_r, length_put..]. }
  intros i b. cbn [t_bound]. rewrite !elem_of_nets_of. cbn [nets set_queue].
  rewrite (change_table_spec _ _ _ _ _ i b E) by (by apply valid_net).
  pose proof (elem_of_nets_of k i b). 
  pose proof (pair_eq i index b (mkIPNet ip (CIDRMask p 32))). destruct add; tauto.
Qed.
Next Obligation.
  intros fd k seq Hseq. cbn [Sendto toy_kernel]. rewrite send_dump by done.
  eexists _, _. split; [done|]. split; [done|].
  exists ((λ m, [m]) <$> (multi_msg RTM_NEWADDR seq (port_of fd) <$> (entry_payload <$> (entry <$> filter valid (nets k)))) ++ [done_msg seq (port_of fd)]).
  exists (entry <$> filter valid (nets k)).
  rewrite queue_set. split; [done|]. split; [apply concat_singletons|].
  split; [|intros i; apply nets_of_dump].
  apply Forall_fmap, Forall_forall. intros x Hx. apply list_elem_of_filter in Hx as [Hx _].
  by apply entry_entry_ok.
Qed.
Next Obligation.
  intros fd k seq Hseq. cbn [Sendto toy_kernel]. rewrite send_link_dump by done.
  eexists _, _. split; [done|]. split; [done|]. eexists. rewrite queue_set. split; [done|apply concat_singletons].
Qed.
Next Obligation.
  intros fd k seq payload Hseq. cbn [Sendto toy_kernel].
  destruct (send_link fd k seq payload Hseq) as [[err E]|(name & E & Hname)]; [by eexists (Some err), k|].
  eexists None, _. split; [exact E|]. split; [done|]. exists (link_answer (old k) seq (port_of fd) name), [].
  rewrite queue_set. split; [done|]. unfold link_answer.
  destruct (old k); [|destruct (List.find _ links) as [e|] eqn:Hf].
  - split; [apply answer_ok; try done; apply port_of_range|]. left. by exists (-22), 0, [].
  - apply List.find_some in Hf as [Hin Hn%bool_decide_eq_true]. apply list_elem_of_In in Hin.
    assert (payload_ok (link_payload e)) as [H1 H2].
    { apply link_payload_ok. pose proof links_are_ok as Hall. rewrite Forall_forall in Hall. by apply Hall. }
    split; [apply answer_ok; try done; apply port_of_range|]. right. exists e, 0. split; [done|]. split; [done|].
    split; [done|]. intros name' Hok Hp. by rewrite Hn, (Hname name' Hok Hp).
  - split; [apply answer_ok; try done; apply port_of_range|]. left. by exists (-19), 0, [].
Qed.
End Toy.

(** ** The property *)

(** A runner for a device of the kernel that is up. *)
Definition runs_on {K} `{KernelLaws K} (k : K) (device : string) (r : runner) : Prop :=
  ∃ e, e ∈ klinks k ∧ link_name e = device ∧ 0 < ifi_Index (kl_msg e) < 2 ^ 31 ∧
    link r = mkLink device (NetlinkLink.linkFlags (ifi_Flags (kl_msg e))) (ifi_Index (kl_msg e)) ∧
    Z.land (Attrs_Flags (link r)) FlagUp ≠ 0.

Lemma New_runs_on {K} `{KernelLaws K} device (n : netlink K) : name_ok device →
  ∃ res n', IPAddr.New device n = Ret res n' ∧ ktable (kernel n') = ktable (kernel n) ∧
    ∀ r, res = inr r → runs_on (kernel n) device r.
Proof.
  intros Hok. unfold IPAddr.New. cbn [LinkByName vishvananda_netlink].
  destruct (NetlinkLinkProps.LinkByName_finds device n) as (res & n' & E & Hs & Hf).
  rewrite bind_unfold, (bind_Ret _ _ _ res n' E). destruct res as [err|l]; [by eexists _, _|].
  cbn [mret M_ret]. case_decide as Hup; [by eexists _, _|].
  eexists _, n'. split; [done|]. split; [done|]. intros r [= <-].
  destruct (Hf l eq_refl) as (e & He & (Hi & Hfl & Hname) & Hn). exists e. split; [done|]. split; [by apply Hn|].
  split. { pose proof (links_ok (kernel n)) as Hall. rewrite Forall_forall in Hall. by destruct (Hall e He). }
  split; [|done]. unfold read_link. cbn [link]. by rewrite Hi, Hfl, Hname, (Hn Hok).
Qed.

(** C26: On a kernel that answers as rtnetlink documents, looking for a device always
    returns and changes nothing, and a runner that is made is for the device of the kernel
    with that name, which is up, whether the kernel knows links by their name or not and
    whatever the kinds of its links are.  Adding or deleting an address of a device always
    returns, and has changed the kernel's table by exactly this address with the mask
    255.255.255.255 on this device, or not at all; if there is no error, it has.  Listing
    the addresses always returns and leaves the device as it is; if there is no error, the
    map has the texts of the device's addresses, and nothing else. *)
Theorem runner_on_rtnetlink {K} `{KernelLaws K} device : name_ok device →
  (∀ n : netlink K, ∃ res n', IPAddr.New device n = Ret res n' ∧ ktable (kernel n') = ktable (kernel n) ∧
     ∀ r, res = inr r → runs_on (kernel n) device r) ∧
  ∀ k r, runs_on k device r → let index := Attrs_Index (link r) in
  (∀ (add : bool) ip (n : netlink K), is_ip4 ip →
     ∃ err n' (did : bool), (if add then AddAddr r ip else DeleteAddr r ip) n = Ret err n' ∧
       (err = None → did) ∧ changed add index (mkIPNet ip DefaultMask) did (kernel n) (kernel n')) ∧
  (∀ n : netlink K, ∃ res n', GetAddrs r n = Ret res n' ∧
     kbound (kernel n') index = kbound (kernel n) index ∧
     ∀ m, res = inr m → ∀ k, m !! k =
       if decide (k ∈ (dotted ∘ ipnet_IP) <$> kbound (kernel n) index) then Some true else None).
Proof.
  intros Hok. split; [intros n; by apply New_runs_on|]. intros k r (e & _ & _ & Hi & Hl & _).
  assert (Attrs_Index (link r) ≠ 0) as Hne by (rewrite Hl; cbn; lia).
  assert (Attrs_Index (link r) mod 2 ^ 32 = Attrs_Index (link r)) as Hmod by (apply Z.mod_small; rewrite Hl; cbn; lia).
  clear Hl. cbv zeta. split.
  - intros add ip n Hip. destruct (change_spec add (link r) ip 32 n) as (err & n' & did & E & Hd & Hc); [done|lia|done|].
    rewrite Hmod in Hc. exists err, n', did. split; [|done]. unfold change in E. unfold AddAddr, DeleteAddr.
    destruct add; run E; by destruct err.
  - intros n. destruct (GetAddrs_spec n r) as (res & n' & E & Hb & Hm). exists res, n'.
    cbn [bound vishvananda_laws] in Hb. rewrite Hmod in Hb. split; [done|]. split; [done|]. intros m -> x.
    rewrite (Hm Hne x). cbn [bound vishvananda_laws]. by rewrite Hmod.
Qed.

Import Toy.

(** A session with the kernel above, an old one or not: the device gets an address, a second
    time is an error, and deleting it is seen. *)
Definition loopback : Z * IPNet := (1, mkIPNet [127; 0; 0; 1] (CIDRMask 8 32)).
Definition n0 (old : bool) : netlink toy :=
  mkNetlink (mkToy old [loopback; (2, mkIPNet [10; 0; 0; 7] DefaultMask)] ∅ 3) (2 ^ 32 - 2) false.

Definition session : M (netlink toy) (error + (option error * option error * option error * (error + gmap string bool))) :=
  r ← IPAddr.New "eth0";
  match r : error + runner with
  | inl err => mret (inl err)
  | inr eth0 =>
      e1 ← AddAddr eth0 [10; 0; 0; 9]; e2 ← AddAddr eth0 [10; 0; 0; 9]; e3 ← DeleteAddr eth0 [10; 0; 0; 7];
      m ← GetAddrs eth0; mret (inr (e1, e2, e3, m))
  end.
Example sessions : ∀ old, match session (n0 old) with
  | Ret r n => r = inr (None, Some (Errno 17), None, inr {["10.0.0.9" := true]}) ∧ lookupByDump n = old
  | _ => False
  end.
Proof. intros [|]; vm_compute; (split; reflexivity). Qed.
(** A device that is down, one of another kind, and none. *)
Example other_devices old :
  match (r1 ← IPAddr.New "eth0.5"; r2 ← NetlinkLink.LinkByName "eth0.5"; r3 ← IPAddr.New "eth1"; mret (r1, r2, r3)) (n0 old) with
  | Ret (inl _, inr l, inl _) _ => NetlinkLink.kind l = NetlinkLink.Vlan 5 ∧ NetlinkLink.ParentIndex (NetlinkLink.Attrs l) = 2
  | _ => False
  end.
Proof. destruct old; vm_compute; (split; reflexivity). Qed.

Definition eth0 : runner := mkRunner (mkLink "eth0" 19 2).
Lemma eth0_runs old : runs_on (kernel (n0 old)) "eth0" eth0.
Proof.
  exists (a_link 2 4099 [name_attr "eth0"; mkAttribute IFLA_MTU (put 4 1500); mkAttribute IFLA_ADDRESS [82; 84; 0; 1; 2; 3]]).
  split; [by right; left|]. repeat split. discriminate.
Qed.
Lemma runner_on_rtnetlink_witness : ∃ n',
  AddAddr eth0 [10; 0; 0; 9] (n0 true) = Ret None n' ∧
  ∀ i b, b ∈ kbound (kernel n') i ↔ (i = 2 ∧ b = mkIPNet [10; 0; 0; 9] DefaultMask) ∨ b ∈ kbound (kernel (n0 true)) i.
Proof.
  assert (name_ok "eth0") as Hok by (split; [by repeat constructor|reflexivity]).
  destruct (proj2 (runner_on_rtnetlink "eth0" Hok) _ eth0 (eth0_runs true)) as [H _].
  destruct (H true [10; 0; 0; 9] (n0 true)) as (err & n' & did & E & Hd & Hc).
  { apply (bool_decide_unpack _). vm_compute. exact I. }
  exists n'. assert (err = None) as ->.
  { clear Hd Hc. vm_compute in E. congruence. }
  split; [exact E|]. destruct did; [|destruct (Hd eq_refl)].
  intros i b. rewrite (Hc i b). change (Attrs_Index (link eth0)) with 2. cbn. tauto.
Defined.
