(* ===== verification/Template.v ===== *)
(** [util/template/template.go]: rendering a configuration.

    The template engine [text/template] is a parameter, the class
    [TextTemplate]: parsing a text with a set of known functions, and executing
    the result, which gives the bytes written and perhaps an error. *)

From stdpp Require Import gmap strings list.
From S2P Require Import Prelude Types.

Record TemplateData := mkTemplateData {
  IPs : gmap string bool;
  RouteTable : gmap string ServiceUnit
}.

(** [ipsMap[ip]]: false for an address that is not in the map. *)
Definition hasIP (ipsMap : gmap string bool) (ip : string) : bool := default false (ipsMap !! ip).

(** The values of type [interface{}] that the proxier renders. *)
Inductive render_data : Type :=
| VipTable (vips : gmap string bool)
| Routes (data : TemplateData).

(** The functions of a [template.FuncMap]. *)
Inductive template_func : Type :=
| fn_hasIP (f : gmap string bool → string → bool)
| fn_ToLower.

Class TextTemplate := {
  Tpl : Type;
  Parse : gmap string template_func → string → string → error + Tpl;
  Execute : Tpl → render_data → string * option error
}.

Section Render.
Context `{!TextTemplate}.

(** [template.Must]. *)
Definition Must {S} (r : error + Tpl) : M S Tpl :=
  match r with
  | inl err => panic "template: parse error"
  | inr tpl => mret tpl
  end.

Definition RenderTemplate {S} (templateName templateContent : string) (data : render_data)
    : M S (error + string) :=
  tpl ← Must (Parse ∅ templateName templateContent);
  let '(strBuffer, err) := Execute tpl data in
  match err with
  | Some err => mret (inl err)
  | None => mret (inr strBuffer)
  end.

Definition RenderTemplateWithFuncs {S} (templateName templateContent : string)
    (data : render_data) : M S (error + string) :=
  let funcMap : gmap string template_func :=
    {[ "hasIP" := fn_hasIP hasIP; "ToLower" := fn_ToLower ]} in
  tpl ← Must (Parse funcMap templateName templateContent);
  let '(strBuffer, err) := Execute tpl data in
  match err with
  | Some err => mret (inl err)
  | None => mret (inr strBuffer)
  end.
End Render.
