(* ===== verification/GoTemplate.v ===== *)
(** The part of Go's [text/template] that the shipped templates use: texts,
    actions with the trim markers, variables, fields, function calls, pipelines,
    [if] and [range].

    A template is cut into texts and actions ([lex_text]), an action into tokens
    ([lex_action]), tokens are parsed to pipelines, and the pieces to a tree
    ([parse_pieces]).  Execution follows the tree with a stack of variables.  Other
    constructs of the language (comments, literals, [with], [define], parentheses)
    are outside of the model, which refuses them. *)

From Stdlib Require Import Ascii.
From stdpp Require Import gmap strings list pretty sorting.
From S2P Require Import Prelude GoStrings Types Template.

(** ** Texts and actions *)
Inductive piece : Type := P_text (s : string) | P_action (s : string).

Definition space_char (c : ascii) : bool :=
  (c =? " ")%char || (c =? "009")%char || (c =? "013")%char || (c =? "010")%char.

(** The string without the white space at its end. *)
Fixpoint trim_right (s : string) : string :=
  match s with
  | EmptyString => ""
  | String c s =>
      match trim_right s with
      | EmptyString => if space_char c then "" else String c ""
      | s' => String c s'
      end
  end.

(** Inside a text, where [trim] skips white space, or inside an action. *)
Inductive lex_mode : Type := InText (trim : bool) | InAction.

Definition snoc (s : string) (c : ascii) : string := s +:+ String c "".
Definition emit_text (s : string) (ps : list piece) : list piece :=
  match s with EmptyString => ps | _ => P_text s :: ps end.

(** [acc] is what has been read of the current text or action.  An action ends on
    its line. *)
Fixpoint lex_text (mode : lex_mode) (acc s : string) : option (list piece) :=
  match mode, s with
  | InText _, EmptyString => Some (emit_text acc [])
  | InText _, String "{" (String "{" (String "-" (String " " s))) =>
      emit_text (trim_right acc) <$> lex_text InAction "" s
  | InText _, String "{" (String "{" s) => emit_text acc <$> lex_text InAction "" s
  | InText trim, String c s =>
      if trim && space_char c then lex_text mode acc s else lex_text (InText false) (snoc acc c) s
  | InAction, EmptyString => None
  | InAction, String " " (String "-" (String "}" (String "}" s))) =>
      cons (P_action acc) <$> lex_text (InText true) "" s
  | InAction, String "}" (String "}" s) => cons (P_action acc) <$> lex_text (InText false) "" s
  | InAction, String c s => if (c =? "010")%char then None else lex_text InAction (snoc acc c) s
  end.

(** ** Tokens *)
Inductive token : Type :=
| T_space | T_pipe | T_comma | T_declare
| T_dot | T_field (name : string) | T_variable (name : string) | T_ident (name : string).

Definition alphanumeric (c : ascii) : bool :=
  let n := nat_of_ascii c in
  (48 <=? n)%nat && (n <=? 57)%nat || (65 <=? n)%nat && (n <=? 90)%nat ||
  (97 <=? n)%nat && (n <=? 122)%nat || (n =? 95)%nat.

(** The word that is being read. *)
Inductive word_kind : Type := W_none | W_field | W_variable | W_ident.
Definition flush (k : word_kind) (acc : string) (ts : list token) : list token :=
  match k, acc with
  | W_none, _ => ts
  | W_field, EmptyString => T_dot :: ts
  | W_field, _ => T_field acc :: ts
  | W_variable, _ => T_variable acc :: ts
  | W_ident, _ => T_ident acc :: ts
  end.

Fixpoint lex_action (k : word_kind) (acc s : string) : option (list token) :=
  match s with
  | EmptyString => Some (flush k acc [])
  | String ":" (String "=" s) => flush k acc ∘ cons T_declare <$> lex_action W_none "" s
  | String c s =>
      if alphanumeric c then
        lex_action (match k with W_none => W_ident | _ => k end) (snoc acc c) s
      else if (c =? ".")%char then flush k acc <$> lex_action W_field "" s
      else if (c =? "$")%char then flush k acc <$> lex_action W_variable "" s
      else if (c =? "|")%char then flush k acc ∘ cons T_pipe <$> lex_action W_none "" s
      else if (c =? ",")%char then flush k acc ∘ cons T_comma <$> lex_action W_none "" s
      else if space_char c then flush k acc ∘ cons T_space <$> lex_action W_none "" s
      else None
  end.

(** ** Pipelines *)
Inductive operand : Type :=
| O_dot (fields : list string)
| O_variable (name : string) (fields : list string)
| O_function (name : string).

Record pipeline := mkPipeline { decl : list string; cmds : list (list operand) }.

Definition with_field (f : string) (o : operand) : option operand :=
  match o with
  | O_dot fs => Some (O_dot (fs ++ [f]))
  | O_variable x fs => Some (O_variable x (fs ++ [f]))
  | O_function _ => None
  end.

(** The commands, with the operand that is being read, the operands of the command
    before it, and the commands before. *)
Fixpoint parse_cmds (cur : option operand) (args : list operand) (done : list (list operand))
    (ts : list token) : option (list (list operand)) :=
  let args' := args ++ option_list cur in
  match ts with
  | [] => match args' with [] => None | _ => Some (done ++ [args']) end
  | T_space :: ts => parse_cmds None args' done ts
  | T_pipe :: ts => match args' with [] => None | _ => parse_cmds None [] (done ++ [args']) ts end
  | T_field f :: ts =>
      match cur with
      | None => parse_cmds (Some (O_dot [f])) args done ts
      | Some o => o' ← with_field f o; parse_cmds (Some o') args done ts
      end
  | T_dot :: ts => match cur with None => parse_cmds (Some (O_dot [])) args done ts | _ => None end
  | T_variable x :: ts =>
      match cur with None => parse_cmds (Some (O_variable x [])) args done ts | _ => None end
  | T_ident f :: ts =>
      match cur with None => parse_cmds (Some (O_function f)) args done ts | _ => None end
  | _ => None
  end.

Fixpoint skip_space (ts : list token) : list token :=
  match ts with T_space :: ts => skip_space ts | _ => ts end.

(** The declared variables and the rest of a pipeline. *)
Definition parse_decl (ts : list token) : list string * list token :=
  match skip_space ts with
  | T_variable x :: ts1 =>
      match skip_space ts1 with
      | T_declare :: ts2 => ([x], ts2)
      | T_comma :: ts2 =>
          match skip_space ts2 with
          | T_variable y :: ts3 =>
              match skip_space ts3 with T_declare :: ts4 => ([x; y], ts4) | _ => ([], ts) end
          | _ => ([], ts)
          end
      | _ => ([], ts)
      end
  | _ => ([], ts)
  end.

Definition parse_pipeline (ts : list token) : option pipeline :=
  let '(vars, ts) := parse_decl ts in
  mkPipeline vars <$> parse_cmds None [] [] ts.

(** ** Trees *)
Inductive node : Type :=
| N_text (s : string)
| N_action (p : pipeline)
| N_if (p : pipeline) (nodes else_nodes : list node)
| N_range (p : pipeline) (nodes else_nodes : list node).

(** A block that is open: what it is, its nodes before [else] (once that has been
    read), and the nodes of the block around it. *)
Inductive block : Type := B_if | B_range.
Record frame := mkFrame {
  fr_block : block; fr_pipe : pipeline; fr_then : option (list node); fr_around : list node
}.

Definition close (f : frame) (cur : list node) : node :=
  let '(nodes, else_nodes) := match fr_then f with None => (cur, []) | Some l => (l, cur) end in
  match fr_block f with
  | B_if => N_if (fr_pipe f) nodes else_nodes
  | B_range => N_range (fr_pipe f) nodes else_nodes
  end.

Fixpoint parse_pieces (stack : list frame) (cur : list node) (ps : list piece) : option (list node) :=
  match ps with
  | [] => match stack with [] => Some cur | _ => None end
  | P_text s :: ps => parse_pieces stack (cur ++ [N_text s]) ps
  | P_action a :: ps =>
      ts ← lex_action W_none "" a;
      match skip_space ts with
      | T_ident "if" :: ts =>
          p ← parse_pipeline ts;
          if decide (length (decl p) ≤ 1) then parse_pieces (mkFrame B_if p None cur :: stack) [] ps
          else None
      | T_ident "range" :: ts =>
          p ← parse_pipeline ts; parse_pieces (mkFrame B_range p None cur :: stack) [] ps
      | T_ident "else" :: ts =>
          match stack, skip_space ts with
          | mkFrame b p None around :: stack, [] =>
              parse_pieces (mkFrame b p (Some cur) around :: stack) [] ps
          | _, _ => None
          end
      | T_ident "end" :: ts =>
          match stack, skip_space ts with
          | f :: stack, [] => parse_pieces stack (fr_around f ++ [close f cur]) ps
          | _, _ => None
          end
      | ts =>
          p ← parse_pipeline ts;
          if decide (length (decl p) ≤ 1) then parse_pieces stack (cur ++ [N_action p]) ps else None
      end
  end.

(** The parser knows the variables in scope and the functions; the scope of a block
    ends with it. *)
Definition operand_ok (funcs : gmap string template_func) (scope : list string) (o : operand) : bool :=
  match o with
  | O_dot _ => true
  | O_variable x _ => bool_decide (x ∈ scope)
  | O_function f => bool_decide (is_Some (funcs !! f))
  end.
Definition pipeline_ok funcs (scope : list string) (p : pipeline) : bool :=
  forallb (forallb (operand_ok funcs (decl p ++ scope))) (cmds p).

(** The scope after the node, and after nodes. *)
Definition in_sequence (f : list string → node → option (list string)) :=
  fix go (scope : list string) (ns : list node) : option (list string) :=
    match ns with
    | [] => Some scope
    | n :: ns => match f scope n with Some scope' => go scope' ns | None => None end
    end.
Fixpoint node_scope funcs (scope : list string) (n : node) {struct n} : option (list string) :=
  match n with
  | N_text _ => Some scope
  | N_action p => if pipeline_ok funcs scope p then Some (decl p ++ scope) else None
  | N_if p l l' | N_range p l l' =>
      if pipeline_ok funcs scope p then
        scope1 ← in_sequence (node_scope funcs) (decl p ++ scope) l;
        in_sequence (node_scope funcs) scope1 l' ;; Some scope
      else None
  end.
Definition nodes_scope funcs : list string → list node → option (list string) :=
  in_sequence (node_scope funcs).

(** The variable [$] has the empty name. *)
Definition parse_template (funcs : gmap string template_func) (content : string) : option (list node) :=
  ps ← lex_text (InText false) "" content;
  ns ← parse_pieces [] [] ps;
  nodes_scope funcs [""] ns ;; Some ns.

(** ** Values

    The values that a template of this program meets, by their Go types. *)
Inductive value : Type :=
| V_none
| V_bool (b : bool)
| V_int (z : Z)
| V_string (s : string)
| V_ips (m : gmap string bool)
| V_data (d : TemplateData)
| V_routes (m : gmap string ServiceUnit)
| V_unit (u : ServiceUnit)
| V_service (s : Service)
| V_endpoints (l : list Endpoint)
| V_endpoint (e : Endpoint).

(** A field of a struct (through a pointer) or a key of a map. *)
Definition field (v : value) (f : string) : option value :=
  match v with
  | V_data d =>
      if decide (f = "IPs") then Some (V_ips (IPs d))
      else if decide (f = "RouteTable") then Some (V_routes (RouteTable d)) else None
  | V_unit u =>
      if decide (f = "Name") then Some (V_string (su_Name u))
      else if decide (f = "ServiceInfo") then Some (V_service (ServiceInfo u))
      else if decide (f = "Endpoints") then Some (V_endpoints (Endpoints u)) else None
  | V_service s =>
      if decide (f = "ClusterIP") then Some (V_string (ClusterIP s))
      else if decide (f = "Port") then Some (V_int (Port s))
      else if decide (f = "Protocol") then Some (V_string (Protocol s)) else None
  | V_endpoint e =>
      if decide (f = "IP") then Some (V_string (ep_IP e))
      else if decide (f = "Port") then Some (V_int (ep_port e)) else None
  | V_ips m => Some (match m !! f with Some b => V_bool b | None => V_none end)
  | V_routes m => Some (match m !! f with Some u => V_unit u | None => V_none end)
  | _ => None
  end.

Definition truth (v : value) : bool :=
  match v with
  | V_none => false
  | V_bool b => b
  | V_int z => bool_decide (z ≠ 0%Z)
  | V_string s => bool_decide (s ≠ "")
  | V_ips m => bool_decide (m ≠ ∅)
  | V_routes m => bool_decide (map_to_list m ≠ [])
  | V_endpoints l => bool_decide (l ≠ [])
  | _ => true
  end.

(** What [range] visits: index or key, and element. *)
Definition items (v : value) : option (list (value * value)) :=
  match v with
  | V_ips m => Some (omap (λ k, (λ b, (V_string k, V_bool b)) <$> m !! k) (sorted_keys m))
  | V_routes m => Some (omap (λ k, (λ u, (V_string k, V_unit u)) <$> m !! k) (sorted_keys m))
  | V_endpoints l => Some (imap (λ i e, (V_int (Z.of_nat i), V_endpoint e)) l)
  | _ => None
  end.

Definition call (f : template_func) (args : list value) : option value :=
  match f, args with
  | fn_hasIP f, [V_ips m; V_string ip] => Some (V_bool (f m ip))
  | fn_ToLower, [V_string s] => Some (V_string (ToLower s))
  | _, _ => None
  end.

(** ** Execution *)
Section Execute.
(** The text that [fmt] gives to a map, a slice or a struct. *)
Variable print_other : value → string.
Variable funcs : gmap string template_func.

Definition print (v : value) : string :=
  match v with
  | V_none => "<no value>"
  | V_bool b => if b then "true" else "false"
  | V_int z => pretty z
  | V_string s => s
  | v => print_other v
  end.

(** The variables, the newest first. *)
Definition vars : Type := list (string * value).

Definition variable (env : vars) (x : string) : option value :=
  snd <$> head (filter (λ v, v.1 = x) env).

Definition fields_of (v : value) (fs : list string) : option value :=
  foldl (λ v f, v ≫= λ v, field v f) (Some v) fs.

Definition eval_operand (env : vars) (dot : value) (o : operand) : option value :=
  match o with
  | O_dot fs => fields_of dot fs
  | O_variable x fs => variable env x ≫= λ v, fields_of v fs
  | O_function f => funcs !! f ≫= λ f, call f []
  end.

(** A command: a function with its arguments, the last one from the command before
    it, or a single operand. *)
Definition eval_command (env : vars) (dot : value) (args : list operand) (final : option value)
    : option value :=
  match args with
  | O_function f :: args =>
      f ← funcs !! f;
      vs ← mapM (eval_operand env dot) args;
      call f (vs ++ option_list final)
  | [o] => match final with None => eval_operand env dot o | Some _ => None end
  | _ => None
  end.

Fixpoint eval_cmds (env : vars) (dot : value) (cs : list (list operand)) (final : option value)
    : option value :=
  match cs with
  | [] => final
  | c :: cs => v ← eval_command env dot c final; eval_cmds env dot cs (Some v)
  end.

Definition eval_pipeline (env : vars) (dot : value) (p : pipeline) : option value :=
  eval_cmds env dot (cmds p) None.

(** The variables of a pipeline with its value, and those of a [range] in one
    iteration: the element for the last one, the index for the one before it. *)
Definition declare (env : vars) (p : pipeline) (v : value) : vars :=
  foldl (λ env x, (x, v) :: env) env (decl p).
Definition iteration (env : vars) (p : pipeline) (index elem : value) : vars :=
  match decl p with
  | [] => env
  | [x] => (x, elem) :: env
  | i :: x :: _ => (x, elem) :: (i, index) :: env
  end.

(** What has been written, and the variables or nothing after an error. *)
Definition exec_result : Type := string * option vars.
Definition and_then (r : exec_result) (k : vars → exec_result) : exec_result :=
  match r.2 with
  | None => r
  | Some env => let r' := k env in (r.1 +:+ r'.1, r'.2)
  end.
(** The end of a block: its variables are gone. *)
Definition leave (env : vars) (r : exec_result) : exec_result :=
  (r.1, match r.2 with Some _ => Some env | None => None end).

Fixpoint for_items (body : value * value → exec_result) (env : vars) (l : list (value * value))
    : exec_result :=
  match l with
  | [] => ("", Some env)
  | x :: l => and_then (body x) (λ _, for_items body env l)
  end.

Definition exec_sequence (f : node → vars → value → exec_result) :=
  fix go (ns : list node) (env : vars) (dot : value) : exec_result :=
    match ns with
    | [] => ("", Some env)
    | n :: ns => and_then (f n env dot) (λ env, go ns env dot)
    end.
Fixpoint exec_node (n : node) (env : vars) (dot : value) {struct n} : exec_result :=
  match n with
  | N_text s => (s, Some env)
  | N_action p =>
      match eval_pipeline env dot p with
      | None => ("", None)
      | Some v => (match decl p with [] => print v | _ => "" end, Some (declare env p v))
      end
  | N_if p l l' =>
      match eval_pipeline env dot p with
      | None => ("", None)
      | Some v =>
          leave env (exec_sequence exec_node (if truth v then l else l') (declare env p v) dot)
      end
  | N_range p l l' =>
      match eval_pipeline env dot p with
      | None => ("", None)
      | Some v =>
          match items v with
          | None => ("", None)
          | Some [] => leave env (exec_sequence exec_node l' (declare env p v) dot)
          | Some xs =>
              leave env (for_items (λ x, exec_sequence exec_node l (iteration env p x.1 x.2) x.2) env xs)
          end
      end
  end.
Definition exec_nodes : list node → vars → value → exec_result := exec_sequence exec_node.
End Execute.

(** The value of the data, which is also that of the variable [$]. *)
Definition value_of (data : render_data) : value :=
  match data with VipTable vips => V_ips vips | Routes d => V_data d end.

(** ** The engine *)
Definition go_template (print_other : value → string) : TextTemplate := {|
  Tpl := gmap string template_func * list node;
  Parse funcs _ content :=
    match parse_template funcs content with
    | Some ns => inr (funcs, ns)
    | None => inl (Errorf "template: parse error")
    end;
  Execute tpl data :=
    let v := value_of data in
    let '(out, r) := exec_nodes print_other tpl.1 tpl.2 [("", v)] v in
    (out, match r with Some _ => None | None => Some (Errorf "template: execution error") end)
|}.
