(* ===== verification/Proxier.v ===== *)
(** [proxy/template/proxier.go]: the proxier, its tables and the handlers of
    service and endpoints events.

    The mutex is a flag: locking a held mutex blocks, which for the one thread of
    a run means that it waits for another one.  A [defer proxier.lock.Unlock()]
    is [deferred].  Log messages are not modelled. *)

From stdpp Require Import gmap strings list.
From S2P Require Import Prelude GoStrings GoTime Types PtrMap RateLimiter IPAddr OS Configurer.
From S2P Require Import Instances.
From S2P Require AtomicBool.

Record ProxierConfig := mkProxierConfig {
  Device : string;
  KeepalivedConfig : Keepalived.KeepalivedConfig;
  HaproxyConfig : Haproxy.HaproxyConfig
}.

(** The resource that a request carries is the rate limiter itself, which nothing
    reads: it is [tt].  The stop channel is never closed and has no field. *)
Record Proxier := mkProxier {
  config : ProxierConfig;
  master : AtomicBool.AtomicBool;
  skipCommit : bool;
  lock : bool;
  vipTable : gmap string bool;
  routeTable : ptrmap ServiceUnit;
  ip : runner;
  haproxyInstance : Haproxy.Haproxy;
  keepalivedInstance : Keepalived.Keepalived;
  rateLimitedCommitFuncForKeepalived : RateLimitedFunction unit;
  rateLimitedCommitFuncForHaproxy : RateLimitedFunction unit
}.

Definition set_master v p := mkProxier (config p) v (skipCommit p) (lock p) (vipTable p)
  (routeTable p) (ip p) (haproxyInstance p) (keepalivedInstance p)
  (rateLimitedCommitFuncForKeepalived p) (rateLimitedCommitFuncForHaproxy p).
Definition set_skipCommit v p := mkProxier (config p) (master p) v (lock p) (vipTable p)
  (routeTable p) (ip p) (haproxyInstance p) (keepalivedInstance p)
  (rateLimitedCommitFuncForKeepalived p) (rateLimitedCommitFuncForHaproxy p).
Definition set_lock v p := mkProxier (config p) (master p) (skipCommit p) v (vipTable p)
  (routeTable p) (ip p) (haproxyInstance p) (keepalivedInstance p)
  (rateLimitedCommitFuncForKeepalived p) (rateLimitedCommitFuncForHaproxy p).
Definition set_vipTable v p := mkProxier (config p) (master p) (skipCommit p) (lock p) v
  (routeTable p) (ip p) (haproxyInstance p) (keepalivedInstance p)
  (rateLimitedCommitFuncForKeepalived p) (rateLimitedCommitFuncForHaproxy p).
Definition set_routeTable v p := mkProxier (config p) (master p) (skipCommit p) (lock p)
  (vipTable p) v (ip p) (haproxyInstance p) (keepalivedInstance p)
  (rateLimitedCommitFuncForKeepalived p) (rateLimitedCommitFuncForHaproxy p).
Definition set_rlKeepalived v p := mkProxier (config p) (master p) (skipCommit p) (lock p)
  (vipTable p) (routeTable p) (ip p) (haproxyInstance p) (keepalivedInstance p)
  v (rateLimitedCommitFuncForHaproxy p).
Definition set_rlHaproxy v p := mkProxier (config p) (master p) (skipCommit p) (lock p)
  (vipTable p) (routeTable p) (ip p) (haproxyInstance p) (keepalivedInstance p)
  (rateLimitedCommitFuncForKeepalived p) v.

Definition on_routes {A} (m : M (ptrmap ServiceUnit) A) : M Proxier A :=
  zoom routeTable set_routeTable m.

(** [proxier.lock.Lock()]. *)
Definition Lock : M Proxier unit := λ p,
  if lock p then Block p else Ret tt (set_lock true p).

(** [lock.Lock(); defer lock.Unlock()] around the rest of a body. *)
Definition locked {A} (body : M Proxier A) : M Proxier A :=
  Lock ;; deferred (set_lock false) body.

(** ** Committing *)

Definition commitKeepalived : M Proxier unit :=
  isMaster ← zoom master set_master AtomicBool.IsSet;
  skip ← gets skipCommit;
  if negb isMaster || skip then mret tt
  else zoom rateLimitedCommitFuncForKeepalived set_rlKeepalived (Invoke tt).

Definition commitHaproxy : M Proxier unit :=
  isMaster ← zoom master set_master AtomicBool.IsSet;
  skip ← gets skipCommit;
  if negb isMaster || skip then mret tt
  else zoom rateLimitedCommitFuncForHaproxy set_rlHaproxy (Invoke tt).

(** ** Units of the route table *)

Definition createServiceUnit (name : string) : M Proxier loc :=
  let service := mkServiceUnit name zero_Service [] in
  l ← on_routes (ptr_new service);
  on_routes (ptr_set name l) ;;
  mret l.

Definition findServiceUnit (name : string) : M Proxier (option loc) := on_routes (ptr_lookup name).

(** A loop that accumulates a value. *)
Fixpoint fold_each {S A B} (body : B → A → M S B) (b : B) (xs : list A) : M S B :=
  match xs with
  | [] => mret b
  | x :: xs => b' ← body b x; fold_each body b' xs
  end.

Section Handlers.
Context `{!MapOrder}.

(** The names of the units of a service; a name without a separator makes the
    slice expression panic. *)
Definition getServicePorts (svcName : string) : M Proxier (list string) :=
  t ← gets (λ p, table (routeTable p));
  fold_each (λ names name,
    match slice_to name (LastIndex name ":") with
    | None => panic "slice bounds out of range"
    | Some svcNameExist =>
        mret (if decide (svcNameExist = svcName) then names ++ [name] else names)
    end) [] (map_range t).

(** The old items that are not new, in their order. *)
Definition diff (oldList newList : list string) : list string :=
  foldl (λ result oldItem,
    let found := existsb (String.eqb oldItem) newList in
    if negb found then result ++ [oldItem] else result) [] oldList.

(** The body of the loops over [service.Spec.Ports] in [handleServiceAdd] and
    [handleServiceUpdate] for a port that is not UDP: update the service part of
    the unit in place, or make a unit. *)
Definition syncServicePort (svcPortName : string) (svc : Service) : M Proxier unit :=
  oldSvcUnit ← findServiceUnit svcPortName;
  match oldSvcUnit with
  | Some l =>
      u ← on_routes (ptr_load (Some l));
      if decide (ServiceInfo u = svc) then mret tt
      else on_routes (ptr_store (Some l) (with_ServiceInfo svc u))
  | None =>
      l ← on_routes (ptr_new (mkServiceUnit svcPortName svc []));
      on_routes (ptr_set svcPortName l)
  end.

Definition svc_NamespacedName (service : ApiService) : NamespacedName :=
  mkNamespacedName (svc_Namespace service) (svc_Name service).
Definition eps_NamespacedName (endpoints : ApiEndpoints) : NamespacedName :=
  mkNamespacedName (eps_Namespace endpoints) (eps_Name endpoints).

(** The key and the service part of a port's unit. *)
Definition port_key (svcName : NamespacedName) (port : string) : string :=
  ServicePortName_String (mkServicePortName svcName port).
Definition port_service (service : ApiService) (servicePort : ServicePort) : Service :=
  mkService (svc_ClusterIP service) (sp_Port servicePort) (sp_Protocol servicePort).

(** Adding the cluster IP to the table, in both handlers. *)
Definition addVip (clusterIP : string) : M Proxier unit :=
  known ← gets (λ p, default false (vipTable p !! clusterIP));
  if known : bool then mret tt
  else
    modify (λ p, set_vipTable (<[clusterIP := true]> (vipTable p)) p) ;;
    commitKeepalived.

Definition handleServiceAdd (service : ApiService) : M Proxier unit :=
  if negb (IsServiceIPSet service) then mret tt
  else locked (
    let svcName := svc_NamespacedName service in
    addVip (svc_ClusterIP service) ;;
    for_each (λ servicePort,
      if decide (sp_Protocol servicePort = ProtocolUDP) then mret tt
      else
        let svcPortName := port_key svcName (sp_Name servicePort) in
        let svc := port_service service servicePort in
        syncServicePort svcPortName svc) (svc_Ports service) ;;
    commitHaproxy).

Definition handleServiceUpdate (service : ApiService) : M Proxier unit :=
  if negb (IsServiceIPSet service) then mret tt
  else locked (
    let svcName := svc_NamespacedName service in
    addVip (svc_ClusterIP service) ;;
    oldSvcPortsList ← getServicePorts (Namespace svcName +:+ ":" +:+ Name svcName);
    newSvcPortsList ← fold_each (λ newSvcPortsList servicePort,
      if decide (sp_Protocol servicePort = ProtocolUDP) then mret newSvcPortsList
      else
        let svcPortName := port_key svcName (sp_Name servicePort) in
        let svc := port_service service servicePort in
        syncServicePort svcPortName svc ;;
        mret (newSvcPortsList ++ [svcPortName])) [] (svc_Ports service);
    let diffList := diff oldSvcPortsList newSvcPortsList in
    for_each (λ d, on_routes (ptr_delete d)) diffList ;;
    commitHaproxy).

Definition handleServiceDelete (service : ApiService) : M Proxier unit :=
  locked (
    let svcName := svc_NamespacedName service in
    modify (λ p, set_vipTable (delete (svc_ClusterIP service) (vipTable p)) p) ;;
    commitKeepalived ;;
    for_each (λ servicePort,
      on_routes (ptr_delete (port_key svcName (sp_Name servicePort)))) (svc_Ports service) ;;
    commitHaproxy).

(** The map of port name to addresses that the endpoints handlers build. *)
Definition explodeSubsets (subsets : list EndpointSubset) : gmap string (list Endpoint) :=
  foldl (λ portsToEndpoints ss,
    foldl (λ portsToEndpoints port,
      foldl (λ portsToEndpoints addr,
        <[ep_Name port := default [] (portsToEndpoints !! ep_Name port) ++
                          [mkEndpoint addr (ep_Port port)]]> portsToEndpoints)
      portsToEndpoints (ss_Addresses ss))
    portsToEndpoints (ss_Ports ss)) ∅ subsets.

(** The body of the loops over [portsToEndpoints]: replace the addresses of the
    unit, or make a unit. *)
Definition syncEndpoints (svcPortName : string) (newEndpoints : list Endpoint) : M Proxier unit :=
  oldServiceUnit ← findServiceUnit svcPortName;
  match oldServiceUnit with
  | Some l =>
      u ← on_routes (ptr_load (Some l));
      if decide (Endpoints u = newEndpoints) then mret tt
      else on_routes (ptr_store (Some l) (with_Endpoints newEndpoints u))
  | None =>
      l ← createServiceUnit svcPortName;
      u ← on_routes (ptr_load (Some l));
      on_routes (ptr_store (Some l) (with_Endpoints (Endpoints u ++ newEndpoints) u))
  end.

Definition handleEndpointsAdd (endpoints : ApiEndpoints) : M Proxier unit :=
  locked (
    let epName := eps_NamespacedName endpoints in
    if decide (length (eps_Subsets endpoints) = 0) then mret tt
    else
      let portsToEndpoints := explodeSubsets (eps_Subsets endpoints) in
      for_each (λ portname,
        let svcPortName := port_key epName portname in
        let newEndpoints := default [] (portsToEndpoints !! portname) in
        syncEndpoints svcPortName newEndpoints) (map_range portsToEndpoints) ;;
      commitHaproxy).

Definition handleEndpointsUpdate (endpoints : ApiEndpoints) : M Proxier unit :=
  locked (
    let epName := eps_NamespacedName endpoints in
    oldSvcPortsList ← getServicePorts (Namespace epName +:+ ":" +:+ Name epName);
    let portsToEndpoints := explodeSubsets (eps_Subsets endpoints) in
    newSvcPortsList ← fold_each (λ newSvcPortsList portname,
      let svcPortName := port_key epName portname in
      let newEndpoints := default [] (portsToEndpoints !! portname) in
      syncEndpoints svcPortName newEndpoints ;;
      mret (newSvcPortsList ++ [svcPortName])) [] (map_range portsToEndpoints);
    let diffList := diff oldSvcPortsList newSvcPortsList in
    for_each (λ d,
      l ← findServiceUnit d;
      u ← on_routes (ptr_load l);
      on_routes (ptr_store l (with_Endpoints [] u))) diffList ;;
    commitHaproxy).

Definition handleEndpointsDelete (endpoints : ApiEndpoints) : M Proxier unit :=
  locked (
    let portsNameMap : gmap string bool :=
      foldl (λ m ss, foldl (λ m port, <[ep_Name port := true]> m) m (ss_Ports ss))
        ∅ (eps_Subsets endpoints) in
    for_each (λ portname,
      let svcPort := port_key (eps_NamespacedName endpoints) portname in
      oldServiceUnit ← findServiceUnit svcPort;
      match oldServiceUnit with
      | Some l =>
          u ← on_routes (ptr_load (Some l));
          on_routes (ptr_store (Some l) (with_Endpoints [] u))
      | None => mret tt
      end) (map_range portsNameMap) ;;
    commitHaproxy).

Definition HandleService (eventType : EventType) (service : ApiService) : M Proxier (option error) :=
  match eventType with
  | Added => handleServiceAdd service
  | Modified => handleServiceUpdate service
  | Deleted => handleServiceDelete service
  | _ => mret tt
  end ;; mret None.

Definition HandleEndpoints (eventType : EventType) (endpoints : ApiEndpoints)
    : M Proxier (option error) :=
  match eventType with
  | Added => handleEndpointsAdd endpoints
  | Modified => handleEndpointsUpdate endpoints
  | Deleted => handleEndpointsDelete endpoints
  | _ => mret tt
  end ;; mret None.

Definition SetSkipCommit (skip : bool) : M Proxier unit :=
  old ← gets skipCommit;
  if negb (Bool.eqb old skip) then modify (set_skipCommit skip) else mret tt.
End Handlers.
