(* ===== verification/ProxierSpec.v ===== *)
(** What the handlers of the proxier promise, key by key.

    A unit of the route table depends on no other unit: an event changes the unit
    [n] by [unit_step ev n], and the virtual address [ip] by [vip_step ev ip].
    [handled] is the whole effect of an event on the proxier, and [proxier_wf]
    the invariant.  *)

From stdpp Require Import gmap strings list.
From S2P Require Import Prelude GoStrings Types PtrMap RateLimiter RateLimiterProps Proxier.
From S2P Require AtomicBool.

(** ** Events *)
Inductive event : Type :=
| ServiceEvent (t : EventType) (service : ApiService)
| EndpointsEvent (t : EventType) (endpoints : ApiEndpoints).

Definition handle_event `{!MapOrder} (ev : event) : M Proxier (option error) :=
  match ev with
  | ServiceEvent t service => HandleService t service
  | EndpointsEvent t endpoints => HandleEndpoints t endpoints
  end.

(** ** The specification of one unit *)

(** [n] is a key [ns:name:port] of the object, whatever the port. *)
Definition owned (nn : NamespacedName) (n : string) : Prop :=
  slice_to n (LastIndex n ":") = Some (svc_prefix nn).
#[export] Instance owned_dec nn n : Decision (owned nn n).
Proof. unfold owned. apply _. Defined.

Definition set_service (n : string) (svc : Service) (u : option ServiceUnit) : option ServiceUnit :=
  Some (match u with
        | Some u => with_ServiceInfo svc u
        | None => mkServiceUnit n svc []
        end).

Definition set_endpoints (n : string) (es : list Endpoint) (u : option ServiceUnit)
    : option ServiceUnit :=
  Some (match u with
        | Some u => with_Endpoints es u
        | None => mkServiceUnit n zero_Service es
        end).

(** The port of the service that the unit [n] stands for: the last one with that
    key that is not UDP. *)
Definition port_at (service : ApiService) (n : string) : option ServicePort :=
  last (filter (λ sp, sp_Protocol sp ≠ ProtocolUDP ∧
                      port_key (svc_NamespacedName service) (sp_Name sp) = n)
               (svc_Ports service)).

(** The ready addresses of the endpoints for the unit [n], in the order of the
    subsets. *)
Definition addresses_at (endpoints : ApiEndpoints) (n : string) : list Endpoint :=
  eps_Subsets endpoints ≫= λ ss, ss_Ports ss ≫= λ port,
    if decide (port_key (eps_NamespacedName endpoints) (ep_Name port) = n)
    then (λ addr, mkEndpoint addr (ep_Port port)) <$> ss_Addresses ss else [].

(** Some subset has the port, with or without addresses. *)
Definition has_port_at (endpoints : ApiEndpoints) (n : string) : Prop :=
  n ∈ (port_key (eps_NamespacedName endpoints) ∘ ep_Name) <$>
        (eps_Subsets endpoints ≫= ss_Ports).
#[export] Instance has_port_at_dec endpoints n : Decision (has_port_at endpoints n).
Proof. unfold has_port_at. apply _. Defined.

Definition service_step (t : EventType) (service : ApiService) (n : string)
    (u : option ServiceUnit) : option ServiceUnit :=
  match t with
  | Added =>
      if IsServiceIPSet service then
        match port_at service n with
        | Some sp => set_service n (port_service service sp) u
        | None => u
        end
      else u
  | Modified =>
      if IsServiceIPSet service then
        match port_at service n with
        | Some sp => set_service n (port_service service sp) u
        | None => if decide (owned (svc_NamespacedName service) n) then None else u
        end
      else u
  | Deleted =>
      if decide (n ∈ (port_key (svc_NamespacedName service) ∘ sp_Name) <$> svc_Ports service)
      then None else u
  | _ => u
  end.

Definition endpoints_step (t : EventType) (endpoints : ApiEndpoints) (n : string)
    (u : option ServiceUnit) : option ServiceUnit :=
  let es := addresses_at endpoints n in
  match t with
  | Added => if decide (es = []) then u else set_endpoints n es u
  | Modified =>
      if decide (es = []) then
        if decide (owned (eps_NamespacedName endpoints) n) then with_Endpoints [] <$> u else u
      else set_endpoints n es u
  | Deleted => if decide (has_port_at endpoints n) then with_Endpoints [] <$> u else u
  | _ => u
  end.

Definition unit_step (ev : event) (n : string) (u : option ServiceUnit) : option ServiceUnit :=
  match ev with
  | ServiceEvent t service => service_step t service n u
  | EndpointsEvent t endpoints => endpoints_step t endpoints n u
  end.

(** ** The specification of one virtual address *)
Definition vip_step (ev : event) (ip : string) (v : option bool) : option bool :=
  match ev with
  | ServiceEvent (Added | Modified) service =>
      if IsServiceIPSet service && bool_decide (svc_ClusterIP service = ip) then Some true else v
  | ServiceEvent Deleted service =>
      if decide (svc_ClusterIP service = ip) then None else v
  | _ => v
  end.

(** ** The requests to reload *)
Definition committing (p : Proxier) : bool :=
  bool_decide (master p = 1%Z) && negb (skipCommit p).

(** Whether an event asks for a reload of keepalived and of HAProxy. *)
Definition asks_keepalived (ev : event) (vips : gmap string bool) : bool :=
  match ev with
  | ServiceEvent (Added | Modified) service =>
      IsServiceIPSet service && negb (default false (vips !! svc_ClusterIP service))
  | ServiceEvent Deleted _ => true
  | _ => false
  end.
Definition asks_haproxy (ev : event) : bool :=
  match ev with
  | ServiceEvent (Added | Modified) service => IsServiceIPSet service
  | ServiceEvent Deleted _ => true
  | EndpointsEvent Added endpoints => bool_decide (eps_Subsets endpoints ≠ [])
  | EndpointsEvent (Modified | Deleted) _ => true
  | _ => false
  end.

Definition invoked (b : bool) (rlf : RateLimitedFunction unit) : RateLimitedFunction unit :=
  if b then final (Invoke tt rlf) else rlf.

(** ** The effect of an event on the proxier *)
Record handled (ev : event) (p p' : Proxier) : Prop := {
  handled_rest : config p' = config p ∧ master p' = master p ∧ skipCommit p' = skipCommit p ∧
    lock p' = lock p ∧ ip p' = ip p ∧ haproxyInstance p' = haproxyInstance p ∧
    keepalivedInstance p' = keepalivedInstance p;
  handled_vips ip : vipTable p' !! ip = vip_step ev ip (vipTable p !! ip);
  handled_units n : view (routeTable p') !! n = unit_step ev n (view (routeTable p) !! n);
  handled_keepalived : rateLimitedCommitFuncForKeepalived p' =
    invoked (committing p && asks_keepalived ev (vipTable p))
      (rateLimitedCommitFuncForKeepalived p);
  handled_haproxy : rateLimitedCommitFuncForHaproxy p' =
    invoked (committing p && asks_haproxy ev) (rateLimitedCommitFuncForHaproxy p)
}.

(** ** The invariant *)
Record proxier_wf (p : Proxier) : Prop := {
  pw_lock : lock p = false;
  pw_routes : ptr_wf (routeTable p);
  pw_keys n u : view (routeTable p) !! n = Some u → su_Name u = n ∧ has_byte colon n = true;
  pw_vips ip b : vipTable p !! ip = Some b → b = true;
  pw_keepalived : rlf_wf (Instances.Keepalived.ReloadInterval (KeepalivedConfig (config p)))
                    (rateLimitedCommitFuncForKeepalived p);
  pw_haproxy : rlf_wf (Instances.Haproxy.ReloadInterval (HaproxyConfig (config p)))
                 (rateLimitedCommitFuncForHaproxy p)
}.
