(* ===== verification/ProxierFacts.v ===== *)
(** Lemmas that relate the proxier's code to its specification: the pure
    functions, the operations on one unit, and the loops over ports, subsets and
    map keys. *)

From stdpp Require Import gmap strings list.
From S2P Require Import Prelude GoStrings Types PtrMap RateLimiter RateLimiterProps Proxier.
From S2P Require Import ProxierSpec.
From S2P Require AtomicBool.

(** ** Keys *)
#[export] Instance port_key_inj nn : Inj (=) (=) (port_key nn).
Proof.
  intros p p'. unfold port_key. rewrite !ServicePortName_String_prefix. simpl.
  by intros ?%(inj (String.app (svc_prefix nn)))%(inj (String.app ":")).
Qed.

Lemma port_key_colon nn p : has_byte colon (port_key nn p) = true.
Proof.
  unfold port_key. rewrite ServicePortName_String_prefix, !has_byte_append. simpl.
  by rewrite !orb_true_r.
Qed.

Lemma port_key_owned nn p : has_byte colon p = false → owned nn (port_key nn p).
Proof.
  intros Hp. unfold owned, port_key. rewrite ServicePortName_String_prefix. simpl.
  by rewrite LastIndex_sep, slice_to_sep by done.
Qed.

(** ** The pure functions *)
Lemma diff_filter old new : diff old new = filter (λ x, x ∉ new) old.
Proof.
  unfold diff. set (step := λ _ _, _). cut (∀ acc, foldl step acc old = acc ++ filter (λ x, x ∉ new) old).
  { intros H. apply (H []). }
  induction old as [|x old IH]; intros acc; cbn [foldl]; [by rewrite app_nil_r|].
  rewrite IH. unfold step. destruct (decide (x ∈ new)) as [Hin|Hin].
  - rewrite filter_cons_False by auto. replace (existsb _ new) with true; [done|].
    symmetry. apply existsb_exists. exists x. split; [by apply list_elem_of_In|apply String.eqb_refl].
  - rewrite filter_cons_True by done. replace (existsb _ new) with false; simpl; [by rewrite <-app_assoc|].
    symmetry. apply not_true_iff_false. rewrite existsb_exists. intros (y & Hy & ->%String.eqb_eq).
    by apply Hin, list_elem_of_In.
Qed.

(** Folds of updates that act on one key at a time. *)
Lemma foldl_local {A V} (g : gmap string V → A → gmap string V) (h : A → option V → option V) n xs m :
  (∀ m x, g m x !! n = h x (m !! n)) → foldl g m xs !! n = foldl (λ u x, h x u) (m !! n) xs.
Proof.
  intros Hg. revert m. induction xs as [|x xs IH]; intros m; simpl; [done|].
  by rewrite IH, Hg.
Qed.

(** A fold in which at most one element acts. *)
Lemma foldl_one {A B} (P : A → Prop) `{!∀ x, Decision (P x)} (f : A → B → B) xs u :
  NoDup xs → (∀ x y, P x → P y → x = y) →
  (∃ x, x ∈ xs ∧ P x ∧ foldl (λ u x, if decide (P x) then f x u else u) u xs = f x u) ∨
  ((∀ x, x ∈ xs → ¬ P x) ∧ foldl (λ u x, if decide (P x) then f x u else u) u xs = u).
Proof.
  intros Hnd HP. revert u. induction Hnd as [|x xs Hx Hnd IH]; intros u; simpl.
  { right. split; [set_solver|done]. }
  destruct (decide (P x)) as [Hp|Hp].
  - left. exists x. split_and!; [set_solver|done|]. destruct (IH (f x u)) as [(y & Hy & Hpy & _)|[_ ->]]; [|done].
    destruct Hx. by rewrite (HP x y).
  - destruct (IH u) as [(y & Hy & Hpy & ->)|[Hno ->]]; [left; exists y; set_solver|right; set_solver].
Qed.

(** A fold whose last acting element decides. *)
Lemma foldl_last {A B} (P : A → Prop) `{!∀ x, Decision (P x)} (f : A → B → B) xs u :
  (∀ x y u, P x → P y → f x (f y u) = f x u) →
  foldl (λ u x, if decide (P x) then f x u else u) u xs =
  match last (filter P xs) with Some x => f x u | None => u end.
Proof.
  intros Hf. induction xs as [|x xs IH] using rev_ind; [done|].
  rewrite foldl_app, filter_app. cbn [foldl]. rewrite IH. case_decide as Hp.
  - rewrite filter_cons_True, filter_nil, last_snoc by done.
    destruct (last (filter P xs)) as [y|] eqn:E; [|done]. apply Hf; [done|].
    apply last_Some in E as [l Hl]. assert (y ∈ filter P xs) as Hy by (rewrite Hl; set_solver).
    by apply list_elem_of_filter in Hy as [? _].
  - by rewrite filter_cons_False, filter_nil, app_nil_r by done.
Qed.

(** *** Exploding the subsets *)

(** Appending addresses to an entry of the map; no addresses make no entry. *)
Definition append_to (u : option (list Endpoint)) (es : list Endpoint) : option (list Endpoint) :=
  if decide (es = []) then u else Some (default [] u ++ es).

Lemma append_to_app u es es' : append_to (append_to u es) es' = append_to u (es ++ es').
Proof.
  unfold append_to. destruct (decide (es = [])) as [->|Hes]; [done|].
  destruct (decide (es' = [])) as [->|Hes']; [by rewrite app_nil_r, decide_False|].
  rewrite decide_False by (by intros [? ?]%app_eq_nil). simpl. by rewrite app_assoc.
Qed.

Lemma foldl_append {A} (g : gmap string (list Endpoint) → A → gmap string (list Endpoint))
    (h : A → list Endpoint) p xs m :
  (∀ m x, g m x !! p = append_to (m !! p) (h x)) →
  foldl g m xs !! p = append_to (m !! p) (xs ≫= h).
Proof.
  intros Hg. revert m. induction xs as [|x xs IH]; intros m; simpl; [done|].
  by rewrite IH, Hg, append_to_app.
Qed.

(** The ready addresses for a port name. *)
Definition addresses_for (subsets : list EndpointSubset) (p : string) : list Endpoint :=
  subsets ≫= λ ss, ss_Ports ss ≫= λ port,
    if decide (ep_Name port = p) then (λ addr, mkEndpoint addr (ep_Port port)) <$> ss_Addresses ss
    else [].

Lemma explode_lookup subsets p :
  explodeSubsets subsets !! p =
  if decide (addresses_for subsets p = []) then None else Some (addresses_for subsets p).
Proof.
  unfold explodeSubsets. rewrite (foldl_append _ (λ ss, ss_Ports ss ≫= λ port,
    if decide (ep_Name port = p) then (λ addr, mkEndpoint addr (ep_Port port)) <$> ss_Addresses ss
    else [])).
  { unfold append_to. rewrite lookup_empty. done. }
  intros m ss. rewrite (foldl_append _ (λ port,
    if decide (ep_Name port = p) then (λ addr, mkEndpoint addr (ep_Port port)) <$> ss_Addresses ss
    else [])); [done|].
  clear m. intros m port. rewrite (foldl_append _ (λ addr,
    if decide (ep_Name port = p) then [mkEndpoint addr (ep_Port port)] else [])).
  - f_equal. case_decide; [|by induction (ss_Addresses ss)].
    induction (ss_Addresses ss) as [|a l IH]; [done|]. by rewrite fmap_cons, bind_cons, IH.
  - clear m. intros m addr. case_decide as Hp; [subst p|].
    + rewrite lookup_insert_eq. unfold append_to. by rewrite decide_False.
    + by rewrite lookup_insert_ne.
Qed.

Lemma addresses_at_for endpoints p :
  addresses_at endpoints (port_key (eps_NamespacedName endpoints) p) =
  addresses_for (eps_Subsets endpoints) p.
Proof.
  unfold addresses_at, addresses_for.
  apply list_bind_ext; [|done]. intros ss. apply list_bind_ext; [|done]. intros port.
  destruct (decide (ep_Name port = p)) as [->|Hne]; [by rewrite decide_True|].
  rewrite decide_False; [done|]. by intros ?%(inj (port_key _)).
Qed.

(** Addresses belong to a port name. *)
Lemma addresses_at_key endpoints n :
  addresses_at endpoints n ≠ [] → ∃ p, n = port_key (eps_NamespacedName endpoints) p.
Proof.
  destruct (addresses_at endpoints n) as [|e l] eqn:E; [done|intros _].
  assert (e ∈ addresses_at endpoints n) as He by (rewrite E; left). unfold addresses_at in He.
  apply list_elem_of_bind in He as (ss & He & _). apply list_elem_of_bind in He as (port & He & _).
  case_decide as Hn; [by exists (ep_Name port)|inversion He].
Qed.

(** ** Code that works on the route table

    [effect m a f]: on a well-formed table [m] returns [a], changes the map of
    units by [f] and nothing else of the proxier. *)
Definition effect {A} (m : M Proxier A) (a : A)
    (f : gmap string ServiceUnit → gmap string ServiceUnit) : Prop :=
  ∀ p, ptr_wf (routeTable p) →
    ∃ rt, m p = Ret a (set_routeTable rt p) ∧ ptr_wf rt ∧ view rt = f (view (routeTable p)).

Section Effects.
Local Abbreviation units := (gmap string ServiceUnit).
Implicit Types (f g : units → units) (n : string).

Lemma set_routeTable_id p : set_routeTable (routeTable p) p = p.
Proof. by destruct p. Qed.

Lemma on_routes_Ret {A} (m : M (ptrmap ServiceUnit) A) p a rt :
  m (routeTable p) = Ret a rt → on_routes m p = Ret a (set_routeTable rt p).
Proof. intros H. unfold on_routes, zoom. by rewrite H. Qed.

Lemma effect_ext {A} (m : M Proxier A) a f g : (∀ r, f r = g r) → effect m a f → effect m a g.
Proof. intros Hfg Hm p Hp. destruct (Hm p Hp) as (rt & ? & ? & ?). exists rt. by rewrite <-Hfg. Qed.

Lemma effect_ret {A} (a : A) : effect (mret a) a id.
Proof. intros p Hp. exists (routeTable p). by rewrite set_routeTable_id. Qed.

Lemma effect_bind {A B} (m : M Proxier A) (k : A → M Proxier B) a b f g :
  effect m a f → effect (k a) b g → effect (mbind k m) b (λ r, g (f r)).
Proof.
  intros Hm Hk p Hp. destruct (Hm p Hp) as (rt & Hm' & Hwf & Hv). run Hm'.
  destruct (Hk (set_routeTable rt p) Hwf) as (rt' & -> & ? & Hv'). exists rt'. split; [done|].
  split; [done|]. by rewrite Hv', <-Hv.
Qed.

Lemma effect_for_each {A} (body : A → M Proxier unit) (g : units → A → units) xs :
  (∀ x, effect (body x) tt (λ r, g r x)) → effect (for_each body xs) tt (λ r, foldl g r xs).
Proof.
  intros Hb. induction xs as [|x xs IH]; simpl; [apply effect_ret|].
  eapply effect_ext; [|by eapply effect_bind]. done.
Qed.

Lemma effect_fold_each {A B} (body : B → A → M Proxier B) (h : B → A → B) (g : units → A → units) b xs :
  (∀ b x, effect (body b x) (h b x) (λ r, g r x)) →
  effect (fold_each body b xs) (foldl h b xs) (λ r, foldl g r xs).
Proof.
  intros Hb. revert b. induction xs as [|x xs IH]; intros b; simpl; [apply effect_ret|].
  eapply effect_ext; [|by eapply effect_bind]. done.
Qed.

Lemma effect_delete n : effect (on_routes (ptr_delete n)) tt (delete n).
Proof.
  intros p Hp. destruct (ptr_delete_view _ n Hp) as (rt & Hd & Hwf & Hv).
  exists rt. by rewrite (on_routes_Ret _ _ _ _ Hd).
Qed.

(** The pointer of a key, and the unit behind it. *)
Lemma find_spec n p :
  ptr_wf (routeTable p) →
  (findServiceUnit n p = Ret None p ∧ view (routeTable p) !! n = None) ∨
  (∃ l u, findServiceUnit n p = Ret (Some l) p ∧ on_routes (ptr_load (Some l)) p = Ret u p ∧
     table (routeTable p) !! n = Some l ∧ view (routeTable p) !! n = Some u).
Proof.
  intros Hp. unfold findServiceUnit, on_routes, zoom, ptr_lookup, ptr_load. m_unfold.
  destruct (ptr_lookup_view _ n Hp) as [[-> Hv]|(l & u & -> & Hl & Hv)]; [left|right].
  - by rewrite set_routeTable_id.
  - exists l, u. simpl. by rewrite Hl, set_routeTable_id.
Qed.

(** Storing through the pointer of a key. *)
Lemma store_spec n l u p :
  ptr_wf (routeTable p) → table (routeTable p) !! n = Some l →
  ∃ rt, on_routes (ptr_store (Some l) u) p = Ret tt (set_routeTable rt p) ∧ ptr_wf rt ∧
    view rt = <[n := u]> (view (routeTable p)).
Proof.
  intros Hp Hl. destruct (ptr_store_view _ n l u Hp Hl) as (rt & Hs & ? & _ & ?).
  exists rt. by rewrite (on_routes_Ret _ _ _ _ Hs).
Qed.

Lemma alter_insert (f : option ServiceUnit → option ServiceUnit) n u (m : units) :
  f (m !! n) = Some u → partial_alter f n m = <[n := u]> m.
Proof. intros Hf. apply partial_alter_ext. intros x <-. done. Qed.

(** Making a unit, the way both kinds of handlers do. *)
Lemma new_unit_spec n u p :
  ptr_wf (routeTable p) →
  ∃ l rt, (l ← on_routes (ptr_new u); on_routes (ptr_set n l) ;; mret l) p
          = Ret l (set_routeTable rt p) ∧
    ptr_wf rt ∧ table rt !! n = Some l ∧ heap rt !! l = Some u ∧
    view rt = <[n := u]> (view (routeTable p)).
Proof.
  intros Hp. destruct (ptr_put_new_view _ n u Hp) as (rt & l & Hn & ? & ? & ? & ?).
  exists l, rt. split; [|done]. revert Hn. m_unfold. by intros [= <- <-].
Qed.

Lemma syncServicePort_effect n svc :
  effect (syncServicePort n svc) tt (partial_alter (set_service n svc) n).
Proof.
  intros p Hp. unfold syncServicePort.
  destruct (find_spec n p Hp) as [[Hf Hv]|(l & u & Hf & Hl & Ht & Hv)]; run Hf.
  - destruct (new_unit_spec n (mkServiceUnit n svc []) p Hp) as (l & rt & Hn & Hwf & _ & _ & Hv').
    exists rt. split; [|split; [done|]].
    + revert Hn. m_unfold. by intros [= <- <-].
    + rewrite Hv'. symmetry. apply alter_insert. by rewrite Hv.
  - run Hl. case_decide as Hs.
    + exists (routeTable p). rewrite set_routeTable_id. split; [done|]. split; [done|].
      symmetry. apply partial_alter_id. rewrite Hv. simpl. rewrite <-Hs. by destruct u.
    + destruct (store_spec n l (with_ServiceInfo svc u) p Hp Ht) as (rt & Hst & ? & Hv').
      exists rt. split_and!; [done..|]. rewrite Hv'. symmetry. apply alter_insert. by rewrite Hv.
Qed.

Lemma syncEndpoints_effect n es :
  effect (syncEndpoints n es) tt (partial_alter (set_endpoints n es) n).
Proof.
  intros p Hp. unfold syncEndpoints.
  destruct (find_spec n p Hp) as [[Hf Hv]|(l & u & Hf & Hl & Ht & Hv)]; run Hf.
  - destruct (new_unit_spec n (mkServiceUnit n zero_Service []) p Hp)
      as (l & rt & Hn & Hwf & Ht & Hh & Hv'). unfold createServiceUnit.
    run Hn.
    rewrite (bind_Ret _ _ _ (mkServiceUnit n zero_Service []) (set_routeTable rt p))
      by (unfold on_routes, zoom, ptr_load; simpl; by rewrite Hh).
    destruct (store_spec n l (mkServiceUnit n zero_Service es) (set_routeTable rt p) Hwf Ht)
      as (rt' & Hst & Hwf' & Hv'').
    exists rt'. split_and!; [done..|]. simpl in Hv''. rewrite Hv'', Hv', insert_insert_eq.
    symmetry. apply alter_insert. by rewrite Hv.
  - run Hl. case_decide as Hs.
    + exists (routeTable p). rewrite set_routeTable_id. split; [done|]. split; [done|].
      symmetry. apply partial_alter_id. rewrite Hv. simpl. rewrite <-Hs. by destruct u.
    + destruct (store_spec n l (with_Endpoints es u) p Hp Ht) as (rt & Hst & ? & Hv').
      exists rt. split_and!; [done..|]. rewrite Hv'. symmetry. apply alter_insert. by rewrite Hv.
Qed.

(** Emptying the addresses of a unit that exists, through its pointer. *)
Lemma clear_effect n p :
  ptr_wf (routeTable p) → is_Some (view (routeTable p) !! n) →
  ∃ rt, (l ← findServiceUnit n; u ← on_routes (ptr_load l); on_routes (ptr_store l (with_Endpoints [] u))) p
        = Ret tt (set_routeTable rt p) ∧ ptr_wf rt ∧
    view rt = partial_alter (fmap (with_Endpoints [])) n (view (routeTable p)).
Proof.
  intros Hp [u0 Hu0]. destruct (find_spec n p Hp) as [[_ Hv]|(l & u & Hf & Hl & Ht & Hv)]; [congruence|].
  run Hf; run Hl.
  destruct (store_spec n l (with_Endpoints [] u) p Hp Ht) as (rt & Hst & ? & Hv').
  exists rt. split_and!; [done..|]. rewrite Hv'. symmetry. apply alter_insert. by rewrite Hv.
Qed.

(** The same if the unit exists at all, as [handleEndpointsDelete] does. *)
Lemma clear_if_effect n :
  effect (oldServiceUnit ← findServiceUnit n;
          match oldServiceUnit with
          | Some l =>
              u ← on_routes (ptr_load (Some l));
              on_routes (ptr_store (Some l) (with_Endpoints [] u))
          | None => mret tt
          end) tt (partial_alter (fmap (with_Endpoints [])) n).
Proof.
  intros p Hp. destruct (find_spec n p Hp) as [[Hf Hv]|(l & u & Hf & Hl & Ht & Hv)];
    run Hf.
  - exists (routeTable p). rewrite set_routeTable_id. split; [done|]. split; [done|].
    symmetry. apply partial_alter_id. by rewrite Hv.
  - run Hl.
    destruct (store_spec n l (with_Endpoints [] u) p Hp Ht) as (rt & Hst & ? & Hv').
    exists rt. split_and!; [done..|]. rewrite Hv'. symmetry. apply alter_insert. by rewrite Hv.
Qed.
End Effects.

(** ** Lists of keys *)
Section Lists.
Context {mo : MapOrder}.

Definition keys_ok (r : gmap string ServiceUnit) : Prop :=
  ∀ n u, r !! n = Some u → su_Name u = n ∧ has_byte colon n = true.

Lemma getServicePorts_spec nn p :
  ptr_wf (routeTable p) → keys_ok (view (routeTable p)) →
  getServicePorts (Namespace nn +:+ ":" +:+ Name nn) p =
    Ret (filter (owned nn) (map_range (table (routeTable p)))) p.
Proof.
  intros Hp Hk. unfold getServicePorts.
  rewrite (bind_Ret _ _ _ (table (routeTable p)) p) by done.
  assert (∀ n, n ∈ map_range (table (routeTable p)) → has_byte colon n = true) as Hkeys.
  { intros n Hn. rewrite elem_of_map_range, <-elem_of_dom, ptr_dom, elem_of_dom in Hn by done.
    destruct Hn as [u Hu]. by eapply Hk. }
  revert Hkeys. generalize (map_range (table (routeTable p))). intros ns Hns.
  set (body := λ _ _, _). cut (∀ acc, fold_each body acc ns p = Ret (acc ++ filter (owned nn) ns) p).
  { intros H. apply (H []). }
  induction ns as [|n ns IH]; intros acc; cbn [fold_each]; [by rewrite app_nil_r|].
  destruct (slice_LastIndex n) as [s Hs]; [apply Hns; left|].
  rewrite (bind_Ret _ _ _ (if decide (s = svc_prefix nn) then acc ++ [n] else acc) p)
    by (unfold body; by rewrite Hs).
  rewrite IH by (intros; apply Hns; by right). f_equal.
  destruct (decide (s = svc_prefix nn)) as [->|Hne].
  - rewrite filter_cons_True by done. by rewrite <-app_assoc.
  - rewrite filter_cons_False; [done|]. unfold owned. congruence.
Qed.

(** The owned keys that are not among the new ones. *)
Lemma elem_of_old_keys nn new p n :
  ptr_wf (routeTable p) →
  n ∈ diff (filter (owned nn) (map_range (table (routeTable p)))) new ↔
  n ∉ new ∧ owned nn n ∧ is_Some (view (routeTable p) !! n).
Proof.
  intros Hp. rewrite diff_filter, !list_elem_of_filter, elem_of_map_range.
  by rewrite <-!elem_of_dom, ptr_dom.
Qed.

(** Emptying the units of a list of present keys. *)
Lemma clear_all ns p :
  ptr_wf (routeTable p) → (∀ n, n ∈ ns → is_Some (view (routeTable p) !! n)) →
  ∃ rt, for_each (λ d, l ← findServiceUnit d; u ← on_routes (ptr_load l);
                       on_routes (ptr_store l (with_Endpoints [] u))) ns p
        = Ret tt (set_routeTable rt p) ∧ ptr_wf rt ∧
    view rt = foldl (λ r n, partial_alter (fmap (with_Endpoints [])) n r) (view (routeTable p)) ns.
Proof.
  revert p. induction ns as [|n ns IH]; intros p Hp Hns; cbn [for_each foldl].
  { exists (routeTable p). by rewrite set_routeTable_id. }
  destruct (clear_effect n p Hp) as (rt & Hc & Hwf & Hv); [apply Hns; left|].
  run Hc. destruct (IH (set_routeTable rt p) Hwf) as (rt' & Hrt' & Hwf' & Hv').
  - intros n' Hn'. simpl. rewrite Hv. destruct (decide (n = n')) as [<-|].
    + rewrite lookup_partial_alter_eq, fmap_is_Some. apply Hns; left.
    + rewrite lookup_partial_alter_ne by done. apply Hns; by right.
  - exists rt'. split; [done|]. split; [done|]. by rewrite Hv', <-Hv.
Qed.

Lemma lookup_clear ns (r : gmap string ServiceUnit) n :
  foldl (λ r n, partial_alter (fmap (with_Endpoints [])) n r) r ns !! n =
  if decide (n ∈ ns) then with_Endpoints [] <$> r !! n else r !! n.
Proof.
  revert r. induction ns as [|n' ns IH]; intros r; cbn [foldl].
  { by rewrite decide_False by (intros H; inversion H). }
  rewrite IH. destruct (decide (n' = n)) as [->|Hne].
  - rewrite lookup_partial_alter_eq, (decide_True (P := n ∈ n :: ns)) by set_solver.
    case_decide; [|done]. by destruct (r !! n).
  - rewrite lookup_partial_alter_ne by done. repeat case_decide; set_solver.
Qed.

Lemma lookup_delete_all ns (r : gmap string ServiceUnit) n :
  foldl (λ r n, delete n r) r ns !! n = if decide (n ∈ ns) then None else r !! n.
Proof.
  revert r. induction ns as [|n' ns IH]; intros r; cbn [foldl].
  { by rewrite decide_False by (intros H; inversion H). }
  rewrite IH. destruct (decide (n' = n)) as [->|Hne].
  - rewrite lookup_delete_eq, (decide_True (P := n ∈ n :: ns)) by set_solver. by case_decide.
  - rewrite lookup_delete_ne by done. repeat case_decide; set_solver.
Qed.
End Lists.

(** ** The lock and the commits *)
Lemma locked_Ret {A} (body : M Proxier A) p a p' :
  lock p = false → body (set_lock true p) = Ret a p' → locked body p = Ret a (set_lock false p').
Proof.
  intros Hl Hb. unfold locked. rewrite (bind_Ret _ _ _ tt (set_lock true p))
    by (unfold Lock; by rewrite Hl). unfold deferred. by rewrite Hb.
Qed.

Lemma Invoke_Ret (rlf : RateLimitedFunction unit) : Invoke tt rlf = Ret tt (invoked true rlf).
Proof.
  unfold invoked, Invoke, on_queue, zoom, FIFO.AddIfNotPresent, keyFunc. m_unfold. simpl.
  by destruct (FIFO.items (queue rlf) !! backOffKey rlf).
Qed.

Lemma IsSet_spec p : zoom master set_master AtomicBool.IsSet p = Ret (bool_decide (master p = 1%Z)) p.
Proof. by destruct p. Qed.

Lemma commitHaproxy_spec p :
  commitHaproxy p =
    Ret tt (set_rlHaproxy (invoked (committing p) (rateLimitedCommitFuncForHaproxy p)) p).
Proof.
  unfold commitHaproxy, committing. run (IsSet_spec p).
  rewrite (bind_Ret _ _ _ (skipCommit p) p) by done.
  destruct (bool_decide _), (skipCommit p) eqn:E; simpl; try by destruct p.
  unfold zoom. by rewrite Invoke_Ret.
Qed.

Lemma commitKeepalived_spec p :
  commitKeepalived p =
    Ret tt (set_rlKeepalived (invoked (committing p) (rateLimitedCommitFuncForKeepalived p)) p).
Proof.
  unfold commitKeepalived, committing. run (IsSet_spec p).
  rewrite (bind_Ret _ _ _ (skipCommit p) p) by done.
  destruct (bool_decide _), (skipCommit p) eqn:E; simpl; try by destruct p.
  unfold zoom. by rewrite Invoke_Ret.
Qed.

Definition known_vip (ip : string) (p : Proxier) : bool := default false (vipTable p !! ip).

Lemma addVip_spec ip p :
  addVip ip p =
    Ret tt (set_rlKeepalived
             (invoked (committing p && negb (known_vip ip p)) (rateLimitedCommitFuncForKeepalived p))
             (set_vipTable (if known_vip ip p then vipTable p else <[ip := true]> (vipTable p)) p)).
Proof.
  unfold addVip. rewrite (bind_Ret _ _ _ (known_vip ip p) p) by done.
  destruct (known_vip ip p).
  - rewrite andb_false_r. by destruct p.
  - rewrite (bind_Ret _ _ _ tt (set_vipTable (<[ip := true]> (vipTable p)) p)) by done.
    rewrite commitKeepalived_spec. by rewrite andb_true_r.
Qed.
