(* ===== verification/ProxierHandlers.v ===== *)
(** Each handler of the proxier does what the specification of its event says:
    the loops of the handlers, then the handlers, then the invariant. *)

From stdpp Require Import gmap strings list.
From S2P Require Import Prelude GoStrings Types PtrMap RateLimiter RateLimiterProps Proxier.
From S2P Require Import ProxierSpec ProxierFacts.

Local Abbreviation units := (gmap string ServiceUnit).

(** ** Loops over the ports of a service *)
Section ServicePorts.
Variable service : ApiService.
Local Abbreviation key sp := (port_key (svc_NamespacedName service) (sp_Name sp)).

Definition sync_ports (r : units) : units :=
  foldl (λ r sp,
    if decide (sp_Protocol sp = ProtocolUDP) then r
    else partial_alter (set_service (key sp) (port_service service sp)) (key sp) r)
    r (svc_Ports service).

(** The keys of the ports that are not UDP. *)
Definition tcp_keys : list string :=
  (λ sp, key sp) <$> filter (λ sp, sp_Protocol sp ≠ ProtocolUDP) (svc_Ports service).

Lemma elem_of_tcp_keys n : n ∈ tcp_keys ↔ is_Some (port_at service n).
Proof.
  unfold tcp_keys, port_at. rewrite last_is_Some, list_elem_of_fmap. split.
  - intros (sp & -> & [? ?]%list_elem_of_filter). eapply elem_of_not_nil, list_elem_of_filter. done.
  - destruct (filter _ _) as [|sp l] eqn:E; [done|intros _].
    assert (sp ∈ filter (λ sp, sp_Protocol sp ≠ ProtocolUDP ∧ key sp = n) (svc_Ports service))
      as ([? ?] & ?)%list_elem_of_filter by (rewrite E; left).
    exists sp. by rewrite list_elem_of_filter.
Qed.

Lemma sync_ports_lookup r n :
  sync_ports r !! n =
  match port_at service n with
  | Some sp => set_service n (port_service service sp) (r !! n)
  | None => r !! n
  end.
Proof.
  unfold sync_ports, port_at.
  rewrite (foldl_local _ (λ sp u, if decide (sp_Protocol sp ≠ ProtocolUDP ∧ key sp = n)
    then set_service n (port_service service sp) u else u)).
  - by apply (foldl_last _ (λ sp, set_service n (port_service service sp))); intros ? ? [].
  - intros m sp. destruct (decide (sp_Protocol sp = ProtocolUDP)) as [Hu|Hu].
    { rewrite decide_False; naive_solver. }
    destruct (decide (key sp = n)) as [<-|Hne].
    + by rewrite lookup_partial_alter_eq, decide_True.
    + rewrite lookup_partial_alter_ne, decide_False; naive_solver.
Qed.

Lemma sync_ports_effect :
  effect (for_each (λ servicePort,
      if decide (sp_Protocol servicePort = ProtocolUDP) then mret tt
      else syncServicePort (key servicePort) (port_service service servicePort))
    (svc_Ports service)) tt sync_ports.
Proof.
  unfold sync_ports. apply (effect_for_each _ (λ r sp,
    if decide (sp_Protocol sp = ProtocolUDP) then r
    else partial_alter (set_service (key sp) (port_service service sp)) (key sp) r)).
  intros sp. case_decide; [apply effect_ret|apply syncServicePort_effect].
Qed.

Lemma sync_ports_list_effect :
  effect (fold_each (λ newSvcPortsList servicePort,
      if decide (sp_Protocol servicePort = ProtocolUDP) then mret newSvcPortsList
      else
        syncServicePort (key servicePort) (port_service service servicePort) ;;
        mret (newSvcPortsList ++ [key servicePort])) [] (svc_Ports service)) tcp_keys sync_ports.
Proof.
  set (h := λ (acc : list string) sp, if decide (sp_Protocol sp = ProtocolUDP) then acc else acc ++ [key sp]).
  replace tcp_keys with (foldl h [] (svc_Ports service)).
  - apply effect_fold_each. intros acc sp. unfold h. case_decide; [apply effect_ret|].
    eapply effect_ext; [|eapply effect_bind; [apply syncServicePort_effect|apply effect_ret]]. done.
  - unfold tcp_keys. cut (∀ acc, foldl h acc (svc_Ports service) = acc ++
      ((λ sp, key sp) <$> filter (λ sp, sp_Protocol sp ≠ ProtocolUDP) (svc_Ports service))).
    { intros H. apply H. }
    induction (svc_Ports service) as [|sp sps IH]; intros acc; cbn [foldl]; [by rewrite app_nil_r|].
    rewrite IH. unfold h. case_decide as Hu.
    + by rewrite filter_cons_False by auto.
    + by rewrite filter_cons_True, fmap_cons, <-app_assoc by done.
Qed.
End ServicePorts.

(** ** Loops over the port names of endpoints *)
Section EndpointsPorts.
Context {mo : MapOrder}.
Variable endpoints : ApiEndpoints.
Local Abbreviation key p := (port_key (eps_NamespacedName endpoints) p).
Local Abbreviation exploded := (explodeSubsets (eps_Subsets endpoints)).

Definition sync_addresses (r : units) : units :=
  foldl (λ r p, partial_alter (set_endpoints (key p) (default [] (exploded !! p))) (key p) r)
    r (map_range exploded).

Lemma elem_of_exploded p : p ∈ map_range exploded ↔ addresses_at endpoints (key p) ≠ [].
Proof.
  rewrite elem_of_map_range, explode_lookup, addresses_at_for. case_decide; split; try done.
Qed.

Lemma elem_of_address_keys n :
  n ∈ (λ p, key p) <$> map_range exploded ↔ addresses_at endpoints n ≠ [].
Proof.
  rewrite list_elem_of_fmap. split.
  - by intros (p & -> & ?%elem_of_exploded).
  - intros Hn. destruct (addresses_at_key endpoints n Hn) as [p ->]. exists p.
    by rewrite elem_of_exploded.
Qed.

Lemma sync_addresses_lookup r n :
  sync_addresses r !! n =
  if decide (addresses_at endpoints n = []) then r !! n
  else set_endpoints n (addresses_at endpoints n) (r !! n).
Proof.
  unfold sync_addresses.
  rewrite (foldl_local _ (λ p u, if decide (key p = n)
    then set_endpoints n (default [] (exploded !! p)) u else u)).
  - destruct (foldl_one (λ p, key p = n) (λ p, set_endpoints n (default [] (exploded !! p)))
      (map_range exploded) (r !! n)) as [(p & Hp & <- & ->)|[Hno ->]].
    + apply NoDup_map_range.
    + by intros p p' <- ->%(inj (port_key _)).
    + apply elem_of_exploded in Hp. rewrite decide_False by done.
      rewrite explode_lookup, <-addresses_at_for, decide_False by done. done.
    + rewrite decide_True; [done|]. destruct (decide (addresses_at endpoints n = [])) as [|Hn]; [done|].
      apply elem_of_address_keys, list_elem_of_fmap in Hn as (p & -> & Hp). by destruct (Hno p).
  - intros m p. destruct (decide (key p = n)) as [<-|Hne].
    + by rewrite lookup_partial_alter_eq.
    + by rewrite lookup_partial_alter_ne.
Qed.

Lemma sync_addresses_effect :
  effect (for_each (λ portname, syncEndpoints (key portname) (default [] (exploded !! portname)))
    (map_range exploded)) tt sync_addresses.
Proof. apply effect_for_each. intros p. apply syncEndpoints_effect. Qed.

Lemma sync_addresses_list_effect :
  effect (fold_each (λ newSvcPortsList portname,
      syncEndpoints (key portname) (default [] (exploded !! portname)) ;;
      mret (newSvcPortsList ++ [key portname])) [] (map_range exploded))
    ((λ p, key p) <$> map_range exploded) sync_addresses.
Proof.
  replace ((λ p, key p) <$> map_range exploded)
    with (foldl (λ acc p, acc ++ [key p]) [] (map_range exploded)).
  - apply effect_fold_each. intros acc p.
    eapply effect_ext; [|eapply effect_bind; [apply syncEndpoints_effect|apply effect_ret]]. done.
  - cut (∀ acc, foldl (λ acc p, acc ++ [key p]) acc (map_range exploded) =
      acc ++ ((λ p, key p) <$> map_range exploded)); [intros H; apply H|].
    induction (map_range exploded) as [|p ps IH]; intros acc; cbn [foldl]; [by rewrite app_nil_r|].
    by rewrite IH, fmap_cons, <-app_assoc.
Qed.

(** The names of all ports, with or without addresses. *)
Definition port_names : gmap string bool :=
  foldl (λ m ss, foldl (λ m port, <[ep_Name port := true]> m) m (ss_Ports ss))
    ∅ (eps_Subsets endpoints).

Lemma loop_keys (ports : list EndpointPort) (m : gmap string bool) p :
  is_Some (foldl (λ m port, <[ep_Name port := true]> m) m ports !! p) ↔
  is_Some (m !! p) ∨ p ∈ ep_Name <$> ports.
Proof.
  revert m. induction ports as [|port ps IH]; intros m; cbn [foldl].
  { split; [by left|]. intros [|Hin]; [done|inversion Hin]. }
  rewrite IH, fmap_cons, elem_of_cons. destruct (decide (ep_Name port = p)) as [<-|Hne].
  - rewrite lookup_insert_eq. split; [by auto|]. left; eauto.
  - rewrite lookup_insert_ne by done. naive_solver.
Qed.

Lemma elem_of_port_names n :
  n ∈ (λ p, key p) <$> map_range port_names ↔ has_port_at endpoints n.
Proof.
  assert (∀ p, is_Some (port_names !! p) ↔ p ∈ ep_Name <$> (eps_Subsets endpoints ≫= ss_Ports)) as Hp.
  { intros p. unfold port_names.
    cut (∀ m : gmap string bool, is_Some (foldl (λ m ss, foldl (λ m port, <[ep_Name port := true]> m) m (ss_Ports ss))
      m (eps_Subsets endpoints) !! p) ↔ is_Some (m !! p) ∨ p ∈ ep_Name <$> (eps_Subsets endpoints ≫= ss_Ports)).
    { intros ->. rewrite lookup_empty. split; [by intros [[? ?]|]|by right]. }
    induction (eps_Subsets endpoints) as [|ss sss IH]; intros m; cbn [foldl].
    { split; [by left|]. intros [|Hin]; [done|inversion Hin]. }
    rewrite IH, loop_keys, bind_cons, fmap_app, elem_of_app. tauto. }
  unfold has_port_at. rewrite list_elem_of_fmap. setoid_rewrite elem_of_map_range.
  setoid_rewrite Hp. rewrite list_elem_of_fmap. setoid_rewrite list_elem_of_fmap. naive_solver.
Qed.

Lemma clear_ports_effect :
  effect (for_each (λ portname,
      oldServiceUnit ← findServiceUnit (key portname);
      match oldServiceUnit with
      | Some l =>
          u ← on_routes (ptr_load (Some l));
          on_routes (ptr_store (Some l) (with_Endpoints [] u))
      | None => mret tt
      end) (map_range port_names)) tt
    (λ r, foldl (λ r n, partial_alter (fmap (with_Endpoints [])) n r) r
            ((λ p, key p) <$> map_range port_names)).
Proof.
  eapply effect_ext; [|apply effect_for_each; intros p; apply clear_if_effect].
  intros r. by rewrite foldl_fmap.
Qed.
End EndpointsPorts.

(** ** The handlers *)
Section Handlers.
Context {mo : MapOrder}.
Implicit Types (p : Proxier) (ev : event).

(** A body that ends by committing to HAProxy and returns under the lock. *)
Definition does ev (body : M Proxier unit) p : Prop :=
  ∃ p', body p = Ret tt p' ∧ handled ev p p' ∧ ptr_wf (routeTable p').

Lemma does_skip ev p :
  ptr_wf (routeTable p) →
  (∀ ip v, vip_step ev ip v = v) → (∀ n u, unit_step ev n u = u) →
  (∀ v, asks_keepalived ev v = false) → asks_haproxy ev = false → does ev (mret tt) p.
Proof.
  intros Hp Hv Hu Hk Hh. exists p. split; [done|]. split; [|done]. split.
  - done.
  - intros ip. by rewrite Hv.
  - intros n. by rewrite Hu.
  - by rewrite Hk, andb_false_r.
  - by rewrite Hh, andb_false_r.
Qed.

(** The last step of every handler: under the lock, after the tables have been
    brought to [vips] and [rt] and keepalived's requests to [rlk]. *)
Lemma does_locked ev (body : M Proxier unit) p vips rt b :
  lock p = false → ptr_wf rt →
  body (set_lock true p) = Ret tt (set_rlHaproxy
    (invoked (committing p && asks_haproxy ev) (rateLimitedCommitFuncForHaproxy p))
    (set_routeTable rt (set_rlKeepalived (invoked (committing p && b) (rateLimitedCommitFuncForKeepalived p))
      (set_vipTable vips (set_lock true p))))) →
  asks_keepalived ev (vipTable p) = b →
  (∀ ip, vips !! ip = vip_step ev ip (vipTable p !! ip)) →
  (∀ n, view rt !! n = unit_step ev n (view (routeTable p) !! n)) →
  does ev (locked body) p.
Proof.
  intros Hl Hwf Hb Hk Hv Hu. eexists. split; [by apply locked_Ret|]. split; [|done].
  split; simpl; [done|done|done|by rewrite Hk|done].
Qed.

Lemma set_rlKeepalived_id p : set_rlKeepalived (rateLimitedCommitFuncForKeepalived p) p = p.
Proof. by destruct p. Qed.
Lemma set_vipTable_id p : set_vipTable (vipTable p) p = p.
Proof. by destruct p. Qed.

(** The virtual addresses after [addVip]. *)
Lemma addVip_lookup p x ip :
  (∀ ip b, vipTable p !! ip = Some b → b = true) →
  (if known_vip x p then vipTable p else <[x := true]> (vipTable p)) !! ip =
  if bool_decide (x = ip) then Some true else vipTable p !! ip.
Proof.
  intros Hv. unfold known_vip. destruct (vipTable p !! x) as [b|] eqn:E; simpl.
  - rewrite (Hv _ _ E). case_bool_decide; [subst; by rewrite E, (Hv _ _ E)|done].
  - case_bool_decide; [subst; by rewrite lookup_insert_eq|by rewrite lookup_insert_ne].
Qed.

Lemma handleServiceAdd_does service p :
  proxier_wf p → does (ServiceEvent Added service) (handleServiceAdd service) p.
Proof.
  intros [Hl Hp Hk Hv _ _]. unfold handleServiceAdd.
  destruct (IsServiceIPSet service) eqn:Hip; cbn [negb].
  2: { apply does_skip; simpl; try done; intros; by rewrite ?Hip. }
  set (p1 := set_lock true p). pose proof (addVip_spec (svc_ClusterIP service) p1) as Ha.
  set (p2 := set_rlKeepalived _ _) in Ha.
  destruct (sync_ports_effect service p2 Hp) as (rt & Hs & Hwf & Hrt).
  eapply (does_locked _ _ p _ rt); [done..| | | |].
  - fold p1. run Ha. run Hs.
    rewrite commitHaproxy_spec. simpl. rewrite Hip, andb_true_r. reflexivity.
  - simpl. by rewrite Hip.
  - intros ip. simpl. rewrite Hip. simpl. by apply (addVip_lookup p1).
  - intros n. rewrite Hrt, sync_ports_lookup. simpl. by rewrite Hip.
Qed.

Lemma handleServiceUpdate_does service p :
  proxier_wf p → does (ServiceEvent Modified service) (handleServiceUpdate service) p.
Proof.
  intros [Hl Hp Hk Hv _ _]. unfold handleServiceUpdate.
  destruct (IsServiceIPSet service) eqn:Hip; cbn [negb].
  2: { apply does_skip; simpl; try done; intros; by rewrite ?Hip. }
  set (p1 := set_lock true p). pose proof (addVip_spec (svc_ClusterIP service) p1) as Ha.
  set (p2 := set_rlKeepalived _ _) in Ha.
  pose proof (getServicePorts_spec (svc_NamespacedName service) p2 Hp Hk) as Hg.
  destruct (sync_ports_list_effect service p2 Hp) as (rt1 & Hs & Hwf1 & Hrt1).
  set (old := filter _ _) in Hg.
  destruct (effect_for_each _ _ (diff old (tcp_keys service)) effect_delete
    (set_routeTable rt1 p2) Hwf1) as (rt & Hd & Hwf & Hrt).
  eapply (does_locked _ _ p _ rt); [done..| | | |].
  - fold p1. run Ha; run Hg; run Hs.
    rewrite (bind_Ret _ _ _ _ _ Hd), commitHaproxy_spec. simpl. rewrite Hip, andb_true_r. reflexivity.
  - simpl. by rewrite Hip.
  - intros ip. simpl. rewrite Hip. simpl. by apply (addVip_lookup p1).
  - intros n. rewrite Hrt, lookup_delete_all. simpl. rewrite Hrt1, sync_ports_lookup, Hip. simpl.
    pose proof (elem_of_old_keys (svc_NamespacedName service) (tcp_keys service) p2 n Hp) as Hold.
    fold old in Hold. rewrite (elem_of_tcp_keys service n) in Hold. simpl in Hold.
    destruct (port_at service n) as [sp|].
    + rewrite decide_False; [done|]. naive_solver.
    + destruct (decide (owned _ n)); [|rewrite decide_False; naive_solver].
      destruct (view (routeTable p) !! n) as [u|]; [rewrite decide_True; [done|]|by case_decide].
      apply Hold. split_and!; [by intros [? ?]|done|done].
Qed.

Lemma handleServiceDelete_does service p :
  proxier_wf p → does (ServiceEvent Deleted service) (handleServiceDelete service) p.
Proof.
  intros [Hl Hp Hk Hv _ _]. unfold handleServiceDelete.
  set (p1 := set_lock true p).
  set (p2 := set_vipTable (delete (svc_ClusterIP service) (vipTable p)) p1).
  pose proof (commitKeepalived_spec p2) as Hc. set (p3 := set_rlKeepalived _ _) in Hc.
  destruct (effect_for_each _ (λ r sp, delete (port_key (svc_NamespacedName service) (sp_Name sp)) r)
    (svc_Ports service) (λ sp, effect_delete _) p3 Hp) as (rt & Hd & Hwf & Hrt).
  eapply (does_locked _ _ p _ rt true); [done..| | | |].
  - fold p1. rewrite (bind_Ret _ _ _ tt p2), (bind_Ret _ _ _ _ _ Hc), (bind_Ret _ _ _ _ _ Hd) by done.
    rewrite commitHaproxy_spec. simpl. rewrite !andb_true_r. reflexivity.
  - done.
  - intros ip. simpl. by case_decide; subst; [rewrite lookup_delete_eq|rewrite lookup_delete_ne].
  - intros n. rewrite Hrt. simpl. rewrite <-(lookup_delete_all _ (view (routeTable p))).
    by rewrite foldl_fmap.
Qed.

Lemma handleEndpointsAdd_does endpoints p :
  proxier_wf p → does (EndpointsEvent Added endpoints) (handleEndpointsAdd endpoints) p.
Proof.
  intros [Hl Hp Hk Hv _ _]. unfold handleEndpointsAdd. set (p1 := set_lock true p).
  destruct (decide (length (eps_Subsets endpoints) = 0)) as [Hlen|Hlen].
  - apply nil_length_inv in Hlen. eexists. split; [by apply locked_Ret|]. split; [|done].
    assert (∀ n, addresses_at endpoints n = []) as Hno by (intros n; unfold addresses_at; by rewrite Hlen).
    split; simpl; [done|done| | |]; rewrite ?Hlen, ?andb_false_r; try done.
    intros n. by rewrite Hno.
  - destruct (sync_addresses_effect endpoints p1 Hp) as (rt & Hs & Hwf & Hrt).
    eapply (does_locked _ _ p (vipTable p) rt false); [done..| | | |].
    + fold p1. rewrite (bind_Ret _ _ _ _ _ Hs), commitHaproxy_spec. simpl.
      rewrite bool_decide_true by (intros ?; by destruct (eps_Subsets endpoints)).
      rewrite andb_true_r, andb_false_r. reflexivity.
    + done.
    + done.
    + intros n. by rewrite Hrt, sync_addresses_lookup.
Qed.

Lemma handleEndpointsUpdate_does endpoints p :
  proxier_wf p → does (EndpointsEvent Modified endpoints) (handleEndpointsUpdate endpoints) p.
Proof.
  intros [Hl Hp Hk Hv _ _]. unfold handleEndpointsUpdate. set (p1 := set_lock true p).
  pose proof (getServicePorts_spec (eps_NamespacedName endpoints) p1 Hp Hk) as Hg.
  set (old := filter _ _) in Hg.
  destruct (sync_addresses_list_effect endpoints p1 Hp) as (rt1 & Hs & Hwf1 & Hrt1).
  set (new := _ <$> _) in Hs.
  pose proof (λ n, elem_of_old_keys (eps_NamespacedName endpoints) new p1 n Hp) as Hold. fold old in Hold.
  assert (∀ n, n ∈ new ↔ addresses_at endpoints n ≠ []) as Hnew by apply elem_of_address_keys.
  destruct (clear_all (diff old new) (set_routeTable rt1 p1) Hwf1) as (rt & Hc & Hwf & Hrt).
  { intros n (Hn & _ & Hu)%Hold. simpl. rewrite Hrt1, sync_addresses_lookup.
    rewrite Hnew in Hn. rewrite decide_True; [done|]. by apply dec_stable. }
  eapply (does_locked _ _ p (vipTable p) rt false); [done..| | | |].
  - fold p1. run Hg; run Hs; run Hc.
    rewrite commitHaproxy_spec. simpl. rewrite andb_true_r, andb_false_r. reflexivity.
  - done.
  - done.
  - intros n. rewrite Hrt, lookup_clear. simpl. rewrite Hrt1, sync_addresses_lookup. simpl.
    specialize (Hold n). rewrite Hnew in Hold. simpl in Hold.
    destruct (decide (addresses_at endpoints n = [])) as [Hn|Hn];
      [|rewrite decide_False; naive_solver].
    destruct (decide (owned _ n)); [|rewrite decide_False; naive_solver].
    destruct (view (routeTable p) !! n) as [u|]; [rewrite decide_True; [done|]|by case_decide].
    apply Hold. split_and!; [auto|done|done].
Qed.

Lemma handleEndpointsDelete_does endpoints p :
  proxier_wf p → does (EndpointsEvent Deleted endpoints) (handleEndpointsDelete endpoints) p.
Proof.
  intros [Hl Hp Hk Hv _ _]. unfold handleEndpointsDelete. set (p1 := set_lock true p).
  destruct (clear_ports_effect endpoints p1 Hp) as (rt & Hc & Hwf & Hrt).
  eapply (does_locked _ _ p (vipTable p) rt false); [done..| | | |].
  - fold p1. rewrite (bind_Ret _ _ _ _ _ Hc), commitHaproxy_spec. simpl.
    rewrite andb_true_r, andb_false_r. reflexivity.
  - done.
  - done.
  - intros n. rewrite Hrt, lookup_clear. simpl. pose proof (elem_of_port_names endpoints n) as Hn.
    repeat case_decide; tauto.
Qed.

(** An event of a type that is not handled changes nothing. *)
Lemma handle_event_does ev p :
  proxier_wf p → ∃ p', handle_event ev p = Ret None p' ∧ handled ev p p' ∧ ptr_wf (routeTable p').
Proof.
  intros Hp. assert (ptr_wf (routeTable p)) as Hr by apply Hp.
  assert (∀ body, does ev body p → ∃ p', (body ;; mret None) p = Ret (A := option error) None p' ∧
    handled ev p p' ∧ ptr_wf (routeTable p')) as Hdo.
  { intros body (p' & Hb & ? & ?). exists p'. by run Hb. }
  destruct ev as [[] service|[] endpoints]; apply Hdo;
    auto using handleServiceAdd_does, handleServiceUpdate_does, handleServiceDelete_does,
      handleEndpointsAdd_does, handleEndpointsUpdate_does, handleEndpointsDelete_does, does_skip.
Qed.

(** *** The invariant *)
Lemma invoked_wf period b rlf : rlf_wf period rlf → rlf_wf period (invoked b rlf).
Proof.
  intros Hwf. destruct b; [|done]. simpl.
  destruct (Invoke_spec period tt rlf Hwf) as (q & -> & _ & Hq). done.
Qed.
#[local] Hint Resolve invoked_wf : go.

Lemma port_at_key service n sp :
  port_at service n = Some sp → n = port_key (svc_NamespacedName service) (sp_Name sp).
Proof.
  intros (l & Hl)%last_Some. assert (sp ∈ l ++ [sp]) as Hin by set_solver.
  rewrite <-Hl in Hin. by apply list_elem_of_filter in Hin as [[_ ?] _].
Qed.

(** A unit keeps its name and has a separator in its key. *)
Definition unit_ok (n : string) (u : option ServiceUnit) : Prop :=
  ∀ v, u = Some v → su_Name v = n ∧ has_byte colon n = true.

Lemma set_service_ok n svc nn port u :
  n = port_key nn port → unit_ok n u → unit_ok n (set_service n svc u).
Proof.
  intros -> Hu v [= <-]. split; [|apply port_key_colon]. destruct u; simpl; [by apply Hu|done].
Qed.

Lemma set_endpoints_ok n es nn port u :
  n = port_key nn port → unit_ok n u → unit_ok n (set_endpoints n es u).
Proof.
  intros -> Hu v [= <-]. split; [|apply port_key_colon]. destruct u; simpl; [by apply Hu|done].
Qed.

Lemma clear_ok n u : unit_ok n u → unit_ok n (with_Endpoints [] <$> u).
Proof. intros Hu v. destruct u as [s|]; simpl; [|done]. intros [= <-]. apply (Hu s eq_refl). Qed.

Lemma unit_step_ok ev n u : unit_ok n u → unit_ok n (unit_step ev n u).
Proof.
  intros Hu. destruct ev as [[] service|[] endpoints]; simpl; try done; repeat case_match;
    eauto using set_service_ok, port_at_key, clear_ok; try done.
  all: edestruct addresses_at_key; [done|]; by eapply set_endpoints_ok.
Qed.

Lemma vip_step_true ev ip v : (∀ b, v = Some b → b = true) → ∀ b, vip_step ev ip v = Some b → b = true.
Proof.
  intros Hv b. destruct ev as [[] service|[] endpoints]; simpl; repeat case_match; auto; congruence.
Qed.

Lemma handled_wf ev p p' :
  proxier_wf p → handled ev p p' → ptr_wf (routeTable p') → proxier_wf p'.
Proof.
  intros [Hl Hp Hk Hv Hrk Hrh] [(Hc & Hm & Hs & Hlk & _) Hvips Hunits Hkeep Hhap] Hp'.
  split.
  - congruence.
  - done.
  - intros n u. rewrite Hunits. apply (unit_step_ok ev n). intros v. apply Hk.
  - intros x b. rewrite Hvips. apply vip_step_true. intros c. apply Hv.
  - rewrite Hkeep, Hc. auto with go.
  - rewrite Hhap, Hc. auto with go.
Qed.
End Handlers.
