(* ===== verification/ProxierProps.v ===== *)
(** The properties of the proxier's event handlers: they implement the
    specification of each unit and virtual address, units of different objects
    do not interfere, the two streams of events may interleave, and a change
    under commit leaves a request to reload. *)

From stdpp Require Import gmap strings list.
From S2P Require Import Prelude GoStrings GoTime Types PtrMap RateLimiter RateLimiterProps IPAddr.
From S2P Require Import Configurer Instances Proxier ProxierSpec ProxierFacts ProxierHandlers.

(** ** Sequences of events *)
Definition run_events `{!MapOrder} (evs : list event) : M Proxier unit :=
  for_each (λ ev, handle_event ev ;; mret tt) evs.

Definition run_unit (evs : list event) (n : string) (u : option ServiceUnit) : option ServiceUnit :=
  foldl (λ u ev, unit_step ev n u) u evs.
Definition run_vip (evs : list event) (ip : string) (v : option bool) : option bool :=
  foldl (λ v ev, vip_step ev ip v) v evs.

Lemma run_events_spec `{!MapOrder} evs p :
  proxier_wf p →
  ∃ p', run_events evs p = Ret tt p' ∧ proxier_wf p' ∧
    (∀ n, view (routeTable p') !! n = run_unit evs n (view (routeTable p) !! n)) ∧
    (∀ ip, vipTable p' !! ip = run_vip evs ip (vipTable p !! ip)).
Proof.
  revert p. induction evs as [|ev evs IH]; intros p Hp; [by exists p|].
  destruct (handle_event_does ev p Hp) as (p1 & He & Hh & Hr).
  pose proof (handled_wf ev p p1 Hp Hh Hr) as Hp1. destruct (IH p1 Hp1) as (p' & Hrun & ? & Hu & Hv).
  exists p'. unfold run_events. simpl. rewrite (bind_Ret _ _ _ tt p1) by (by run He).
  split; [done|]. split; [done|]. destruct Hh as [_ Hvips Hunits _ _]. split.
  - intros n. by rewrite Hu, Hunits.
  - intros ip. by rewrite Hv, Hvips.
Qed.

(** ** The object of an event *)
Definition event_object (ev : event) : NamespacedName :=
  match ev with
  | ServiceEvent _ service => svc_NamespacedName service
  | EndpointsEvent _ endpoints => eps_NamespacedName endpoints
  end.

(** Kubernetes names hold no separator. *)
Definition plain (s : string) : Prop := has_byte colon s = false.
Definition plain_name (nn : NamespacedName) : Prop := plain (Namespace nn) ∧ plain (Name nn).
Definition plain_event (ev : event) : Prop :=
  plain_name (event_object ev) ∧
  match ev with
  | ServiceEvent _ service => ∀ sp, sp ∈ svc_Ports service → plain (sp_Name sp)
  | EndpointsEvent _ endpoints =>
      ∀ ss port, ss ∈ eps_Subsets endpoints → port ∈ ss_Ports ss → plain (ep_Name port)
  end.

Lemma owned_inj nn nn' n : plain_name nn → plain_name nn' → owned nn n → owned nn' n → nn = nn'.
Proof.
  intros [Hns Hn] [Hns' Hn']. unfold owned. intros -> [= Heq].
  apply sep_inj_r in Heq as [? ?]; [|done..]. destruct nn, nn'; simpl in *; congruence.
Qed.

Lemma addresses_at_owned endpoints n t :
  plain_event (EndpointsEvent t endpoints) → addresses_at endpoints n ≠ [] →
  owned (eps_NamespacedName endpoints) n.
Proof.
  intros [_ Hp]. destruct (addresses_at endpoints n) as [|e l] eqn:E; [done|intros _].
  assert (e ∈ addresses_at endpoints n) as He by (rewrite E; left). unfold addresses_at in He.
  apply list_elem_of_bind in He as (ss & He & Hss). apply list_elem_of_bind in He as (port & He & Hport).
  case_decide as Hn; [|inversion He]. subst n. apply port_key_owned. by eapply Hp.
Qed.

(** An event changes only units that its object owns. *)
Lemma unit_step_frame ev n u : plain_event ev → ¬ owned (event_object ev) n → unit_step ev n u = u.
Proof.
  intros Hpe Hn. destruct ev as [t service|t endpoints].
  - assert (port_at service n = None) as Hport.
    { destruct (port_at service n) as [sp|] eqn:E; [|done]. destruct Hn.
      pose proof E as Hk%port_at_key. subst n. apply port_key_owned, (proj2 Hpe).
      apply last_Some in E as [l Hl]. assert (sp ∈ l ++ [sp]) as Hin by set_solver.
      rewrite <-Hl in Hin. by apply list_elem_of_filter in Hin as [_ ?]. }
    destruct t; simpl in *; rewrite ?Hport; try done.
    + by case_match.
    + by case_match; [rewrite decide_False|].
    + rewrite decide_False; [done|]. intros (sp & -> & Hsp)%list_elem_of_fmap.
      apply Hn, port_key_owned. by apply (proj2 Hpe).
  - assert (addresses_at endpoints n = []) as Hno.
    { destruct (decide (addresses_at endpoints n = [])) as [|Ha]; [done|].
      destruct Hn. by eapply addresses_at_owned. }
    destruct t; simpl in *; rewrite ?Hno; simpl; try done.
    + by rewrite decide_False.
    + rewrite decide_False; [done|]. intros (port & -> & Hin)%list_elem_of_fmap.
      apply list_elem_of_bind in Hin as (ss & ? & ?). apply Hn, port_key_owned. by eapply (proj2 Hpe).
Qed.

(** A unit depends only on the events of the object that owns it. *)
Lemma run_unit_own nn evs n u :
  plain_name nn → Forall plain_event evs → owned nn n →
  run_unit evs n u = run_unit (filter (λ ev, event_object ev = nn) evs) n u.
Proof.
  intros Hnn Hall Hn. revert u. induction Hall as [|ev evs Hev Hall IH]; intros u; [done|].
  destruct (decide (event_object ev = nn)) as [Heq|Hne].
  - rewrite filter_cons_True by done. apply IH.
  - rewrite filter_cons_False by done. cbn [run_unit foldl]. rewrite unit_step_frame; [apply IH|done|].
    intros Ho. apply Hne. eapply owned_inj; [apply Hev|done..].
Qed.

(** ** Interleaving *)

(** A service event that keeps the unit [n]: it adds or updates a service with a
    cluster IP that has the port. *)
Definition keeps (n : string) (ev : event) : bool :=
  match ev with
  | ServiceEvent (Added | Modified) service =>
      IsServiceIPSet service && bool_decide (is_Some (port_at service n))
  | ServiceEvent _ _ => false
  | EndpointsEvent _ _ => true
  end.

Definition is_service (ev : event) : bool :=
  match ev with ServiceEvent _ _ => true | EndpointsEvent _ _ => false end.

Lemma keeps_service n ev :
  keeps n ev = true → is_service ev = true → ∃ svc, ∀ u, unit_step ev n u = set_service n svc u.
Proof.
  destruct ev as [t service|t endpoints]; [|done]. intros Hk _.
  destruct t; simpl in *; try done; apply andb_true_iff in Hk as [-> [sp ->]%bool_decide_eq_true];
    by exists (port_service service sp).
Qed.

Lemma endpoints_set_service n t endpoints svc u :
  endpoints_step t endpoints n (set_service n svc u) = set_service n svc (endpoints_step t endpoints n u).
Proof.
  unfold endpoints_step. destruct t, u; simpl; repeat case_decide; done.
Qed.

(** An endpoints event may wait for the service events that follow it. *)
Lemma endpoints_wait n t endpoints evs u :
  Forall (λ e, keeps n e = true ∧ is_service e = true) evs →
  run_unit evs n (endpoints_step t endpoints n u) = endpoints_step t endpoints n (run_unit evs n u).
Proof.
  intros Hall. revert u. induction Hall as [|e evs [Hk Hs] _ IH]; intros u; [done|].
  destruct (keeps_service n e Hk Hs) as [svc Hsvc]. cbn [run_unit foldl].
  rewrite !Hsvc, <-endpoints_set_service. apply IH.
Qed.

(** All service events first. *)
Lemma services_first n evs u :
  Forall (λ e, keeps n e = true) evs →
  run_unit evs n u =
    run_unit (filter (λ e, is_service e = false) evs) n
      (run_unit (filter (λ e, is_service e = true) evs) n u).
Proof.
  intros Hall. revert u. induction Hall as [|e evs Hk Hall IH]; intros u; [done|].
  destruct e as [t service|t endpoints].
  - rewrite (filter_cons_False (λ e, is_service e = false)) by done.
    rewrite (filter_cons_True (λ e, is_service e = true)) by done. apply IH.
  - rewrite (filter_cons_True (λ e, is_service e = false)) by done.
    rewrite (filter_cons_False (λ e, is_service e = true)) by done. cbn [run_unit foldl unit_step].
    etrans; [apply IH|]. unfold run_unit at 1 3. f_equal. apply endpoints_wait.
    apply Forall_forall. intros e [? Hin]%list_elem_of_filter. split; [|done].
    by apply (proj1 (Forall_forall _ _) Hall).
Qed.

(** A unit with a given service part. *)
Definition serves (n : string) (svc : Service) (u : option ServiceUnit) : Prop :=
  ∃ v, u = Some v ∧ su_Name v = n ∧ ServiceInfo v = svc.

Lemma services_serve n evs u t service sp :
  Forall (λ e, keeps n e = true) evs → unit_ok n u →
  last evs = Some (ServiceEvent t service) → port_at service n = Some sp →
  serves n (port_service service sp) (run_unit evs n u).
Proof.
  intros Hall Hu Hl Hsp. apply last_Some in Hl as [l ->]. unfold run_unit.
  rewrite foldl_app. cbn [foldl]. set (v := foldl _ _ _).
  assert (unit_ok n v) as Hv by (apply foldl_invariant; [intros; by apply unit_step_ok|done]).
  apply Forall_app in Hall as [_ [Hk _]%Forall_cons]. simpl in Hk.
  destruct t; try done; apply andb_true_iff in Hk as [Hip _]; simpl; rewrite Hip, Hsp; simpl;
    (destruct v as [v|]; [|by eexists]); eexists; (split; [done|]); split; [|done| |done];
    by apply (Hv v eq_refl).
Qed.

Lemma endpoints_serve n svc t endpoints u :
  serves n svc u → serves n svc (endpoints_step t endpoints n u).
Proof.
  intros (v & -> & Hn & Hs). unfold endpoints_step. destruct t; simpl; repeat case_decide;
    simpl; by eexists.
Qed.

(** What an event says about the addresses of a unit: they are the ready ones of
    endpoints that have some; an update of the unit's object without any, or deleting
    endpoints that have the port, leaves none; adding endpoints without any says nothing. *)
Definition about_addresses (n : string) (ev : event) : option (list Endpoint) :=
  match ev with
  | EndpointsEvent ((Added | Modified) as t) endpoints =>
      if decide (addresses_at endpoints n ≠ []) then Some (addresses_at endpoints n)
      else if bool_decide (t = Modified) && bool_decide (owned (eps_NamespacedName endpoints) n) then Some [] else None
  | EndpointsEvent Deleted endpoints => if decide (has_port_at endpoints n) then Some [] else None
  | _ => None
  end.

Lemma endpoints_step_about n t endpoints v :
  endpoints_step t endpoints n (Some v) =
    Some (from_option (λ es, mkServiceUnit (su_Name v) (ServiceInfo v) es) v (about_addresses n (EndpointsEvent t endpoints))).
Proof.
  destruct t; simpl; try done; repeat (case_decide || case_bool_decide); try done; by destruct v.
Qed.

Lemma endpoints_last n (evs : list event) v :
  Forall (λ e, is_service e = false) evs →
  run_unit evs n (Some v) =
    Some (from_option (λ es, mkServiceUnit (su_Name v) (ServiceInfo v) es) v (last (omap (about_addresses n) evs))).
Proof.
  induction evs as [|e evs IH] using rev_ind; [done|]. intros [Hall [He _]%Forall_cons]%Forall_app.
  unfold run_unit in *. rewrite foldl_app, omap_app. cbn [foldl]. rewrite IH by done.
  destruct e as [|t endpoints]; [done|]. cbn [unit_step]. rewrite endpoints_step_about. cbn [omap list_omap].
  destruct (about_addresses n (EndpointsEvent t endpoints)) as [es|]; [|by rewrite app_nil_r].
  rewrite last_snoc. by destruct (last _).
Qed.

(** Service events say nothing about addresses, and keep those of a unit. *)
Lemma about_filter n (evs : list event) :
  omap (about_addresses n) (filter (λ e, is_service e = false) evs) = omap (about_addresses n) evs.
Proof.
  induction evs as [|[t s|t e] evs IH]; [done| |].
  - rewrite filter_cons_False by done. exact IH.
  - rewrite filter_cons_True by done. cbn. by rewrite IH.
Qed.
Lemma services_addresses n (evs : list event) u :
  Forall (λ e, keeps n e = true ∧ is_service e = true) evs →
  from_option Endpoints [] (run_unit evs n u) = from_option Endpoints [] u.
Proof.
  intros Hall. revert u. induction Hall as [|e evs [Hk Hs] _ IH]; intros u; [done|]. cbn [run_unit foldl].
  destruct (keeps_service n e Hk Hs) as [svc Hsvc]. etrans; [apply IH|]. rewrite Hsvc. by destruct u.
Qed.

(** ** Virtual addresses *)

(** The event says something about the address [x]. *)
Definition about_vip (x : string) (ev : event) : option bool :=
  match ev with
  | ServiceEvent (Added | Modified) service =>
      if IsServiceIPSet service && bool_decide (svc_ClusterIP service = x) then Some true else None
  | ServiceEvent Deleted service => if decide (svc_ClusterIP service = x) then Some false else None
  | _ => None
  end.

Lemma vip_step_about ev x v :
  vip_step ev x v =
  match about_vip x ev with Some true => Some true | Some false => None | None => v end.
Proof. destruct ev as [[] service|[] endpoints]; simpl; repeat case_match; done. Qed.

Lemma run_vip_last evs x v :
  run_vip evs x v =
  match last (omap (about_vip x) evs) with Some true => Some true | Some false => None | None => v end.
Proof.
  induction evs as [|ev evs IH] using rev_ind; [done|]. unfold run_vip in *.
  rewrite foldl_app, omap_app. cbn [foldl]. rewrite vip_step_about, IH. cbn.
  destruct (about_vip x ev) as [[]|]; [by rewrite last_snoc..|by rewrite app_nil_r].
Qed.

(** ** Requests *)
Lemma invoked_pending period rlf : rlf_wf period rlf → pending (invoked true rlf).
Proof.
  intros Hwf. destruct (Invoke_spec period tt rlf Hwf) as (q & Hi & Hq & _).
  unfold invoked. rewrite Hi. unfold pending. simpl. by rewrite Hq.
Qed.

(** An event that asks for no reload of HAProxy changes no unit. *)
Lemma unasked_units ev n u : asks_haproxy ev = false → unit_step ev n u = u.
Proof.
  destruct ev as [[] service|[] endpoints]; simpl; try done; try by intros ->.
  intros Hs%bool_decide_eq_false. apply dec_stable in Hs. unfold addresses_at. by rewrite Hs.
Qed.

(** An event that asks for no reload of keepalived changes no virtual address. *)
Lemma unasked_vips ev vips x :
  (∀ ip b, vips !! ip = Some b → b = true) → asks_keepalived ev vips = false →
  vip_step ev x (vips !! x) = vips !! x.
Proof.
  intros Hv. destruct ev as [[] service|[] endpoints]; simpl; try done;
    (destruct (IsServiceIPSet service); [|done]); simpl; case_bool_decide as Hx; try done; subst;
    (destruct (vips !! svc_ClusterIP service) as [b|] eqn:E; [by rewrite (Hv _ _ E)|done]).
Qed.

(** ** The properties *)

(** C5: on every event of every type the proxier's handler returns without an error
    (it neither panics nor blocks), keeps the invariant, and does what the
    specification says: the unit [n] of the route table becomes [unit_step ev n]
    of what it was, the virtual address [x] becomes [vip_step ev x] of what it
    was, a request is queued for keepalived and for HAProxy if the event asks
    for one while commits are on, and nothing else changes.  It does so for every
    iteration order of the maps. *)
Theorem handle_event_correct `{!MapOrder} ev p :
  proxier_wf p →
  ∃ p', handle_event ev p = Ret None p' ∧ handled ev p p' ∧ proxier_wf p'.
Proof.
  intros Hp. destruct (handle_event_does ev p Hp) as (p' & ? & Hh & Hr).
  exists p'. split_and!; [done..|by eapply handled_wf].
Qed.

(** C9: events of other objects do not touch a unit: handling any events, and handling
    only those of the object [nn], in the same order, leave the same units of [nn]
    in the route table. *)
Theorem objects_do_not_interfere `{!MapOrder} nn evs p :
  proxier_wf p → plain_name nn → Forall plain_event evs →
  ∃ p1 p2, run_events evs p = Ret tt p1 ∧
    run_events (filter (λ ev, event_object ev = nn) evs) p = Ret tt p2 ∧
    ∀ n, owned nn n → view (routeTable p1) !! n = view (routeTable p2) !! n.
Proof.
  intros Hp Hnn Hall.
  destruct (run_events_spec evs p Hp) as (p1 & H1 & _ & Hu1 & _).
  destruct (run_events_spec (filter (λ ev, event_object ev = nn) evs) p Hp) as (p2 & H2 & _ & Hu2 & _).
  exists p1, p2. split_and!; [done..|]. intros n Hn. rewrite Hu1, Hu2. by apply run_unit_own.
Qed.

(** The two streams of events may be interleaved in any way: as long as the
    service events keep the port of a unit, two runs with the same service
    events and the same endpoints events end with the same unit in the table. *)
Theorem interleavings_agree `{!MapOrder} n evs evs' p :
  proxier_wf p →
  Forall (λ ev, keeps n ev = true) evs → Forall (λ ev, keeps n ev = true) evs' →
  filter (λ ev, is_service ev = true) evs = filter (λ ev, is_service ev = true) evs' →
  filter (λ ev, is_service ev = false) evs = filter (λ ev, is_service ev = false) evs' →
  ∃ p1 p2, run_events evs p = Ret tt p1 ∧ run_events evs' p = Ret tt p2 ∧
    view (routeTable p1) !! n = view (routeTable p2) !! n.
Proof.
  intros Hp Hk Hk' Hs He. destruct (run_events_spec evs p Hp) as (p1 & H1 & _ & Hu1 & _).
  destruct (run_events_spec evs' p Hp) as (p2 & H2 & _ & Hu2 & _).
  exists p1, p2. split_and!; [done..|].
  by rewrite Hu1, Hu2, services_first, Hs, He, <-services_first.
Qed.

(** C8: a unit converges: as long as the service events keep its port, the unit in the
    table is that of the last service event with the addresses of the last endpoints
    event that says something about them, in whatever order the two kinds of events
    arrived.  An event says that they are the ready addresses of the endpoints that it adds
    or updates, if there are some; that there are none, if it updates the endpoints of the
    unit's object to have none or deletes endpoints that have the port.  Adding endpoints
    without ready addresses says nothing, and so the unit keeps those it had; without any
    event that does, it has those from before. *)
Theorem unit_converges `{!MapOrder} n evs p t service sp :
  proxier_wf p → Forall (λ ev, keeps n ev = true) evs →
  last (filter (λ ev, is_service ev = true) evs) = Some (ServiceEvent t service) →
  port_at service n = Some sp →
  ∃ p', run_events evs p = Ret tt p' ∧
    view (routeTable p') !! n =
      Some (mkServiceUnit n (port_service service sp)
        (default (from_option Endpoints [] (view (routeTable p) !! n)) (last (omap (about_addresses n) evs)))).
Proof.
  intros Hp Hall Hs Hsp. destruct (run_events_spec evs p Hp) as (p' & Hr & _ & Hu & _).
  exists p'. split; [done|]. rewrite Hu, services_first by done.
  assert (Forall (λ e, keeps n e = true ∧ is_service e = true) (filter (λ ev, is_service ev = true) evs)) as Hsv.
  { apply Forall_forall. intros ev [? ?]%list_elem_of_filter. split; [by apply (proj1 (Forall_forall _ _) Hall)|done]. }
  destruct (services_serve n (filter (λ ev, is_service ev = true) evs) (view (routeTable p) !! n) t service sp)
    as (v & Hv & Hn & Hi); [eapply Forall_impl; [exact Hsv|]; by intros ? []| |done..|].
  { intros v Hv. by apply (pw_keys p Hp) in Hv. }
  pose proof (services_addresses n _ (view (routeTable p) !! n) Hsv) as He. rewrite Hv in He |- *. cbn in He.
  rewrite endpoints_last by (apply Forall_forall; by intros ev [? _]%list_elem_of_filter).
  rewrite about_filter, <-He. destruct v as [vn vi ve]. cbn in Hn, Hi |- *. subst vn vi.
  by destruct (last (omap (about_addresses n) evs)).
Qed.

(** A virtual address is in the table exactly if the last event about it, of
    whatever service, added or updated a service with it; a service that is
    updated to another address leaves the old one behind, and deleting one of
    two services with the same address removes it. *)
Theorem vip_follows_last_event `{!MapOrder} evs p x :
  proxier_wf p →
  ∃ p', run_events evs p = Ret tt p' ∧
    vipTable p' !! x =
      match last (omap (about_vip x) evs) with
      | Some true => Some true
      | Some false => None
      | None => vipTable p !! x
      end.
Proof.
  intros Hp. destruct (run_events_spec evs p Hp) as (p' & ? & _ & _ & Hv). exists p'.
  split; [done|]. by rewrite Hv, run_vip_last.
Qed.

(** C10: while commits are on, an event that changes some unit leaves a request to
    reload HAProxy, and one that changes some virtual address leaves a request
    to reload keepalived; while they are off no event leaves a new request. *)
Theorem changes_are_requested `{!MapOrder} ev p p' :
  proxier_wf p → handle_event ev p = Ret None p' →
  if committing p then
    (view (routeTable p') ≠ view (routeTable p) → pending (rateLimitedCommitFuncForHaproxy p')) ∧
    (vipTable p' ≠ vipTable p → pending (rateLimitedCommitFuncForKeepalived p'))
  else
    rateLimitedCommitFuncForHaproxy p' = rateLimitedCommitFuncForHaproxy p ∧
    rateLimitedCommitFuncForKeepalived p' = rateLimitedCommitFuncForKeepalived p.
Proof.
  intros Hp He. destruct (handle_event_does ev p Hp) as (p1 & He' & [_ Hv Hu Hk Hh] & _).
  rewrite He in He'. injection He' as <-. rewrite Hk, Hh. destruct (committing p); simpl; [|done].
  destruct Hp as [_ _ _ Hvips Hrk Hrh]. split; intros Hne.
  - destruct (asks_haproxy ev) eqn:E; [by eapply invoked_pending|].
    destruct Hne. apply map_eq. intros n. by rewrite Hu, unasked_units.
  - destruct (asks_keepalived ev (vipTable p)) eqn:E; [by eapply invoked_pending|].
    destruct Hne. apply map_eq. intros x. by rewrite Hv, unasked_vips.
Qed.

(** ** Concrete runs *)

Definition cfg0 : ProxierConfig :=
  mkProxierConfig "eth0"
    (Keepalived.mkKeepalivedConfig "/k.conf" "/k.tpl" "/k.sh" (2 * Second)%Z)
    (Haproxy.mkHaproxyConfig "/h.cfg" "/h.tpl" "/h.sh" (5 * Second)%Z).

(** A proxier with empty tables, MASTER or not, committing or not. *)
Definition proxier0 (isMaster skip : bool) : Proxier :=
  mkProxier cfg0 (if isMaster then 1 else 0)%Z skip false ∅ ptr_empty (mkRunner (mkLink "eth0" 1 1))
    (Haproxy.mkHaproxy (HaproxyConfig cfg0) (mkConfigurer "/h.cfg"))
    (Keepalived.mkKeepalived (KeepalivedConfig cfg0) (mkConfigurer "/k.conf"))
    (NewRateLimitedFunction "proxier_keepalived" (2 * Second)%Z)
    (NewRateLimitedFunction "proxier_haproxy" (5 * Second)%Z).

Lemma proxier0_wf m s : proxier_wf (proxier0 m s).
Proof.
  split; simpl; [done|auto with go| | |auto with go..].
  - intros n u. by rewrite view_empty, lookup_empty.
  - intros x b. by rewrite lookup_empty.
Qed.
#[export] Hint Resolve proxier0_wf : go.

Definition web (ip : string) (ports : list string) : ApiService :=
  mkApiService "default" "web" "1" ip ((λ p, mkServicePort p "TCP" 80) <$> ports).
Definition web_endpoints (ports : list string) : ApiEndpoints :=
  mkApiEndpoints "default" "web" "1"
    [mkEndpointSubset ["1.1.1.1"; "1.1.1.2"] [] ((λ p, mkEndpointPort p 8080) <$> ports)].

(** A service that gets a second port, with a service event in between that does
    not have it yet. *)
Definition lagging (late : bool) : list event :=
  let s1 := ServiceEvent Added (web "10.0.0.1" ["a"]) in
  let s2 := ServiceEvent Modified (web "10.0.0.1" ["a"]) in
  let s3 := ServiceEvent Modified (web "10.0.0.1" ["a"; "b"]) in
  let e := EndpointsEvent Added (web_endpoints ["a"; "b"]) in
  if late then [s1; s2; s3; e] else [s1; e; s2; s3].

(** The addresses of a unit after the handlers have run on an empty proxier. *)
Definition addresses_after (evs : list event) (n : string) : option (list Endpoint) :=
  Endpoints <$> view (routeTable (final (@run_events order_up evs (proxier0 true false)))) !! n.

(** The order of the two streams matters when a service event without the port
    is still to come: if the endpoints of a new port arrive before an older
    update of the service, that update deletes the unit, and the update with the
    port makes it again without any address.  The same events with the endpoints
    last give the unit its addresses. *)
Theorem lagging_service_drops_addresses :
  addresses_after (lagging false) "default:web:b" = Some [] ∧
  addresses_after (lagging true) "default:web:b" =
    Some [mkEndpoint "1.1.1.1" 8080; mkEndpoint "1.1.1.2" 8080].
Proof. vm_compute. split; reflexivity. Qed.

(** MASTER while the first list is consumed; commits go on with the last item, which
    is an endpoints object. *)
Definition after_sync : Proxier :=
  let p := final (@handle_event order_up (ServiceEvent Added (web "10.0.0.1" ["a"])) (proxier0 true true)) in
  let p := final (SetSkipCommit false p) in
  final (@handle_event order_up (EndpointsEvent Added (web_endpoints ["a"])) p).

(** A virtual address that is added while commits are off is not committed when
    they are turned on: at the end of the first list the address is in the table
    of the MASTER, HAProxy has a request and keepalived has none. *)
Theorem sync_loses_vip :
  vipTable after_sync !! "10.0.0.1" = Some true ∧
  committing after_sync = true ∧
  pending (rateLimitedCommitFuncForHaproxy after_sync) ∧
  ¬ pending (rateLimitedCommitFuncForKeepalived after_sync).
Proof. vm_compute. split_and!; [done..|by intros ?|]. intros H. by apply H. Qed.

(** ** Witnesses *)

Definition added : event := ServiceEvent Added (web "10.0.0.1" ["a"]).
Definition ready : event := EndpointsEvent Added (web_endpoints ["a"]).
Definition key_a : string := "default:web:a".

Lemma handle_event_correct_witness :
  ∃ p', @handle_event order_up added (proxier0 true false) = Ret None p' ∧
    handled added (proxier0 true false) p' ∧ proxier_wf p'.
Proof. apply (@handle_event_correct order_up added). auto with go. Defined.

(** A service of another name. *)
Definition db_deleted : event := ServiceEvent Deleted (mkApiService "default" "db" "1" "10.0.0.2" []).

Lemma objects_witness :
  ∃ p1 p2, @run_events order_up [added; db_deleted] (proxier0 true false) = Ret tt p1 ∧
    @run_events order_up [added] (proxier0 true false) = Ret tt p2 ∧
    view (routeTable p1) !! key_a = view (routeTable p2) !! key_a.
Proof.
  destruct (@objects_do_not_interfere order_up (mkNamespacedName "default" "web")
    [added; db_deleted] (proxier0 true false)) as (p1 & p2 & H1 & H2 & H).
  - auto with go.
  - split; reflexivity.
  - repeat constructor; simpl.
    + intros sp Hsp. apply list_elem_of_singleton in Hsp as ->. reflexivity.
    + intros sp Hsp. inversion Hsp.
  - exists p1, p2. split; [exact H1|]. split; [exact H2|]. apply H. vm_compute. reflexivity.
Defined.

Lemma interleavings_witness :
  ∃ p1 p2, @run_events order_up [added; ready] (proxier0 true false) = Ret tt p1 ∧
    @run_events order_up [ready; added] (proxier0 true false) = Ret tt p2 ∧
    view (routeTable p1) !! key_a = view (routeTable p2) !! key_a.
Proof.
  apply (@interleavings_agree order_up); [auto with go|repeat constructor..| |]; vm_compute; reflexivity.
Defined.

Lemma unit_converges_witness :
  ∃ p', @run_events order_up [ready; added; EndpointsEvent Added (web_endpoints [])] (proxier0 true false) = Ret tt p' ∧
    view (routeTable p') !! key_a =
      Some (mkServiceUnit key_a (mkService "10.0.0.1" 80 "TCP") (addresses_at (web_endpoints ["a"]) key_a)).
Proof.
  refine (@unit_converges order_up key_a [ready; added; EndpointsEvent Added (web_endpoints [])] (proxier0 true false) Added
    (web "10.0.0.1" ["a"]) (mkServicePort "a" "TCP" 80) _ _ _ _).
  - auto with go.
  - repeat constructor.
  - vm_compute. reflexivity.
  - vm_compute. reflexivity.
Defined.

Lemma vip_witness :
  ∃ p', @run_events order_up [added; ServiceEvent Modified (web "10.0.0.2" ["a"])] (proxier0 true false)
        = Ret tt p' ∧ vipTable p' !! "10.0.0.1" = Some true.
Proof.
  apply (@vip_follows_last_event order_up
    [added; ServiceEvent Modified (web "10.0.0.2" ["a"])] (proxier0 true false) "10.0.0.1").
  auto with go.
Defined.

Lemma changes_witness :
  ∃ p', @handle_event order_up added (proxier0 true false) = Ret None p' ∧
    (vipTable p' ≠ vipTable (proxier0 true false) → pending (rateLimitedCommitFuncForKeepalived p')).
Proof.
  eexists. split; [vm_compute; reflexivity|].
  apply (@changes_are_requested order_up added (proxier0 true false)); [auto with go|].
  vm_compute. reflexivity.
Defined.
