(* ===== verification/Commit.v ===== *)
(** The part of [proxy/template/proxier.go] that works on the world outside the
    tables: making a proxier, committing the tables to the daemons' files, and
    the transitions between MASTER and BACKUP.

    The state is a [World]: the proxier, the operating system and the network
    device.  The lock is taken and released by explicit calls here, as in the
    code, so a panic in between leaves it held.  The concrete states that runs by
    computation use are at the end. *)

From stdpp Require Import gmap strings list.
From S2P Require Import Prelude GoTime Types PtrMap RateLimiter IPAddr OS Configurer Instances.
From S2P Require Import Template Proxier.
From S2P Require AtomicBool.
From S2P Require Import IPAddrProps ProxierSpec ProxierProps.

Record World (net : Type) := mkWorld {
  w_proxier : Proxier;
  w_os : OS;
  w_net : net
}.
Arguments mkWorld {net} _ _ _.
Arguments w_proxier {net} _.
Arguments w_os {net} _.
Arguments w_net {net} _.

(** A call of [exec], [ioutil] or [netlink] beside a proxier that does not exist yet. *)
Definition Outside (net : Type) : Type := OS * net.

Section Commit.
Context {net : Type} `{!Netlink net, !TextTemplate}.
Local Abbreviation World := (World net).

Definition on_proxier {A} (m : M Proxier A) : M World A :=
  zoom w_proxier (λ p w, mkWorld p (w_os w) (w_net w)) m.
Definition on_os {A} (m : M OS A) : M World A :=
  zoom w_os (λ o w, mkWorld (w_proxier w) o (w_net w)) m.
Definition on_net {A} (m : M net A) : M World A :=
  zoom w_net (λ n w, mkWorld (w_proxier w) (w_os w) n) m.

(** [proxier.lock.Unlock()]. *)
Definition Unlock : M Proxier unit := modify (set_lock false).

(** [enableKeepalivedRateLimiter] and [enableHaproxyRateLimiter]; the background
    loops they start are [keepalived_worker] and [haproxy_worker]. *)
Definition enableKeepalivedRateLimiter (interval : Duration) : RateLimitedFunction unit :=
  NewRateLimitedFunction "proxier_keepalived" interval.
Definition enableHaproxyRateLimiter (interval : Duration) : RateLimitedFunction unit :=
  NewRateLimitedFunction "proxier_haproxy" interval.

Definition NewProxier (cfg : ProxierConfig) : M (Outside net) (error + Proxier) :=
  ip ← zoom snd (λ n s, (s.1, n)) (IPAddr.New (Device cfg));
  match ip with
  | inl err => mret (inl err)
  | inr ip =>
      keepalived ← zoom fst (λ o s, (o, s.2)) (Keepalived.NewInstance (KeepalivedConfig cfg));
      match keepalived with
      | inl err => mret (inl err)
      | inr keepalived =>
          haproxy ← zoom fst (λ o s, (o, s.2)) (Haproxy.NewInstance (HaproxyConfig cfg));
          match haproxy with
          | inl err => mret (inl err)
          | inr haproxy =>
              mret (inr (mkProxier cfg AtomicBool.New false false ∅ ptr_empty ip haproxy keepalived
                (enableKeepalivedRateLimiter (Keepalived.ReloadInterval (KeepalivedConfig cfg)))
                (enableHaproxyRateLimiter (Haproxy.ReloadInterval (HaproxyConfig cfg)))))
          end
      end
  end.

Definition commitAndReloadKeepalived : M World (option error) :=
  path ← gets (λ w, Keepalived.TemplatePath (KeepalivedConfig (config (w_proxier w))));
  r ← on_os (ReadFile path);
  match r with
  | inl err => mret (Some err)
  | inr templateContent =>
      on_proxier Lock ;;
      vips ← gets (λ w, vipTable (w_proxier w));
      r ← RenderTemplate "keepalived_tpl" templateContent (VipTable vips);
      match r : error + string with
      | inl err =>
          on_proxier Unlock ;;
          mret (Some err)
      | inr cfgBytes =>
          on_proxier Unlock ;;
          instance ← gets (λ w, keepalivedInstance (w_proxier w));
          err ← on_os (Keepalived.Reload instance cfgBytes);
          match err : option error with
          | Some err => mret (Some err)
          | None => mret None
          end
      end
  end.

Definition commitAndReloadHaproxy : M World (option error) :=
  path ← gets (λ w, Haproxy.TemplatePath (HaproxyConfig (config (w_proxier w))));
  r ← on_os (ReadFile path);
  match r with
  | inl err => mret (Some err)
  | inr templateContent =>
      runner ← gets (λ w, ip (w_proxier w));
      ips ← on_net (GetAddrs runner);
      match ips with
      | inl err => mret (Some err)
      | inr ips =>
          on_proxier Lock ;;
          routes ← gets (λ w, view (routeTable (w_proxier w)));
          let templateData := mkTemplateData ips routes in
          r ← RenderTemplateWithFuncs "haproxy_tpl" templateContent (Routes templateData);
          match r : error + string with
          | inl err =>
              on_proxier Unlock ;;
              mret (Some err)
          | inr cfgBytes =>
              on_proxier Unlock ;;
              instance ← gets (λ w, haproxyInstance (w_proxier w));
              err ← on_os (Haproxy.Reload instance cfgBytes);
              match err : option error with
              | Some err => mret (Some err)
              | None => mret None
              end
          end
      end
  end.

(** [SetMaster]; the errors of the two commits are dropped, and the sleep between
    them changes no state of this process. *)
Definition SetMaster (master_ : bool) : M World unit :=
  if master_ then
    commitAndReloadKeepalived ;;
    commitAndReloadHaproxy ;;
    on_proxier (zoom master set_master AtomicBool.Set_)
  else on_proxier (zoom master set_master AtomicBool.UnSet).

(** One iteration of a background loop: a rate limiter of the proxier with the
    handler that [NewProxier] gave it. *)
Definition worker (rlf : Proxier → RateLimitedFunction unit)
    (set_rlf : RateLimitedFunction unit → Proxier → Proxier)
    (handlerFunc : M World (option error)) (t1 t2 t3 : Time) : M World unit :=
  zoom (λ w, (rlf (w_proxier w), w))
    (λ s _, mkWorld (set_rlf s.1 (w_proxier s.2)) (w_os s.2) (w_net s.2))
    (Iterate handlerFunc t1 t2 t3).

Definition keepalived_worker : Time → Time → Time → M World unit :=
  worker rateLimitedCommitFuncForKeepalived set_rlKeepalived commitAndReloadKeepalived.
Definition haproxy_worker : Time → Time → Time → M World unit :=
  worker rateLimitedCommitFuncForHaproxy set_rlHaproxy commitAndReloadHaproxy.
End Commit.

(** * Concrete instances, for runs by computation

    A template engine that writes the template's text followed by the keys of the data, a
    network with one device, and a small world. *)

(** The text ["{{"] does not parse. *)
Definition keys_of {V} (m : gmap string V) : string :=
  foldr (λ kv s, kv.1 +:+ ";" +:+ s) "" (map_to_list m).

Definition toy_template : TextTemplate := {|
  Tpl := string;
  Parse _ _ content := if decide (content = "{{") then inl (Errorf "unclosed action") else inr content;
  Execute tpl data :=
    (tpl +:+ match data with VipTable vips => keys_of vips | Routes d => keys_of (RouteTable d) end,
     None)
|}.

(** The files of [cfg0], and a world with the device [lo_net]. *)
Definition files0 (tpl : string) : gmap string string :=
  {[ "/k.tpl" := "k:"; "/h.tpl" := tpl; "/k.conf" := "old"; "/h.cfg" := "old" ]}.

Definition world0 (tpl : string) (isMaster : bool) : World (list IPNet) :=
  mkWorld (proxier0 isMaster false) (mkOS (files0 tpl) [] []) [lo_net].

#[local] Existing Instance toy_template.
#[local] Existing Instance order_up.
#[local] Existing Instances one_device one_device_laws.

(** After the service [web] has been added. *)
Definition world1 (tpl : string) (isMaster : bool) : World (list IPNet) :=
  Eval vm_compute in final (on_proxier (handle_event added) (world0 tpl isMaster)).
