(* ===== verification/CommitProps.v ===== *)
(** The properties of committing: what the daemons' files hold after a commit, what
    a template that does not parse does to the proxier, and the transitions
    between MASTER and BACKUP. *)

From stdpp Require Import gmap strings list.
From S2P Require Import Prelude GoTime Types PtrMap RateLimiter RateLimiterProps IPAddr.
From S2P Require Import IPAddrProps OS Configurer Instances DaemonProps Template Proxier.
From S2P Require Import ProxierSpec ProxierFacts ProxierHandlers ProxierFacts ProxierProps Commit.

From S2P Require AtomicBool.

(** ** Rendering *)
Section Rendering.
Context `{!TextTemplate}.

(** The functions that HAProxy's template may call. *)
Definition haproxy_funcs : gmap string template_func :=
  {[ "hasIP" := fn_hasIP hasIP; "ToLower" := fn_ToLower ]}.

(** What rendering gives: [None] is the panic of [template.Must]. *)
Definition rendered (funcs : gmap string template_func) (name content : string) (data : render_data)
    : option (error + string) :=
  match Parse funcs name content with
  | inl _ => None
  | inr tpl =>
      Some (match Execute tpl data with
            | (_, Some err) => inl err
            | (bytes, None) => inr bytes
            end)
  end.

Definition render_outcome {S} (r : option (error + string)) : M S (error + string) :=
  match r with
  | None => panic "template: parse error"
  | Some res => mret res
  end.

Lemma RenderTemplate_spec {S} name content data (s : S) :
  RenderTemplate name content data s = render_outcome (rendered ∅ name content data) s.
Proof.
  unfold RenderTemplate, rendered. destruct (Parse ∅ name content) as [e|tpl]; [done|].
  rewrite (bind_Ret _ _ _ tpl s) by done. by destruct (Execute tpl data) as [? [|]].
Qed.

Lemma RenderTemplateWithFuncs_spec {S} name content data (s : S) :
  RenderTemplateWithFuncs name content data s =
    render_outcome (rendered haproxy_funcs name content data) s.
Proof.
  unfold RenderTemplateWithFuncs, rendered, haproxy_funcs.
  destruct (Parse _ name content) as [e|tpl]; [done|].
  rewrite (bind_Ret _ _ _ tpl s) by done. by destruct (Execute tpl data) as [? [|]].
Qed.
End Rendering.

(** ** The second half of a commit *)
Section Finish.
Context {net : Type} `{!TextTemplate} {D : Type} `{!Daemon D}.
Local Abbreviation World := (World net).
Implicit Types (w : World) (d : D).

(** The lock is held. *)
Definition lock_held w : World := mkWorld (set_lock true (w_proxier w)) (w_os w) (w_net w).

(** From the lock to the reload, given what rendering gives. *)
Definition finish (r : option (error + string)) d : M World (option error) := λ w,
  match r with
  | None => Panic "template: parse error" (lock_held w)
  | Some (inl err) => Ret (Some err) w
  | Some (inr bytes) => on_os (daemon_Reload d bytes) w
  end.

(** How a commit of [bytes] ends, when the daemon's file holds [old]: [is_bytes]
    says what may be rendered, [bad] that the template does not parse. *)
Definition commit_post d old (is_bytes : string → Prop) (bad : Prop) w (r : outcome World (option error))
    : Prop :=
  let path := configFilePath (daemon_configurer d) in
  match r with
  | Ret None w' =>
      w_proxier w' = w_proxier w ∧ ∃ bytes, is_bytes bytes ∧
        files (w_os w') !! path = Some bytes ∧
        execs (w_os w') = (daemon_script d, files (w_os w')) :: execs (w_os w)
  | Ret (Some _) w' | Exit w' =>
      w_proxier w' = w_proxier w ∧
        (files (w_os w') !! path = Some old ∨
         ∃ bytes, is_bytes bytes ∧ files (w_os w') !! path = Some bytes)
  | Panic _ w' =>
      bad ∧ w_proxier w' = set_lock true (w_proxier w) ∧
        files (w_os w') = files (w_os w) ∧ execs (w_os w') = execs (w_os w)
  | Block _ => False
  end ∧ same_others (daemon_configurer d) (w_os w) (w_os (final r)).

(** Nothing was written. *)
Lemma commit_post_unchanged d old is_bytes bad w r :
  files (w_os w) !! configFilePath (daemon_configurer d) = Some old →
  w_proxier (final r) = w_proxier w → files (w_os (final r)) = files (w_os w) →
  match r with Ret (Some _) _ | Exit _ => True | _ => False end →
  commit_post d old is_bytes bad w r.
Proof.
  intros Hold Hp Hf Hr. split; [|intros q _ _ _; by rewrite Hf].
  destruct r as [[|]| | |]; simpl in *; try done; split; [done|left|done|left]; by rewrite Hf.
Qed.

Lemma finish_post d old r w w0 (is_bytes : string → Prop) (bad : Prop) :
  files (w_os w0) !! configFilePath (daemon_configurer d) = Some old →
  w_proxier w = w_proxier w0 → files (w_os w) = files (w_os w0) → execs (w_os w) = execs (w_os w0) →
  (∀ bytes, r = Some (inr bytes) → is_bytes bytes) → (r = None → bad) →
  commit_post d old is_bytes bad w0 (finish r d w).
Proof.
  intros Hold Hp Hf He Hb Hbad. unfold finish. destruct r as [[err|bytes]|]; simpl.
  - by apply commit_post_unchanged.
  - pose proof (Reload_post d bytes old (w_os w)) as Hr. rewrite Hf in Hr.
    specialize (Hr Hold) as [Hr Ho]. unfold on_os, zoom.
    split; [|intros q ???; specialize (Ho q); rewrite <-Hf, <-Ho by done; by destruct (daemon_Reload _ _ _)].
    destruct (daemon_Reload d bytes (w_os w)) as [[e|] o|? ?|o|o]; simpl in *; [| |done| |done].
    + split; [done|]. destruct Hr as [[? _]|[? _]]; [by left|right]. eauto.
    + destruct Hr as [Hfile Hex]. split; [done|]. exists bytes. rewrite <-He. auto.
    + split; [done|]. destruct Hr as [[?|?] _]; [by left|right]. eauto.
  - split; [split; [auto|]; by rewrite <-Hp|]. intros q _ _ _. simpl. by rewrite Hf.
Qed.
End Finish.

Section Commits.
Context {net : Type} `{!Netlink net, !NetlinkLaws net, !TextTemplate}.
Local Abbreviation World := (World net).
Implicit Types (w : World).

(** The bytes that a commit may write: the template's content rendered with the
    tables and, for HAProxy, with the addresses of the device. *)
Definition keepalived_bytes w (bytes : string) : Prop :=
  let p := w_proxier w in ∃ content,
  files (w_os w) !! Keepalived.TemplatePath (KeepalivedConfig (config p)) = Some content ∧
  rendered ∅ "keepalived_tpl" content (VipTable (vipTable p)) = Some (inr bytes).

Definition haproxy_bytes w (bytes : string) : Prop :=
  let p := w_proxier w in ∃ content ips,
  files (w_os w) !! Haproxy.TemplatePath (HaproxyConfig (config p)) = Some content ∧
  answers (w_net w) (ip p) ips ∧
  rendered haproxy_funcs "haproxy_tpl" content
    (Routes (mkTemplateData ips (view (routeTable p)))) = Some (inr bytes).

Definition bad_template (funcs : gmap string template_func) (name path : string) w : Prop :=
  ∃ content err, files (w_os w) !! path = Some content ∧ Parse funcs name content = inl err.

(** Reading a file changes no file. *)
Lemma ReadFile_cases path (o : OS) :
  match ReadFile path o with
  | Ret (inr content) o' => files o !! path = Some content ∧ files o' = files o ∧ execs o' = execs o
  | Ret (inl _) o' | Exit o' => files o' = files o ∧ execs o' = execs o
  | Panic _ _ | Block _ => False
  end.
Proof.
  unfold ReadFile, next_fault. m_unfold. destruct (default Works (head (faults o))); simpl; try done.
  by destruct (files o !! path) as [content|] eqn:E.
Qed.

Lemma lock_cycle p : lock p = false → set_lock false (set_lock true p) = p.
Proof. destruct p. simpl. by intros ->. Qed.

Lemma Lock_free w : lock (w_proxier w) = false → on_proxier Lock w = Ret tt (lock_held w).
Proof. intros Hl. unfold on_proxier, zoom, Lock. by rewrite Hl. Qed.

Lemma Unlock_held w : lock (w_proxier w) = false → on_proxier Unlock (lock_held w) = Ret tt w.
Proof.
  intros Hl. unfold on_proxier, zoom, Unlock, modify. simpl. rewrite lock_cycle by done. by destruct w.
Qed.

(** The second halves of the two commits. *)
Lemma keepalived_finish content w :
  lock (w_proxier w) = false →
  (on_proxier Lock ;;
   vips ← gets (λ w, vipTable (w_proxier w));
   r ← RenderTemplate "keepalived_tpl" content (VipTable vips);
   match r : error + string with
   | inl err => on_proxier Unlock ;; mret (Some err)
   | inr cfgBytes =>
       on_proxier Unlock ;;
       instance ← gets (λ w, keepalivedInstance (w_proxier w));
       err ← on_os (Keepalived.Reload instance cfgBytes);
       match err : option error with Some err => mret (Some err) | None => mret None end
   end) w =
  finish (rendered ∅ "keepalived_tpl" content (VipTable (vipTable (w_proxier w))))
    (keepalivedInstance (w_proxier w)) w.
Proof.
  intros Hl. run (Lock_free w Hl).
  rewrite (bind_Ret _ _ _ (vipTable (w_proxier w)) (lock_held w)) by done.
  rewrite bind_unfold, RenderTemplate_spec.
  destruct (rendered _ _ _ _) as [[err|bytes]|]; simpl; [| |done].
  - by run (Unlock_held w Hl).
  - run (Unlock_held w Hl).
    rewrite (bind_Ret _ _ _ (keepalivedInstance (w_proxier w)) w) by done.
    rewrite bind_unfold. by destruct (on_os _ w) as [[]| | |].
Qed.

Lemma haproxy_finish content ips w :
  lock (w_proxier w) = false →
  (on_proxier Lock ;;
   routes ← gets (λ w, view (routeTable (w_proxier w)));
   let templateData := mkTemplateData ips routes in
   r ← RenderTemplateWithFuncs "haproxy_tpl" content (Routes templateData);
   match r : error + string with
   | inl err => on_proxier Unlock ;; mret (Some err)
   | inr cfgBytes =>
       on_proxier Unlock ;;
       instance ← gets (λ w, haproxyInstance (w_proxier w));
       err ← on_os (Haproxy.Reload instance cfgBytes);
       match err : option error with Some err => mret (Some err) | None => mret None end
   end) w =
  finish (rendered haproxy_funcs "haproxy_tpl" content
      (Routes (mkTemplateData ips (view (routeTable (w_proxier w))))))
    (haproxyInstance (w_proxier w)) w.
Proof.
  intros Hl. run (Lock_free w Hl).
  rewrite (bind_Ret _ _ _ (view (routeTable (w_proxier w))) (lock_held w)) by done. cbv zeta.
  rewrite bind_unfold, RenderTemplateWithFuncs_spec.
  destruct (rendered _ _ _ _) as [[err|bytes]|]; simpl; [| |done].
  - by run (Unlock_held w Hl).
  - run (Unlock_held w Hl).
    rewrite (bind_Ret _ _ _ (haproxyInstance (w_proxier w)) w) by done.
    rewrite bind_unfold. by destruct (on_os _ w) as [[]| | |].
Qed.

Lemma commitAndReloadKeepalived_post w old :
  let p := w_proxier w in
  lock p = false → files (w_os w) !! configFilePath (Keepalived.configurer (keepalivedInstance p)) = Some old →
  commit_post (keepalivedInstance p) old (keepalived_bytes w)
    (bad_template ∅ "keepalived_tpl" (Keepalived.TemplatePath (KeepalivedConfig (config p))) w)
    w (commitAndReloadKeepalived w).
Proof.
  intros p Hl Hold. unfold commitAndReloadKeepalived.
  rewrite (bind_Ret _ _ _ _ w) by done. cbv beta. fold p. set (path := Keepalived.TemplatePath _).
  pose proof (ReadFile_cases path (w_os w)) as Hr. rewrite bind_unfold. unfold on_os at 1, zoom at 1.
  destruct (ReadFile path (w_os w)) as [[err|content] o|? ?|o|o]; [| |done| |done].
  - destruct Hr as [Hf He]. by apply commit_post_unchanged.
  - destruct Hr as (Hc & Hf & He). rewrite keepalived_finish by done. eapply finish_post; try done.
    + intros bytes Hb. by exists content.
    + unfold rendered. destruct (Parse _ _ _) as [err|] eqn:E; [|done]. intros _. by exists content, err.
  - destruct Hr as [Hf He]. by apply commit_post_unchanged.
Qed.

Lemma commitAndReloadHaproxy_post w old :
  let p := w_proxier w in
  lock p = false → files (w_os w) !! configFilePath (Haproxy.configurer (haproxyInstance p)) = Some old →
  commit_post (haproxyInstance p) old (haproxy_bytes w)
    (bad_template haproxy_funcs "haproxy_tpl" (Haproxy.TemplatePath (HaproxyConfig (config p))) w)
    w (commitAndReloadHaproxy w).
Proof.
  intros p Hl Hold. unfold commitAndReloadHaproxy.
  rewrite (bind_Ret _ _ _ _ w) by done. cbv beta. fold p. set (path := Haproxy.TemplatePath _).
  pose proof (ReadFile_cases path (w_os w)) as Hr. rewrite bind_unfold. unfold on_os at 1, zoom at 1.
  destruct (ReadFile path (w_os w)) as [[err|content] o|? ?|o|o]; [| |done| |done].
  - destruct Hr as [Hf He]. by apply commit_post_unchanged.
  - destruct Hr as (Hc & Hf & He). set (w1 := mkWorld _ o _).
    rewrite (bind_Ret _ _ _ (ip p) w1) by done. rewrite bind_unfold. unfold on_net, zoom.
    destruct (GetAddrs_spec (w_net w1) (ip p)) as (res & n & -> & _ & Hips).
    destruct res as [err|ips]; [by apply commit_post_unchanged|].
    rewrite haproxy_finish by done. eapply finish_post; try done.
    + intros bytes Hb. exists content, ips. split_and!; done.
    + unfold rendered. destruct (Parse _ _ _) as [err|] eqn:E; [|done]. intros _. by exists content, err.
  - destruct Hr as [Hf He]. by apply commit_post_unchanged.
Qed.

(** ** A held lock *)

(** The events whose handlers take the lock. *)
Definition takes_lock (ev : event) : bool :=
  match ev with
  | ServiceEvent (Added | Modified) service => IsServiceIPSet service
  | ServiceEvent Deleted _ => true
  | EndpointsEvent (Added | Modified | Deleted) _ => true
  | _ => false
  end.

Lemma locked_block {A} (body : M Proxier A) p : lock p = true → locked body p = Block p.
Proof. intros Hl. unfold locked, Lock, mbind, M_bind. by rewrite Hl. Qed.

Lemma held_blocks `{!MapOrder} ev p : lock p = true → takes_lock ev = true → handle_event ev p = Block p.
Proof.
  intros Hl. destruct ev as [[] service|[] endpoints]; simpl; intros Hip; try done;
    unfold HandleService, HandleEndpoints, handleServiceAdd, handleServiceUpdate, handleServiceDelete,
      handleEndpointsAdd, handleEndpointsUpdate, handleEndpointsDelete;
    rewrite ?Hip; cbn [negb]; by rewrite bind_unfold, locked_block.
Qed.

(** ** Transitions *)

(** The files of the two daemons and of their templates are apart. *)
Definition files_apart (p : Proxier) : Prop :=
  let k := Keepalived.configurer (keepalivedInstance p) in
  let h := configFilePath (Haproxy.configurer (haproxyInstance p)) in
  let t := Haproxy.TemplatePath (HaproxyConfig (config p)) in
  ∀ q, q = h ∨ q = t → q ≠ configFilePath k ∧ q ≠ bak k ∧ q ≠ tmp k.

Lemma SetMaster_true_spec w old_k :
  let p := w_proxier w in
  lock p = false →
  files (w_os w) !! configFilePath (Keepalived.configurer (keepalivedInstance p)) = Some old_k →
  is_Some (files (w_os w) !! configFilePath (Haproxy.configurer (haproxyInstance p))) →
  files_apart p →
  match SetMaster true w with
  | Ret _ w' => w_proxier w' = set_master 1%Z p
  | Exit w' => w_proxier w' = p
  | Panic _ w' => w_proxier w' = set_lock true p
  | Block _ => False
  end.
Proof.
  intros p Hl Hk [old_h Hh] Hap. unfold SetMaster.
  pose proof (commitAndReloadKeepalived_post w old_k Hl Hk) as [Hpost Hframe].
  rewrite bind_unfold. destruct (commitAndReloadKeepalived w) as [r w1|msg w1|w1|w1]; simpl in *.
  2: { by destruct Hpost as (_ & Hp & _). }
  2: { by destruct Hpost. }
  2: { done. }
  assert (w_proxier w1 = p) as Hp1 by (destruct r; by destruct Hpost).
  assert (files (w_os w1) !! configFilePath (Haproxy.configurer (haproxyInstance (w_proxier w1))) = Some old_h) as Hh1.
  { rewrite Hp1. rewrite Hframe; [done|..]; by apply Hap; left. }
  rewrite <-Hp1 in Hl. pose proof (commitAndReloadHaproxy_post w1 old_h Hl Hh1) as [Hpost1 _].
  rewrite bind_unfold. destruct (commitAndReloadHaproxy w1) as [r1 w2|msg w2|w2|w2]; simpl in *.
  - assert (w_proxier w2 = p) as Hp2 by (rewrite <-Hp1; destruct r1; by destruct Hpost1).
    simpl. by rewrite Hp2.
  - destruct Hpost1 as (_ & Hp & _). by rewrite Hp, Hp1.
  - destruct Hpost1 as [Hp _]. by rewrite Hp, Hp1.
  - done.
Qed.
End Commits.

(** ** The properties *)

(** C11: a commit of keepalived, and one of HAProxy, never tears a file and never
    deadlocks on its own: if it returns without an error, the daemon's file holds
    the template's content rendered with the current tables (and the addresses of
    the device), and the reload script was run and found it there; if it returns
    an error or the process is killed, the file holds that or the old content.
    Only a template that does not parse makes it panic, and that leaves the lock
    held. *)
Theorem commits_correct {net} `{!Netlink net, !NetlinkLaws net, !TextTemplate} (w : World net) old_k old_h :
  let p := w_proxier w in
  lock p = false →
  files (w_os w) !! configFilePath (Keepalived.configurer (keepalivedInstance p)) = Some old_k →
  files (w_os w) !! configFilePath (Haproxy.configurer (haproxyInstance p)) = Some old_h →
  commit_post (keepalivedInstance p) old_k (keepalived_bytes w)
    (bad_template ∅ "keepalived_tpl" (Keepalived.TemplatePath (KeepalivedConfig (config p))) w)
    w (commitAndReloadKeepalived w) ∧
  commit_post (haproxyInstance p) old_h (haproxy_bytes w)
    (bad_template haproxy_funcs "haproxy_tpl" (Haproxy.TemplatePath (HaproxyConfig (config p))) w)
    w (commitAndReloadHaproxy w).
Proof.
  intros p Hl Hk Hh.
  split; [by apply commitAndReloadKeepalived_post|by apply commitAndReloadHaproxy_post].
Qed.

(** C35: a template that does not parse stops the proxier for good: the background
    loop survives the panic of the commit, but the lock stays held, so every
    handler of an event that takes the lock blocks from then on. *)
Theorem bad_template_deadlocks {net} `{!Netlink net, !TextTemplate, !MapOrder} (w : World net)
    content err ips n' t1 t2 t3 :
  let p := w_proxier w in
  proxier_wf p →
  (0 ≤ Haproxy.ReloadInterval (HaproxyConfig (config p)) ≤ max_int64)%Z →
  pending (rateLimitedCommitFuncForHaproxy p) →
  may_run (Haproxy.ReloadInterval (HaproxyConfig (config p))) (rateLimitedCommitFuncForHaproxy p) t1 →
  faults (w_os w) = [] →
  files (w_os w) !! Haproxy.TemplatePath (HaproxyConfig (config p)) = Some content →
  GetAddrs (ip p) (w_net w) = Ret (inr ips) n' →
  Parse haproxy_funcs "haproxy_tpl" content = inl err →
  ∃ w', haproxy_worker t1 t2 t3 w = Ret tt w' ∧ lock (w_proxier w') = true ∧
    ∀ ev, takes_lock ev = true → on_proxier (handle_event ev) w' = Block w'.
Proof.
  intros p Hp Hint Hpend Hmay Hfl Hfile Hips Hparse. pose proof (pw_lock _ Hp) as Hl.
  assert (∃ w1, commitAndReloadHaproxy w = Panic "template: parse error" (lock_held w1) ∧
    w_proxier w1 = p) as (w1 & Hc & Hw1).
  { unfold commitAndReloadHaproxy. rewrite (bind_Ret _ _ _ _ w) by done. cbv beta. fold p.
    rewrite (bind_Ret _ _ _ (inr content) (mkWorld p (mkOS (files (w_os w)) [] (execs (w_os w))) (w_net w))).
    2: { unfold on_os, zoom, ReadFile, next_fault. m_unfold. rewrite Hfl. simpl. by rewrite Hfile. }
    rewrite (bind_Ret _ _ _ (ip p) _) by done.
    rewrite (bind_Ret _ _ _ (inr ips) (mkWorld p (mkOS (files (w_os w)) [] (execs (w_os w))) n'))
      by (unfold on_net, zoom; simpl; by rewrite Hips).
    rewrite haproxy_finish by done. unfold rendered. rewrite Hparse. simpl. eauto. }
  pose proof (Iterate_iterated _ commitAndReloadHaproxy t1 t2 t3 _ w (pw_haproxy _ Hp) Hint) as Hit.
  unfold haproxy_worker, worker, zoom. fold p.
  inversion Hit as [Hnp|? ? Hnm|? ? ? ? ? HH|msg rlf' w' _ _ HH _ _ _ Heq|? ? ? ? HH|? ? ? ? HH];
    try done; try congruence.
  rewrite Hc in HH. injection HH as <- <-. eexists. split; [done|]. simpl. split; [done|].
  intros ev Hev. unfold on_proxier, zoom. simpl. by rewrite held_blocks.
Qed.

(** C36: [SetMaster(true)] makes the proxier MASTER whatever the two commits return;
    it does not only when the process is killed or a template does not parse (and
    then the lock stays held).  [SetMaster(false)] changes the flag alone.
    Neither touches the tables. *)
Theorem SetMaster_correct {net} `{!Netlink net, !NetlinkLaws net, !TextTemplate} (w : World net) old_k :
  let p := w_proxier w in
  lock p = false →
  files (w_os w) !! configFilePath (Keepalived.configurer (keepalivedInstance p)) = Some old_k →
  is_Some (files (w_os w) !! configFilePath (Haproxy.configurer (haproxyInstance p))) →
  files_apart p →
  SetMaster false w = Ret tt (mkWorld (set_master 0%Z p) (w_os w) (w_net w)) ∧
  match SetMaster true w with
  | Ret _ w' => w_proxier w' = set_master 1%Z p
  | Exit w' => w_proxier w' = p
  | Panic _ w' => w_proxier w' = set_lock true p
  | Block _ => False
  end.
Proof. intros p Hl Hk Hh Ha. split; [done|]. by eapply SetMaster_true_spec. Qed.

(** ** Witnesses *)
#[local] Existing Instances toy_template order_up one_device one_device_laws.

Lemma commits_correct_witness :
  commit_post (keepalivedInstance (w_proxier (world1 "h:" true))) "old" (keepalived_bytes (world1 "h:" true))
    (bad_template ∅ "keepalived_tpl" "/k.tpl" (world1 "h:" true))
    (world1 "h:" true) (commitAndReloadKeepalived (world1 "h:" true)).
Proof.
  refine (proj1 (commits_correct (world1 "h:" true) "old" "old" _ _ _)); vm_compute; reflexivity.
Defined.

Lemma bad_template_deadlocks_witness :
  ∃ w', haproxy_worker 0%Z 0%Z 0%Z (world1 "{{" true) = Ret tt w' ∧ lock (w_proxier w') = true ∧
    ∀ ev, takes_lock ev = true → on_proxier (handle_event ev) w' = Block w'.
Proof.
  refine (bad_template_deadlocks (world1 "{{" true) "{{" (Errorf "unclosed action")
    {["127.0.0.1" := true]} [lo_net] 0%Z 0%Z 0%Z _ _ _ _ _ _ _ _).
  - destruct (handle_event_does added (proxier0 true false) (proxier0_wf true false))
      as (p' & He & Hh & Hr). pose proof (handled_wf _ _ _ (proxier0_wf true false) Hh Hr) as Hp'.
    replace (w_proxier (world1 "{{" true)) with (final (handle_event added (proxier0 true false)))
      by (vm_compute; reflexivity). rewrite He. exact Hp'.
  - split; vm_compute; discriminate.
  - vm_compute. discriminate.
  - vm_compute. exact I.
  - vm_compute. reflexivity.
  - vm_compute. reflexivity.
  - vm_compute. reflexivity.
  - vm_compute. reflexivity.
Defined.

Lemma SetMaster_correct_witness :
  SetMaster false (world0 "h:" false) =
    Ret tt (mkWorld (set_master 0%Z (w_proxier (world0 "h:" false))) (w_os (world0 "h:" false))
              (w_net (world0 "h:" false))).
Proof.
  refine (proj1 (SetMaster_correct (world0 "h:" false) "old" _ _ _ _)).
  - vm_compute. reflexivity.
  - vm_compute. reflexivity.
  - vm_compute. by eexists.
  - intros q [-> | ->]; vm_compute; split_and!; discriminate.
Defined.
