(* ===== verification/System.v ===== *)
(** The proxier as a running system: events, iterations of the two background
    loops, and changes of the network device, in any order.

    The theorems are about a MASTER whose commits are on, with templates that
    parse and execute and an operating system whose calls work; what happens
    otherwise is in [CommitProps].  A step takes effect at once.  In the program
    an event may arrive while a background loop runs its handler; the tables are
    read under the lock, and the request that the event leaves is in the queue
    when the iteration ends, so the event might as well have come after it. *)

From stdpp Require Import gmap strings list relations.
From S2P Require Import Prelude GoTime Types PtrMap RateLimiter RateLimiterProps IPAddr.
From S2P Require Import IPAddrProps OS Configurer Instances DaemonProps Template Proxier.
From S2P Require Import ProxierSpec ProxierFacts ProxierHandlers ProxierProps Commit CommitProps.

From S2P Require AtomicBool.

Section System.
Context {net : Type} `{!Netlink net, !NetlinkLaws net, !TextTemplate} {mo : MapOrder}.
Local Abbreviation World := (World net).
Implicit Types (w : World) (p : Proxier).

(** The contents of the two template files. *)
Variables keepalived_tpl haproxy_tpl : string.

(** What each template renders. *)
Definition renders funcs name content (data : render_data) (bytes : string) : Prop :=
  rendered funcs name content data = Some (inr bytes).

(** The environment works: the templates render, the device can be listed. *)
Record environment : Prop := {
  env_keepalived vips : ∃ b, renders ∅ "keepalived_tpl" keepalived_tpl (VipTable vips) b;
  env_haproxy data : ∃ b, renders haproxy_funcs "haproxy_tpl" haproxy_tpl (Routes data) b;
  env_addrs r (n : net) : ∃ ips n', GetAddrs r n = Ret (inr ips) n'
}.

Definition k_config p : string := configFilePath (Keepalived.configurer (keepalivedInstance p)).
Definition h_config p : string := configFilePath (Haproxy.configurer (haproxyInstance p)).
Definition k_template p : string := Keepalived.TemplatePath (KeepalivedConfig (config p)).
Definition h_template p : string := Haproxy.TemplatePath (HaproxyConfig (config p)).

(** The files a daemon's writer touches. *)
Definition touches (c : Configurer) (q : string) : Prop :=
  q = configFilePath c ∨ q = bak c ∨ q = tmp c.

(** A MASTER with commits on. *)
Record running w : Prop := {
  run_wf : proxier_wf (w_proxier w);
  run_committing : committing (w_proxier w) = true;
  run_faults : faults (w_os w) = [];
  run_k_template : files (w_os w) !! k_template (w_proxier w) = Some keepalived_tpl;
  run_h_template : files (w_os w) !! h_template (w_proxier w) = Some haproxy_tpl;
  run_k_config : is_Some (files (w_os w) !! k_config (w_proxier w));
  run_h_config : is_Some (files (w_os w) !! h_config (w_proxier w));
  run_k_apart q : q ∈ [h_config (w_proxier w); h_template (w_proxier w); k_template (w_proxier w)] →
    ¬ touches (Keepalived.configurer (keepalivedInstance (w_proxier w))) q;
  run_h_apart q : q ∈ [k_config (w_proxier w); h_template (w_proxier w); k_template (w_proxier w)] →
    ¬ touches (Haproxy.configurer (haproxyInstance (w_proxier w))) q;
  run_k_interval : (0 ≤ Keepalived.ReloadInterval (KeepalivedConfig (config (w_proxier w))) ≤ max_int64)%Z;
  run_h_interval : (0 ≤ Haproxy.ReloadInterval (HaproxyConfig (config (w_proxier w))) ≤ max_int64)%Z
}.

(** Each daemon's file is up to date or a request to reload is waiting. *)
Definition haproxy_current_with ips w : Prop :=
  ∃ b, files (w_os w) !! h_config (w_proxier w) = Some b ∧
    renders haproxy_funcs "haproxy_tpl" haproxy_tpl
      (Routes (mkTemplateData ips (view (routeTable (w_proxier w))))) b.
Definition haproxy_current w : Prop := ∃ ips, haproxy_current_with ips w.
Definition keepalived_current w : Prop :=
  ∃ b, files (w_os w) !! k_config (w_proxier w) = Some b ∧
    renders ∅ "keepalived_tpl" keepalived_tpl (VipTable (vipTable (w_proxier w))) b.

Definition consistent w : Prop :=
  (pending (rateLimitedCommitFuncForHaproxy (w_proxier w)) ∨ haproxy_current w) ∧
  (pending (rateLimitedCommitFuncForKeepalived (w_proxier w)) ∨ keepalived_current w).

(** The steps. *)
Inductive step : World → World → Prop :=
| step_event ev w w' : on_proxier (handle_event ev) w = Ret None w' → step w w'
| step_haproxy t1 t2 t3 w w' : haproxy_worker t1 t2 t3 w = Ret tt w' → step w w'
| step_keepalived t1 t2 t3 w w' : keepalived_worker t1 t2 t3 w = Ret tt w' → step w w'
| step_net n' w : step w (mkWorld (w_proxier w) (w_os w) n').

(** The steps that do not commit to HAProxy: an iteration of its loop may put the request
    back. *)
Inductive quiet : World → World → Prop :=
| quiet_event ev w w' : on_proxier (handle_event ev) w = Ret None w' → quiet w w'
| quiet_haproxy t1 t2 t3 w w' : haproxy_worker t1 t2 t3 w = Ret tt w' → w_os w' = w_os w → quiet w w'
| quiet_keepalived t1 t2 t3 w w' : keepalived_worker t1 t2 t3 w = Ret tt w' → quiet w w'
| quiet_net n' w : quiet w (mkWorld (w_proxier w) (w_os w) n').

(** In the run from [w] to [w'], the iteration that committed to HAProxy last began in [w0];
    if none did, [w0] is the start of the run. *)
Definition last_commit w w0 w' : Prop :=
  (w0 = w ∧ rtc quiet w w') ∨
  (∃ t1 t2 t3 w1, rtc step w w0 ∧ haproxy_worker t1 t2 t3 w0 = Ret tt w1 ∧
     execs (w_os w1) = (Haproxy.ReloadScriptPath (Haproxy.config (haproxyInstance (w_proxier w0))), files (w_os w1))
                         :: execs (w_os w0) ∧
     rtc quiet w1 w').
Lemma last_commit_quiet w w0 w1 w' : last_commit w w0 w1 → quiet w1 w' → last_commit w w0 w'.
Proof.
  intros [[-> Hqs]|(t1 & t2 & t3 & w2 & H1 & H2 & H3 & Hqs)] Hq; [left|right].
  - split; [done|]. by eapply rtc_r.
  - exists t1, t2, t3, w2. split_and!; [done..|]. by eapply rtc_r.
Qed.

(** ** One iteration of a background loop *)
Lemma worker_cases rl set_rl (commit : M World (option error)) period w w1 t1 t2 t3 :
  rlf_wf period (rl (w_proxier w)) → (0 ≤ period ≤ max_int64)%Z → commit w = Ret None w1 →
  let res := worker rl set_rl commit t1 t2 t3 w in
  (¬ pending (rl (w_proxier w)) ∧ ∀ w', res ≠ Ret tt w') ∨
  (∃ rlf, pending (rl (w_proxier w)) ∧ ¬ may_run period (rl (w_proxier w)) t1 ∧
     res = Ret tt (mkWorld (set_rl rlf (w_proxier w)) (w_os w) (w_net w)) ∧
     rlf_wf period rlf ∧ pending rlf) ∨
  (∃ rlf, pending (rl (w_proxier w)) ∧ may_run period (rl (w_proxier w)) t1 ∧
     res = Ret tt (mkWorld (set_rl rlf (w_proxier w1)) (w_os w1) (w_net w1)) ∧
     rlf_wf period rlf ∧ ¬ pending rlf).
Proof.
  intros Hwf Hp Hc. simpl. unfold worker, zoom.
  pose proof (Iterate_iterated period commit t1 t2 t3 (rl (w_proxier w)) w Hwf Hp) as Hit.
  inversion Hit as [Hnp Heq|rlf ? ? ? ? ? Heq|err rlf w' ? ? HH ? ? ? Heq|? ? ? ? ? HH|? ? ? ? HH|? ? ? ? HH];
    try congruence.
  - left. done.
  - right. left. exists rlf. done.
  - right. right. rewrite Hc in HH. injection HH as <- <-. exists rlf. done.
Qed.

(** ** The commits work *)
Lemma finish_works {D} `{!Daemon D} (d : D) bytes old w :
  faults (w_os w) = [] → files (w_os w) !! configFilePath (daemon_configurer d) = Some old →
  ∃ o, finish (Some (inr bytes)) d w = Ret None (mkWorld (w_proxier w) o (w_net w)) ∧
    faults o = [] ∧ files o !! configFilePath (daemon_configurer d) = Some bytes ∧
    same_others (daemon_configurer d) (w_os w) o.
Proof.
  intros Hf Hold. destruct (Reload_works d bytes old (w_os w) Hf Hold) as (o & Hr & Hfo).
  pose proof (Reload_post d bytes old (w_os w) Hold) as [Hpost Hframe]. rewrite Hr in Hpost, Hframe.
  exists o. unfold finish, on_os, zoom. rewrite Hr. by destruct Hpost.
Qed.

Lemma read_works path content w :
  faults (w_os w) = [] → files (w_os w) !! path = Some content → on_os (ReadFile path) w = Ret (inr content) w.
Proof.
  intros Hf Hc. destruct w as [p [fs flts es] n]. simpl in *. subst flts.
  unfold on_os, zoom, ReadFile, next_fault. m_unfold. simpl. by rewrite Hc.
Qed.

Lemma haproxy_works w :
  environment → running w →
  ∃ o n ips b, commitAndReloadHaproxy w = Ret None (mkWorld (w_proxier w) o n) ∧ faults o = [] ∧
    files o !! h_config (w_proxier w) = Some b ∧
    renders haproxy_funcs "haproxy_tpl" haproxy_tpl
      (Routes (mkTemplateData ips (view (routeTable (w_proxier w))))) b ∧
    answers (w_net w) (ip (w_proxier w)) ips ∧
    same_others (Haproxy.configurer (haproxyInstance (w_proxier w))) (w_os w) o ∧
    execs o = (Haproxy.ReloadScriptPath (Haproxy.config (haproxyInstance (w_proxier w))), files o) :: execs (w_os w).
Proof.
  intros Henv Hrun. set (p := w_proxier w). pose proof (pw_lock _ (run_wf _ Hrun)) as Hl.
  destruct (env_addrs Henv (ip p) (w_net w)) as (ips & n & Hips).
  destruct (env_haproxy Henv (mkTemplateData ips (view (routeTable p)))) as [b Hb].
  destruct (run_h_config _ Hrun) as [old Hold].
  pose proof (commitAndReloadHaproxy_post w old Hl Hold) as [Hpost _]. revert Hpost.
  unfold commitAndReloadHaproxy. rewrite (bind_Ret _ _ _ (h_template p) w) by done.
  run (read_works _ _ w (run_faults _ Hrun) (run_h_template _ Hrun)).
  rewrite (bind_Ret _ _ _ (ip p) w) by done.
  rewrite (bind_Ret _ _ _ (inr ips) (mkWorld p (w_os w) n))
    by (unfold on_net, zoom; fold p; by rewrite Hips).
  rewrite haproxy_finish by done. cbn [w_proxier].
  unfold renders in Hb. rewrite Hb.
  destruct (finish_works (haproxyInstance p) b old (mkWorld p (w_os w) n))
    as (o & -> & ? & ? & ?); [apply Hrun|exact Hold|].
  intros (_ & b' & _ & _ & He). exists o, n, ips, b. split_and!; try done.
  destruct (GetAddrs_spec (w_net w) (ip p)) as (res & n' & Hg & _ & Hres).
  rewrite Hips in Hg. injection Hg as <- _. done.
Qed.

Lemma keepalived_works w :
  environment → running w →
  ∃ o b, commitAndReloadKeepalived w = Ret None (mkWorld (w_proxier w) o (w_net w)) ∧ faults o = [] ∧
    files o !! k_config (w_proxier w) = Some b ∧
    renders ∅ "keepalived_tpl" keepalived_tpl (VipTable (vipTable (w_proxier w))) b ∧
    same_others (Keepalived.configurer (keepalivedInstance (w_proxier w))) (w_os w) o.
Proof.
  intros Henv Hrun. set (p := w_proxier w). pose proof (pw_lock _ (run_wf _ Hrun)) as Hl.
  destruct (env_keepalived Henv (vipTable p)) as [b Hb].
  destruct (run_k_config _ Hrun) as [old Hold].
  unfold commitAndReloadKeepalived. rewrite (bind_Ret _ _ _ (k_template p) w) by done.
  run (read_works _ _ w (run_faults _ Hrun) (run_k_template _ Hrun)).
  rewrite keepalived_finish by done. unfold renders in Hb. fold p. rewrite Hb.
  destruct (finish_works (keepalivedInstance p) b old w) as (o & -> & ? & ? & ?);
    [apply Hrun|exact Hold|].
  by exists o, b.
Qed.

(** ** Invariants of the steps *)
Lemma running_change w w' :
  running w →
  let p := w_proxier w in let p' := w_proxier w' in
  config p' = config p → haproxyInstance p' = haproxyInstance p →
  keepalivedInstance p' = keepalivedInstance p → proxier_wf p' → committing p' = true →
  faults (w_os w') = [] →
  files (w_os w') !! k_template p = files (w_os w) !! k_template p →
  files (w_os w') !! h_template p = files (w_os w) !! h_template p →
  is_Some (files (w_os w') !! k_config p) → is_Some (files (w_os w') !! h_config p) →
  running w'.
Proof.
  intros [_ _ _ Hkt Hht _ _ Hka Hha Hki Hhi] p p' Hc Hh Hk Hwf Hcom Hf Hkt' Hht' Hkc Hhc.
  split; unfold k_template, h_template, k_config, h_config in *; fold p';
    rewrite ?Hc, ?Hh, ?Hk; try done.
  - by rewrite Hkt'.
  - by rewrite Hht'.
Qed.

Lemma set_rlHaproxy_wf p rlf :
  proxier_wf p → rlf_wf (Haproxy.ReloadInterval (HaproxyConfig (config p))) rlf →
  proxier_wf (set_rlHaproxy rlf p).
Proof. intros [] Hr. by split. Qed.
Lemma set_rlKeepalived_wf p rlf :
  proxier_wf p → rlf_wf (Keepalived.ReloadInterval (KeepalivedConfig (config p))) rlf →
  proxier_wf (set_rlKeepalived rlf p).
Proof. intros [] Hr. by split. Qed.
#[local] Hint Resolve set_rlHaproxy_wf set_rlKeepalived_wf : go.

(** Files that a writer does not touch. *)
Lemma untouched c o o' q : same_others c o o' → ¬ touches c q → files o' !! q = files o !! q.
Proof. intros Hs Hq. apply Hs; intros ->; apply Hq; unfold touches; auto. Qed.

Lemma haproxy_running w o n rlf :
  running w → rlf_wf (Haproxy.ReloadInterval (HaproxyConfig (config (w_proxier w)))) rlf →
  faults o = [] → is_Some (files o !! h_config (w_proxier w)) →
  same_others (Haproxy.configurer (haproxyInstance (w_proxier w))) (w_os w) o →
  running (mkWorld (set_rlHaproxy rlf (w_proxier w)) o n) ∧
  files o !! k_config (w_proxier w) = files (w_os w) !! k_config (w_proxier w).
Proof.
  intros Hrun Hr Hf Hc Hs. pose proof (run_h_apart _ Hrun) as Ha.
  assert (files o !! k_config (w_proxier w) = files (w_os w) !! k_config (w_proxier w)) as Hk.
  { eapply untouched; [done|]. apply Ha. left. }
  split; [|done]. apply (running_change w); try done.
  - apply set_rlHaproxy_wf; [apply Hrun|done].
  - apply Hrun.
  - eapply untouched; [done|]. apply Ha. set_solver.
  - eapply untouched; [done|]. apply Ha. set_solver.
  - simpl. rewrite Hk. apply Hrun.
Qed.

Lemma keepalived_running w o n rlf :
  running w → rlf_wf (Keepalived.ReloadInterval (KeepalivedConfig (config (w_proxier w)))) rlf →
  faults o = [] → is_Some (files o !! k_config (w_proxier w)) →
  same_others (Keepalived.configurer (keepalivedInstance (w_proxier w))) (w_os w) o →
  running (mkWorld (set_rlKeepalived rlf (w_proxier w)) o n) ∧
  files o !! h_config (w_proxier w) = files (w_os w) !! h_config (w_proxier w).
Proof.
  intros Hrun Hr Hf Hc Hs. pose proof (run_k_apart _ Hrun) as Ha.
  assert (files o !! h_config (w_proxier w) = files (w_os w) !! h_config (w_proxier w)) as Hk.
  { eapply untouched; [done|]. apply Ha. left. }
  split; [|done]. apply (running_change w); try done.
  - apply set_rlKeepalived_wf; [apply Hrun|done].
  - apply Hrun.
  - eapply untouched; [done|]. apply Ha. set_solver.
  - eapply untouched; [done|]. apply Ha. set_solver.
  - simpl. rewrite Hk. apply Hrun.
Qed.

(** Iterations of the loops, branch by branch. *)
Lemma haproxy_iteration t1 t2 t3 w w' :
  environment → running w → haproxy_worker t1 t2 t3 w = Ret tt w' →
  running w' ∧ vipTable (w_proxier w') = vipTable (w_proxier w) ∧
  view (routeTable (w_proxier w')) = view (routeTable (w_proxier w)) ∧
  rateLimitedCommitFuncForKeepalived (w_proxier w') = rateLimitedCommitFuncForKeepalived (w_proxier w) ∧
  files (w_os w') !! k_config (w_proxier w') = files (w_os w) !! k_config (w_proxier w) ∧
  ((pending (rateLimitedCommitFuncForHaproxy (w_proxier w')) ∧ w_os w' = w_os w) ∨
   (∃ ips, answers (w_net w) (ip (w_proxier w)) ips ∧ haproxy_current_with ips w' ∧
      execs (w_os w') = (Haproxy.ReloadScriptPath (Haproxy.config (haproxyInstance (w_proxier w))), files (w_os w'))
                          :: execs (w_os w))).
Proof.
  intros Henv Hrun Hw. destruct (haproxy_works w Henv Hrun) as (o & n & ips & b & Hc & Hf & Hb & Hr & Ha & Hs & He).
  destruct (worker_cases rateLimitedCommitFuncForHaproxy set_rlHaproxy commitAndReloadHaproxy _ w _ t1 t2 t3
    (pw_haproxy _ (run_wf _ Hrun)) (run_h_interval _ Hrun) Hc)
    as [[_ Hno]|[(rlf & _ & _ & Hres & Hwf & Hpend)|(rlf & _ & _ & Hres & Hwf & Hnp)]];
    unfold haproxy_worker in Hw; [by destruct (Hno w')|..]; rewrite Hres in Hw; injection Hw as <-.
  - destruct (haproxy_running w (w_os w) (w_net w) rlf) as [Hrun' Hk]; try apply Hrun; try done.
    split_and!; try done. by left.
  - destruct (haproxy_running w o n rlf) as [Hrun' Hk]; try done.
    split_and!; try done. right. exists ips. split_and!; [done|by exists b|done].
Qed.

Lemma keepalived_iteration t1 t2 t3 w w' :
  environment → running w → keepalived_worker t1 t2 t3 w = Ret tt w' →
  running w' ∧ vipTable (w_proxier w') = vipTable (w_proxier w) ∧
  view (routeTable (w_proxier w')) = view (routeTable (w_proxier w)) ∧
  rateLimitedCommitFuncForHaproxy (w_proxier w') = rateLimitedCommitFuncForHaproxy (w_proxier w) ∧
  files (w_os w') !! h_config (w_proxier w') = files (w_os w) !! h_config (w_proxier w) ∧
  (pending (rateLimitedCommitFuncForKeepalived (w_proxier w')) ∨ keepalived_current w').
Proof.
  intros Henv Hrun Hw. destruct (keepalived_works w Henv Hrun) as (o & b & Hc & Hf & Hb & Hr & Hs).
  destruct (worker_cases rateLimitedCommitFuncForKeepalived set_rlKeepalived commitAndReloadKeepalived
    _ w _ t1 t2 t3 (pw_keepalived _ (run_wf _ Hrun)) (run_k_interval _ Hrun) Hc)
    as [[_ Hno]|[(rlf & _ & _ & Hres & Hwf & Hpend)|(rlf & _ & _ & Hres & Hwf & Hnp)]];
    unfold keepalived_worker in Hw; [by destruct (Hno w')|..]; rewrite Hres in Hw; injection Hw as <-.
  - destruct (keepalived_running w (w_os w) (w_net w) rlf) as [Hrun' Hk]; try apply Hrun; try done.
    split_and!; try done. by left.
  - destruct (keepalived_running w o (w_net w) rlf) as [Hrun' Hk]; try done.
    split_and!; try done. right. by exists b.
Qed.

(** What an event or a step elsewhere leaves of the two daemons: a request, or the tables that
    the files were made from. *)
Definition haproxy_kept w w' : Prop :=
  pending (rateLimitedCommitFuncForHaproxy (w_proxier w')) ∨
  (rateLimitedCommitFuncForHaproxy (w_proxier w') = rateLimitedCommitFuncForHaproxy (w_proxier w) ∧
   files (w_os w') !! h_config (w_proxier w') = files (w_os w) !! h_config (w_proxier w) ∧
   view (routeTable (w_proxier w')) = view (routeTable (w_proxier w))).
Definition keepalived_kept w w' : Prop :=
  pending (rateLimitedCommitFuncForKeepalived (w_proxier w')) ∨
  (rateLimitedCommitFuncForKeepalived (w_proxier w') = rateLimitedCommitFuncForKeepalived (w_proxier w) ∧
   files (w_os w') !! k_config (w_proxier w') = files (w_os w) !! k_config (w_proxier w) ∧
   vipTable (w_proxier w') = vipTable (w_proxier w)).

Lemma haproxy_kept_with ips w w' : haproxy_kept w w' →
  haproxy_current_with ips w → pending (rateLimitedCommitFuncForHaproxy (w_proxier w')) ∨ haproxy_current_with ips w'.
Proof. intros [Hp|(_ & Hf & Hv)] Hc; [by left|right]. unfold haproxy_current_with. by rewrite Hf, Hv. Qed.
Lemma haproxy_kept_pending w w' : haproxy_kept w w' →
  pending (rateLimitedCommitFuncForHaproxy (w_proxier w)) → pending (rateLimitedCommitFuncForHaproxy (w_proxier w')).
Proof. intros [Hp|(-> & _)]; [done|done]. Qed.
Lemma keepalived_kept_current w w' : keepalived_kept w w' →
  pending (rateLimitedCommitFuncForKeepalived (w_proxier w)) ∨ keepalived_current w →
  pending (rateLimitedCommitFuncForKeepalived (w_proxier w')) ∨ keepalived_current w'.
Proof.
  intros [Hp|(Hr & Hf & Hv)]; [by left|]. rewrite Hr. intros [Hc|Hc]; [by left|right].
  unfold keepalived_current. by rewrite Hf, Hv.
Qed.

(** An event: the tables change only with a request. *)
Lemma event_step ev w w' :
  running w → on_proxier (handle_event ev) w = Ret None w' →
  running w' ∧ haproxy_kept w w' ∧ keepalived_kept w w'.
Proof.
  intros Hrun. destruct (handle_event_does ev (w_proxier w) (run_wf _ Hrun)) as (p' & He & Hh & Hr).
  unfold on_proxier, zoom. rewrite He. intros [= <-].
  pose proof (handled_wf ev _ p' (run_wf _ Hrun) Hh Hr) as Hwf.
  destruct Hh as [(Hc & Hm & Hs & _ & _ & Hhi & Hki) Hvips Hunits Hk Hha].
  pose proof (run_committing _ Hrun) as Hcom. rewrite Hcom in Hk, Hha. simpl in Hk, Hha.
  unfold haproxy_kept, keepalived_kept, h_config, k_config. simpl. rewrite Hk, Hha, Hhi, Hki. split; [|split].
  - apply (running_change w); simpl; try done; try apply Hrun.
    unfold committing. by rewrite Hm, Hs.
  - destruct (asks_haproxy ev) eqn:Ea; [left; eapply invoked_pending, (run_wf _ Hrun)|].
    right. split_and!; [done..|]. apply map_eq. intros n. by rewrite Hunits, unasked_units.
  - destruct (asks_keepalived ev _) eqn:Ea; [left; eapply invoked_pending, (run_wf _ Hrun)|].
    right. split_and!; [done..|]. apply map_eq. intros x. rewrite Hvips, unasked_vips; [done| |done]. apply (run_wf _ Hrun).
Qed.

(** Each step: it commits to HAProxy, or it is quiet. *)
Lemma step_cases w w' :
  environment → running w → step w w' →
  running w' ∧
  ((haproxy_kept w w' ∧ quiet w w') ∨
   (∃ t1 t2 t3 ips, haproxy_worker t1 t2 t3 w = Ret tt w' ∧ answers (w_net w) (ip (w_proxier w)) ips ∧
      haproxy_current_with ips w' ∧
      execs (w_os w') = (Haproxy.ReloadScriptPath (Haproxy.config (haproxyInstance (w_proxier w))), files (w_os w'))
                          :: execs (w_os w))) ∧
  (keepalived_kept w w' ∨ keepalived_current w').
Proof.
  intros Henv Hrun Hst. destruct Hst as [ev w w' He|t1 t2 t3 w w' Hw|t1 t2 t3 w w' Hw|n w].
  - destruct (event_step ev w w' Hrun He) as (Hrun' & Hh & Hk). split_and!; [done| |by left].
    left. split; [done|]. by econstructor.
  - destruct (haproxy_iteration _ _ _ _ _ Henv Hrun Hw) as (Hrun' & Hv & _ & Hk & Hf & Hcur).
    split_and!; [done| |left; right; done].
    destruct Hcur as [[Hp Ho]|(ips & Ha & Hc & He)]; [left|right; by exists t1, t2, t3, ips].
    split; [by left|]. by eapply quiet_haproxy.
  - destruct (keepalived_iteration _ _ _ _ _ Henv Hrun Hw) as (Hrun' & _ & Hv & Hk & Hf & Hcur).
    split_and!; [done| |destruct Hcur; [left; left|right]; done]. left. split; [right; done|by eapply quiet_keepalived].
  - split_and!; [|left; split; [by right|constructor]|left; by right].
    by apply (running_change w); try apply Hrun.
Qed.

(** The daemons' files in a run from [start]: each is up to date or has a request, and
    HAProxy's has the addresses that the device had when its last commit began. *)
Record current_since (start : World) w : Prop := {
  cs_run : rtc step start w;
  cs_running : running w;
  cs_haproxy : pending (rateLimitedCommitFuncForHaproxy (w_proxier w)) ∨
    ∃ w0 ips, last_commit start w0 w ∧ answers (w_net w0) (ip (w_proxier w0)) ips ∧ haproxy_current_with ips w;
  cs_keepalived : pending (rateLimitedCommitFuncForKeepalived (w_proxier w)) ∨ keepalived_current w
}.
Lemma current_since_step start w w' : environment → current_since start w → step w w' → current_since start w'.
Proof.
  intros Henv [Hst Hrun Hh Hk] Hs. destruct (step_cases w w' Henv Hrun Hs) as (Hrun' & Hh' & Hk').
  split; [by eapply rtc_r|done| |].
  - destruct Hh' as [[Hkept Hq]|(t1 & t2 & t3 & ips & Hw & Ha & Hc & He)].
    + destruct Hh as [Hp|(w0 & ips & Hl & Ha & Hc)]; [left; by eapply haproxy_kept_pending|].
      destruct (haproxy_kept_with ips w w' Hkept Hc) as [Hp|Hc']; [by left|right].
      exists w0, ips. split_and!; [by eapply last_commit_quiet|done..].
    + right. exists w, ips. split_and!; [|done..]. right. by exists t1, t2, t3, w'.
  - destruct Hk' as [Hkept|Hc]; [by eapply keepalived_kept_current|by right].
Qed.
Lemma current_since_steps start w : environment → current_since start start → rtc step start w → current_since start w.
Proof.
  intros Henv Hs Hr. eapply (rtc_invariant step (current_since start)); [|exact Hr|done].
  intros a b Ha Hab. by eapply current_since_step.
Qed.

Lemma step_invariant w w' :
  environment → step w w' → running w ∧ consistent w → running w' ∧ consistent w'.
Proof.
  intros Henv Hst [Hrun [Hh Hk]]. destruct (step_cases w w' Henv Hrun Hst) as (Hrun' & Hh' & Hk').
  split; [done|]. split.
  - destruct Hh' as [[Hkept _]|(_ & _ & _ & ips & _ & _ & Hc & _)]; [|right; by exists ips].
    destruct Hh as [Hp|[ips Hc]]; [left; by eapply haproxy_kept_pending|].
    destruct (haproxy_kept_with ips w w' Hkept Hc) as [Hp|Hc']; [by left|right; by exists ips].
  - destruct Hk' as [Hkept|Hc]; [by eapply keepalived_kept_current|by right].
Qed.
End System.

(** ** The properties *)

(** C4: the configurations follow the tables: from a MASTER with commits on whose
    two files are up to date (or have a request waiting), after any events, any
    iterations of the two background loops and any changes of the device, each
    file is what its template renders for the current tables (for HAProxy, with
    the addresses that the device had at the commit), or a request to reload is
    waiting. *)
Theorem configs_follow_tables {net} `{!Netlink net, !NetlinkLaws net, !TextTemplate, !MapOrder}
    k_tpl h_tpl (w w' : World net) :
  environment k_tpl h_tpl → running k_tpl h_tpl w → consistent k_tpl h_tpl w →
  rtc step w w' → running k_tpl h_tpl w' ∧ consistent k_tpl h_tpl w'.
Proof.
  intros Henv Hrun Hc Hst.
  eapply (rtc_invariant step (λ w, running k_tpl h_tpl w ∧ consistent k_tpl h_tpl w)); [|done|done].
  intros a b Ha Hab. by eapply step_invariant.
Qed.

(** C6: a waiting request is honoured: an iteration of the loop at a time when the
    rate limiter lets it run commits.  HAProxy's file is then the template
    rendered with the current units and the addresses that the device has, the
    reload script has been run and has found it there, and no request waits. *)
Theorem request_is_committed {net} `{!Netlink net, !NetlinkLaws net, !TextTemplate, !MapOrder}
    k_tpl h_tpl (w : World net) t1 t2 t3 :
  let p := w_proxier w in
  environment k_tpl h_tpl → running k_tpl h_tpl w →
  pending (rateLimitedCommitFuncForHaproxy p) →
  may_run (Haproxy.ReloadInterval (HaproxyConfig (config p))) (rateLimitedCommitFuncForHaproxy p) t1 →
  ∃ w' ips b, haproxy_worker t1 t2 t3 w = Ret tt w' ∧
    ¬ pending (rateLimitedCommitFuncForHaproxy (w_proxier w')) ∧
    answers (w_net w) (ip p) ips ∧
    renders haproxy_funcs "haproxy_tpl" h_tpl (Routes (mkTemplateData ips (view (routeTable p)))) b ∧
    files (w_os w') !! h_config p = Some b ∧
    execs (w_os w') = (Haproxy.ReloadScriptPath (Haproxy.config (haproxyInstance p)), files (w_os w'))
                        :: execs (w_os w).
Proof.
  intros p Henv Hrun Hpend Hmay. destruct (haproxy_works k_tpl h_tpl w Henv Hrun)
    as (o & n & ips & b & Hc & Hf & Hb & Hr & Ha & _ & He).
  destruct (worker_cases rateLimitedCommitFuncForHaproxy set_rlHaproxy commitAndReloadHaproxy _ w _ t1 t2 t3
    (pw_haproxy _ (run_wf _ _ _ Hrun)) (run_h_interval _ _ _ Hrun) Hc)
    as [[Hno _]|[(rlf & _ & Hno & _)|(rlf & _ & _ & Hres & _ & Hnp)]]; [done..|].
  eexists _, ips, b. split_and!; [exact Hres|done..].
Qed.

(** ** Concrete runs *)
#[local] Existing Instances toy_template order_up one_device one_device_laws.

(** [SetMaster(true)] with an event between the second commit and the call that sets
    the flag. *)
Definition set_master_race : World (list IPNet) :=
  let w := final (commitAndReloadKeepalived (world0 "h:" false)) in
  let w := final (commitAndReloadHaproxy w) in
  let w := final (on_proxier (handle_event added) w) in
  final (on_proxier (zoom master set_master AtomicBool.Set_) w).

(** An event that arrives while [SetMaster(true)] is between its last commit and
    setting the flag is lost to both daemons: the proxier is MASTER and commits are
    on, a service has been added to the tables, the files do not have it, and no
    request waits. *)
Theorem SetMaster_loses_event :
  committing (w_proxier set_master_race) = true ∧
  is_Some (view (routeTable (w_proxier set_master_race)) !! key_a) ∧
  ¬ pending (rateLimitedCommitFuncForHaproxy (w_proxier set_master_race)) ∧
  ¬ pending (rateLimitedCommitFuncForKeepalived (w_proxier set_master_race)) ∧
  files (w_os set_master_race) !! "/h.cfg" = Some "h:" ∧
  files (w_os set_master_race) !! "/k.conf" = Some "k:".
Proof.
  vm_compute. split_and!; [done|by eexists|intros H; by apply H|intros H; by apply H|done..].
Qed.

(** A request is queued, the proxier becomes BACKUP, and the loop iterates. *)
Definition backup_commit : World (list IPNet) :=
  final (haproxy_worker 0%Z 0%Z 0%Z (final (SetMaster false (world1 "h:" true)))).

(** The proxier reloads in BACKUP state too: a request that was queued before
    the transition is still committed, and HAProxy's script is run. *)
Theorem backup_still_reloads :
  committing (w_proxier backup_commit) = false ∧
  (execs (w_os backup_commit)).*1 = ["/h.sh"] ∧
  files (w_os backup_commit) !! "/h.cfg" = Some "h:default:web:a;".
Proof. vm_compute. split_and!; reflexivity. Qed.

(** ** Witnesses *)
Lemma sample_environment : environment (net := list IPNet) "k:" "h:".
Proof.
  split.
  - intros vips. by eexists.
  - intros data. by eexists.
  - intros r n. by eexists _, n.
Qed.

Lemma sample_running : running "k:" "h:" (world0 "h:" true).
Proof.
  split; try by vm_compute.
  - apply proxier0_wf.
  - by exists "old".
  - by exists "old".
  - intros q Hq. vm_compute in Hq. intros Ht. vm_compute in Ht. set_solver.
  - intros q Hq. vm_compute in Hq. intros Ht. vm_compute in Ht. set_solver.
Qed.

Definition world_added : World (list IPNet) := final (on_proxier (handle_event added) (world0 "h:" true)).
Definition world_done : World (list IPNet) := final (haproxy_worker 0%Z 0%Z 0%Z world_added).

Lemma world_added_running : running "k:" "h:" world_added.
Proof.
  destruct (event_step "k:" "h:" added (world0 "h:" true) world_added sample_running) as [H _]; [|done].
  vm_compute. reflexivity.
Qed.

Lemma configs_follow_tables_witness :
  running "k:" "h:" world_done ∧ consistent "k:" "h:" world_done.
Proof.
  refine (configs_follow_tables "k:" "h:" world_added world_done sample_environment
    world_added_running _ _).
  - split; left; vm_compute; discriminate.
  - apply rtc_once, (step_haproxy 0%Z 0%Z 0%Z). vm_compute. reflexivity.
Defined.

Lemma request_is_committed_witness :
  ∃ w' ips b, haproxy_worker 0%Z 0%Z 0%Z world_added = Ret tt w' ∧
    ¬ pending (rateLimitedCommitFuncForHaproxy (w_proxier w')) ∧
    answers (w_net world_added) (ip (w_proxier world_added)) ips ∧
    renders haproxy_funcs "haproxy_tpl" "h:"
      (Routes (mkTemplateData ips (view (routeTable (w_proxier world_added))))) b ∧
    files (w_os w') !! h_config (w_proxier world_added) = Some b ∧
    execs (w_os w') =
      (Haproxy.ReloadScriptPath (Haproxy.config (haproxyInstance (w_proxier world_added))), files (w_os w'))
      :: execs (w_os world_added).
Proof.
  refine (request_is_committed "k:" "h:" world_added 0%Z 0%Z 0%Z sample_environment
    world_added_running _ _).
  - vm_compute. discriminate.
  - vm_compute. exact I.
Defined.
