(* ===== verification/Shipped.v ===== *)
(** The templates that ship with the program ([templates/]), and what the daemons'
    configurations contain when they are rendered by the engine of [GoTemplate]:
    the front end and the back end of every unit whose address is bound, in the
    order of the units' keys, and a line for every virtual address. *)

From Stdlib Require Import Ascii.
From stdpp Require Import gmap strings list relations pretty sorting.
From S2P Require Import Prelude GoStrings Types PtrMap RateLimiter OS Configurer Instances Template GoTemplate.
From S2P Require Import Proxier ProxierSpec ProxierProps Commit IPAddr IPAddrProps CommitProps System.

(** ** The templates *)
Definition quote : string := String "034" "".

Definition haproxy_cfg_template : string := "global
  maxconn 4096

defaults
  log global
  timeout connect 300000
  timeout client 300000
  timeout server 300000
  maxconn 2000

{{ $ips := .IPs }}
{{ range $name, $service := .RouteTable -}} {{ if hasIP $ips $service.ServiceInfo.ClusterIP }}
frontend {{ $name }}
    bind {{ $service.ServiceInfo.ClusterIP }}:{{ $service.ServiceInfo.Port }}
    mode {{ $service.ServiceInfo.Protocol | ToLower }}
    default_backend {{ $name }}_backend

backend {{ $name }}_backend
    {{ range $index, $endpoints := $service.Endpoints }} 
    server server{{ $index }} {{ $endpoints.IP }}:{{ $endpoints.Port }}
    {{ end -}}
{{ end }}
{{ end -}}
".

Definition keepalived_master_template : string := "! Configuration File for keepalived

global_defs {
    router_id haproxy-10-0-0.2               
}

vrrp_script chk_haproxy {
    script " +:+ quote +:+ "/etc/keepalived/check_haproxy.sh" +:+ quote +:+ "    
    interval 4                                   
}

vrrp_instance kube-haproxy {
    state BACKUP            
    interface eth0    
    virtual_router_id 89     
    priority 101            
    nopreempt               
    advert_int 1            
    authentication {        
        auth_type PASS
        auth_pass PaaS-HAproxy
    }

    track_script {          
        chk_haproxy
    }

    virtual_ipaddress {     
    }

    virtual_ipaddress_excluded {  
        {{ range $ip, $value := . -}}
        {{ $ip }} dev eth0 
        {{ end -}}
    }
}
".

Definition keepalived_backup_template : string := "! Configuration File for keepalived

global_defs {
    router_id haproxy-10-0-0.1              
}

vrrp_script chk_haproxy {
    script " +:+ quote +:+ "/etc/keepalived/check_haproxy.sh" +:+ quote +:+ "    
    interval 4                        
}

vrrp_instance kube-haproxy {
    state BACKUP            
    interface eth0    
    virtual_router_id 89    
    priority 100            
    nopreempt              
    advert_int 1            
    authentication {        
        auth_type PASS
        auth_pass PaaS-HAproxy
    }

    track_script {          
        chk_haproxy
    }

    virtual_ipaddress {     
    }

    virtual_ipaddress_excluded {    
        {{ range $ip, $value := . -}}
        {{ $ip }} dev eth0 
        {{ end -}}
    }
}
".

(** ** What they render *)
Definition strcat (l : list string) : string := foldr String.append "" l.

Definition server_line (i : Z) (e : Endpoint) : string :=
  " 
    server server" +:+ pretty i +:+ " " +:+ ep_IP e +:+ ":" +:+ pretty (ep_port e) +:+ "
    ".

(** The front end of a unit, and its back end up to the servers. *)
Definition frontend (name : string) (u : ServiceUnit) : string :=
  "
frontend " +:+ name +:+ "
    bind " +:+ ClusterIP (ServiceInfo u) +:+ ":" +:+ pretty (Port (ServiceInfo u)) +:+ "
    mode " +:+ ToLower (Protocol (ServiceInfo u)) +:+ "
    default_backend " +:+ name +:+ "_backend

backend " +:+ name +:+ "_backend
    ".
Definition servers (u : ServiceUnit) : string :=
  strcat (imap (λ i, server_line (Z.of_nat i)) (Endpoints u)).

Definition haproxy_unit (ips : gmap string bool) (name : string) (u : ServiceUnit) : string :=
  (if hasIP ips (ClusterIP (ServiceInfo u)) then frontend name u +:+ servers u else "") +:+ "
".

Definition haproxy_header : string := "global
  maxconn 4096

defaults
  log global
  timeout connect 300000
  timeout client 300000
  timeout server 300000
  maxconn 2000


".

Definition haproxy_cfg (d : TemplateData) : string :=
  haproxy_header +:+
  strcat (omap (λ k, haproxy_unit (IPs d) k <$> RouteTable d !! k) (sorted_keys (RouteTable d))).

Definition vip_line (ip : string) : string := ip +:+ " dev eth0 
        ".

Definition keepalived_tail : string := "}
}
".

(** What a template has before its first action. *)
Definition text_before (tpl : string) : string :=
  String.substring 0 (default 0 (String.index 0 "{{" tpl)) tpl.

Definition keepalived_cfg (head : string) (vips : gmap string bool) : string :=
  head +:+ strcat (vip_line <$> sorted_keys vips) +:+ keepalived_tail.

Section Rendered.
Variable print_other : value → string.

Lemma for_items_all body env l (f : value * value → string) :
  (∀ x, x ∈ l → ∃ env', body x = (f x, Some env')) →
  for_items body env l = (strcat (f <$> l), Some env).
Proof.
  induction l as [|x l IH]; intros H; [done|]. simpl.
  destruct (H x) as [env' Hx]; [left|]. rewrite Hx. unfold and_then. simpl.
  rewrite IH; [done|]. intros y Hy. apply H. by right.
Qed.

(** A [range] without [else] whose iterations all succeed. *)
Lemma exec_range funcs p l env dot v xs (f : value * value → string) :
  eval_pipeline funcs env dot p = Some v → items v = Some xs →
  (∀ x, x ∈ xs → ∃ env',
     exec_nodes print_other funcs l (iteration env p x.1 x.2) x.2 = (f x, Some env')) →
  exec_node print_other funcs (N_range p l []) env dot = (strcat (f <$> xs), Some env).
Proof.
  intros Hp Hi Hx. simpl. rewrite Hp, Hi. destruct xs as [|x xs]; [done|].
  by rewrite (for_items_all _ _ _ f) by done.
Qed.

Definition haproxy_tree : list node :=
  Eval vm_compute in default [] (parse_template haproxy_funcs haproxy_cfg_template).

(** The loop over the units, and the loop over the endpoints in it. *)
Definition units_node : node := Eval vm_compute in default (N_text "") (last haproxy_tree).
Definition servers_node : node := Eval vm_compute in
  match units_node with
  | N_range _ [N_if _ l _; _] _ => default (N_text "") (last l)
  | _ => N_text ""
  end.

(** The loop over the virtual addresses. *)
Definition vips_node : node := Eval vm_compute in
  match parse_template ∅ keepalived_master_template with Some [_; n; _] => n | _ => N_text "" end.

(** What one iteration writes. *)
Definition server_text (x : value * value) : string :=
  match x with (V_int i, V_endpoint e) => server_line i e | _ => "" end.
Definition unit_text (ips : gmap string bool) (x : value * value) : string :=
  match x with (V_string k, V_unit u) => haproxy_unit ips k u | _ => "" end.
Definition vip_text (x : value * value) : string :=
  match x with (V_string ip, _) => vip_line ip | _ => "" end.

Lemma exec_servers u n env dot :
  exec_node print_other haproxy_funcs servers_node (("service", V_unit u) :: n :: env) dot =
    (servers u, Some (("service", V_unit u) :: n :: env)).
Proof.
  cbv [servers_node].
  erewrite (exec_range _ _ _ _ _ (V_endpoints (Endpoints u)) _ server_text); [|reflexivity..|].
  - unfold servers. by rewrite fmap_imap.
  - intros x (i & e & -> & _)%elem_of_lookup_imap. by eexists.
Qed.

(** Nodes one after the other. *)
Lemma exec_app funcs l l' env dot s env' :
  exec_nodes print_other funcs l env dot = (s, Some env') →
  exec_nodes print_other funcs (l ++ l') env dot =
    (s +:+ (exec_nodes print_other funcs l' env' dot).1, (exec_nodes print_other funcs l' env' dot).2).
Proof.
  unfold exec_nodes. revert env s. induction l as [|n l IH]; intros env s; simpl.
  - intros [= <- <-]. by destruct (exec_sequence _ _ _ _).
  - unfold and_then. destruct (exec_node _ _ n env dot) as [s1 [env1|]]; simpl; [|done].
    destruct (exec_sequence _ l env1 dot) as [s2 r2] eqn:E. intros [= <- ->]. simpl.
    rewrite (IH _ _ E). simpl. by rewrite append_assoc.
Qed.

Lemma exec_one funcs n env dot s env' :
  exec_node print_other funcs n env dot = (s, Some env') →
  exec_nodes print_other funcs [n] env dot = (s, Some env').
Proof. intros H. unfold exec_nodes. simpl. rewrite H. unfold and_then. simpl. by rewrite append_empty_r. Qed.

(** The nodes inside the [if], without the loop. *)
Definition front_nodes : list node := Eval vm_compute in
  match units_node with N_range _ [N_if _ l _; _] _ => removelast l | _ => [] end.
Definition hasIP_pipe : pipeline := Eval vm_compute in
  match units_node with N_range _ [N_if p _ _; _] _ => p | _ => mkPipeline [] [] end.

(** One iteration of the loop over the units. *)
Lemma exec_if ips k u rest :
  let env := [("service", V_unit u); ("name", V_string k); ("ips", V_ips ips); rest] in
  exec_node print_other haproxy_funcs (N_if hasIP_pipe (front_nodes ++ [servers_node]) []) env (V_unit u) =
    (if hasIP ips (ClusterIP (ServiceInfo u)) then frontend k u +:+ servers u else "", Some env).
Proof.
  intros env. cbn [exec_node].
  change (eval_pipeline haproxy_funcs env (V_unit u) hasIP_pipe)
    with (Some (V_bool (hasIP ips (ClusterIP (ServiceInfo u))))). cbv beta iota.
  cbn [truth]. destruct (hasIP ips _); [|done].
  change (exec_sequence (exec_node print_other haproxy_funcs)) with (exec_nodes print_other haproxy_funcs).
  rewrite (exec_app _ _ _ _ _ (frontend k u) env) by reflexivity.
  by rewrite (exec_one haproxy_funcs servers_node env (V_unit u) (servers u) env) by apply exec_servers.
Qed.

Lemma exec_unit ips k u rest :
  let env := [("service", V_unit u); ("name", V_string k); ("ips", V_ips ips); rest] in
  exec_nodes print_other haproxy_funcs [N_if hasIP_pipe (front_nodes ++ [servers_node]) []; N_text "
"] env (V_unit u) = (haproxy_unit ips k u, Some env).
Proof.
  intros env. change ([?n; ?m]) with ([n] ++ [m]).
  by erewrite exec_app by (apply exec_one, exec_if).
Qed.

(** The items of the loop over the units, in the order of their keys. *)
Lemma map_items_text {A} (m : gmap string A) (mk : A → value) (f : value * value → string)
    (g : string → A → string) (ks : list string) :
  (∀ k a, f (V_string k, mk a) = g k a) →
  f <$> omap (λ k, (λ a, (V_string k, mk a)) <$> m !! k) ks = omap (λ k, g k <$> m !! k) ks.
Proof.
  intros H. induction ks as [|k ks IH]; [done|]. cbn. destruct (m !! k); [|done].
  cbn. by rewrite H, <-IH.
Qed.

Lemma haproxy_rendered d :
  exec_nodes print_other haproxy_funcs haproxy_tree [("", V_data d)] (V_data d) =
    (haproxy_cfg d, Some [("ips", V_ips (IPs d)); ("", V_data d)]).
Proof.
  change haproxy_tree with (removelast haproxy_tree ++ [units_node]).
  rewrite (exec_app _ _ _ _ _ haproxy_header [("ips", V_ips (IPs d)); ("", V_data d)]) by reflexivity.
  cbv [units_node].
  erewrite exec_one; [|eapply (exec_range _ _ _ _ _ (V_routes (RouteTable d)) _ (unit_text (IPs d)))];
    [|reflexivity..|].
  - unfold haproxy_cfg. simpl. by rewrite (map_items_text _ _ _ (haproxy_unit (IPs d))).
  - intros x (k & _ & Hx)%list_elem_of_omap. apply fmap_Some in Hx as (u & _ & ->).
    eexists. apply exec_unit.
Qed.

(** A map has a value at each of its sorted keys. *)
Lemma omap_sorted_keys {A} (m : gmap string A) (g : string → string) :
  omap (λ k, (λ _, g k) <$> m !! k) (sorted_keys m) = g <$> sorted_keys m.
Proof.
  assert (∀ k, k ∈ sorted_keys m → is_Some (m !! k)) as H.
  { intros k. unfold sorted_keys. rewrite merge_sort_Permutation.
    intros ([k' a] & -> & Ha)%list_elem_of_fmap. exists a. by apply elem_of_map_to_list. }
  induction (sorted_keys m) as [|k ks IH]; [done|]. cbn.
  destruct (H k) as [a ->]; [left|]. cbn. f_equal. apply IH. intros k' Hk. apply H. by right.
Qed.

Lemma keepalived_rendered tree head vips :
  tree = [N_text head; vips_node; N_text keepalived_tail] →
  exec_nodes print_other ∅ tree [("", V_ips vips)] (V_ips vips) =
    (keepalived_cfg head vips, Some [("", V_ips vips)]).
Proof.
  intros ->. change [N_text head; ?n; ?m] with ([N_text head] ++ [n] ++ [m]).
  rewrite (exec_app _ _ _ _ _ head [("", V_ips vips)]) by (by apply exec_one).
  cbv [vips_node]. erewrite exec_app.
  2: { apply exec_one. eapply (exec_range _ _ _ _ _ (V_ips vips) _ vip_text); [reflexivity..|].
       intros x (k & _ & Hx)%list_elem_of_omap. apply fmap_Some in Hx as (b & _ & ->).
       eexists. reflexivity. }
  unfold keepalived_cfg. simpl.
  by rewrite (map_items_text _ _ _ (λ ip _, vip_line ip)), omap_sorted_keys.
Qed.
End Rendered.

(** ** With the engine *)
Section Engine.
Variable print_other : value → string.
#[local] Instance engine : TextTemplate := go_template print_other.

Lemma engine_renders funcs name content data tree out env :
  parse_template funcs content = Some tree →
  exec_nodes print_other funcs tree [("", value_of data)] (value_of data) = (out, Some env) →
  renders funcs name content data out.
Proof.
  intros Hp He. unfold renders, rendered, engine, go_template.
  cbn [Parse]. rewrite Hp. cbv zeta. cbn [Execute fst snd]. by rewrite He.
Qed.

Lemma haproxy_renders data :
  renders haproxy_funcs "haproxy_tpl" haproxy_cfg_template (Routes data) (haproxy_cfg data).
Proof.
  eapply engine_renders; [|apply haproxy_rendered]. vm_compute. reflexivity.
Qed.

Definition keepalived_templates : list string :=
  [keepalived_master_template; keepalived_backup_template].

Lemma keepalived_renders tpl vips :
  tpl ∈ keepalived_templates →
  renders ∅ "keepalived_tpl" tpl (VipTable vips) (keepalived_cfg (text_before tpl) vips).
Proof.
  intros Htpl. set (tree := [N_text (text_before tpl); vips_node; N_text keepalived_tail]).
  eapply (engine_renders _ _ _ _ tree); [|by apply keepalived_rendered]. subst tree.
  repeat (apply elem_of_cons in Htpl as [->|Htpl]; [vm_compute; reflexivity|]).
  by apply elem_of_nil in Htpl.
Qed.

Lemma renders_fun funcs name content data b b' :
  renders funcs name content data b' → renders funcs name content data b → b = b'.
Proof. unfold renders. intros ->. by intros [= ->]. Qed.

(** The environment of [System] works if the device can be listed. *)
Lemma shipped_environment {net} `{!Netlink net} tpl :
  tpl ∈ keepalived_templates → (∀ r (n : net), ∃ ips n', GetAddrs r n = Ret (inr ips) n') →
  environment (net := net) tpl haproxy_cfg_template.
Proof.
  intros Htpl Ha. split; [|intros data; eexists; apply haproxy_renders|done].
  intros vips. eexists. by apply keepalived_renders.
Qed.
End Engine.

(** ** The properties *)

(** The shipped templates render to the configurations that are written out
    here: HAProxy's has, after the header, a front end and a back end with one
    server per endpoint for every unit whose address is bound, in the order of the
    keys, and nothing for the others; keepalived's has one line per virtual
    address, in order. *)
Theorem shipped_templates_render print_other d vips (s : unit) :
  let _ := go_template print_other in
  RenderTemplateWithFuncs "haproxy_tpl" haproxy_cfg_template (Routes d) s =
    Ret (inr (haproxy_cfg d)) s ∧
  RenderTemplate "keepalived_tpl" keepalived_master_template (VipTable vips) s =
    Ret (inr (keepalived_cfg (text_before keepalived_master_template) vips)) s ∧
  RenderTemplate "keepalived_tpl" keepalived_backup_template (VipTable vips) s =
    Ret (inr (keepalived_cfg (text_before keepalived_backup_template) vips)) s.
Proof.
  intros e. subst e. rewrite RenderTemplateWithFuncs_spec, !RenderTemplate_spec.
  pose proof (haproxy_renders print_other d) as Hh.
  pose proof (λ tpl, keepalived_renders print_other tpl vips) as Hk.
  unfold renders, engine in Hh, Hk. rewrite Hh.
  rewrite (Hk keepalived_master_template) by left.
  rewrite (Hk keepalived_backup_template) by (right; left).
  split; [reflexivity|split; reflexivity].
Qed.

(** The files of the daemons, for some addresses of the device. *)
Definition haproxy_file {net} ips (w : World net) : Prop :=
  files (w_os w) !! h_config (w_proxier w) =
    Some (haproxy_cfg (mkTemplateData ips (view (routeTable (w_proxier w))))).
Definition keepalived_file {net} k_tpl (w : World net) : Prop :=
  files (w_os w) !! k_config (w_proxier w) = Some (keepalived_cfg (text_before k_tpl) (vipTable (w_proxier w))).

(** C2: what the daemons serve, with the shipped templates: a MASTER with commits on
    that started with its files up to date (or with requests waiting) has, after any
    events, iterations of the background loops and changes of the device, and when no
    request waits, exactly the configuration of its current tables in the two files: for
    HAProxy, of the units whose address the device had when the last iteration that
    committed to HAProxy began (or at the start, if none has). *)
Theorem daemons_serve_tables {net} `{!Netlink net, !NetlinkLaws net, !MapOrder} print_other k_tpl
    (w w' : World net) :
  let _ := go_template print_other in
  k_tpl ∈ keepalived_templates → (∀ r (n : net), ∃ ips n', GetAddrs r n = Ret (inr ips) n') →
  running k_tpl haproxy_cfg_template w →
  pending (rateLimitedCommitFuncForHaproxy (w_proxier w)) ∨
    (∃ ips, answers (w_net w) (ip (w_proxier w)) ips ∧ haproxy_file ips w) →
  pending (rateLimitedCommitFuncForKeepalived (w_proxier w)) ∨ keepalived_file k_tpl w →
  rtc step w w' →
  (¬ pending (rateLimitedCommitFuncForHaproxy (w_proxier w')) →
     ∃ w0 ips, last_commit w w0 w' ∧ answers (w_net w0) (ip (w_proxier w0)) ips ∧ haproxy_file ips w') ∧
  (¬ pending (rateLimitedCommitFuncForKeepalived (w_proxier w')) → keepalived_file k_tpl w').
Proof.
  intros e Htpl Ha Hrun Hh Hk Hst. pose proof (shipped_environment print_other k_tpl Htpl Ha) as Henv.
  assert (current_since k_tpl haproxy_cfg_template w w) as Hc.
  { split; [done|done| |].
    - destruct Hh as [?|(ips & Hans & Hf)]; [by left|right]. exists w, ips.
      split_and!; [by left|done|]. eexists. split; [exact Hf|apply (haproxy_renders print_other)].
    - destruct Hk as [?|Hf]; [by left|right]. eexists. split; [exact Hf|by apply (keepalived_renders print_other)]. }
  destruct (current_since_steps _ _ w w' Henv Hc Hst) as [_ _ Hh' Hk']. split; intros Hno.
  - destruct Hh' as [?|(w0 & ips & Hl & Hans & b & Hf & Hr)]; [done|]. exists w0, ips. split_and!; [done..|].
    unfold haproxy_file. rewrite Hf. eapply renders_fun in Hr as ->; [done|apply (haproxy_renders print_other)].
  - destruct Hk' as [?|(b & Hf & Hr)]; [done|]. unfold keepalived_file. rewrite Hf.
    eapply renders_fun in Hr as ->; [done|by apply (keepalived_renders print_other)].
Qed.

(** ** A concrete run *)
#[local] Existing Instances order_up one_device one_device_laws.
#[local] Instance sample_engine : TextTemplate := go_template (λ _, "").

(** The files of [cfg0] with the shipped templates, and a device with the address of
    the service [web]. *)
Definition shipped_world : World (list IPNet) :=
  mkWorld (proxier0 true false)
    (mkOS {[ "/k.tpl" := keepalived_master_template; "/h.tpl" := haproxy_cfg_template;
             "/k.conf" := "old"; "/h.cfg" := "old" ]} [] [])
    [lo_net; mkIPNet [10; 0; 0; 1]%Z DefaultMask].

Definition shipped_added : World (list IPNet) := final (on_proxier (handle_event added) shipped_world).
Definition shipped_ready : World (list IPNet) := final (on_proxier (handle_event ready) shipped_added).
Definition shipped_done : World (list IPNet) := final (haproxy_worker 0%Z 0%Z 0%Z shipped_ready).

Lemma shipped_running : running keepalived_master_template haproxy_cfg_template shipped_world.
Proof.
  split; try by vm_compute.
  - apply proxier0_wf.
  - by exists "old".
  - by exists "old".
  - intros q Hq. vm_compute in Hq. intros Ht. vm_compute in Ht. set_solver.
  - intros q Hq. vm_compute in Hq. intros Ht. vm_compute in Ht. set_solver.
Qed.

Lemma shipped_added_running :
  running keepalived_master_template haproxy_cfg_template shipped_added.
Proof.
  destruct (event_step keepalived_master_template haproxy_cfg_template added shipped_world
    shipped_added shipped_running) as [H _]; [|done].
  vm_compute. reflexivity.
Qed.

(** The file that HAProxy reads in this run. *)
Example served_text :
  files (w_os shipped_done) !! "/h.cfg" = Some (haproxy_header +:+ "
frontend default:web:a
    bind 10.0.0.1:80
    mode tcp
    default_backend default:web:a_backend

backend default:web:a_backend
     
    server server0 1.1.1.1:8080
     
    server server1 1.1.1.2:8080
    
").
Proof. vm_compute. reflexivity. Qed.

(** ** Witnesses *)
Lemma daemons_serve_tables_witness :
  ∃ w0 ips, last_commit shipped_added w0 shipped_done ∧ answers (w_net w0) (ip (w_proxier w0)) ips ∧
    haproxy_file ips shipped_done.
Proof.
  refine (proj1 (daemons_serve_tables (λ _, "") keepalived_master_template shipped_added shipped_done
    _ _ _ _ _ _) _).
  - left.
  - intros r n. by eexists _, n.
  - apply shipped_added_running.
  - left. vm_compute. discriminate.
  - left. vm_compute. discriminate.
  - eapply rtc_l; [|apply rtc_once].
    + apply (step_event ready shipped_added shipped_ready). vm_compute. reflexivity.
    + apply (step_haproxy 0%Z 0%Z 0%Z). vm_compute. reflexivity.
  - vm_compute. intros H. by apply H.
Defined.
