(* ===== verification/Controller.v ===== *)
(** [proxy/controller/controller.go]: the controller takes the events of services
    and of endpoints from their queues, keeps the state of the first lists, and
    hands the events to the proxier.

    The controller's own lock is a flag like the proxier's.  [New] starts the two
    reflectors ([Reflection]); a call on a queue by a reflector is a step of its own
    ([Pipeline]).  [Run] starts the two
    loops [wait.Until(c.HandleService, 0, stopCh)] and
    [wait.Until(c.HandleEndpoints, 0, stopCh)], whose iterations are
    [service_loop] and [endpoints_loop], and a loop that receives signals, whose
    body is [handle_signal]. *)

From stdpp Require Import gmap strings list.
From S2P Require Import Prelude Wait Types KStore EventQueue RateLimiter IPAddr Template Proxier.
From S2P Require Import Commit.

(** The queues that [New] makes: [khcache.NewEventQueue(cache.MetaNamespaceKeyFunc)]. *)
Definition service_key : ApiService → error + string := MetaNamespaceKeyFunc.
Definition endpoints_key : ApiEndpoints → error + string := MetaNamespaceKeyFunc.

Definition service_store : Type := Cache.cacheStorage (obj := ApiService).
Definition endpoints_store : Type := Cache.cacheStorage (obj := ApiEndpoints).

#[export] Instance service_ops `{!MapOrder} : StoreOps service_store ApiService := Cache.cache_ops service_key.
#[export] Instance service_laws `{!MapOrder} : StoreLaws service_store ApiService service_key :=
  Cache.cache_laws service_key.
#[export] Instance endpoints_ops `{!MapOrder} : StoreOps endpoints_store ApiEndpoints :=
  Cache.cache_ops endpoints_key.
#[export] Instance endpoints_laws `{!MapOrder} : StoreLaws endpoints_store ApiEndpoints endpoints_key :=
  Cache.cache_laws endpoints_key.

(** [Proxier] is the world with the proxier that the controller points to; the four
    function fields of the struct are closures over the two queues. *)
Record ProxyController (net : Type) := mkProxyController {
  lock : bool;
  Proxier : World net;
  serviceEventQueue : EventQueue service_store;
  endpointsEventQueue : EventQueue endpoints_store;
  serviceListConsumed : bool;
  endpointsListConsumed : bool
}.
Arguments mkProxyController {net} _ _ _ _ _ _.
Arguments lock {net} _.
Arguments Proxier {net} _.
Arguments serviceEventQueue {net} _.
Arguments endpointsEventQueue {net} _.
Arguments serviceListConsumed {net} _.
Arguments endpointsListConsumed {net} _.

Inductive signal : Type := SIGUSR1 | SIGUSR2.

Section Controller.
Context {net : Type} `{!Netlink net, !TextTemplate, !MapOrder}.
Local Abbreviation ProxyController := (ProxyController net).

Definition New (proxier : World net) : ProxyController :=
  mkProxyController false proxier NewEventQueue NewEventQueue false false.

Definition set_lock b (c : ProxyController) : ProxyController := mkProxyController b (Proxier c)
  (serviceEventQueue c) (endpointsEventQueue c) (serviceListConsumed c) (endpointsListConsumed c).
Definition set_Proxier w (c : ProxyController) : ProxyController := mkProxyController (lock c) w
  (serviceEventQueue c) (endpointsEventQueue c) (serviceListConsumed c) (endpointsListConsumed c).
Definition set_services q (c : ProxyController) : ProxyController := mkProxyController (lock c)
  (Proxier c) q (endpointsEventQueue c) (serviceListConsumed c) (endpointsListConsumed c).
Definition set_endpoints q (c : ProxyController) : ProxyController := mkProxyController (lock c)
  (Proxier c) (serviceEventQueue c) q (serviceListConsumed c) (endpointsListConsumed c).
Definition set_serviceListConsumed b (c : ProxyController) : ProxyController :=
  mkProxyController (lock c) (Proxier c) (serviceEventQueue c) (endpointsEventQueue c) b
    (endpointsListConsumed c).
Definition set_endpointsListConsumed b (c : ProxyController) : ProxyController :=
  mkProxyController (lock c) (Proxier c) (serviceEventQueue c) (endpointsEventQueue c)
    (serviceListConsumed c) b.

Definition on_services {A} (m : M (EventQueue service_store) A) : M ProxyController A :=
  zoom serviceEventQueue set_services m.
Definition on_endpoints {A} (m : M (EventQueue endpoints_store) A) : M ProxyController A :=
  zoom endpointsEventQueue set_endpoints m.
Definition on_world {A} (m : M (World net) A) : M ProxyController A := zoom Proxier set_Proxier m.

(** [c.lock.Lock(); defer c.lock.Unlock()] around the rest of a body. *)
Definition Lock : M ProxyController unit := λ c,
  if lock c then Block c else Ret tt (set_lock true c).
Definition locked {A} (body : M ProxyController A) : M ProxyController A :=
  Lock ;; deferred (set_lock false) body.

(** The closures.  The type assertion on the popped object fails on a [nil]
    interface only. *)
Definition NextService : M ProxyController (EventType * option ApiService * option error) :=
  r ← on_services Pop;
  let '(eventType, obj, err) := r in
  match err with
  | Some err => mret (Error, None, Some err)
  | None =>
      match obj with
      | Some service => mret (eventType, Some service, None)
      | None => panic "interface conversion: interface is nil"
      end
  end.

Definition NextEndpoints : M ProxyController (EventType * option ApiEndpoints * option error) :=
  r ← on_endpoints Pop;
  let '(eventType, obj, err) := r in
  match err with
  | Some err => mret (Error, None, Some err)
  | None =>
      match obj with
      | Some endpoints => mret (eventType, Some endpoints, None)
      | None => panic "interface conversion: interface is nil"
      end
  end.

Definition ServiceListConsumed : M ProxyController bool := on_services ListConsumed.
Definition EndpointsListConsumed : M ProxyController bool := on_endpoints ListConsumed.

Definition updateLastSyncProcessed : M ProxyController unit :=
  lastSyncProcessed ← gets (λ c, endpointsListConsumed c && serviceListConsumed c);
  on_world (on_proxier (SetSkipCommit (negb lastSyncProcessed))).

(** [HandleService] and [HandleEndpoints]; the errors go to
    [utilruntime.HandleError], which logs them. *)
Definition HandleService : M ProxyController unit :=
  r ← NextService;
  let '(eventType, service, err) := r in
  match err : option error, service with
  | None, Some service =>
      locked (
        consumed ← ServiceListConsumed;
        modify (set_serviceListConsumed consumed) ;;
        updateLastSyncProcessed ;;
        on_world (on_proxier (Proxier.HandleService eventType service)) ;;
        mret tt)
  | _, _ => mret tt
  end.

Definition HandleEndpoints : M ProxyController unit :=
  r ← NextEndpoints;
  let '(eventType, endpoints, err) := r in
  match err : option error, endpoints with
  | None, Some endpoints =>
      locked (
        consumed ← EndpointsListConsumed;
        modify (set_endpointsListConsumed consumed) ;;
        updateLastSyncProcessed ;;
        on_world (on_proxier (Proxier.HandleEndpoints eventType endpoints)) ;;
        mret tt)
  | _, _ => mret tt
  end.

(** The bodies of the goroutines that [Run] starts. *)
Definition service_loop : M ProxyController unit := recover_panic HandleService.
Definition endpoints_loop : M ProxyController unit := recover_panic HandleEndpoints.
Definition handle_signal (sig : signal) : M ProxyController unit :=
  match sig with
  | SIGUSR1 => on_world (SetMaster true)
  | SIGUSR2 => on_world (SetMaster false)
  end.
End Controller.
