(* ===== verification/Pipeline.v ===== *)
(** From the API to the route table: the queues, the controller and the proxier
    together.

    [handle_service_spec] and [handle_endpoints_spec] say what one iteration of
    the controller's loops does.  [pipeline] is the step relation of the whole:
    a reflector announces changes of the services or relists them, the endpoints
    queue and the world around the proxier's tables change in any way, and the
    controller handles events.  [run] follows one object with the endpoints of the API as
    well. *)

From stdpp Require Import gmap strings list relations.
From S2P Require ThreadSafeStore.
From S2P Require Import Prelude GoStrings Wait Types KStore PtrMap RateLimiter IPAddr IPAddrProps.
From S2P Require Import Template Proxier ProxierSpec ProxierFacts ProxierHandlers ProxierProps.
From S2P Require Import Commit Controller EventQueue EventQueueFacts EventQueueSpec.

(** ** One iteration of the controller *)
Section Iteration.
Context {net : Type} `{!Netlink net, !TextTemplate} {mo : MapOrder}.
Local Abbreviation ProxyController := (ProxyController net).
Implicit Types (c : ProxyController).

Definition tables c : Proxier.Proxier := w_proxier (Controller.Proxier c).

Lemma SetSkipCommit_spec b p : SetSkipCommit b p = Ret tt (set_skipCommit b p).
Proof.
  unfold SetSkipCommit. rewrite (bind_Ret _ _ _ (skipCommit p) p) by done.
  destruct (Bool.eqb (skipCommit p) b) eqn:E; simpl; [|done].
  apply eqb_prop in E as <-. by destruct p.
Qed.

Lemma set_skipCommit_wf b p : proxier_wf p → proxier_wf (set_skipCommit b p).
Proof. intros []. by split. Qed.

(** The controller after an event has been handled: the queues, the two flags and the
    proxier. *)
Definition after_event c qs qe s e (p : Proxier.Proxier) : ProxyController :=
  mkProxyController false (mkWorld p (w_os (Controller.Proxier c)) (w_net (Controller.Proxier c))) qs qe s e.

Lemma locked_spec {A} (body : M ProxyController A) c a c' :
  Controller.lock c = false → body (Controller.set_lock true c) = Ret a c' →
  Controller.locked body c = Ret a (Controller.set_lock false c').
Proof.
  intros Hl Hb. unfold Controller.locked. rewrite (bind_Ret _ _ _ tt (Controller.set_lock true c))
    by (unfold Controller.Lock; by rewrite Hl). unfold deferred. by rewrite Hb.
Qed.

(** Popping and dispatching an event. *)
Lemma handle_service_spec c t s qs :
  Controller.lock c = false → proxier_wf (tables c) →
  Pop (serviceEventQueue c) = Ret (t, Some s, None) qs →
  let consumed := bool_decide (lastReplaceKey qs = "") in
  let skip := negb (endpointsListConsumed c && consumed) in
  ∃ p', handle_event (ServiceEvent t s) (set_skipCommit skip (tables c)) = Ret None p' ∧
    Controller.HandleService c =
      Ret tt (after_event c qs (endpointsEventQueue c) consumed (endpointsListConsumed c) p').
Proof.
  intros Hl Hp Hpop consumed skip.
  destruct (handle_event_does (ServiceEvent t s) _ (set_skipCommit_wf skip _ Hp)) as (p' & He & _).
  exists p'. split; [done|]. unfold Controller.HandleService.
  rewrite (bind_Ret _ _ _ (t, Some s, None) (set_services qs c)).
  2: { unfold NextService. rewrite (bind_Ret _ _ _ (t, Some s, None) (set_services qs c)); [done|].
       unfold on_services, zoom. by rewrite Hpop. }
  eapply (locked_spec _ _ _ (Controller.set_lock true
    (after_event c qs (endpointsEventQueue c) consumed (endpointsListConsumed c) p'))); [done|].
  rewrite (bind_Ret _ _ _ consumed (Controller.set_lock true (set_services qs c))) by done.
  rewrite (bind_Ret _ _ _ tt (set_serviceListConsumed consumed
    (Controller.set_lock true (set_services qs c)))) by done.
  rewrite (bind_Ret _ _ _ tt (Controller.set_lock true (after_event c qs (endpointsEventQueue c)
    consumed (endpointsListConsumed c) (set_skipCommit skip (tables c))))).
  2: { unfold updateLastSyncProcessed. rewrite (bind_Ret _ _ _ (endpointsListConsumed c && consumed)
         (set_serviceListConsumed consumed (Controller.set_lock true (set_services qs c)))) by done.
       unfold on_world, on_proxier, zoom. by rewrite SetSkipCommit_spec. }
  rewrite (bind_Ret _ _ _ None (Controller.set_lock true (after_event c qs (endpointsEventQueue c)
    consumed (endpointsListConsumed c) p'))); [done|].
  unfold on_world, on_proxier, zoom. simpl in He. simpl. by rewrite He.
Qed.

Lemma handle_endpoints_spec c t e qe :
  Controller.lock c = false → proxier_wf (tables c) →
  Pop (endpointsEventQueue c) = Ret (t, Some e, None) qe →
  let consumed := bool_decide (lastReplaceKey qe = "") in
  let skip := negb (consumed && serviceListConsumed c) in
  ∃ p', handle_event (EndpointsEvent t e) (set_skipCommit skip (tables c)) = Ret None p' ∧
    Controller.HandleEndpoints c =
      Ret tt (after_event c (serviceEventQueue c) qe (serviceListConsumed c) consumed p').
Proof.
  intros Hl Hp Hpop consumed skip.
  destruct (handle_event_does (EndpointsEvent t e) _ (set_skipCommit_wf skip _ Hp)) as (p' & He & _).
  exists p'. split; [done|]. unfold Controller.HandleEndpoints.
  rewrite (bind_Ret _ _ _ (t, Some e, None) (Controller.set_endpoints qe c)).
  2: { unfold NextEndpoints. rewrite (bind_Ret _ _ _ (t, Some e, None) (Controller.set_endpoints qe c)); [done|].
       unfold on_endpoints, zoom. by rewrite Hpop. }
  eapply (locked_spec _ _ _ (Controller.set_lock true
    (after_event c (serviceEventQueue c) qe (serviceListConsumed c) consumed p'))); [done|].
  rewrite (bind_Ret _ _ _ consumed (Controller.set_lock true (Controller.set_endpoints qe c))) by done.
  rewrite (bind_Ret _ _ _ tt (set_endpointsListConsumed consumed
    (Controller.set_lock true (Controller.set_endpoints qe c)))) by done.
  rewrite (bind_Ret _ _ _ tt (Controller.set_lock true (after_event c (serviceEventQueue c) qe
    (serviceListConsumed c) consumed (set_skipCommit skip (tables c))))).
  2: { unfold updateLastSyncProcessed. rewrite (bind_Ret _ _ _ (consumed && serviceListConsumed c)
         (set_endpointsListConsumed consumed (Controller.set_lock true (Controller.set_endpoints qe c)))) by done.
       unfold on_world, on_proxier, zoom. by rewrite SetSkipCommit_spec. }
  rewrite (bind_Ret _ _ _ None (Controller.set_lock true (after_event c (serviceEventQueue c) qe
    (serviceListConsumed c) consumed p'))); [done|].
  unfold on_world, on_proxier, zoom. simpl in He. simpl. by rewrite He.
Qed.

(** On an empty queue the loop waits, and holds neither lock. *)
Lemma handle_service_waits c : EventQueue.queue (serviceEventQueue c) = [] → Controller.HandleService c = Block c.
Proof.
  intros Hq. unfold Controller.HandleService, NextService, on_services, zoom, mbind, M_bind.
  rewrite Pop_empty by done. by destruct c.
Qed.
Lemma handle_endpoints_waits c : EventQueue.queue (endpointsEventQueue c) = [] → Controller.HandleEndpoints c = Block c.
Proof.
  intros Hq. unfold Controller.HandleEndpoints, NextEndpoints, on_endpoints, zoom, mbind, M_bind.
  rewrite Pop_empty by done. by destruct c.
Qed.
End Iteration.
#[export] Hint Resolve set_skipCommit_wf : go.

(** ** The whole pipeline *)
Section Pipeline.
Context {net : Type} `{!Netlink net, !TextTemplate} {mo : MapOrder}.
Local Abbreviation ProxyController := (ProxyController net).
Local Abbreviation wf := (wf (S := service_store) service_key).
Local Abbreviation contents := (contents (S := service_store) service_key).
Implicit Types (c : ProxyController) (src mir : gmap string ApiService).

(** The names of a service and of its ports hold no separator. *)
Definition plain_service (s : ApiService) : Prop := ∀ t, plain_event (ServiceEvent t s).

(** The controller, the services of the API, and the services as the events that have
    been handled describe them. *)
Definition state : Type := ProxyController * gmap string ApiService * gmap string ApiService.

Inductive pipeline : state → state → Prop :=
| announces c src mir o t src' q :
    announce service_key src o t src' → plain_service o →
    handleEvent service_key o t (serviceEventQueue c) = Ret None q →
    pipeline (c, src, mir) (set_services q c, src', mir)
| relists c src mir os rv q :
    first_key_error service_key os = None → NoDup (keys_of service_key os) →
    Forall plain_service os → Replace service_key os rv (serviceEventQueue c) = Ret None q →
    pipeline (c, src, mir) (set_services q c, keyed_map service_key os, mir)
| handles_service c src mir t o q c' :
    Pop (serviceEventQueue c) = Ret (t, Some o, None) q → Controller.HandleService c = Ret tt c' →
    pipeline (c, src, mir) (c', src, consume service_key t o mir)
| handles_endpoints c src mir t e q c' :
    Pop (endpointsEventQueue c) = Ret (t, Some e, None) q → Controller.HandleEndpoints c = Ret tt c' →
    pipeline (c, src, mir) (c', src, mir)
| endpoints_change c src mir q : pipeline (c, src, mir) (Controller.set_endpoints q c, src, mir)
| world_changes c src mir w :
    view (routeTable (w_proxier w)) = view (routeTable (tables c)) → proxier_wf (w_proxier w) →
    pipeline (c, src, mir) (set_Proxier w c, src, mir).

(** Every port of a service that has been handled is served. *)
Definition served c (s : ApiService) : Prop :=
  IsServiceIPSet s = true → ∀ n sp, port_at s n = Some sp →
    serves n (port_service s sp) (view (routeTable (tables c)) !! n).

Record linked (st : state) : Prop := {
  lk_lock : Controller.lock st.1.1 = false;
  lk_wf : proxier_wf (tables st.1.1);
  lk_sim : sim service_key (true = false) (serviceEventQueue st.1.1) st.1.2 st.2;
  lk_keys k s : st.2 !! k = Some s → service_key s = inr k;
  lk_plain k s : st.2 !! k = Some s → plain_service s;
  lk_stored k s : contents (serviceEventQueue st.1.1) !! k = Some s → plain_service s;
  lk_served k s : st.2 !! k = Some s → served st.1.1 s
}.

(** The key of a service is a function of its name. *)
Lemma service_key_name s s' :
  svc_NamespacedName s = svc_NamespacedName s' → service_key s = service_key s'.
Proof. unfold service_key, MetaNamespaceKeyFunc. simpl. by intros [= -> ->]. Qed.

Lemma port_at_owned s n sp : plain_service s → port_at s n = Some sp → owned (svc_NamespacedName s) n.
Proof.
  intros Hs Hp. pose proof Hp as ->%port_at_key. apply port_key_owned.
  apply (proj2 (Hs Added)). apply last_Some in Hp as [l Hl].
  assert (sp ∈ l ++ [sp]) as Hin by set_solver. rewrite <-Hl in Hin.
  by apply list_elem_of_filter in Hin as [_ ?].
Qed.

(** What an event does to the ports of a service. *)
Lemma event_serves_own t s n sp u :
  t = Added ∨ t = Modified → IsServiceIPSet s = true → port_at s n = Some sp → unit_ok n u →
  serves n (port_service s sp) (unit_step (ServiceEvent t s) n u).
Proof.
  intros Ht Hip Hsp Hu. destruct Ht as [-> | ->]; simpl; rewrite Hip, Hsp; simpl;
    (destruct u as [u|]; eexists; (split; [done|]); split; [|done| |done]; [|done]);
    by apply (Hu u eq_refl).
Qed.

Lemma event_serves_other t s s' k n sp u :
  plain_service s → plain_service s' → service_key s = inr k → service_key s' ≠ inr k →
  port_at s' n = Some sp → unit_step (ServiceEvent t s) n u = u.
Proof.
  intros Hs Hs' Hk Hk' Hsp. apply unit_step_frame; [done|]. intros Ho. apply Hk'. rewrite <-Hk.
  apply service_key_name. eapply owned_inj; [apply (Hs' Added)|apply (Hs Added)| |done].
  by eapply port_at_owned.
Qed.

Lemma unit_ok_view p n : proxier_wf p → unit_ok n (view (routeTable p) !! n).
Proof. intros Hp v. apply Hp. Qed.
#[local] Hint Resolve unit_ok_view : go.

(** A step that leaves the tables and the handled services alone. *)
Lemma linked_same c src mir c' src' :
  linked (c, src, mir) → Controller.lock c' = false → proxier_wf (tables c') →
  sim service_key (true = false) (serviceEventQueue c') src' mir →
  (∀ k s, contents (serviceEventQueue c') !! k = Some s → plain_service s) →
  view (routeTable (tables c')) = view (routeTable (tables c)) → linked (c', src', mir).
Proof.
  intros Hlk Hl Hw Hs Hst Hv. split; simpl; [done..|apply (lk_keys _ Hlk)|apply (lk_plain _ Hlk)|done|].
  intros k s Hk Hip n sp Hsp. rewrite Hv. by apply (lk_served _ Hlk k).
Qed.

Lemma linked_announce c src mir o t src' q :
  linked (c, src, mir) → announce service_key src o t src' → plain_service o →
  handleEvent service_key o t (serviceEventQueue c) = Ret None q →
  linked (set_services q c, src', mir).
Proof.
  intros Hl Ha Ho Hh. pose proof (lk_sim _ Hl) as Hsim. simpl in Hsim.
  apply (linked_same c src mir); try apply Hl; try done.
  - destruct (handle_sim service_key _ _ _ _ _ _ _ Hsim Ha) as [(q' & Hq & ?)|[Hq _]];
      rewrite Hh in Hq; by simplify_eq.
  - destruct (announce_inv service_key _ _ _ _ Ha) as (k & Hk & _).
    exact (stored_announce service_key plain_service _ q o t k Hk Hh Ho (lk_stored _ Hl)).
Qed.

Lemma linked_relist c src mir os rv q :
  linked (c, src, mir) → first_key_error service_key os = None → NoDup (keys_of service_key os) →
  Forall plain_service os → Replace service_key os rv (serviceEventQueue c) = Ret None q →
  linked (set_services q c, keyed_map service_key os, mir).
Proof.
  intros Hl Hf Hnd Hpl HR. pose proof (lk_sim _ Hl) as Hsim.
  apply (linked_same c src mir); try apply Hl; try done.
  - eapply relist_sim; [|done|exact Hf|done|exact HR]. done.
  - exact (stored_relist service_key plain_service _ q os rv Hf HR Hpl).
Qed.

(** Popping from the queue of services. *)
Lemma pop_service c src mir t o q :
  linked (c, src, mir) → Pop (serviceEventQueue c) = Ret (t, Some o, None) q →
  ∃ k, service_key o = inr k ∧ is_event t ∧ plain_service o ∧
    sim service_key (true = false) q src (consume service_key t o mir) ∧
    (∀ k s, contents q !! k = Some s → plain_service s).
Proof.
  intros Hl Hpop. destruct (pop_takes service_key _ _ _ _ _ _ _ (lk_sim _ Hl) Hpop) as (k & Hk & Ht & _ & Ho & Hs & _ & Hc).
  exists k. split_and!; [done|done|by apply (lk_stored _ Hl k)|done|]. intros k' s Hs'. by eapply (lk_stored _ Hl), Hc.
Qed.

Lemma linked_handle c src mir t o q c' :
  linked (c, src, mir) → Pop (serviceEventQueue c) = Ret (t, Some o, None) q →
  Controller.HandleService c = Ret tt c' →
  linked (c', src, consume service_key t o mir) ∧ serviceEventQueue c' = q.
Proof.
  intros Hl Hpop Hh. destruct (pop_service c src mir t o q Hl Hpop) as (k & Hk & Ht & Ho & Hsim & Hst).
  assert (proxier_wf (tables c)) as Hp by apply (lk_wf _ Hl).
  destruct (handle_service_spec c t o q (lk_lock _ Hl) Hp Hpop) as (p' & He & Hh').
  rewrite Hh in Hh'. injection Hh' as ->. split; [|done].
  set (skip := negb _) in He. pose proof (set_skipCommit_wf skip _ Hp) as Hp1.
  destruct (handle_event_does (ServiceEvent t o) _ Hp1) as (p1 & He1 & Hd & Hr).
  rewrite He in He1. injection He1 as <-. pose proof (handled_wf _ _ _ Hp1 Hd Hr) as Hp'.
  split; simpl; try done.
  - intros k' s [(-> & _ & ->)|[_ Hs]]%(consume_Some service_key t o mir k k'); [done|by apply (lk_keys _ Hl)|done..].
  - intros k' s [(-> & _ & ->)|[_ Hs]]%(consume_Some service_key t o mir k k'); [done|by apply (lk_plain _ Hl k')|done..].
  - intros k' s Hs Hip n sp Hsp. unfold tables, after_event. simpl. rewrite (handled_units _ _ _ Hd).
    apply (consume_Some service_key t o mir k k' s Hk Ht) in Hs as [(-> & Hnd & ->)|[Hne Hs]].
    + apply event_serves_own; [|done|done|auto with go].
      destruct Ht as [->|[->| ->]]; [by left|by right|done].
    + rewrite (event_serves_other t o s k n sp); [|done|by apply (lk_plain _ Hl k')|done| |done].
      * by apply (lk_served _ Hl k').
      * rewrite (lk_keys _ Hl k' s Hs). congruence.
Qed.

Lemma linked_endpoints c src mir t e q c' :
  linked (c, src, mir) → Pop (endpointsEventQueue c) = Ret (t, Some e, None) q →
  Controller.HandleEndpoints c = Ret tt c' → linked (c', src, mir).
Proof.
  intros Hl Hpop Hh. assert (proxier_wf (tables c)) as Hp by apply (lk_wf _ Hl).
  destruct (handle_endpoints_spec c t e q (lk_lock _ Hl) Hp Hpop) as (p' & He & Hh').
  rewrite Hh in Hh'. injection Hh' as ->.
  set (skip := negb _) in He. pose proof (set_skipCommit_wf skip _ Hp) as Hp1.
  destruct (handle_event_does (EndpointsEvent t e) _ Hp1) as (p1 & He1 & Hd & Hr).
  rewrite He in He1. injection He1 as <-. pose proof (handled_wf _ _ _ Hp1 Hd Hr) as Hp'.
  split; simpl; [done|done|apply (lk_sim _ Hl)|apply (lk_keys _ Hl)|apply (lk_plain _ Hl)|apply (lk_stored _ Hl)|].
  intros k s Hs Hip n sp Hsp. unfold tables, after_event. simpl. rewrite (handled_units _ _ _ Hd).
  apply endpoints_serve. by apply (lk_served _ Hl k).
Qed.

Lemma linked_step st st' : pipeline st st' → linked st → linked st'.
Proof.
  intros Hst Hl. destruct Hst as [c src mir o t src' q|c src mir os rv q|c src mir t o q c'|
    c src mir t e q c'|c src mir q|c src mir w].
  - by eapply linked_announce.
  - by eapply linked_relist.
  - by eapply linked_handle.
  - by eapply linked_endpoints.
  - by apply (linked_same c src mir); try apply Hl.
  - by apply (linked_same c src mir); try apply Hl.
Qed.

Lemma linked_init w : proxier_wf (w_proxier w) → linked (Controller.New w, ∅, ∅).
Proof.
  intros Hw. split; simpl; try done.
  - by apply sim_init.
Qed.

(** Handling events until the queue is empty. *)
Definition drained c : ProxyController :=
  Nat.iter (length (EventQueue.queue (serviceEventQueue c))) (λ c, final (service_loop c)) c.

Lemma drained_linked c src mir :
  linked (c, src, mir) →
  EventQueue.queue (serviceEventQueue (drained c)) = [] ∧ ∃ mir', linked (drained c, src, mir').
Proof.
  unfold drained. remember (length (EventQueue.queue (serviceEventQueue c))) as n eqn:Hn.
  revert c mir Hn. induction n as [|n IH]; intros c mir Hn Hl.
  { simpl. split; [|by exists mir]. by apply nil_length_inv. }
  rewrite Nat.iter_succ_r.
  assert (EventQueue.queue (serviceEventQueue c) ≠ []) as Hne by (intros Hq; by rewrite Hq in Hn).
  destruct (pop_sim service_key _ _ _ _ (lk_sim _ Hl) Hne) as (t & o & q & Hpop & _ & Hlen). simpl in Hlen.
  destruct (handle_service_spec c t o q (lk_lock _ Hl) (lk_wf _ Hl) Hpop) as (p' & _ & Hh).
  destruct (linked_handle c src mir t o q _ Hl Hpop Hh) as [Hl' Hq].
  set (c' := after_event _ _ _ _ _ _) in *.
  assert (final (service_loop c) = c') as -> by (unfold service_loop, recover_panic; by rewrite Hh).
  eapply IH; [|exact Hl']. rewrite Hq. lia.
Qed.
End Pipeline.

(** ** The properties *)

(** C34: one iteration of the controller's loop for services, and of the one for
    endpoints: on an empty queue it waits and holds no lock; otherwise it takes
    the first event, records whether the queue's list is consumed, turns the
    proxier's commits on exactly if both lists are, and hands the event to the
    proxier. *)
Theorem controller_iteration {net} `{!Netlink net, !TextTemplate, !MapOrder} (c : ProxyController net) :
  Controller.lock c = false → proxier_wf (tables c) →
  (EventQueue.queue (serviceEventQueue c) = [] → Controller.HandleService c = Block c) ∧
  (EventQueue.queue (endpointsEventQueue c) = [] → Controller.HandleEndpoints c = Block c) ∧
  (∀ t s qs, Pop (serviceEventQueue c) = Ret (t, Some s, None) qs →
    let consumed := bool_decide (lastReplaceKey qs = "") in
    let skip := negb (endpointsListConsumed c && consumed) in
    ∃ p', handle_event (ServiceEvent t s) (set_skipCommit skip (tables c)) = Ret None p' ∧
      Controller.HandleService c =
        Ret tt (after_event c qs (endpointsEventQueue c) consumed (endpointsListConsumed c) p')) ∧
  (∀ t e qe, Pop (endpointsEventQueue c) = Ret (t, Some e, None) qe →
    let consumed := bool_decide (lastReplaceKey qe = "") in
    let skip := negb (consumed && serviceListConsumed c) in
    ∃ p', handle_event (EndpointsEvent t e) (set_skipCommit skip (tables c)) = Ret None p' ∧
      Controller.HandleEndpoints c =
        Ret tt (after_event c (serviceEventQueue c) qe (serviceListConsumed c) consumed p')).
Proof.
  intros Hl Hp. split_and!; [apply handle_service_waits|apply handle_endpoints_waits| |]; intros.
  - by apply handle_service_spec.
  - by apply handle_endpoints_spec.
Qed.

(** End to end: however the reflector announced and relisted services, and
    whatever else happened, once the controller has handled the events that are
    queued, every non-UDP port of every service of the API with a cluster IP has
    a unit in the route table, with the service's current address, port and
    protocol. *)
Theorem services_reach_tables {net} `{!Netlink net, !TextTemplate, !MapOrder} (w : World net)
    (c : ProxyController net) src mir :
  proxier_wf (w_proxier w) → rtc pipeline (Controller.New w, ∅, ∅) (c, src, mir) →
  EventQueue.queue (serviceEventQueue (drained c)) = [] ∧
  ∀ k s, src !! k = Some s → served (drained c) s.
Proof.
  intros Hw Hr. assert (linked (c, src, mir)) as Hl.
  { eapply (rtc_invariant pipeline linked); [|exact Hr|by apply linked_init].
    intros a b Ha Hab. by eapply linked_step. }
  destruct (drained_linked c src mir Hl) as [Hq [mir' Hl']]. split; [done|].
  intros k s Hs. apply (lk_served _ Hl' k).
  by apply (proj1 (sim_drained service_key _ _ _ _ k (lk_sim _ Hl') Hq)).
Qed.

(** ** Concrete runs *)
#[local] Existing Instances toy_template order_up one_device.

Definition controller0 : ProxyController (list IPNet) := Controller.New (world0 "h:" true).

(** A service with port [a] is announced and handled; then it is changed to have port
    [b] instead and deleted before the change has been handled. *)
Definition renamed_and_deleted : ProxyController (list IPNet) :=
  let c := final (on_services (Add service_key (web "10.0.0.1" ["a"])) controller0) in
  let c := final (service_loop c) in
  let c := final (on_services (Update service_key (web "10.0.0.1" ["b"])) c) in
  let c := final (on_services (Delete service_key (web "10.0.0.1" ["b"])) c) in
  final (service_loop c).

(** A unit of a deleted service may stay for ever: when a change of the ports and
    the deletion are compressed into one event, the proxier deletes the units of the
    new ports only.  At the end of the run no event is queued and no service exists,
    and the unit of the old port is still in the table. *)
Theorem compressed_delete_leaves_unit :
  EventQueue.queue (serviceEventQueue renamed_and_deleted) = [] ∧
  ThreadSafeStore.items (store (serviceEventQueue renamed_and_deleted)) = ∅ ∧
  ServiceInfo <$> view (routeTable (tables renamed_and_deleted)) !! "default:web:a" =
    Some (mkService "10.0.0.1" 80 "TCP").
Proof. vm_compute. split_and!; reflexivity. Qed.

(** ** Witnesses *)
Definition controller1 : ProxyController (list IPNet) :=
  final (on_services (Add service_key (web "10.0.0.1" ["a"])) controller0).

Lemma web_plain ports : Forall plain ports → plain_service (web "10.0.0.1" ports).
Proof.
  intros Hp t. split; [split; reflexivity|]. simpl. intros sp (p & -> & Hin)%list_elem_of_fmap.
  by apply (proj1 (Forall_forall _ _) Hp).
Qed.

Lemma controller_iteration_witness :
  ∃ p', handle_event (ServiceEvent Added (web "10.0.0.1" ["a"]))
          (set_skipCommit true (tables controller1)) = Ret None p' ∧
    Controller.HandleService controller1 =
      Ret tt (after_event controller1 (set_events ∅ (set_queue [] (serviceEventQueue controller1)))
                (endpointsEventQueue controller1) true false p').
Proof.
  refine (proj1 (proj2 (proj2 (controller_iteration controller1 _ _))) Added (web "10.0.0.1" ["a"])
    (set_events ∅ (set_queue [] (serviceEventQueue controller1))) _).
  - reflexivity.
  - apply proxier0_wf.
  - vm_compute. reflexivity.
Defined.

Lemma services_reach_tables_witness :
  EventQueue.queue (serviceEventQueue (drained controller1)) = [] ∧
  ∀ k s, ({["default/web" := web "10.0.0.1" ["a"]]} : gmap string ApiService) !! k = Some s →
    served (drained controller1) s.
Proof.
  refine (services_reach_tables (world0 "h:" true) controller1
    {["default/web" := web "10.0.0.1" ["a"]]} ∅ _ _).
  - apply proxier0_wf.
  - apply rtc_once. apply (announces controller0 ∅ ∅ (web "10.0.0.1" ["a"]) Added).
    + apply announce_add; reflexivity.
    + apply web_plain. repeat constructor.
    + vm_compute. reflexivity.
Defined.

(** * The addresses behind a service: both queues

    [run] is the step relation of the whole, as [pipeline], but with the endpoints
    of the API as well.  It is about one object and one unit [n] of it: while the services
    with the object's key keep their port, whatever happens to other objects and in
    whatever order, the unit ends with the service and the addresses that the API has
    ([backends_reach_tables]).  Without that condition a unit can lose its addresses
    ([ProxierProps.lagging_service_drops_addresses]). *)

(** The key of the objects with a name. *)
Definition name_key (nn : NamespacedName) : string :=
  if decide (0 < String.length (Namespace nn)) then Namespace nn +:+ "/" +:+ Name nn else Name nn.
Lemma service_key_of s : service_key s = inr (name_key (svc_NamespacedName s)).
Proof. unfold service_key, MetaNamespaceKeyFunc, name_key. simpl. by case_decide. Qed.
Lemma endpoints_key_of e : endpoints_key e = inr (name_key (eps_NamespacedName e)).
Proof. unfold endpoints_key, MetaNamespaceKeyFunc, name_key. simpl. by case_decide. Qed.

Definition plain_endpoints (e : ApiEndpoints) : Prop := ∀ t, plain_event (EndpointsEvent t e).

Section Backends.
Context {net : Type} `{!Netlink net, !TextTemplate} {mo : MapOrder}.
Local Abbreviation ProxyController := (ProxyController net).
Implicit Types (c : ProxyController) (src mir : gmap string ApiService) (esrc emir : gmap string ApiEndpoints).

(** The object, and a unit that it owns. *)
Context (nn : NamespacedName) (n : string).
Local Abbreviation k := (name_key nn).

(** A service of the object has a cluster IP and the port. *)
Definition keeps_port (s : ApiService) : Prop := service_key s = inr k → keeps n (ServiceEvent Added s) = true.

(** The controller, and the services and the endpoints of the API, each followed by what the
    events that have been handled say of them. *)
Record world := mkRun {
  ctl : ProxyController;
  svcs : gmap string ApiService; svcs_handled : gmap string ApiService;
  epss : gmap string ApiEndpoints; epss_handled : gmap string ApiEndpoints
}.

Inductive run : world → world → Prop :=
| service_announced c src mir esrc emir o t src' q :
    announce service_key src o t src' → plain_service o → keeps_port o → (service_key o = inr k → t ≠ Deleted) →
    handleEvent service_key o t (serviceEventQueue c) = Ret None q →
    run (mkRun c src mir esrc emir) (mkRun (set_services q c) src' mir esrc emir)
| services_relisted c src mir esrc emir os rv q :
    first_key_error service_key os = None → NoDup (keys_of service_key os) →
    Forall plain_service os → Forall keeps_port os → Replace service_key os rv (serviceEventQueue c) = Ret None q →
    run (mkRun c src mir esrc emir) (mkRun (set_services q c) (keyed_map service_key os) mir esrc emir)
| service_handled c src mir esrc emir t o q c' :
    Pop (serviceEventQueue c) = Ret (t, Some o, None) q → Controller.HandleService c = Ret tt c' →
    run (mkRun c src mir esrc emir) (mkRun c' src (consume service_key t o mir) esrc emir)
| endpoints_announced c src mir esrc emir o t esrc' q :
    announce endpoints_key esrc o t esrc' → plain_endpoints o →
    handleEvent endpoints_key o t (endpointsEventQueue c) = Ret None q →
    run (mkRun c src mir esrc emir) (mkRun (Controller.set_endpoints q c) src mir esrc' emir)
| endpoints_relisted c src mir esrc emir os rv q :
    first_key_error endpoints_key os = None → NoDup (keys_of endpoints_key os) →
    Forall plain_endpoints os → Replace endpoints_key os rv (endpointsEventQueue c) = Ret None q →
    run (mkRun c src mir esrc emir) (mkRun (Controller.set_endpoints q c) src mir (keyed_map endpoints_key os) emir)
| endpoints_handled c src mir esrc emir t o q c' :
    Pop (endpointsEventQueue c) = Ret (t, Some o, None) q → Controller.HandleEndpoints c = Ret tt c' →
    run (mkRun c src mir esrc emir) (mkRun c' src mir esrc (consume endpoints_key t o emir))
| others_change c src mir esrc emir w :
    view (routeTable (w_proxier w)) = view (routeTable (tables c)) → proxier_wf (w_proxier w) →
    run (mkRun c src mir esrc emir) (mkRun (set_Proxier w c) src mir esrc emir).

Definition services_of (st : world) : Pipeline.state := (ctl st, svcs st, svcs_handled st).
Lemma run_pipeline st st' : run st st' → pipeline (services_of st) (services_of st').
Proof. intros Hr. destruct Hr; by econstructor. Qed.

(** The unit has the addresses of the endpoints that have been handled. *)
Definition addressed (e : ApiEndpoints) (u : option ServiceUnit) : Prop :=
  addresses_at e n ≠ [] → Endpoints <$> u = Some (addresses_at e n).

Record backed (st : world) : Prop := {
  bk_linked : linked (services_of st);
  bk_kept k' s : contents (S := service_store) service_key (serviceEventQueue (ctl st)) !! k' = Some s → keeps_port s;
  bk_alive : no_deletion (S := service_store) k (serviceEventQueue (ctl st));
  bk_sim : sim endpoints_key (true = false) (endpointsEventQueue (ctl st)) (epss st) (epss_handled st);
  bk_plain k' e : contents (S := endpoints_store) endpoints_key (endpointsEventQueue (ctl st)) !! k' = Some e → plain_endpoints e;
  bk_addressed e : epss_handled st !! k = Some e → addressed e (view (routeTable (tables (ctl st))) !! n)
}.

Context (Hnn : plain_name nn) (Hn : owned nn n).

(** Objects with another key leave the unit alone. *)
Lemma other_object ev u : plain_event ev → name_key (event_object ev) ≠ k → unit_step ev n u = u.
Proof.
  intros Hp Hk. apply unit_step_frame; [done|]. intros Ho. apply Hk. f_equal. eapply owned_inj; [apply Hp|done..].
Qed.
(** A service event that keeps the port keeps the addresses. *)
Lemma kept_addresses t s u : is_event t → t ≠ Deleted → keeps n (ServiceEvent Added s) = true →
  Endpoints <$> u ≠ None → Endpoints <$> unit_step (ServiceEvent t s) n u = Endpoints <$> u.
Proof.
  intros Ht Hd Hk Hu. assert (keeps n (ServiceEvent t s) = true) as Hk' by (destruct Ht as [->|[->| ->]]; done).
  destruct (keeps_service n _ Hk' eq_refl) as [svc Hs]. rewrite Hs. by destruct u.
Qed.
Lemma addressed_service t s e u : plain_service s → keeps_port s → is_event t → (service_key s = inr k → t ≠ Deleted) →
  addressed e u → addressed e (unit_step (ServiceEvent t s) n u).
Proof.
  intros Hp Hk Ht Hd Ha Hne. specialize (Ha Hne). rewrite service_key_of in *.
  destruct (decide (name_key (svc_NamespacedName s) = k)) as [E|E]; [|by rewrite other_object by (try apply Hp; done)].
  unfold keeps_port in Hk. rewrite service_key_of, E in Hk. rewrite kept_addresses; [done..|apply Hd; by rewrite E|by apply Hk|by rewrite Ha].
Qed.
Lemma addressed_endpoints t o u : t = Added ∨ t = Modified → addressed o (unit_step (EndpointsEvent t o) n u).
Proof.
  intros Ht Hne. destruct Ht as [-> | ->]; cbn [unit_step endpoints_step]; rewrite decide_False by done; by destruct u.
Qed.

Lemma backed_init w : proxier_wf (w_proxier w) → backed (mkRun (Controller.New w) ∅ ∅ ∅ ∅).
Proof.
  intros Hw. split; simpl; try done.
  - by apply linked_init.
  - by apply sim_init.
Qed.

(** What a handled event does to the unit. *)
Lemma handled_unit ev b p p' : proxier_wf p → handle_event ev (set_skipCommit b p) = Ret None p' →
  view (routeTable p') !! n = unit_step ev n (view (routeTable p) !! n).
Proof.
  intros Hp He. destruct (handle_event_does ev _ (set_skipCommit_wf b _ Hp)) as (p1 & He1 & Hd & _).
  rewrite He in He1. injection He1 as <-. by rewrite (handled_units _ _ _ Hd).
Qed.

Lemma backed_step st st' : run st st' → backed st → backed st'.
Proof.
  intros Hr Hb. assert (linked (services_of st')) as Hl by (eapply linked_step; [by apply run_pipeline|apply Hb]).
  pose proof Hb as [Hl0 Hk Ha Hs Hp Hadr].
  destruct Hr as [c src mir esrc emir o t src' q Hann Ho Hko Hto Hh|c src mir esrc emir os rv q Hf Hnd Hpl Hks HR|
    c src mir esrc emir t o q c' Hpop Hh|c src mir esrc emir o t esrc' q Hann Ho Hh|c src mir esrc emir os rv q Hf Hnd Hpl HR|
    c src mir esrc emir t o q c' Hpop Hh|c src mir esrc emir w Hv Hw]; cbn [ctl svcs svcs_handled epss epss_handled] in *.
  - split; [done| | |done..]; cbn [ctl].
    + exact (stored_announce service_key keeps_port _ q o t _ (service_key_of o) Hh Hko Hk).
    + refine (no_deletion_announce service_key k _ q o t _ (service_key_of o) Hh _ Ha). intros E. apply Hto. by rewrite service_key_of, E.
  - split; [done| | |done..]; cbn [ctl].
    + exact (stored_relist service_key keeps_port _ q os rv Hf HR Hks).
    + exact (no_deletion_relist service_key k _ q os rv Hf HR).
  - destruct (pop_takes service_key _ _ _ _ _ _ _ (lk_sim _ Hl0) Hpop) as (k' & Hk' & Ht & Hev & Hst & _ & He & Hc).
    destruct (handle_service_spec c t o q (lk_lock _ Hl0) (lk_wf _ Hl0) Hpop) as (p' & Hhe & Hh').
    rewrite Hh in Hh'. injection Hh' as ->.
    split; cbn [ctl epss epss_handled]; try done.
    + intros k2 s Hs2. cbn [serviceEventQueue after_event] in Hs2. by eapply Hk, Hc.
    + unfold no_deletion. cbn [serviceEventQueue after_event]. rewrite He, lookup_delete_Some. by intros [_ ?].
    + intros e Hemir. unfold tables, after_event. cbn [Controller.Proxier w_proxier]. rewrite (handled_unit _ _ _ _ (lk_wf _ Hl0) Hhe).
      apply addressed_service; [by apply (lk_stored _ Hl0 k')|by eapply Hk|done| |by apply Hadr].
      intros E. rewrite Hk' in E. injection E as ->. intros ->. by apply Ha.
  - split; try done; cbn [ctl epss epss_handled].
    + destruct (handle_sim endpoints_key _ _ _ _ _ _ _ Hs Hann) as [(q' & Hq & ?)|[Hq _]]; rewrite Hh in Hq; by simplify_eq.
    + exact (stored_announce endpoints_key plain_endpoints _ q o t _ (endpoints_key_of o) Hh Ho Hp).
  - split; try done; cbn [ctl epss epss_handled].
    + by eapply relist_sim.
    + exact (stored_relist endpoints_key plain_endpoints _ q os rv Hf HR Hpl).
  - destruct (pop_takes endpoints_key _ _ _ _ _ _ _ Hs Hpop) as (k' & Hk' & Ht & Hev & Hst & Hs' & He & Hc).
    destruct (handle_endpoints_spec c t o q (lk_lock _ Hl0) (lk_wf _ Hl0) Hpop) as (p' & Hhe & Hh').
    rewrite Hh in Hh'. injection Hh' as ->.
    split; cbn [ctl epss epss_handled]; try done.
    + intros k2 s Hs2. cbn [endpointsEventQueue after_event] in Hs2. by eapply Hp, Hc.
    + intros e Hemir. unfold tables, after_event. cbn [Controller.Proxier w_proxier]. rewrite (handled_unit _ _ _ _ (lk_wf _ Hl0) Hhe).
      apply (consume_Some endpoints_key t o emir k' k e Hk' Ht) in Hemir as [(<- & Hnd & ->)|[Hne Hemir]].
      * apply addressed_endpoints. destruct Ht as [->|[->| ->]]; [by left|by right|done].
      * rewrite other_object; [by apply Hadr|by apply (Hp k')|].
        rewrite endpoints_key_of in Hk'. injection Hk' as <-. intros E. by apply Hne.
  - split; try done; cbn [ctl epss epss_handled].
    intros e Hemir. unfold tables. cbn [Controller.Proxier set_Proxier]. rewrite Hv. by apply Hadr.
Qed.
Lemma backed_steps st st' : rtc run st st' → backed st → backed st'.
Proof. induction 1 as [|a b d Hab _ IH]; [done|]. intros Ha. by eapply IH, backed_step. Qed.

(** *** Handling what is queued *)
Definition drained_endpoints c : ProxyController :=
  Nat.iter (length (EventQueue.queue (endpointsEventQueue c))) (λ c, final (endpoints_loop c)) c.
Definition drained_all c : ProxyController := drained_endpoints (drained c).

(** The queues are empty only after all iterations, each of which is a step. *)
Lemma drains_services c src mir esrc emir : backed (mkRun c src mir esrc emir) →
  ∃ mir', rtc run (mkRun c src mir esrc emir) (mkRun (drained c) src mir' esrc emir) ∧
    EventQueue.queue (serviceEventQueue (drained c)) = [].
Proof.
  unfold drained. remember (length (EventQueue.queue (serviceEventQueue c))) as m eqn:Hm.
  revert c mir Hm. induction m as [|m IH]; intros c mir Hm Hb.
  { exists mir. split; [done|]. by apply nil_length_inv. }
  rewrite Nat.iter_succ_r.
  assert (EventQueue.queue (serviceEventQueue c) ≠ []) as Hne by (intros Hq; by rewrite Hq in Hm).
  pose proof (bk_linked _ Hb) as Hl.
  destruct (pop_sim service_key _ _ _ _ (lk_sim _ Hl) Hne) as (t & o & q & Hpop & _ & Hlen). simpl in Hlen.
  destruct (handle_service_spec c t o q (lk_lock _ Hl) (lk_wf _ Hl) Hpop) as (p' & _ & Hh).
  pose proof (service_handled c src mir esrc emir t o q _ Hpop Hh) as Hr.
  set (c' := after_event _ _ _ _ _ _) in *.
  assert (final (service_loop c) = c') as -> by (unfold service_loop, recover_panic; by rewrite Hh).
  destruct (IH c' (consume service_key t o mir)) as (mir' & Hrs & Hq); [cbn; lia|by eapply backed_step|].
  exists mir'. split; [|done]. by eapply rtc_l.
Qed.
Lemma drains_endpoints c src mir esrc emir : backed (mkRun c src mir esrc emir) →
  ∃ emir', rtc run (mkRun c src mir esrc emir) (mkRun (drained_endpoints c) src mir esrc emir') ∧
    EventQueue.queue (endpointsEventQueue (drained_endpoints c)) = [] ∧
    serviceEventQueue (drained_endpoints c) = serviceEventQueue c.
Proof.
  unfold drained_endpoints. remember (length (EventQueue.queue (endpointsEventQueue c))) as m eqn:Hm.
  revert c emir Hm. induction m as [|m IH]; intros c emir Hm Hb.
  { exists emir. split_and!; [done| |done]. by apply nil_length_inv. }
  rewrite Nat.iter_succ_r.
  assert (EventQueue.queue (endpointsEventQueue c) ≠ []) as Hne by (intros Hq; by rewrite Hq in Hm).
  pose proof (bk_linked _ Hb) as Hl.
  destruct (pop_sim endpoints_key _ _ _ _ (bk_sim _ Hb) Hne) as (t & o & q & Hpop & _ & Hlen). simpl in Hlen.
  destruct (handle_endpoints_spec c t o q (lk_lock _ Hl) (lk_wf _ Hl) Hpop) as (p' & _ & Hh).
  pose proof (endpoints_handled c src mir esrc emir t o q _ Hpop Hh) as Hr.
  set (c' := after_event _ _ _ _ _ _) in *.
  assert (final (endpoints_loop c) = c') as -> by (unfold endpoints_loop, recover_panic; by rewrite Hh).
  destruct (IH c' (consume endpoints_key t o emir)) as (emir' & Hrs & Hq & Hsq); [cbn; lia|by eapply backed_step|].
  exists emir'. split_and!; [|done|done]. by eapply rtc_l.
Qed.

(** With nothing queued the unit is what the API says. *)
Lemma backed_drained st svc sp e : backed st →
  EventQueue.queue (serviceEventQueue (ctl st)) = [] → EventQueue.queue (endpointsEventQueue (ctl st)) = [] →
  svcs st !! k = Some svc → IsServiceIPSet svc = true → port_at svc n = Some sp →
  epss st !! k = Some e → addresses_at e n ≠ [] →
  view (routeTable (tables (ctl st))) !! n = Some (mkServiceUnit n (port_service svc sp) (addresses_at e n)).
Proof.
  intros Hb Hqs Hqe Hs Hip Hsp He Hne. pose proof (bk_linked _ Hb) as Hl.
  apply (proj1 (sim_drained service_key _ _ _ _ k (lk_sim _ Hl) Hqs)) in Hs.
  apply (proj1 (sim_drained endpoints_key _ _ _ _ k (bk_sim _ Hb) Hqe)) in He.
  destruct (lk_served _ Hl k svc Hs Hip n sp Hsp) as (u & Hu & Hname & Hinfo).
  pose proof (bk_addressed _ Hb e He Hne) as Ha. cbn [services_of fst] in Hu. rewrite Hu in *. injection Ha as Ha.
  destruct u. cbn in *. by subst.
Qed.
End Backends.

(** C3: end to end, with the addresses: whatever the reflectors announced and relisted and in
    whatever order the two loops of the controller and everything else ran, as long as the
    services of an object kept a cluster IP and a port and were not deleted, and when the
    endpoints that the API has now have ready addresses for the port, once the queued events
    have been handled the unit of the port is in the table, with the cluster IP, the port and
    the protocol of the service that the API has and exactly those addresses.  All names
    hold no colon.  Without ready addresses the unit may keep older ones: adding endpoints
    that have none changes nothing ([ProxierProps.about_addresses]). *)
Theorem backends_reach_tables {net} `{!Netlink net, !TextTemplate, !MapOrder} (w : World net) (nn : NamespacedName) (n : string)
    (st : world (net := net)) svc sp e :
  proxier_wf (w_proxier w) → plain_name nn → owned nn n →
  rtc (run nn n) (mkRun (Controller.New w) ∅ ∅ ∅ ∅) st →
  svcs st !! name_key nn = Some svc → IsServiceIPSet svc = true → port_at svc n = Some sp →
  epss st !! name_key nn = Some e → addresses_at e n ≠ [] →
  view (routeTable (tables (drained_all (ctl st)))) !! n = Some (mkServiceUnit n (port_service svc sp) (addresses_at e n)).
Proof.
  intros Hw Hnn Hn Hr Hs Hip Hsp He Hne.
  assert (backed nn n st) as Hb by (eapply backed_steps; [done..|]; by apply backed_init).
  destruct st as [c src mir esrc emir].
  destruct (drains_services nn n Hnn Hn _ _ _ _ _ Hb) as (mir' & Hr1 & Hq1).
  eapply backed_steps in Hb; [|done..].
  destruct (drains_endpoints nn n Hnn Hn _ _ _ _ _ Hb) as (emir' & Hr2 & Hq2 & Hsq).
  eapply backed_steps in Hb; [|done..].
  apply (backed_drained nn n _ svc sp e Hb); [|done..]. cbn [ctl]. by rewrite Hsq.
Qed.

(** ** A concrete run *)
#[local] Existing Instances toy_template order_up one_device.

(** The endpoints are announced before their service. *)
Definition both_announced : ProxyController (list IPNet) :=
  final (on_services (Add service_key (web "10.0.0.1" ["a"]))
    (final (on_endpoints (Add endpoints_key (web_endpoints ["a"])) controller0))).

Lemma backends_reach_tables_witness :
  view (routeTable (tables (drained_all both_announced))) !! "default:web:a" =
    Some (mkServiceUnit "default:web:a" (mkService "10.0.0.1" 80 "TCP")
      [mkEndpoint "1.1.1.1" 8080; mkEndpoint "1.1.1.2" 8080]).
Proof.
  refine (backends_reach_tables (world0 "h:" true) (mkNamespacedName "default" "web") "default:web:a"
    (mkRun both_announced {["default/web" := web "10.0.0.1" ["a"]]} ∅ {["default/web" := web_endpoints ["a"]]} ∅)
    (web "10.0.0.1" ["a"]) (mkServicePort "a" "TCP" 80) (web_endpoints ["a"]) _ _ _ _ _ _ _ _ _); try reflexivity.
  - apply proxier0_wf.
  - split; reflexivity.
  - eapply rtc_l; [|apply rtc_once].
    + apply (endpoints_announced _ _ controller0 ∅ ∅ ∅ ∅ (web_endpoints ["a"]) Added).
      * apply announce_add; reflexivity.
      * intros t. split; [split; reflexivity|]. simpl. intros ss port ->%list_elem_of_singleton ->%list_elem_of_singleton.
        reflexivity.
      * vm_compute. reflexivity.
    + apply (service_announced _ _ _ ∅ ∅ _ ∅ (web "10.0.0.1" ["a"]) Added).
      * apply announce_add; reflexivity.
      * apply web_plain. repeat constructor.
      * intros _. reflexivity.
      * discriminate.
      * vm_compute. reflexivity.
  - discriminate.
Defined.
