(* ===== verification/Reflection.v ===== *)
(** The reflectors of [proxy/controller/controller.go] at work: [New] gives each event
    queue a reflector, which runs for ever next to the loops of the controller.

    The state of the reflector is the controller with its queues; its store is the
    queue of services.  While the reflector waits, the other threads take steps of
    [pipeline].  [reflected_services_served] follows the services from the API server
    to the route table. *)

From stdpp Require Import gmap strings list relations.
From S2P Require Import Prelude GoTime Wait Types KStore IPAddr IPAddrProps Template Proxier ProxierSpec.
From S2P Require Import ProxierHandlers ProxierProps Commit Controller EventQueue.
From S2P Require Import EventQueueFacts EventQueueSpec Pipeline Reflector ReflectorProps.

(** * The reflectors of [New] *)

(** [api.NamespaceAll] and [fields.Everything().String()] are empty. *)
Definition createServiceLW : ListWatch := NewListWatchFromClient "services" "" "".
Definition createEndpointsLW : ListWatch := NewListWatchFromClient "endpoints" "" "".

(** The name of a reflector is the place in the code that made it; it is used for
    logging. *)
Definition service_reflector (name : string) (resyncPeriod : Duration) : Reflector :=
  NewNamedReflector name createServiceLW (Some "*api.Service") resyncPeriod.
Definition endpoints_reflector (name : string) (resyncPeriod : Duration) : Reflector :=
  NewNamedReflector name createEndpointsLW (Some "*api.Endpoints") resyncPeriod.

(** [New] starts the reflector of the services on the queue of the services. *)
Definition start_services {net} (w : World net) (name : string) (resyncPeriod : Duration)
    : state (ProxyController net) :=
  mkState (service_reflector name resyncPeriod) (New w) 0 0 [].

Section Reflection.
Context {net lst : Type} `{!Netlink net, !TextTemplate} {mo : MapOrder} `{!ApiObject ApiService lst}.
Local Abbreviation ProxyController := (ProxyController net).
Implicit Types (c : ProxyController) (src mir : gmap string ApiService) (w : World net).

(** The queue of services as the store of a reflector. *)
#[export] Instance services_store : Store ProxyController ApiService := {|
  Store_Add o := on_services (Add service_key o);
  Store_Update o := on_services (Update service_key o);
  Store_Delete o := on_services (Delete service_key o);
  Store_Replace os rv := on_services (Replace service_key os rv) |}.

(** The controller has been told of the services [src]. *)
Definition told w c src : Prop := ∃ mir, rtc pipeline (New w, ∅, ∅) (c, src, mir).

Lemma told_linked w c src : proxier_wf (w_proxier w) → told w c src → ∃ mir, linked (c, src, mir).
Proof.
  intros Hw [mir Hr]. exists mir. eapply (rtc_invariant pipeline linked); [|exact Hr|by apply linked_init].
  intros a b Ha Hab. by eapply linked_step.
Qed.

Lemma told_step w c src mir c' src' mir' :
  rtc pipeline (New w, ∅, ∅) (c, src, mir) → pipeline (c, src, mir) (c', src', mir') → told w c' src'.
Proof. intros Hr Hp. exists mir'. by eapply rtc_r. Qed.

Lemma store_event_handles t o c :
  is_event t → store_event t o c = (on_services (handleEvent service_key o t) ;; mret tt) c.
Proof. by intros [->|[->| ->]]. Qed.

#[export] Instance services_mirror w (Hw : proxier_wf (w_proxier w)) :
  Mirrors service_key (told w) plain_service.
Proof.
  split.
  - intros c src o t src' Ht Hg Ha. destruct (announce_inv service_key _ _ _ _ Ha) as (k & _ & Hev & _).
    destruct (told_linked w c src Hw Ht) as [mir Hl]. pose proof (lk_sim _ Hl) as Hsim. simpl in Hsim.
    unfold post. rewrite store_event_handles, bind_unfold by done. unfold on_services, zoom.
    destruct (handle_sim service_key _ _ _ _ _ _ _ Hsim Ha) as [(q & Hq & _)|(Hq & _)]; rewrite Hq; simpl.
    + destruct Ht as [mir' Hr]. eapply told_step; [exact Hr|]. by econstructor.
    + by destruct c.
  - intros c src os rv [mir Hr] Hg Hk Hnd. unfold post. simpl. unfold on_services, zoom.
    destruct (Replace_spec service_key os rv (serviceEventQueue c) Hk) as (q & Hq & _). rewrite Hq.
    eapply told_step; [exact Hr|]. by eapply relists.
Qed.

(** What the other threads do while the reflector waits: steps that announce nothing. *)
Definition other_steps w (f : ProxyController → ProxyController) : Prop :=
  harmless (told w) f.

(** One iteration of the loop for services is such a step. *)
Lemma service_loop_other w : proxier_wf (w_proxier w) → other_steps w (λ c, final (service_loop c)).
Proof.
  intros Hw c src Ht. destruct (told_linked w c src Hw Ht) as [mir Hl].
  unfold service_loop. rewrite recover_panic_final.
  destruct (decide (EventQueue.queue (serviceEventQueue c) = [])) as [Hq|Hq].
  { by rewrite handle_service_waits. }
  destruct (pop_sim service_key _ _ _ _ (lk_sim _ Hl) Hq) as (t & o & q & Hpop & _).
  destruct (handle_service_spec c t o q (lk_lock _ Hl) (lk_wf _ Hl) Hpop) as (p' & _ & Hh).
  rewrite Hh. destruct Ht as [mir' Hr]. eapply told_step; [exact Hr|]. by eapply handles_service.
Qed.
End Reflection.

(** ** The property *)

(** C1: from the API server to the route table.  The reflector of the services that the
    controller starts, with a server that answers lists and watches truthfully, runs
    any number of times with any timing and any broken connection, while the
    controller handles events at any moments in between; then, once the controller has
    handled what is queued, every service that the server has at the version the reflector
    reports and that has a cluster IP (a headless one is skipped by the proxier) has for
    each of its non-UDP ports its unit in the route table, with its address, port and
    protocol ([Pipeline.served]).  The names of services and ports hold no colon, as the API
    server guarantees ([plain_service], a part of [honest]). *)
Theorem reflected_services_served {net lst} `{!Netlink net, !TextTemplate, !MapOrder, !ApiObject ApiService lst}
    (w : World net) (name : string) (resyncPeriod : Duration) (at_ : string → gmap string ApiService)
    stopped (runs : list (script (ProxyController net) ApiService lst * bool)) :
  proxier_wf (w_proxier w) → at_ "" = ∅ →
  Forall (λ r, honest service_key (told w) plain_service at_ (Some "*api.Service") r.1) runs →
  let s := final (RunUntil stopped runs (start_services w name resyncPeriod)) in
  EventQueue.queue (serviceEventQueue (drained (store s))) = [] ∧
  ∀ k svc, at_ (lastSyncResourceVersion (reflector s)) !! k = Some svc → served (drained (store s)) svc.
Proof.
  intros Hw Hat Hr. cbn zeta. pose proof (services_mirror w Hw).
  destruct (RunUntil_in_sync service_key (told w) plain_service at_ (Some "*api.Service") stopped runs
    (start_services w name resyncPeriod)) as [rv [Ht Hv _ _]]; [done| |].
  { exists "". split; [|done..]. rewrite Hat. by exists ∅. }
  destruct (told_linked w _ _ Hw Ht) as [mir Hl]. rewrite Hv.
  destruct (drained_linked _ _ mir Hl) as [Hq [mir' Hl']]. split; [done|].
  intros k svc Hs. apply (lk_served _ Hl' k).
  by apply (proj1 (sim_drained service_key _ _ _ _ k (lk_sim _ Hl') Hq)).
Qed.

(** ** A concrete run *)
Module Sample.
#[local] Existing Instances toy_template order_up one_device.
Abbreviation controller := (ProxyController (list IPNet)).

#[local] Instance services : ApiObject ApiService (string * list ApiService) := {|
  TypeOf _ := "*api.Service";
  Accessor o := inr (GetResourceVersion o);
  list_Accessor l := inr l.1;
  ExtractList l := inr l.2;
  FromObject _ := Errorf "status" |}.

Definition db (ip rv : string) : ApiService :=
  mkApiService "default" "db" rv ip [mkServicePort "p" "TCP" 80].

(** The service is there at version 1 and has another address at version 2. *)
Definition server (rv : string) : gmap string ApiService :=
  if decide (rv = "1") then {["default/db" := db "10.0.0.1" "1"]}
  else if decide (rv = "2") then {["default/db" := db "10.0.0.2" "2"]}
  else ∅.

(** The controller handles an event between the list and the watch. *)
Definition sample : script controller ApiService (string * list ApiService) :=
  mkScript 0%Z (λ _, mkAfter id (inr ("1", [db "10.0.0.1" "1"])))
    [mkRound 10%Z (7 * Minute)%Z
       (λ q, mkAfter (λ c, final (service_loop c))
          (inr (if decide (ResourceVersion (req_options q) = "1")
                then [mkAfter id (Event Modified (db "10.0.0.2" "2"))] else []))) 10%Z 20%Z 30%Z].

Definition w0 : World (list IPNet) := world0 "h:" true.

Lemma db_plain ip rv : plain_service (db ip rv).
Proof. intros t. split; [split; reflexivity|]. simpl. by intros sp ->%list_elem_of_singleton. Qed.

Lemma honest_services :
  honest service_key (told w0) plain_service server (Some "*api.Service") sample.
Proof.
  split.
  - intros q. split; [by intros c src|]. intros rv items [= <-] [= <-].
    split_and!; [apply Forall_singleton, db_plain|reflexivity|apply (bool_decide_unpack _); vm_compute; exact I|reflexivity].
  - apply Forall_cons. split; [|apply Forall_nil; exact I].
    intros q. split; [apply service_loop_other, proxier0_wf|]. cbn.
    destruct (decide (ResourceVersion (req_options q) = "1")) as [->|]; cbn; [|exact I].
    split; [by intros c src|]. split; [|exact I]. left. split; [by right; left|]. split; [exact (db_plain _ _)|].
    change (announce service_key (server "1") (db "10.0.0.2" "2") Modified
              (<["default/db" := db "10.0.0.2" "2"]> (server "1"))).
    apply announce_update; [reflexivity|]. by eexists.
Qed.

Lemma reflected_services_served_witness :
  let s := final (RunUntil false [(sample, false)] (start_services w0 "r" 0%Z)) in
  EventQueue.queue (serviceEventQueue (drained (store s))) = [] ∧
  ∀ k svc, server (lastSyncResourceVersion (reflector s)) !! k = Some svc → served (drained (store s)) svc.
Proof.
  refine (reflected_services_served w0 "r" 0%Z server false [(sample, false)] _ _ _).
  - apply proxier0_wf.
  - reflexivity.
  - constructor; [exact honest_services|constructor].
Defined.

(** At the end of that run the reflector is at version 2. *)
Example sample_version :
  lastSyncResourceVersion (reflector (final (RunUntil false [(sample, false)] (start_services w0 "r" 0%Z)))) = "2".
Proof. vm_compute. reflexivity. Qed.
End Sample.
