(* ===== verification/Options.v ===== *)
(** [app/options/options.go]: the configuration of the server, its defaults and its
    flags, which are defined with [pflag] for the fields of the configuration.

    The object in memory ([PFlagValues.Mem]) is the configuration, and a flag's
    variable is a pointer to one of its fields.  A 32-bit float is a rational number
    here. *)

From Stdlib Require Import Ascii QArith.
From stdpp Require Import gmap strings list.
From S2P Require Import Prelude GoStrings GoTime Strconv Instances.
From S2P Require Import PFlagValues PFlag PFlagVars PFlagFacts PFlagParse PFlagProps PFlagAdd PFlagOps.

Local Open Scope Z_scope.

Record ProxyServerConfig := mkProxyServerConfig {
  BindAddress : string;
  Address : string;
  Port : Z;
  KubeAPIQPS : Q;
  KubeAPIBurst : Z;
  Master : string;
  SyncPeriod : Duration;
  Kubeconfig : string;
  EnableProfiling : bool;
  Device : string;
  KeepalivedConfig : Keepalived.KeepalivedConfig;
  HaproxyConfig : Haproxy.HaproxyConfig
}.

Definition NewProxyServerConfig : ProxyServerConfig := {|
  BindAddress := "";
  Address := "";
  Port := 0;
  KubeAPIQPS := 5%Q;
  KubeAPIBurst := 10;
  Master := "";
  SyncPeriod := 30 * Minute;
  Kubeconfig := "";
  EnableProfiling := false;
  Device := "";
  KeepalivedConfig := Keepalived.mkKeepalivedConfig "/etc/keepalived/keepalived.conf" "" "" (2 * Second);
  HaproxyConfig := Haproxy.mkHaproxyConfig "/etc/haproxy/haproxy.cfg" "" "" (5 * Second)
|}.

(** ** Pointers to the fields *)
Definition Address_ref : Ref ProxyServerConfig string := field_ref Address (λ x s,
    mkProxyServerConfig (BindAddress s) x (Port s) (KubeAPIQPS s) (KubeAPIBurst s) (Master s)
    (SyncPeriod s) (Kubeconfig s) (EnableProfiling s) (Device s) (KeepalivedConfig s)
    (HaproxyConfig s)).
Definition Port_ref : Ref ProxyServerConfig Z := field_ref Port (λ x s, mkProxyServerConfig
    (BindAddress s) (Address s) x (KubeAPIQPS s) (KubeAPIBurst s) (Master s) (SyncPeriod s)
    (Kubeconfig s) (EnableProfiling s) (Device s) (KeepalivedConfig s) (HaproxyConfig s)).
Definition KubeAPIQPS_ref : Ref ProxyServerConfig Q := field_ref KubeAPIQPS (λ x s,
    mkProxyServerConfig (BindAddress s) (Address s) (Port s) x (KubeAPIBurst s) (Master s)
    (SyncPeriod s) (Kubeconfig s) (EnableProfiling s) (Device s) (KeepalivedConfig s)
    (HaproxyConfig s)).
Definition KubeAPIBurst_ref : Ref ProxyServerConfig Z := field_ref KubeAPIBurst (λ x s,
    mkProxyServerConfig (BindAddress s) (Address s) (Port s) (KubeAPIQPS s) x (Master s)
    (SyncPeriod s) (Kubeconfig s) (EnableProfiling s) (Device s) (KeepalivedConfig s)
    (HaproxyConfig s)).
Definition Master_ref : Ref ProxyServerConfig string := field_ref Master (λ x s,
    mkProxyServerConfig (BindAddress s) (Address s) (Port s) (KubeAPIQPS s) (KubeAPIBurst s) x
    (SyncPeriod s) (Kubeconfig s) (EnableProfiling s) (Device s) (KeepalivedConfig s)
    (HaproxyConfig s)).
Definition SyncPeriod_ref : Ref ProxyServerConfig Duration := field_ref SyncPeriod (λ x s,
    mkProxyServerConfig (BindAddress s) (Address s) (Port s) (KubeAPIQPS s) (KubeAPIBurst s)
    (Master s) x (Kubeconfig s) (EnableProfiling s) (Device s) (KeepalivedConfig s)
    (HaproxyConfig s)).
Definition Kubeconfig_ref : Ref ProxyServerConfig string := field_ref Kubeconfig (λ x s,
    mkProxyServerConfig (BindAddress s) (Address s) (Port s) (KubeAPIQPS s) (KubeAPIBurst s)
    (Master s) (SyncPeriod s) x (EnableProfiling s) (Device s) (KeepalivedConfig s)
    (HaproxyConfig s)).
Definition EnableProfiling_ref : Ref ProxyServerConfig bool := field_ref EnableProfiling (λ x s,
    mkProxyServerConfig (BindAddress s) (Address s) (Port s) (KubeAPIQPS s) (KubeAPIBurst s)
    (Master s) (SyncPeriod s) (Kubeconfig s) x (Device s) (KeepalivedConfig s) (HaproxyConfig s)).
Definition Device_ref : Ref ProxyServerConfig string := field_ref Device (λ x s,
    mkProxyServerConfig (BindAddress s) (Address s) (Port s) (KubeAPIQPS s) (KubeAPIBurst s)
    (Master s) (SyncPeriod s) (Kubeconfig s) (EnableProfiling s) x (KeepalivedConfig s)
    (HaproxyConfig s)).
Definition KeepalivedConfig_ref : Ref ProxyServerConfig Keepalived.KeepalivedConfig := field_ref
    KeepalivedConfig (λ x s, mkProxyServerConfig (BindAddress s) (Address s) (Port s)
    (KubeAPIQPS s) (KubeAPIBurst s) (Master s) (SyncPeriod s) (Kubeconfig s) (EnableProfiling s)
    (Device s) x (HaproxyConfig s)).
Definition HaproxyConfig_ref : Ref ProxyServerConfig Haproxy.HaproxyConfig := field_ref
    HaproxyConfig (λ x s, mkProxyServerConfig (BindAddress s) (Address s) (Port s) (KubeAPIQPS s)
    (KubeAPIBurst s) (Master s) (SyncPeriod s) (Kubeconfig s) (EnableProfiling s) (Device s)
    (KeepalivedConfig s) x).

(** A field of a structure that a field holds. *)
Definition sub_ref {A B} (p : Ref ProxyServerConfig A) (get : A → B) (put : B → A → A) :
    Ref ProxyServerConfig B :=
  mkRef (λ m, get (load p m)) (λ b m, store p (put b (load p m)) m).
Definition Keepalived_ConfigPath_ref : Ref ProxyServerConfig string := sub_ref
    KeepalivedConfig_ref Keepalived.ConfigPath (λ x c, Keepalived.mkKeepalivedConfig x
    (Keepalived.TemplatePath c) (Keepalived.ReloadScriptPath c) (Keepalived.ReloadInterval c)).
Definition Keepalived_TemplatePath_ref : Ref ProxyServerConfig string := sub_ref
    KeepalivedConfig_ref Keepalived.TemplatePath (λ x c, Keepalived.mkKeepalivedConfig
    (Keepalived.ConfigPath c) x (Keepalived.ReloadScriptPath c) (Keepalived.ReloadInterval c)).
Definition Keepalived_ReloadScriptPath_ref : Ref ProxyServerConfig string := sub_ref
    KeepalivedConfig_ref Keepalived.ReloadScriptPath (λ x c, Keepalived.mkKeepalivedConfig
    (Keepalived.ConfigPath c) (Keepalived.TemplatePath c) x (Keepalived.ReloadInterval c)).
Definition Keepalived_ReloadInterval_ref : Ref ProxyServerConfig Duration := sub_ref
    KeepalivedConfig_ref Keepalived.ReloadInterval (λ x c, Keepalived.mkKeepalivedConfig
    (Keepalived.ConfigPath c) (Keepalived.TemplatePath c) (Keepalived.ReloadScriptPath c) x).
Definition Haproxy_ConfigPath_ref : Ref ProxyServerConfig string := sub_ref HaproxyConfig_ref
    Haproxy.ConfigPath (λ x c, Haproxy.mkHaproxyConfig x (Haproxy.TemplatePath c)
    (Haproxy.ReloadScriptPath c) (Haproxy.ReloadInterval c)).
Definition Haproxy_TemplatePath_ref : Ref ProxyServerConfig string := sub_ref HaproxyConfig_ref
    Haproxy.TemplatePath (λ x c, Haproxy.mkHaproxyConfig (Haproxy.ConfigPath c) x
    (Haproxy.ReloadScriptPath c) (Haproxy.ReloadInterval c)).
Definition Haproxy_ReloadScriptPath_ref : Ref ProxyServerConfig string := sub_ref
    HaproxyConfig_ref Haproxy.ReloadScriptPath (λ x c, Haproxy.mkHaproxyConfig
    (Haproxy.ConfigPath c) (Haproxy.TemplatePath c) x (Haproxy.ReloadInterval c)).
Definition Haproxy_ReloadInterval_ref : Ref ProxyServerConfig Duration := sub_ref
    HaproxyConfig_ref Haproxy.ReloadInterval (λ x c, Haproxy.mkHaproxyConfig
    (Haproxy.ConfigPath c) (Haproxy.TemplatePath c) (Haproxy.ReloadScriptPath c) x).

Section Options.
Context `{gf : GoFormats, mo : MapOrder}.
Local Abbreviation C := ProxyServerConfig.

(** [fs.XVar(&s.F, name, s.F, usage)]. *)
Definition flag_var {A} (var : Ref C A → string → A → string → M (State C) unit)
    (p : Ref C A) (name usage : string) : M (State C) unit :=
  value ← on_mem (load_ref p);
  var p name value usage.

(** [AddFlags]. *)
Definition AddFlags : M (State C) unit :=
  flag_var StringVar Address_ref "address"
    "The IP address to serve on (set to 0.0.0.0 for all interfaces)" ;;
  flag_var IntVar Port_ref "port"
    "The port that the proxy's http service runs on" ;;
  flag_var Float32Var KubeAPIQPS_ref "kube-api-qps"
    "QPS to use while talking with kubernetes apiserver" ;;
  flag_var IntVar KubeAPIBurst_ref "kube-api-burst"
    "Burst to use while talking with kubernets apiserver" ;;
  flag_var StringVar Master_ref "master"
    "The address of the kubernetes apiserver" ;;
  flag_var DurationVar SyncPeriod_ref "sync-period"
    "How often configuration from the apiserver is refreshed. Must be greater than 0" ;;
  flag_var StringVar Kubeconfig_ref "kubeconfig"
    "Path to kubeconfig file with authorization information (the master location is set by the master flag)." ;;
  flag_var BoolVar EnableProfiling_ref "profiling"
    "Set true to enable pprof" ;;
  flag_var StringVar Device_ref "device"
    "Network device to bind service IP" ;;
  flag_var StringVar Keepalived_ConfigPath_ref "keepalived-config-file"
    "Path of config file for keepalived" ;;
  flag_var StringVar Keepalived_TemplatePath_ref "keepalived-template-file"
    "Path of keepalived config template" ;;
  flag_var DurationVar Keepalived_ReloadInterval_ref "keepalived-reload-interval"
    "Controls how often keepalived reload is invoked" ;;
  flag_var StringVar Keepalived_ReloadScriptPath_ref "keepalived-reload-script"
    "Path of keepalived reload script" ;;
  flag_var StringVar Haproxy_ConfigPath_ref "haproxy-config-file"
    "Path of config file for haproxy" ;;
  flag_var StringVar Haproxy_TemplatePath_ref "haproxy-template-file"
    "Path of haproxy template" ;;
  flag_var DurationVar Haproxy_ReloadInterval_ref "haproxy-reload-interval"
    "Controls how often haproxy reload is invoked" ;;
  flag_var StringVar Haproxy_ReloadScriptPath_ref "haproxy-reload-script"
    "Path of haproxy reload script".

(** The flags, as a table. *)
Definition config_flags : list (string * Value C * string) := [
  ("address", stringValue Address_ref,
    "The IP address to serve on (set to 0.0.0.0 for all interfaces)");
  ("port", intValue Port_ref,
    "The port that the proxy's http service runs on");
  ("kube-api-qps", float32Value KubeAPIQPS_ref,
    "QPS to use while talking with kubernetes apiserver");
  ("kube-api-burst", intValue KubeAPIBurst_ref,
    "Burst to use while talking with kubernets apiserver");
  ("master", stringValue Master_ref,
    "The address of the kubernetes apiserver");
  ("sync-period", durationValue SyncPeriod_ref,
    "How often configuration from the apiserver is refreshed. Must be greater than 0");
  ("kubeconfig", stringValue Kubeconfig_ref,
    "Path to kubeconfig file with authorization information (the master location is set by the master flag).");
  ("profiling", boolValue EnableProfiling_ref,
    "Set true to enable pprof");
  ("device", stringValue Device_ref,
    "Network device to bind service IP");
  ("keepalived-config-file", stringValue Keepalived_ConfigPath_ref,
    "Path of config file for keepalived");
  ("keepalived-template-file", stringValue Keepalived_TemplatePath_ref,
    "Path of keepalived config template");
  ("keepalived-reload-interval", durationValue Keepalived_ReloadInterval_ref,
    "Controls how often keepalived reload is invoked");
  ("keepalived-reload-script", stringValue Keepalived_ReloadScriptPath_ref,
    "Path of keepalived reload script");
  ("haproxy-config-file", stringValue Haproxy_ConfigPath_ref,
    "Path of config file for haproxy");
  ("haproxy-template-file", stringValue Haproxy_TemplatePath_ref,
    "Path of haproxy template");
  ("haproxy-reload-interval", durationValue Haproxy_ReloadInterval_ref,
    "Controls how often haproxy reload is invoked");
  ("haproxy-reload-script", stringValue Haproxy_ReloadScriptPath_ref,
    "Path of haproxy reload script")
].

(** ** What a flag's variable holds *)
Inductive flag_value : Type :=
| VString (s : string) | VInt (n : Z) | VFloat32 (q : Q) | VDuration (d : Duration) | VBool (b : bool).

Definition Value_get (v : Value C) (m : Mem C) : option flag_value :=
  match v with
  | stringValue p => Some (VString (load p m))
  | intValue p => Some (VInt (load p m))
  | float32Value p => Some (VFloat32 (load p m))
  | durationValue p => Some (VDuration (load p m))
  | boolValue p => Some (VBool (load p m))
  | flagValueWrapper _ _ => None
  end.

(** What a text means for a variable of the type of [v]; [None] if it is not accepted. *)
Definition read_as (v : Value C) (x : string) : option flag_value :=
  let accepted {A} (f : A → flag_value) (r : A * option error) : option flag_value :=
    match r.2 with None => Some (f r.1) | Some _ => None end in
  match v with
  | stringValue _ => Some (VString x)
  | intValue _ => accepted VInt (ParseInt x 0)
  | float32Value _ => accepted VFloat32 (ParseFloat32 x)
  | durationValue _ => accepted VDuration (ParseDuration x)
  | boolValue _ => accepted VBool (ParseBool x)
  | flagValueWrapper _ _ => None
  end.

(** A value that does not touch the configuration, and one that leaves the variable of
    another alone. *)
Definition keeps_object (w : Value C) : Prop :=
  ∀ x m e m', Value_Set w x m = Ret e m' → object m' = object m.
Definition apart (w v : Value C) : Prop :=
  ∀ x m e m', Value_Set w x m = Ret e m' → Value_get v m' = Value_get v m.

Ltac each_flag := repeat (apply Forall_cons; split); try by apply Forall_nil.

(** Setting one of the flags stores what the text means. *)
Lemma config_set :
  Forall (λ d, ∀ x m m', Value_Set d.1.2 x m = Ret None m' → Value_get d.1.2 m' = read_as d.1.2 x) config_flags.
Proof.
  unfold config_flags. each_flag; intros x m m'; cbn [fst snd Value_Set Value_get read_as].
  all: unfold stringValue_Set, intValue_Set, float32Value_Set, durationValue_Set, boolValue_Set.
  all: try (intros [= <-]; reflexivity).
  all: destruct (_ : _ * option error) as [y [e|]]; intros [=]; subst; reflexivity.
Qed.

(** Setting a value that stores in the configuration leaves the other fields alone. *)
Definition stores {A} (p : Ref C A) (v : Value C) : Prop := ∀ a m, Value_get v (store p a m) = Value_get v m.
Definition value_stores (w v : Value C) : Prop :=
  match w with
  | stringValue p => stores p v
  | intValue p => stores p v
  | float32Value p => stores p v
  | durationValue p => stores p v
  | boolValue p => stores p v
  | flagValueWrapper _ _ => False
  end.
Lemma value_stores_apart w v : value_stores w v → apart w v.
Proof.
  intros H x m e m'. destruct w as [p|p|p|p|p|]; cbn in H; [..|done]; cbn;
    unfold stringValue_Set, intValue_Set, float32Value_Set, durationValue_Set, boolValue_Set;
    try destruct (_ : _ * option error); intros [= <- <-]; apply H.
Qed.

Lemma config_apart :
  Forall (λ d, Forall (λ d', d.1.1 = d'.1.1 ∨ value_stores d.1.2 d'.1.2) config_flags) config_flags.
Proof.
  unfold config_flags. each_flag; first [left; reflexivity|right; intros ? ?; reflexivity].
Qed.

Lemma config_own m : Forall (λ d, own_variable d.1.2 m) config_flags.
Proof. destruct m as [[? ? ? ? ? ? ? ? ? ? [] []] ?]. unfold config_flags. by each_flag. Qed.

Definition flag_names : list string := (λ d : string * Value C * string, d.1.1) <$> config_flags.

Lemma config_names_ok : NoDup ("log-flush-frequency" :: flag_names) ∧ Forall (λ n, has_byte "_" n = false) flag_names.
Proof. split; apply (bool_decide_unpack _); by vm_compute. Qed.

(** Distinct flags do not interfere; a value that keeps the object is apart from all. *)
Lemma config_flag_apart d d' :
  d ∈ config_flags → d' ∈ config_flags → d.1.1 ≠ d'.1.1 → apart d.1.2 d'.1.2.
Proof.
  intros Hd Hd' Hne. pose proof config_apart as H. rewrite Forall_forall in H. specialize (H d Hd).
  rewrite Forall_forall in H. destruct (H d' Hd') as [?|Hst]; [done|by apply value_stores_apart].
Qed.

Lemma config_get_object : Forall (λ d, ∀ m m', object m' = object m → Value_get d.1.2 m' = Value_get d.1.2 m) config_flags.
Proof. unfold config_flags. each_flag; intros [? ?] [? ?]; cbn; by intros ->. Qed.

Lemma keeps_object_apart w d : d ∈ config_flags → keeps_object w → apart w d.1.2.
Proof.
  intros Hd Hw x m e m' Hset. pose proof config_get_object as H. rewrite Forall_forall in H.
  apply (H d Hd). by eapply Hw.
Qed.

(** ** Defining the flags *)
Lemma flag_var_eq {A} (var : Ref C A → string → A → string → M (State C) unit) p n u s :
  flag_var var p n u s = var p n (load p (mem s)) u s.
Proof. unfold flag_var, on_mem, zoom. rewrite bind_unfold. cbn. by destruct s. Qed.

Lemma bind_unit_ret (m : M (State C) unit) s : m s = (m ;; mret tt) s.
Proof. rewrite bind_unfold. by destruct (m s) as [[]| | |]. Qed.

Lemma AddFlags_table s : AddFlags s = for_each (λ d, define_flag d.1.2 d.1.1 d.2) config_flags s.
Proof.
  assert (∀ {A} (var : Ref C A → string → A → string → M (State C) unit) p n u (m : M (State C) unit) d ds s,
    (∀ s, define_flag d.1.2 d.1.1 d.2 s = var p n (load p (mem s)) u s) →
    (∀ s, m s = for_each (λ d, define_flag d.1.2 d.1.1 d.2) ds s) →
    (flag_var var p n u ;; m) s = for_each (λ d, define_flag d.1.2 d.1.1 d.2) (d :: ds) s) as Hcons.
  { intros A var p n u m d ds s' Hd Hm. cbn [for_each]. rewrite !bind_unfold, flag_var_eq, Hd.
    by destruct (var p n (load p (mem s')) u s'). }
  unfold AddFlags, config_flags.
  do 16 (apply Hcons; [reflexivity|]; clear s; intros s).
  rewrite bind_unit_ret. apply Hcons; [reflexivity|done].
Qed.

(** The flag set of a process, before the flags are defined. *)
Definition start (arg0 : string) (args : list string) (config : C) : State C :=
  mkState (CommandLine arg0) ∅ 0%nat (mkMem config []) [] (arg0 :: args).

(** The flags of the program: [pflag]'s [CommandLine] already has the flag of the
    package for logging when [main] adds those of the configuration and parses. *)
Definition command_line (ks : list string) (goflags : gmap string (GoFlag C)) : M (State C) unit :=
  logFlushFreq ;;
  AddFlags ;;
  InitFlags ks goflags.

(** Up to the parsing. *)
Definition define_all (ks : list string) (goflags : gmap string (GoFlag C)) : M (State C) unit :=
  logFlushFreq ;;
  AddFlags ;;
  normalize_and_import ks goflags.

Lemma command_line_split ks goflags s s' :
  define_all ks goflags s = Ret tt s' → command_line ks goflags s = Parse_CommandLine s'.
Proof.
  unfold define_all, command_line. rewrite !bind_unfold. destruct (logFlushFreq s) as [p s1| | |]; try done.
  rewrite !bind_unfold. destruct (AddFlags s1) as [[] s2| | |]; try done.
  intros E. rewrite InitFlags_split. by run E.
Qed.

(** What is known of a flag of the program. *)
Definition classified (fl : Flag C) : Prop :=
  keeps_object (Flag_Value fl) ∨
  ∃ d, d ∈ config_flags ∧ Name fl = d.1.1 ∧ Flag_Value fl = d.1.2 ∧ Shorthand fl = "".

Lemma start_wf arg0 args config : flags_wf (start arg0 args config).
Proof. split; cbn; try done; intros ? ?; by rewrite lookup_empty. Qed.

Lemma logFlushFreq_ok arg0 args config :
  ∃ p s0 s, logFlushFreq (start arg0 args config) = Ret p s ∧
    fset s0 = CommandLine arg0 ∧ flags_wf s0 ∧ os_Args s0 = arg0 :: args ∧ object (mem s0) = config ∧
    heap_all classified s0 ∧ names s0 = ∅ ∧ letters s = ∅ ∧
    added "log-flush-frequency" (durationValue p) "" "" s0 s ∧ keeps_object (durationValue p).
Proof.
  destruct (new_spec C_duration (λ c, match c with C_duration d => Some d | _ => None end) 0
    (mkMem config [])) as (p & m1 & E1 & Ho & _ & _ & Hvars); [done|].
  assert (∀ d m, object (store p d m) = object m) as Hst by (unfold new in E1; by simplify_eq).
  set (s0 := mkState (CommandLine arg0) ∅ 0%nat (store p (5 * Second) m1) [] (arg0 :: args)
    : State C).
  assert (flags_wf s0) as Hwf by (destruct (start_wf arg0 args config); by split).
  destruct (VarP_added (durationValue p) "log-flush-frequency"
    "Maximum number of seconds between log flushes" s0 Hwf) as (s & E & Ha & Hl); [set_solver|].
  exists p, s0, s. split_and!; try done.
  - unfold logFlushFreq, Duration_. rewrite (bind_Ret _ _ _ p (set_mem m1 (start arg0 args config))).
    2: { unfold on_mem, zoom. unfold new_duration. cbn [mem start]. by rewrite E1. }
    unfold DurationVarP. rewrite (bind_Ret _ _ _ tt s); [done|].
    rewrite (bind_Ret _ _ _ (durationValue p) s0); [done|]. done.
  - cbn. by rewrite Hst.
  - intros x m e m'. cbn. unfold durationValue_Set. destruct (ParseDuration x) as [d err].
    intros [= <- <-]. apply Hst.
Qed.

(** The state in which the process parses its command line: the flags are there. *)
Record ready arg0 args (config : C) (s : State C) : Prop := {
  rd_wf : flags_wf s;
  rd_set : interspersed (fset s) = true ∧ errorHandling (fset s) = ExitOnError ∧ is_CommandLine (fset s) = true;
  rd_os_Args : os_Args s = arg0 :: args;
  rd_object : object (mem s) = config;
  rd_classified : heap_all classified s;
  rd_registered : Forall (λ d, registered s d.1.1 d.1.2 (without_value d.1.2)) config_flags;
  rd_normalize : ∀ n, normalizeFlagName (fset s) n = WordSepNormalizeFunc n
}.

(** The Go flags do not point into the configuration. *)
Definition go_apart (goflags : gmap string (GoFlag C)) : Prop :=
  go_set_ok goflags ∧ ∀ k g, goflags !! k = Some g → keeps_object (wrapFlagValue (go_Value g)).

Lemma define_all_ready arg0 args config ks goflags :
  go_apart goflags → ∃ s, define_all ks goflags (start arg0 args config) = Ret tt s ∧
    ready arg0 args config s.
Proof.
  intros [Hgo Hgo']. destruct (logFlushFreq_ok arg0 args config)
    as (p & s0 & s1 & E1 & Hset & Hwf0 & Hos & Hobj & Hcl & Hnames & Hlet & [A1 A2 A3 A4 A5] & Hkeep).
  pose proof config_names_ok as [Hnd Hunder]. apply NoDup_cons in Hnd as [Hlog Hnd].
  assert (normalizeNameFunc (fset s1) = None) as Hnone by (rewrite (ex_normalize _ _ A1), Hset; done).
  assert (∀ n, normalizeFlagName (fset s1) n = n) as Hid.
  { intros n. unfold normalizeFlagName, GetNormalizeFunc. by rewrite Hnone. }
  assert (names s1 = {["log-flush-frequency"]}) as Hn1.
  { rewrite A3, Hnames, Hset. change (normalizeFlagName (CommandLine arg0) "log-flush-frequency")
      with "log-flush-frequency". by rewrite (right_id_L ∅ (∪)). }
  destruct (define_flags_added config_flags s1) as (s2 & E2 & B1 & B2 & B3 & B4 & B5 & B6).
  { apply A1. }
  { erewrite list_fmap_ext; [exact Hnd|]. intros i d _. apply Hid. }
  { apply Forall_forall. intros d Hd. rewrite Hid, Hn1. intros Heq%elem_of_singleton. apply Hlog.
    rewrite <-Heq. apply list_elem_of_fmap. by exists d. }
  { apply config_own. }
  assert (normalizeNameFunc (fset s2) = None) as Hnone2 by (rewrite (ex_normalize _ _ B1); done).
  destruct (InitFlags_setup goflags ks s2) as (s3 & E3 & C1 & C2 & C3).
  { apply B1. }
  { intros k. rewrite B3, Hn1. intros [Hk|Hk]%elem_of_union.
    - apply elem_of_list_to_set, list_elem_of_fmap in Hk as (d & -> & Hd). rewrite Hid.
      rewrite Forall_forall in Hunder. apply Hunder, list_elem_of_fmap. by exists d.
    - apply elem_of_singleton in Hk. by subst k. }
  { by rewrite B4. }
  { done. }
  exists s3. split.
  { unfold define_all. run E1. rewrite (bind_Ret _ _ _ tt s2); [exact E3|].
    by rewrite AddFlags_table. }
  destruct (ex_set _ _ A1) as (I1 & I2 & I3), (ex_set _ _ B1) as (J1 & J2 & J3), (ex_set _ _ C1) as (K1 & K2 & K3).
  split.
  - apply C1.
  - rewrite Hset in *. cbn in *. split_and!; congruence.
  - rewrite (ex_os_Args _ _ C1). cbn. by rewrite (ex_os_Args _ _ B1), (ex_os_Args _ _ A1).
  - by rewrite C2, B5, A4.
  - apply C3.
    + apply B6.
      * apply A5; [done|]. intros fl _ Hv _. left. by rewrite Hv.
      * intros d fl Hd Hname Hval Hsh. right. exists d. by rewrite Hname, Hid.
    + intros k g fl Hg Hval. left. rewrite Hval. by eapply Hgo'.
  - rewrite Forall_forall in B2 |- *. intros d Hd. eapply extended_registered; [done|].
    apply registered_with_dashes; [done| |by apply B2].
    rewrite Forall_forall in Hunder. apply Hunder, list_elem_of_fmap. by exists d.
  - intros n. rewrite (normalize_same (fset (with_dashes s2))) by apply C1. done.
Qed.

(** ** Reading the fields *)

(** An item names a flag if it stands for the flag that the name finds. *)
Definition about (s : State C) (it : item) (n : string) : Prop := flag_of s it = flag_of s (Long_opt n).

Lemma apply_other arg0 args config s it d m m' :
  ready arg0 args config s → d ∈ config_flags → ¬ about s it d.1.1 → apply_item s it m = Some m' →
  Value_get d.1.2 m' = Value_get d.1.2 m.
Proof.
  intros Hs Hd Hno Happ.
  assert (is_option it ∨ ∃ a, it = Positional a) as [Hit|[a ->]] by (destruct it; eauto; by left).
  2: { cbn in Happ. by simplify_eq. }
  destruct (apply_item_inv _ _ _ _ Hit Happ) as (l & fl & v & Hl & Hfl & _ & Hset).
  destruct (rd_classified _ _ _ _ Hs l fl Hfl) as [Hk|(d' & Hd' & Hn & Hv & Hsh)].
  { by eapply (keeps_object_apart _ _ Hd Hk). }
  destruct (decide (d'.1.1 = d.1.1)) as [Heq|Hne].
  2: { rewrite Hv in Hset. by eapply (config_flag_apart d' d). }
  destruct Hno. unfold about. rewrite Hl. cbn [flag_of].
  pose proof (rd_registered _ _ _ _ Hs) as Hreg. rewrite Forall_forall in Hreg.
  assert (∀ c, shorthands (fset s) !! c ≠ Some l) as Hnosh.
  { intros c Hc. destruct (wf_shorthands _ (rd_wf _ _ _ _ Hs) c l Hc) as (fl' & Hfl' & Hsh').
    simplify_eq. congruence. }
  assert (∀ k, formal (fset s) !! k = Some l → k = d.1.1) as Hform.
  { intros k Hk. destruct (wf_formal _ (rd_wf _ _ _ _ Hs) k l Hk) as (fl' & Hfl' & Hn'). simplify_eq. congruence. }
  assert (normalizeFlagName (fset s) d.1.1 = d.1.1) as Hnorm.
  { rewrite (rd_normalize _ _ _ _ Hs). apply WordSep_id.
    pose proof config_names_ok as [_ Hu]. rewrite Forall_forall in Hu. apply Hu, list_elem_of_fmap. by exists d. }
  rewrite Hnorm. destruct it; cbn in Hl; try discriminate; try by destruct (Hnosh _ Hl).
  all: by rewrite <-(Hform _ Hl), Hl.
Qed.

Lemma apply_others arg0 args config s its d m m' :
  ready arg0 args config s → d ∈ config_flags → Forall (λ it, ¬ about s it d.1.1) its →
  apply_items s its m = Some m' → Value_get d.1.2 m' = Value_get d.1.2 m.
Proof.
  intros Hs Hd Hall. revert m. induction Hall as [|it its Hno _ IH]; intros m Happ; cbn in Happ.
  { by simplify_eq. }
  apply bind_Some in Happ as (m1 & H1 & Happ). rewrite (IH m1 Happ). by eapply apply_other.
Qed.

(** ** The properties *)

(** C39: the flags write the configuration faithfully.  The program defines its flags,
    takes over those of Go's own package, and parses the command line: for every
    command line of parts that [pflag] reads whose values are accepted, it returns,
    and each field of the configuration that has a flag holds what the text of its
    last occurrence means, or, without an occurrence, its default. *)
Theorem flags_correct arg0 its tail config ks goflags :
  go_apart goflags → Forall syntax_ok its →
  ∃ s, define_all ks goflags (start arg0 (unparse its tail) config) = Ret tt s ∧
  ready arg0 (unparse its tail) config s ∧ ∀ m, apply_items s its (mem s) = Some m →
  ∃ s', command_line ks goflags (start arg0 (unparse its tail) config) = Ret tt s' ∧ mem s' = m ∧
    Args (fset s') = positionals its ++ default [] tail ∧
    ∀ d, d ∈ config_flags →
      (∀ its1 it its2 x, its = its1 ++ it :: its2 → about s it d.1.1 → text_of it (without_value d.1.2) = Some x →
         Forall (λ it, ¬ about s it d.1.1) its2 → Value_get d.1.2 m = read_as d.1.2 x) ∧
      (Forall (λ it, ¬ about s it d.1.1) its → Value_get d.1.2 m = Value_get d.1.2 (mkMem config [])).
Proof.
  intros Hgo Hok. destruct (define_all_ready arg0 (unparse its tail) config ks goflags Hgo) as (s & E & Hs).
  exists s. split; [done|]. split; [done|]. intros m Happ. destruct (rd_set _ _ _ _ Hs) as (Hint & _ & _).
  destruct (parse_unparse s its tail m (rd_wf _ _ _ _ Hs) Hint Hok Happ)
    as (s' & E' & Hm & Hargs & _). exists s'. split; [|split; [done|split; [done|]]].
  { rewrite (command_line_split _ _ _ _ E). unfold Parse_CommandLine. rewrite bind_unfold. cbn [get].
    rewrite (rd_os_Args _ _ _ _ Hs). by run E'. }
  intros d Hd. split.
  - intros its1 it its2 x -> Hit Htx Hno. rewrite apply_items_app in Happ.
    apply bind_Some in Happ as (m1 & _ & Happ). cbn in Happ. apply bind_Some in Happ as (m2 & H2 & Happ).
    rewrite (apply_others _ _ _ _ _ _ _ _ Hs Hd Hno Happ).
    pose proof (rd_registered _ _ _ _ Hs) as Hreg. rewrite Forall_forall in Hreg.
    destruct (Hreg d Hd) as (l & fl & Hl & Hfl & Hv & Hno').
    assert (is_option it) as Hopt by (destruct it; try done; by cbn in Htx).
    destruct (apply_item_inv _ _ _ _ Hopt H2) as (l' & fl' & v & Hl' & Hfl' & Htx' & Hset).
    unfold about in Hit. cbn [flag_of] in Hit. rewrite Hit, Hl in Hl'.
    apply (inj Some) in Hl' as <-. rewrite Hfl in Hfl'. apply (inj Some) in Hfl' as <-.
    rewrite Hno', Htx in Htx'. apply (inj Some) in Htx' as <-. pose proof config_set as Hcs. rewrite Forall_forall in Hcs.
    rewrite Hv in Hset. by eapply (Hcs d Hd).
  - intros Hno. rewrite (apply_others _ _ _ _ _ _ _ _ Hs Hd Hno Happ).
    pose proof config_get_object as H. rewrite Forall_forall in H. apply (H d Hd), (rd_object _ _ _ _ Hs).
Qed.
End Options.

(** ** Witness *)
#[local] Existing Instances plain_formats order_up.

(** One Go flag, which keeps its value elsewhere. *)
Definition sample_go : gmap string (GoFlag ProxyServerConfig) :=
  {["v" := mkGoFlag "v" "log level" (inr (mkGoValue (λ _, "0") (λ _ m, Ret None m) "Level" None))]}.
Lemma sample_go_apart : go_apart sample_go.
Proof.
  split; unfold sample_go; intros k g [<- <-]%lookup_singleton_Some; [done|].
  intros x m e m'. cbn. by intros [= _ <-].
Qed.

Definition sample_items : list item :=
  [Long_eq "port" "8080"; Short_eq "v" "2"; Positional "up"; Long_next "port" "0x50"; Long_opt "profiling"].

Definition sample_argv : list string :=
  ["--port=8080"; "-v=2"; "up"; "--port"; "0x50"; "--profiling"].

Lemma port_in : ("port", intValue Port_ref, "The port that the proxy's http service runs on") ∈ config_flags.
Proof. unfold config_flags. right. left. Qed.
Lemma device_in : ("device", stringValue Device_ref, "Network device to bind service IP") ∈ config_flags.
Proof. unfold config_flags. do 8 right. left. Qed.

Lemma flags_correct_witness :
  ∃ s', command_line ["port"] sample_go (start "kube2haproxy" sample_argv NewProxyServerConfig) = Ret tt s' ∧
    Args (fset s') = ["up"] ∧ Value_get (intValue Port_ref) (mem s') = Some (VInt 80) ∧
    Value_get (stringValue Device_ref) (mem s') = Some (VString "").
Proof.
  destruct (flags_correct "kube2haproxy" sample_items None NewProxyServerConfig ["port"] sample_go
    sample_go_apart) as (s & E & _ & H).
  { repeat (apply Forall_cons; split); try by apply Forall_nil.
    all: repeat split; try discriminate; by right. }
  change (unparse sample_items None) with sample_argv in *. vm_compute in E. injection E as <-.
  edestruct H as (s' & E' & Hm & Ha & Hd); [vm_compute; reflexivity|]. exists s'.
  split; [exact E'|]. split; [exact Ha|]. rewrite Hm. split.
  - refine (proj1 (Hd _ port_in) (take 3 sample_items) (Long_next "port" "0x50") (drop 4 sample_items) "0x50"
      _ _ _ _); [reflexivity|vm_compute; reflexivity|reflexivity|].
    repeat (apply Forall_cons; split); try by apply Forall_nil. vm_compute. discriminate.
  - refine (eq_trans (proj2 (Hd _ device_in) _) _); [|reflexivity].
    repeat (apply Forall_cons; split); try by apply Forall_nil. all: vm_compute; discriminate.
Defined.
