(* ===== verification/Healthz.v ===== *)
(** [pkg/healthz/healthz.go] of the vendored Kubernetes code and the part of
    [app/server.go]'s [Run] that sets up the HTTP server: which handler answers which path.

    Go's [http.ServeMux] is here for patterns without a host.  A handler is a function
    from a request to a [Reply]; those of the packages [pprof] and [prometheus] are
    parameters, and serving connections is not modelled. *)

From Stdlib Require Import Ascii.
From stdpp Require Import gmap strings pretty list.
From S2P Require Import Prelude GoStrings Strconv GoURL Options.

Local Open Scope Z_scope.

(** * net/http *)

Record hrequest := mkHrequest { hreq_Method : string; hreq_Path : string; hreq_Query : Values }.
Record Reply := mkReply { reply_Code : Z; reply_Location : string; reply_Body : string }.
Definition Handler : Type := hrequest → Reply.

(** What is written without a status, [http.Error], [http.NotFound] and a redirect. *)
Definition written (body : string) : Reply := mkReply 200 "" body.
Definition http_Error (error : string) (code : Z) : Reply := mkReply code "" (error +:+ newline).
Definition NotFound : Handler := λ _, http_Error "404 page not found" 404.
Definition RedirectHandler (url : string) (code : Z) : Handler := λ _, mkReply code url "".

Record muxEntry := mkMuxEntry { explicit : bool; h : Handler }.
Abbreviation ServeMux := (gmap string muxEntry).

(** The string without its last byte, if that is a slash. *)
Fixpoint without_slash (s : string) : option string :=
  match s with
  | EmptyString => None
  | String c s' =>
      match s' with
      | EmptyString => if decide (c = slash) then Some "" else None
      | String _ _ => String c <$> without_slash s'
      end
  end.

(** [ServeMux.Handle]; [None] is its panic. *)
Definition Handle (pattern : string) (handler : Handler) (mux : ServeMux) : option ServeMux :=
  if decide (pattern = "") then None
  else if match mux !! pattern with Some e => explicit e | None => false end then None
  else
    let mux := <[pattern := mkMuxEntry true handler]> mux in
    match without_slash pattern with
    | None => Some mux
    | Some tree =>
        if match mux !! tree with Some e => explicit e | None => false end then Some mux
        else Some (<[tree := mkMuxEntry false (RedirectHandler pattern 301)]> mux)
    end.

Definition pathMatch (pattern path : string) : bool :=
  match pattern, without_slash pattern with
  | EmptyString, _ => false
  | _, None => bool_decide (pattern = path)
  | _, Some _ => HasPrefix path pattern
  end.

(** [match] of the mux: the longest pattern of those that match, which are read in the
    order of the map. *)
Definition longer (best : option (nat * Handler)) (e : string * muxEntry) : option (nat * Handler) :=
  match best with
  | Some (n, _) => if decide (n < String.length e.1)%nat then Some (String.length e.1, h e.2) else best
  | None => Some (String.length e.1, h e.2)
  end.
Definition mux_match `{!MapOrder} (mux : ServeMux) (path : string) : option Handler :=
  snd <$> foldl longer None
    (k ← map_range mux;
     if pathMatch k path then match mux !! k with Some e => [(k, e)] | None => [] end else []).

Definition cleanPath (p : string) : string :=
  if decide (p = "") then "/"
  else
    let p := if HasPrefix p "/" then p else String slash p in
    let np := Clean p in
    match without_slash p with
    | Some _ => if decide (np ≠ "/") then np +:+ "/" else np
    | None => np
    end.

(** [ServeHTTP] of the mux. *)
Definition mux_serve `{!MapOrder} (mux : ServeMux) : Handler := λ r,
  if bool_decide (hreq_Method r ≠ "CONNECT") && bool_decide (cleanPath (hreq_Path r) ≠ hreq_Path r)
  then RedirectHandler (cleanPath (hreq_Path r)) 301 r
  else match mux_match mux (hreq_Path r) with Some handler => handler r | None => NotFound r end.

(** * healthz.go *)

(** A check answers with the text of its error. *)
Record HealthzChecker := mkHealthzChecker { Name : string; Check_ : hrequest → option string }.
Definition PingHealthz : HealthzChecker := mkHealthzChecker "ping" (λ _, None).
Definition NamedCheck (name : string) (check : hrequest → option string) : HealthzChecker := mkHealthzChecker name check.

(** The line of a check in the verbose text. *)
Definition check_line (r : hrequest) (check : HealthzChecker) : string :=
  match Check_ check r with
  | Some err => "[-]" +:+ Name check +:+ " failed: " +:+ err +:+ newline
  | None => "[+]" +:+ Name check +:+ " ok" +:+ newline
  end.
Definition handleRootHealthz (checks : list HealthzChecker) : Handler := λ r,
  let '(failed, verboseOut) :=
    foldl (λ s check, (s.1 || match Check_ check r with Some _ => true | None => false end, s.2 +:+ check_line r check))
      (false, "") checks in
  if failed : bool then http_Error (verboseOut +:+ "healthz check failed") 500
  else match hreq_Query r !! "verbose" with
       | None => written "ok"
       | Some _ => written (verboseOut +:+ "healthz check passed" +:+ newline)
       end.

Definition adaptCheckToHandler (c : hrequest → option string) : Handler := λ r,
  match c r with
  | Some err => http_Error ("Internal server error: " +:+ err) 500
  | None => written "ok"
  end.

Definition InstallHandler (checks : list HealthzChecker) (mux : ServeMux) : option ServeMux :=
  let checks := match checks with [] => [PingHealthz] | _ => checks end in
  mux ← Handle "/healthz" (handleRootHealthz checks) mux;
  foldl (λ mux check, m ← mux; Handle ("/healthz/" +:+ Name check) (adaptCheckToHandler (Check_ check)) m)
    (Some mux) checks.

(** [DefaultHealthz], with whether it has been called before and the default mux. *)
Definition DefaultHealthz (checks : list HealthzChecker) (s : bool * ServeMux) : option (bool * ServeMux) :=
  if s.1 then Some s else pair true <$> InstallHandler checks s.2.

(** * app/server.go *)

Section Server.
Context (pprof_Index pprof_Profile pprof_Symbol prometheus_Handler : Handler).

(** The goroutine of [Run]: nothing without a port, or the address and the mux. *)
Definition server_mux (EnableProfiling : bool) : option ServeMux :=
  mux ← InstallHandler [] ∅;
  mux ← (if EnableProfiling then
           mux ← Handle "/debug/pprof/" pprof_Index mux;
           mux ← Handle "/debug/pprof/profile" pprof_Profile mux;
           Handle "/debug/pprof/symbol" pprof_Symbol mux
         else Some mux);
  Handle "/metrics" prometheus_Handler mux.
Definition Run_server (config : ProxyServerConfig) : option (option (string * ServeMux)) :=
  if decide (0 < Port config) then
    mux ← server_mux (EnableProfiling config);
    Some (Some (JoinHostPort (Address config) (pretty (Port config)), mux))
  else Some None.
End Server.

(** * Properties *)

(** ** The mux *)

(** The entries that match a path. *)
Lemma elem_of_matches `{!MapOrder} (mux : ServeMux) path k e :
  (k, e) ∈ (k ← map_range mux;
     if pathMatch k path then match mux !! k with Some e => [(k, e)] | None => [] end else []) ↔
  mux !! k = Some e ∧ pathMatch k path = true.
Proof.
  rewrite list_elem_of_bind. split.
  - intros (k' & Hk & _). destruct (pathMatch k' path) eqn:E; [|by inversion Hk].
    destruct (mux !! k') as [e'|] eqn:E'; [|by inversion Hk].
    apply list_elem_of_singleton in Hk as [= -> ->]. done.
  - intros [He Hp]. exists k. rewrite Hp, He. split; [by apply list_elem_of_singleton|].
    rewrite (map_range_perm mux). apply list_elem_of_fmap. exists (k, e). by rewrite elem_of_map_to_list.
Qed.

Lemma longest_stays l n handler :
  (∀ e, e ∈ l → (String.length e.1 <= n)%nat) → foldl longer (Some (n, handler)) l = Some (n, handler).
Proof.
  induction l as [|e l IH]; intros Hl; [done|]. cbn [foldl longer]. rewrite decide_False.
  - apply IH. intros e' He'. apply Hl. by right.
  - specialize (Hl e (list_elem_of_here _ _)). lia.
Qed.
Lemma longest_found l k e (best : option (nat * Handler)) :
  (k, e) ∈ l → (∀ e', e' ∈ l → (String.length e'.1 <= String.length k)%nat) →
  (∀ e', e' ∈ l → String.length e'.1 = String.length k → e' = (k, e)) →
  (∀ n handler, best = Some (n, handler) → (n < String.length k)%nat) →
  foldl longer best l = Some (String.length k, h e).
Proof.
  revert best. induction l as [|e1 l IH]; intros best Hin Hle Heq Hbest; [by inversion Hin|]. cbn [foldl].
  assert (∀ e', e' ∈ l → e' ∈ e1 :: l) as Hl by (intros; by right).
  destruct (decide (String.length e1.1 = String.length k)) as [Hlen|Hlen].
  - rewrite (Heq e1 (list_elem_of_here _ _) Hlen). assert (longer best (k, e) = Some (String.length k, h e)) as ->.
    { unfold longer. destruct best as [[n handler]|]; [|done]. cbn. rewrite decide_True; [done|by eapply Hbest]. }
    apply longest_stays. intros e' He'. by apply Hle, Hl.
  - specialize (Hle e1 (list_elem_of_here _ _)) as Hle1.
    apply IH; [|by intros; apply Hle, Hl|by intros; apply Heq; [apply Hl|]|].
    { apply elem_of_cons in Hin as [<-|]; [by destruct Hlen|done]. }
    intros n handler. unfold longer. destruct best as [[m handler']|]; [|intros [= <- _]; lia].
    case_decide; intros [= <- _]; [cbn in *; lia|by eapply Hbest].
Qed.

(** The handler of a path is that of the longest pattern, in every order of the map. *)
Lemma mux_match_Some `{!MapOrder} (mux : ServeMux) path k e :
  mux !! k = Some e → pathMatch k path = true →
  (∀ k' e', mux !! k' = Some e' → pathMatch k' path = true → k' = k ∨ (String.length k' < String.length k)%nat) →
  mux_match mux path = Some (h e).
Proof.
  intros He Hk Hmax. unfold mux_match. rewrite (longest_found _ k e); [done|by apply elem_of_matches|..|done].
  - intros [k' e'] [He' Hk']%elem_of_matches. destruct (Hmax _ _ He' Hk') as [->|]; cbn; lia.
  - intros [k' e'] [He' Hk']%elem_of_matches Hlen. cbn in Hlen. destruct (Hmax _ _ He' Hk') as [->|]; [|lia]. congruence.
Qed.
Lemma mux_match_None `{!MapOrder} (mux : ServeMux) path :
  (∀ k e, mux !! k = Some e → pathMatch k path = false) → mux_match mux path = None.
Proof.
  intros Hno. unfold mux_match.
  match goal with |- context [foldl longer None ?l] => assert (l = []) as ->; [|done] end.
  destruct (_ ≫= _) as [|[k e] l] eqn:E; [done|].
  assert ((k, e) ∈ (k, e) :: l) as Hin by left. rewrite <-E in Hin. apply elem_of_matches in Hin as [He Hk].
  by rewrite (Hno _ _ He) in Hk.
Qed.

(** ** The checks *)

Definition fails (r : hrequest) (check : HealthzChecker) : bool :=
  match Check_ check r with Some _ => true | None => false end.

Lemma root_fold r checks failed out :
  foldl (λ s check, (s.1 || match Check_ check r with Some _ => true | None => false end, s.2 +:+ check_line r check))
    (failed, out) checks = (failed || existsb (fails r) checks, out +:+ join "" (check_line r <$> checks)).
Proof.
  revert failed out. induction checks as [|c checks IH]; intros failed out; cbn [foldl existsb fmap list_fmap join].
  - by rewrite orb_false_r, append_empty_r.
  - rewrite IH. cbn [fst snd]. rewrite orb_assoc, append_assoc. fold (fails r c). f_equal. f_equal.
    destruct checks as [|c' checks]; [cbn; by rewrite append_empty_r|done].
Qed.

(** Registering keeps what is registered, and is refused for what is there. *)
Definition taken (mux : ServeMux) (pattern : string) : bool :=
  match mux !! pattern with Some e => explicit e | None => false end.
Lemma Handle_Some pattern handler mux :
  pattern ≠ "" → taken mux pattern = false →
  ∃ mux', Handle pattern handler mux = Some mux' ∧ mux' !! pattern = Some (mkMuxEntry true handler) ∧
    (∀ p, taken mux' p = bool_decide (p = pattern) || taken mux p) ∧
    (∀ p e, p ≠ pattern → mux !! p = Some e → explicit e = true → mux' !! p = Some e).
Proof.
  intros Hne Ht. unfold Handle. rewrite decide_False by done. fold (taken mux pattern). rewrite Ht.
  assert (∀ p, taken (<[pattern:=mkMuxEntry true handler]> mux) p = bool_decide (p = pattern) || taken mux p) as Hins.
  { intros p. unfold taken. destruct (decide (p = pattern)) as [->|Hp].
    - by rewrite lookup_insert_eq, bool_decide_eq_true_2.
    - by rewrite lookup_insert_ne, bool_decide_eq_false_2. }
  destruct (without_slash pattern) as [tree|] eqn:Hw.
  2:{ eexists. split_and!; [done|apply lookup_insert_eq|done|]. intros p e Hp He _. by rewrite lookup_insert_ne. }
  fold (taken (<[pattern:=mkMuxEntry true handler]> mux) tree). destruct (taken _ tree) eqn:Htree.
  { eexists. split_and!; [done|apply lookup_insert_eq|done|]. intros p e Hp He _. by rewrite lookup_insert_ne. }
  rewrite Hins in Htree. apply orb_false_iff in Htree as [Hpt Hmt]. apply bool_decide_eq_false in Hpt.
  eexists. split_and!; [done|by rewrite lookup_insert_ne, lookup_insert_eq|..].
  - intros p. unfold taken at 1. destruct (decide (p = tree)) as [->|Hp].
    + by rewrite lookup_insert_eq, bool_decide_eq_false_2, Hmt.
    + rewrite lookup_insert_ne by done. apply Hins.
  - intros p e Hp He Hexp. destruct (decide (p = tree)) as [->|Hpt'].
    + unfold taken in Hmt. by rewrite He, Hexp in Hmt.
    + by rewrite !lookup_insert_ne.
Qed.
Lemma Handle_taken pattern handler mux : taken mux pattern = true → Handle pattern handler mux = None.
Proof. intros Ht. unfold Handle. fold (taken mux pattern). rewrite Ht. by case_decide. Qed.

Lemma check_pattern_inj n n' : "/healthz/" +:+ n = "/healthz/" +:+ n' → n = n'.
Proof. by intros [=]. Qed.
Lemma check_pattern_root n : "/healthz/" +:+ n ≠ "/healthz".
Proof. done. Qed.

(** The loop of [InstallHandler]. *)
Definition install_all (checks : list HealthzChecker) (mux : option ServeMux) : option ServeMux :=
  foldl (λ mux check, m ← mux; Handle ("/healthz/" +:+ Name check) (adaptCheckToHandler (Check_ check)) m) mux checks.
Lemma install_none checks : install_all checks None = None.
Proof. by induction checks. Qed.

Lemma install_all_spec checks : ∀ mux,
  (∀ c, c ∈ checks → taken mux ("/healthz/" +:+ Name c) = false) → NoDup (Name <$> checks) →
  ∃ mux', install_all checks (Some mux) = Some mux' ∧
    (∀ c, c ∈ checks → mux' !! ("/healthz/" +:+ Name c) = Some (mkMuxEntry true (adaptCheckToHandler (Check_ c)))) ∧
    (∀ p e, (∀ c, c ∈ checks → p ≠ "/healthz/" +:+ Name c) → mux !! p = Some e → explicit e = true → mux' !! p = Some e).
Proof.
  induction checks as [|c checks IH]; intros mux Ht Hnd.
  { exists mux. split_and!; [done|by intros c Hc; inversion Hc|done]. }
  apply NoDup_cons in Hnd as [Hc Hnd].
  assert (∀ c', c' ∈ checks → Name c' ≠ Name c) as Hne.
  { intros c' Hc' E. apply Hc. rewrite <-E. by apply list_elem_of_fmap_2. }
  destruct (Handle_Some ("/healthz/" +:+ Name c) (adaptCheckToHandler (Check_ c)) mux) as (mux1 & H1 & Hget & Htaken & Hkeep);
    [done|apply Ht; by left|].
  unfold install_all. cbn [foldl mbind option_bind]. rewrite H1.
  destruct (IH mux1) as (mux' & H2 & Hall & Hk); [|done|].
  { intros c' Hc'. rewrite Htaken, bool_decide_eq_false_2; [|by intros ?%check_pattern_inj; eapply Hne].
    apply Ht. by right. }
  exists mux'. split_and!; [exact H2|..].
  - intros c' [->|Hc']%elem_of_cons; [|by apply Hall].
    apply Hk; [|done|done]. intros c' Hc' E%check_pattern_inj. by apply (Hne c').
  - intros p e Hp He Hexp. apply Hk; [|apply Hkeep; [apply Hp; by left|done|done]|done].
    intros c' Hc'. apply Hp. by right.
Qed.
Lemma install_all_taken checks : ∀ mux, install_all checks (Some mux) ≠ None →
  (∀ c, c ∈ checks → taken mux ("/healthz/" +:+ Name c) = false) ∧ NoDup (Name <$> checks).
Proof.
  induction checks as [|c checks IH]; intros mux Hi; [split; [by intros c Hc; inversion Hc|constructor]|].
  destruct (taken mux ("/healthz/" +:+ Name c)) eqn:Htc.
  { destruct Hi. unfold install_all. cbn [foldl mbind option_bind]. rewrite Handle_taken by done. apply install_none. }
  destruct (Handle_Some ("/healthz/" +:+ Name c) (adaptCheckToHandler (Check_ c)) mux) as (mux1 & H1 & _ & Htaken & _); [done..|].
  unfold install_all in Hi. cbn [foldl mbind option_bind] in Hi. rewrite H1 in Hi. destruct (IH mux1 Hi) as [Hall Hnd].
  assert (∀ c', c' ∈ checks → Name c' ≠ Name c ∧ taken mux ("/healthz/" +:+ Name c') = false) as Hrest.
  { intros c' Hc'. specialize (Hall _ Hc'). rewrite Htaken in Hall. apply orb_false_iff in Hall as [Hp Ht].
    split; [|done]. intros E. rewrite E, bool_decide_eq_true_2 in Hp; done. }
  split.
  - intros c' [->|Hc']%elem_of_cons; [done|by apply Hrest].
  - apply NoDup_cons. split; [|done]. intros (c' & E & Hc')%list_elem_of_fmap. by apply (proj1 (Hrest _ Hc')).
Qed.

(** [InstallHandler] on a new mux panics exactly when two checks have the same name;
    otherwise [/healthz] answers 200 if every check passes and 500 with a line for each
    check if one fails, and [/healthz/name] answers for the check with that name. *)
Theorem InstallHandler_correct (checks : list HealthzChecker) :
  checks ≠ [] →
  (InstallHandler checks ∅ = None ↔ ¬ NoDup (Name <$> checks)) ∧
  (∀ mux, InstallHandler checks ∅ = Some mux →
     (∃ root, mux !! "/healthz" = Some (mkMuxEntry true root) ∧
        ∀ r, let lines := join "" (check_line r <$> checks) in
          root r = if existsb (fails r) checks then mkReply 500 "" (lines +:+ "healthz check failed" +:+ newline)
                   else match hreq_Query r !! "verbose" with
                        | None => written "ok"
                        | Some _ => written (lines +:+ "healthz check passed" +:+ newline)
                        end) ∧
     ∀ c, c ∈ checks →
       ∃ handler, mux !! ("/healthz/" +:+ Name c) = Some (mkMuxEntry true handler) ∧
         ∀ r, handler r = match Check_ c r with
                          | Some err => mkReply 500 "" ("Internal server error: " +:+ err +:+ newline)
                          | None => written "ok"
                          end).
Proof.
  intros Hne. unfold InstallHandler. destruct checks as [|c0 checks]; [done|]. set (cs := c0 :: checks).
  destruct (Handle_Some "/healthz" (handleRootHealthz cs) ∅) as (mux1 & H1 & Hget & Htaken & _); [done..|].
  rewrite H1. cbn [mbind option_bind].
  change (foldl _ (Some mux1) cs) with (install_all cs (Some mux1)).
  assert (∀ c, c ∈ cs → taken mux1 ("/healthz/" +:+ Name c) = false) as Hfree.
  { intros c _. rewrite Htaken, bool_decide_eq_false_2 by apply check_pattern_root. done. }
  split.
  - split.
    + intros Hnone Hnd. destruct (install_all_spec cs mux1 Hfree Hnd) as (mux' & E & _). congruence.
    + intros Hnd. destruct (install_all cs (Some mux1)) eqn:E; [|done]. destruct Hnd.
      apply (install_all_taken cs mux1). by rewrite E.
  - intros mux Hmux. destruct (install_all_taken cs mux1) as [_ Hnd]; [by rewrite Hmux|].
    destruct (install_all_spec cs mux1 Hfree Hnd) as (mux' & E & Hall & Hkeep). rewrite Hmux in E. injection E as <-. split.
    + exists (handleRootHealthz cs). split; [by apply Hkeep|].
      intros r. unfold handleRootHealthz. rewrite root_fold. cbn [orb]. destruct (existsb _ _); [|done].
      unfold http_Error. by rewrite append_assoc.
    + intros c Hc. eexists. split; [by apply Hall|]. intros r. unfold adaptCheckToHandler.
      destruct (Check_ c r); [|done]. unfold http_Error. by rewrite append_assoc.
Qed.

(** ** The server of the program *)

Lemma pathMatch_exact p path : p ≠ "" → without_slash p = None → pathMatch p path = bool_decide (p = path).
Proof. unfold pathMatch. destruct p; [done|]. by intros _ ->. Qed.
Lemma pathMatch_tree p path t : without_slash p = Some t → pathMatch p path = HasPrefix path p.
Proof. unfold pathMatch. destruct p; [done|]. by intros ->. Qed.

Section Endpoints.
Context `{!MapOrder} (pprof_Index pprof_Profile pprof_Symbol prometheus_Handler : Handler).
Local Abbreviation mux_of := (server_mux pprof_Index pprof_Profile pprof_Symbol prometheus_Handler).

Definition endpoints (profiling : bool) : list (string * muxEntry) :=
  [("/healthz", mkMuxEntry true (handleRootHealthz [PingHealthz]));
   ("/healthz/ping", mkMuxEntry true (adaptCheckToHandler (λ _, None)));
   ("/metrics", mkMuxEntry true prometheus_Handler)] ++
  if profiling then
    [("/debug/pprof/", mkMuxEntry true pprof_Index);
     ("/debug/pprof", mkMuxEntry false (RedirectHandler "/debug/pprof/" 301));
     ("/debug/pprof/profile", mkMuxEntry true pprof_Profile);
     ("/debug/pprof/symbol", mkMuxEntry true pprof_Symbol)]
  else [].

Lemma server_mux_endpoints profiling : mux_of profiling = Some (list_to_map (endpoints profiling)).
Proof. destruct profiling; reflexivity. Qed.
Lemma endpoints_lookup profiling k e :
  (list_to_map (endpoints profiling) : ServeMux) !! k = Some e ↔ (k, e) ∈ endpoints profiling.
Proof. symmetry. apply elem_of_list_to_map. destruct profiling; apply (bool_decide_unpack _); vm_compute; exact I. Qed.

(** A pattern that matches a path is the path or one of the tree of profiles. *)
Lemma endpoints_match profiling k e path :
  (k, e) ∈ endpoints profiling → pathMatch k path = true →
  k = path ∨ profiling = true ∧ k = "/debug/pprof/" ∧ e = mkMuxEntry true pprof_Index ∧ HasPrefix path k = true.
Proof.
  intros Hk Hm.
  assert (k = "/debug/pprof/" ∧ profiling = true ∧ e = mkMuxEntry true pprof_Index ∨ (k ≠ "" ∧ without_slash k = None)) as [(-> & -> & ->)|[Hne Hw]].
  { unfold endpoints in Hk. destruct profiling; repeat (apply elem_of_cons in Hk as [[= -> ->]|Hk]); auto; by inversion Hk. }
  - right. rewrite (pathMatch_tree _ _ "/debug/pprof") in Hm by reflexivity. done.
  - left. rewrite pathMatch_exact in Hm by done. by apply bool_decide_eq_true in Hm.
Qed.

(** The handler of a path. *)
Definition endpoint (profiling : bool) (path : string) : option Handler :=
  match (list_to_map (endpoints profiling) : ServeMux) !! path with
  | Some e => Some (h e)
  | None => if profiling && HasPrefix path "/debug/pprof/" then Some pprof_Index else None
  end.

Lemma endpoint_correct profiling path :
  mux_match (list_to_map (endpoints profiling)) path = endpoint profiling path.
Proof.
  unfold endpoint. destruct ((list_to_map (endpoints profiling) : ServeMux) !! path) as [e|] eqn:E.
  - pose proof E as Hin. apply endpoints_lookup in Hin. apply (mux_match_Some _ _ path); [done|..].
    + assert (path = "/debug/pprof/" ∨ (path ≠ "" ∧ without_slash path = None)) as [->|[Hne Hw]].
      { unfold endpoints in Hin. destruct profiling; repeat (apply elem_of_cons in Hin as [[= -> _]|Hin]); auto; by inversion Hin. }
      * reflexivity.
      * rewrite pathMatch_exact by done. by apply bool_decide_eq_true.
    + intros k' e' Hk' Hm. apply endpoints_lookup in Hk'.
      destruct (endpoints_match _ _ _ _ Hk' Hm) as [->|(-> & -> & _ & Hpre)]; [by left|].
      unfold endpoints in Hin. repeat (apply elem_of_cons in Hin as [[= -> _]|Hin]); try by inversion Hin.
      all: first [by left|right; cbn; lia|by vm_compute in Hpre].
  - destruct (profiling && HasPrefix path "/debug/pprof/") eqn:Hp.
    + apply andb_true_iff in Hp as [-> Hpre].
      rewrite (mux_match_Some _ _ "/debug/pprof/" (mkMuxEntry true pprof_Index)); [done|..].
      * by apply endpoints_lookup; right; right; right; left.
      * rewrite (pathMatch_tree _ _ "/debug/pprof") by reflexivity. done.
      * intros k' e' Hk' Hm. destruct (endpoints_match _ _ _ _ (proj1 (endpoints_lookup _ _ _) Hk') Hm) as [->|(_ & -> & _)]; [congruence|by left].
    + apply mux_match_None. intros k e Hk. destruct (pathMatch k path) eqn:Hm; [|done].
      destruct (endpoints_match _ _ _ _ (proj1 (endpoints_lookup _ _ _) Hk) Hm) as [->|(-> & -> & _ & Hpre)]; [congruence|].
      by rewrite Hpre in Hp.
Qed.

(** C38: the HTTP server: with a port, [Run] serves on it the health check that always
    passes, the metrics, and the profiles exactly when they are enabled; other paths are
    not found.  Without a port there is no server. *)
Theorem Run_serves (config : ProxyServerConfig) :
  (Port config <= 0 → Run_server pprof_Index pprof_Profile pprof_Symbol prometheus_Handler config = Some None) ∧
  (0 < Port config → ∃ mux,
     Run_server pprof_Index pprof_Profile pprof_Symbol prometheus_Handler config =
       Some (Some (JoinHostPort (Address config) (pretty (Port config)), mux)) ∧
     ∀ r, cleanPath (hreq_Path r) = hreq_Path r →
       mux_serve mux r =
         if decide (hreq_Path r = "/healthz") then
           match hreq_Query r !! "verbose" with
           | None => written "ok"
           | Some _ => written ("[+]ping ok" +:+ newline +:+ "healthz check passed" +:+ newline)
           end
         else if decide (hreq_Path r = "/healthz/ping") then written "ok"
         else if decide (hreq_Path r = "/metrics") then prometheus_Handler r
         else if EnableProfiling config && bool_decide (hreq_Path r = "/debug/pprof/profile") then pprof_Profile r
         else if EnableProfiling config && bool_decide (hreq_Path r = "/debug/pprof/symbol") then pprof_Symbol r
         else if EnableProfiling config && bool_decide (hreq_Path r = "/debug/pprof") then mkReply 301 "/debug/pprof/" ""
         else if EnableProfiling config && HasPrefix (hreq_Path r) "/debug/pprof/" then pprof_Index r
         else mkReply 404 "" ("404 page not found" +:+ newline)).
Proof.
  unfold Run_server. split; [by intros Hp; rewrite decide_False by lia|]. intros Hp. rewrite decide_True by done.
  rewrite server_mux_endpoints. eexists. split; [done|]. intros r Hr. unfold mux_serve.
  rewrite (bool_decide_eq_false_2 (cleanPath _ ≠ _)) by (by intros Hn). rewrite andb_false_r, endpoint_correct.
  destruct r as [m path q]. cbn [hreq_Path hreq_Query]. unfold endpoint.
  destruct (decide (path = "/healthz")) as [->|H1]; [by destruct (EnableProfiling config)|].
  destruct (decide (path = "/healthz/ping")) as [->|H2]; [by destruct (EnableProfiling config)|].
  destruct (decide (path = "/metrics")) as [->|H3]; [by destruct (EnableProfiling config)|].
  destruct ((list_to_map (endpoints (EnableProfiling config)) : ServeMux) !! path) as [e|] eqn:E.
  - apply endpoints_lookup in E. unfold endpoints in E. do 3 (apply elem_of_cons in E as [[= -> _]|E]; [done|]).
    destruct (EnableProfiling config); [|by inversion E].
    repeat (apply elem_of_cons in E as [[= -> ->]|E]; [done|]). by inversion E.
  - destruct (EnableProfiling config); [|done]. cbn [andb].
    assert (∀ p e, (p, e) ∈ endpoints true → path ≠ p) as Hne.
    { intros p e Hin ->. by rewrite (proj2 (endpoints_lookup true p e) Hin) in E. }
    rewrite !bool_decide_eq_false_2 by (eapply Hne; do 3 right; by repeat (first [left|right])).
    by destruct (HasPrefix path _).
Qed.
End Endpoints.

(** ** Witnesses *)
Definition disk : HealthzChecker := NamedCheck "disk" (λ _, Some "full").
Lemma InstallHandler_correct_witness :
  ∃ mux root, InstallHandler [PingHealthz; disk] ∅ = Some mux ∧ mux !! "/healthz" = Some (mkMuxEntry true root) ∧
    root (mkHrequest "GET" "/healthz" ∅) =
      mkReply 500 "" ("[+]ping ok" +:+ newline +:+ "[-]disk failed: full" +:+ newline +:+ "healthz check failed" +:+ newline).
Proof.
  destruct (InstallHandler_correct [PingHealthz; disk]) as [Hnone Hsome]; [done|].
  destruct (InstallHandler [PingHealthz; disk] ∅) as [mux|].
  - destruct (Hsome mux eq_refl) as [(root & Hget & Hroot) _]. exists mux, root.
    split; [done|]. split; [exact Hget|]. rewrite Hroot. vm_compute. reflexivity.
  - destruct (proj1 Hnone eq_refl). apply (bool_decide_unpack _). vm_compute. exact I.
Defined.
