(* ===== verification/Server.v ===== *)
(** [app/server.go] and [main.go]: putting the server together.

    The client's configuration is loaded from the two flags by [ClientCmd], and the
    client made by [RESTConfig]; the cache of transports is that of a process that has
    just started.  The HTTP server that [Run] starts is in [Healthz]; [Run] itself starts
    the controller's goroutines, whose bodies are in [Controller], and waits for a channel
    that is never closed. *)

From Stdlib Require Import QArith.
From stdpp Require Import gmap strings list.
From S2P Require Import Prelude GoTime PtrMap RateLimiter RateLimiterProps IPAddr IPAddrProps OS.
From S2P Require Import Configurer Instances Template Proxier ProxierSpec ProxierProps Commit.
From S2P Require Import Strconv PFlagValues PFlagVars Options Controller.
From S2P Require PFlag AtomicBool Transport TransportProps RESTConfig RESTConfigProps ClientCmd ClientCmdProps.

(** [version.Version]; no line of the program reads it. *)
Definition Version : string := "1.0.0+git".

Section Server.
Context {net : Type} `{!Netlink net} {gf : GoFormats} {mo : MapOrder}.
Context {pr : RESTConfig.Process} {kp : Transport.KeyPairs} {lt : RESTConfig.Clocks} {rg : RESTConfig.Registered}.
Context {cp : RESTConfig.CertPools} {kc : ClientCmd.KubeconfigCodec}.

Record ProxyServer := mkProxyServer {
  Client : RESTConfig.Client;
  Config : ProxyServerConfig;
  Controller : ProxyController net
}.

Definition NewProxyServer (client : RESTConfig.Client) (controller : ProxyController net)
    (config : ProxyServerConfig) : error + ProxyServer :=
  inr (mkProxyServer client config controller).

(** The two steps to a client, on the disk. *)
Definition kubeconfig_of (config : ProxyServerConfig) : M OS (ClientCmd.config_error + RESTConfig.Config) :=
  kubeconfig ← ClientCmd.load_from_flags (Options.Kubeconfig config) (Options.Master config);
  mret match kubeconfig : ClientCmd.config_error + RESTConfig.Config with
       | inl err => inl err
       | inr kubeconfig => inr (RESTConfig.set_limits (Options.KubeAPIQPS config) (Options.KubeAPIBurst config) kubeconfig)
       end.
Definition kubeclient_New (kubeconfig : RESTConfig.Config) : M OS (string + RESTConfig.Client) :=
  with_var ∅ (RESTConfig.New kubeconfig).
Definition on_disk {A} (m : M OS A) : M (Outside net) A := zoom fst (λ o s, (o, s.2)) m.

(** [NewProxyServerDefault]; [controller.New] gets the proxier in the world as it is
    by then. *)
Definition NewProxyServerDefault (config : ProxyServerConfig) : M (Outside net) (error + ProxyServer) :=
  kubeconfig ← on_disk (kubeconfig_of config);
  match kubeconfig : ClientCmd.config_error + RESTConfig.Config with
  | inl err => mret (inl (Errorf (ClientCmd.Error_text err)))
  | inr kubeconfig =>
      client ← on_disk (kubeclient_New kubeconfig);
      match client : string + RESTConfig.Client with
      | inl err => fatal
      | inr client =>
          let proxierConfig := mkProxierConfig (Options.Device config) (Options.KeepalivedConfig config)
            (Options.HaproxyConfig config) in
          proxier ← NewProxier proxierConfig;
          match proxier : error + Proxier.Proxier with
          | inl err => mret (inl err)
          | inr proxier =>
              outside ← get;
              let controller := Controller.New (mkWorld proxier outside.1 outside.2) in
              mret (NewProxyServer client controller config)
          end
      end
  end.

(** The configuration that [main] ends up with, from the name of the process, its
    arguments and the flags of Go's package [flag]. *)
Definition parsed_config (arg0 : string) (args : list string) (goflags : gmap string (GoFlag ProxyServerConfig))
    (ks : list string) : M (Outside net) ProxyServerConfig := λ outside,
  match command_line ks goflags (start arg0 args NewProxyServerConfig) with
  | Ret _ s => Ret (object (PFlag.mem s)) outside
  | Panic msg _ => Panic msg outside
  | Exit _ => Exit outside
  | Block _ => Block outside
  end.

(** [main] up to [s.Run()]: the server that runs, or the end of the process (with
    status 2 for a command line that is refused, and 1 otherwise). *)
Definition main (arg0 : string) (args : list string) (goflags : gmap string (GoFlag ProxyServerConfig))
    (ks : list string) : M (Outside net) ProxyServer :=
  config ← parsed_config arg0 args goflags ks;
  s ← NewProxyServerDefault config;
  match s : error + ProxyServer with
  | inl err => fatal
  | inr s => mret s
  end.
End Server.

(** ** Making a proxier *)
Section NewProxier.
Context {net : Type} `{!Netlink net}.
Implicit Types (n : net) (o : OS).

(** The proxier that is made when everything works. *)
Definition fresh_proxier (cfg : ProxierConfig) (l : Link) : Proxier.Proxier :=
  mkProxier cfg 0%Z false false ∅ ptr_empty (mkRunner l)
    (Haproxy.mkHaproxy (Proxier.HaproxyConfig cfg) (mkConfigurer (Haproxy.ConfigPath (Proxier.HaproxyConfig cfg))))
    (Keepalived.mkKeepalived (Proxier.KeepalivedConfig cfg)
      (mkConfigurer (Keepalived.ConfigPath (Proxier.KeepalivedConfig cfg))))
    (NewRateLimitedFunction "proxier_keepalived" (Keepalived.ReloadInterval (Proxier.KeepalivedConfig cfg)))
    (NewRateLimitedFunction "proxier_haproxy" (Haproxy.ReloadInterval (Proxier.HaproxyConfig cfg))).

Lemma fresh_proxier_wf cfg l : proxier_wf (fresh_proxier cfg l).
Proof.
  split; simpl; [done|auto with go| | |auto with go..].
  - intros k u. by rewrite view_empty, lookup_empty.
  - intros x b. by rewrite lookup_empty.
Qed.

Lemma NewConfigurer_spec path o :
  faults o = [] →
  NewConfigurer path o = Ret (match files o !! path with
    | Some _ => inr (mkConfigurer path)
    | None => inl (Errorf "ConfigFile can not be found or not readable") end) o.
Proof.
  intros Hf. destruct o as [fs flts es]. simpl in *. subst flts.
  unfold NewConfigurer, canReadFile, Open, next_fault. m_unfold. simpl. by destruct (fs !! path).
Qed.

Lemma keepalived_NewInstance_spec cfg o :
  faults o = [] →
  Keepalived.NewInstance cfg o = Ret (match files o !! Keepalived.ConfigPath cfg with
    | Some _ => inr (Keepalived.mkKeepalived cfg (mkConfigurer (Keepalived.ConfigPath cfg)))
    | None => inl (Errorf "ConfigFile can not be found or not readable") end) o.
Proof.
  intros Hf. unfold Keepalived.NewInstance. run (NewConfigurer_spec _ o Hf).
  by destruct (files o !! _).
Qed.

Lemma haproxy_NewInstance_spec cfg o :
  faults o = [] →
  Haproxy.NewInstance cfg o = Ret (match files o !! Haproxy.ConfigPath cfg with
    | Some _ => inr (Haproxy.mkHaproxy cfg (mkConfigurer (Haproxy.ConfigPath cfg)))
    | None => inl (Errorf "ConfigFile can not be found or not readable") end) o.
Proof.
  intros Hf. unfold Haproxy.NewInstance. run (NewConfigurer_spec _ o Hf).
  by destruct (files o !! _).
Qed.

Lemma zoom_fst_Ret {A} (m : M OS A) a o n :
  m o = Ret a o → zoom fst (λ o s, (o, s.2)) m (o, n) = Ret a (o, n).
Proof. intros H. unfold zoom. simpl. by rewrite H. Qed.

Lemma NewProxier_spec cfg o n n' l :
  faults o = [] → LinkByName (Proxier.Device cfg) n = Ret (inr l) n' → Z.land (Attrs_Flags l) FlagUp ≠ 0%Z →
  ∃ r, NewProxier cfg (o, n) = Ret r (o, n') ∧
    match files o !! Keepalived.ConfigPath (Proxier.KeepalivedConfig cfg),
          files o !! Haproxy.ConfigPath (Proxier.HaproxyConfig cfg) with
    | Some _, Some _ => r = inr (fresh_proxier cfg l)
    | _, _ => ∃ e, r = inl e
    end.
Proof.
  intros Hf Hl Hup. unfold NewProxier.
  rewrite (bind_Ret _ _ _ (inr (mkRunner l)) (o, n')).
  2: { unfold zoom, IPAddr.New. simpl. run Hl. by rewrite decide_False. }
  run (zoom_fst_Ret _ _ _ n' (keepalived_NewInstance_spec _ o Hf)).
  destruct (files o !! Keepalived.ConfigPath (Proxier.KeepalivedConfig cfg)) as [k|]; [|by eauto].
  run (zoom_fst_Ret _ _ _ n' (haproxy_NewInstance_spec _ o Hf)).
  destruct (files o !! Haproxy.ConfigPath (Proxier.HaproxyConfig cfg)) as [h|]; by eauto.
Qed.
End NewProxier.

(** ** The properties *)

Section Starting.
Context {net : Type} `{!Netlink net} {gf : GoFormats} {mo : MapOrder}.
Context {pr : RESTConfig.Process} {kp : Transport.KeyPairs} {lt : RESTConfig.Clocks} {rg : RESTConfig.Registered}.
Context {cp : RESTConfig.CertPools} {kc : ClientCmd.KubeconfigCodec}.

(** The client for a configuration, or why there is none. *)
Definition client_for (cfg : ProxyServerConfig) : M OS (string + RESTConfig.Client) :=
  rc ← kubeconfig_of cfg;
  match rc : ClientCmd.config_error + RESTConfig.Config with
  | inl err => mret (inl (ClientCmd.Error_text err))
  | inr rc => kubeclient_New rc
  end.

Lemma kubeconfig_of_reads cfg : reads id (kubeconfig_of cfg).
Proof. apply reads_bind; [apply ClientCmdProps.reads_load_from_flags|auto with reads]. Qed.
Lemma kubeclient_New_reads rc : reads id (kubeclient_New rc).
Proof. apply reads_with_var, RESTConfigProps.reads_client. Qed.

(** Up to the client nothing has changed. *)
Lemma NewProxyServerDefault_unfold cfg o (n : net) c o1 :
  faults o = [] → client_for cfg o = Ret c o1 →
  match c with
  | inl _ => ∃ err, NewProxyServerDefault cfg (o, n) = Ret (inl err) (o, n) ∨ NewProxyServerDefault cfg (o, n) = Exit (o, n)
  | inr client => NewProxyServerDefault cfg (o, n) =
      (proxier ← NewProxier (mkProxierConfig (Options.Device cfg) (Options.KeepalivedConfig cfg) (Options.HaproxyConfig cfg));
       match proxier : error + Proxier.Proxier with
       | inl err => mret (inl err)
       | inr proxier =>
           outside ← get;
           mret (NewProxyServer client (Controller.New (mkWorld proxier outside.1 outside.2)) cfg)
       end) (o, n)
  end.
Proof.
  intros Hf (rc & o2 & Hrc & Hc)%bind_Ret_inv. pose proof (kubeconfig_of_reads _ _ _ _ Hf Hrc : o2 = o) as ->.
  unfold NewProxyServerDefault. rewrite (bind_Ret _ _ _ rc (o, n)) by (unfold on_disk, zoom; cbn [fst snd]; by rewrite Hrc).
  destruct rc as [err|rc]; [injection Hc as <- _; eauto|].
  pose proof (kubeclient_New_reads _ _ _ _ Hf Hc : o1 = o) as ->. 
  assert (on_disk (kubeclient_New rc) (o, n) = Ret c (o, n)) as Hon by (unfold on_disk, zoom; cbn [fst snd]; by rewrite Hc).
  destruct c; [exists (Errorf ""); right|]; by run Hon.
Qed.

(** C37: the server starts as configured: if the command line is accepted, a client can be
    made of the flags and the kubeconfig file, the device is up
    and both configuration files can be read, [main] runs a server whose proxier
    is well formed, in BACKUP, with empty tables, no request and the reload
    intervals and paths of the flags, and whose controller has empty queues; the
    files are untouched.  If a configuration file is missing, the device is
    down or not found, no client can be made or the command line is refused, the process
    ends, and has changed no file either. *)
Theorem server_starts arg0 args goflags ks fs (o o1 : OS) (n n' : net) r c :
  let cfg := object (PFlag.mem fs) in
  let k := Keepalived.ConfigPath (Options.KeepalivedConfig cfg) in
  let h := Haproxy.ConfigPath (Options.HaproxyConfig cfg) in
  command_line ks goflags (start arg0 args NewProxyServerConfig) = Ret tt fs →
  faults o = [] → LinkByName (Options.Device cfg) n = Ret r n' →
  client_for cfg o = Ret c o1 →
  (∀ l client, r = inr l → c = inr client → Z.land (Attrs_Flags l) FlagUp ≠ 0%Z →
     is_Some (files o !! k) → is_Some (files o !! h) →
     ∃ s, main arg0 args goflags ks (o, n) = Ret s (o, n') ∧ Config s = cfg ∧ Client s = client ∧
       Controller s = Controller.New (mkWorld (w_proxier (Controller.Proxier (Controller s))) o n') ∧
       let p := w_proxier (Controller.Proxier (Controller s)) in
       proxier_wf p ∧ committing p = false ∧ vipTable p = ∅ ∧ view (routeTable p) = ∅ ∧
       ¬ pending (rateLimitedCommitFuncForHaproxy p) ∧ ¬ pending (rateLimitedCommitFuncForKeepalived p) ∧
       Proxier.config p = mkProxierConfig (Options.Device cfg) (Options.KeepalivedConfig cfg)
                            (Options.HaproxyConfig cfg)) ∧
  (∀ args' fs', command_line ks goflags (start arg0 args' NewProxyServerConfig) = Exit fs' →
     main arg0 args' goflags ks (o, n) = Exit (o, n)) ∧
  (match r with inl _ => True | inr l => Z.land (Attrs_Flags l) FlagUp = 0%Z end ∨
     files o !! k = None ∨ files o !! h = None ∨ (∃ err, c = inl err) →
   ∃ n1, main arg0 args goflags ks (o, n) = Exit (o, n1) ∧ (n1 = n ∨ n1 = n')).
Proof.
  intros cfg k h Hcmd Hf Hl Hc.
  assert (parsed_config arg0 args goflags ks (o, n) = Ret cfg (o, n)) as Hcfg
    by (unfold parsed_config; by rewrite Hcmd).
  unfold main. rewrite bind_unfold, Hcfg. clear Hcmd Hcfg. clearbody cfg.
  pose proof (NewProxyServerDefault_unfold cfg o n c o1 Hf Hc) as Hmake. clear Hc.
  set (pc := mkProxierConfig _ _ _) in Hmake. split; [|split].
  - intros l client -> -> Hup [ck Hk] [ch Hh]. destruct (NewProxier_spec pc o n n' l Hf Hl Hup) as (res & Hn & Hres).
    simpl in Hres. fold k h in Hres. rewrite Hk, Hh in Hres. subst res.
    exists (mkProxyServer client cfg (Controller.New (mkWorld (fresh_proxier pc l) o n'))).
    split. { by rewrite bind_unfold, Hmake, bind_unfold, Hn. }
    split; [done|]. split; [done|]. split; [done|]. split; [apply fresh_proxier_wf|].
    split_and!; try done; intros Hne; by apply Hne.
  - intros args' fs' E. rewrite bind_unfold. unfold parsed_config. by rewrite E.
  - intros Hbad. destruct c as [err|client].
    { destruct Hmake as (e & [He|He]); exists n; (split; [|by left]); by rewrite bind_unfold, He. }
    exists n'. split; [|by right].
    assert (∃ e, NewProxier pc (o, n) = Ret (inl e) (o, n')) as [e He].
    2: { by rewrite bind_unfold, Hmake, bind_unfold, He. }
    assert ((∃ l, r = inr l ∧ Z.land (Attrs_Flags l) FlagUp ≠ 0%Z) ∨
      match r with inl _ => True | inr l => Z.land (Attrs_Flags l) FlagUp = 0%Z end)
      as [(l & -> & Hup)|Hno].
    { destruct r as [|l]; [by right|]. destruct (decide (Z.land (Attrs_Flags l) FlagUp = 0%Z)); eauto. }
    + destruct (NewProxier_spec pc o n n' l Hf Hl Hup) as (res & Hn & Hres). simpl in Hres.
      fold k h in Hres. destruct (files o !! k), (files o !! h);
        try (destruct Hres as [e ->]; by exists e). naive_solver.
    + unfold NewProxier. rewrite bind_unfold. unfold zoom at 1, IPAddr.New. cbn [snd fst].
      rewrite bind_unfold. unfold pc at 1. cbn [Proxier.Device]. rewrite Hl.
      destruct r as [err|l]; [by eexists|]. rewrite decide_True by done. by eexists.
Qed.
End Starting.

(** ** Witness *)
#[local] Existing Instances one_device.

(** A disk with the two configuration files of the default paths, and no other. *)
Definition disk0 : OS :=
  mkOS {["/etc/keepalived/keepalived.conf" := ""; "/etc/haproxy/haproxy.cfg" := ""]} [] [].

#[local] Existing Instances plain_formats order_up.
#[local] Existing Instances RESTConfigProps.pod RESTConfigProps.legacy_group RESTConfigProps.any_pair RESTConfigProps.at_boot.
#[local] Existing Instances ClientCmdProps.one_text ClientCmdProps.any_roots.

(** The configuration that a command line gives. *)
Definition flags_of (args : list string) : PFlag.State ProxyServerConfig :=
  final (command_line [] sample_go (start "kube2haproxy" args NewProxyServerConfig)).
Definition config_of (args : list string) : ProxyServerConfig := object (PFlag.mem (flags_of args)).

(** Without a kubeconfig file there is a client, for the default server. *)
Definition is_made (r : outcome OS (string + RESTConfig.Client)) : bool := match r with Ret (inr _) _ => true | _ => false end.
Lemma client_is_made args o : args = ["--device=eth0"] ∨ args = [] → o = disk0 ∨ o = mkOS ∅ [] [] →
  ∃ client o', client_for (config_of args) o = Ret (inr client) o'.
Proof.
  intros Ha Ho. assert (is_made (client_for (config_of args) o) = true) as Hm
    by (destruct Ha as [-> | ->], Ho as [-> | ->]; vm_compute; reflexivity).
  destruct (client_for (config_of args) o) as [[|client] o'|? ?|?|?]; try discriminate Hm. by exists client, o'.
Qed.

Lemma server_starts_witness :
  (∃ s, main "kube2haproxy" ["--device=eth0"] sample_go [] (disk0, [lo_net]) = Ret s (disk0, [lo_net]) ∧
     Config s = config_of ["--device=eth0"] ∧ Options.Device (Config s) = "eth0" ∧
     let p := w_proxier (Controller.Proxier (Controller s)) in
     proxier_wf p ∧ committing p = false) ∧
  main "kube2haproxy" [] sample_go [] (mkOS ∅ [] [], [lo_net]) = Exit (mkOS ∅ [] [], [lo_net]) ∧
  main "kube2haproxy" ["--devise=eth0"] sample_go [] (disk0, [lo_net]) = Exit (disk0, [lo_net]).
Proof.
  assert (∀ args, args = ["--device=eth0"] ∨ args = [] →
    command_line [] sample_go (start "kube2haproxy" args NewProxyServerConfig) =
    Ret tt (flags_of args)) as Hcmd
    by (intros args [-> | ->]; vm_compute; reflexivity).
  assert (LinkByName (Options.Device (config_of [])) [lo_net] = Ret (inr (mkLink "" 1 1)) [lo_net]) as Hlink by (vm_compute; reflexivity).
  split; [|split].
  - destruct (client_is_made ["--device=eth0"] disk0) as (client & o' & Hc); [by left|by left|].
    edestruct (server_starts "kube2haproxy" ["--device=eth0"] sample_go [] (flags_of ["--device=eth0"]) disk0 o' [lo_net] [lo_net]
      (inr (mkLink "eth0" 1 1)) (inr client)) as [Hup _];
      [apply Hcmd; left; reflexivity|reflexivity|vm_compute; reflexivity|exact Hc|].
    destruct (Hup (mkLink "eth0" 1 1) client) as (s & H1 & H2 & _ & _ & H3 & H4 & _).
    + reflexivity.
    + reflexivity.
    + discriminate.
    + exists "". vm_compute. reflexivity.
    + exists "". vm_compute. reflexivity.
    + exists s. split; [exact H1|]. split; [exact H2|].
      split; [rewrite H2; vm_compute; reflexivity|]. split; [exact H3|exact H4].
  - destruct (client_is_made [] (mkOS ∅ [] [])) as (client & o' & Hc); [by right|by right|].
    destruct (proj2 (proj2 (server_starts "kube2haproxy" [] sample_go [] (flags_of []) (mkOS ∅ [] []) o' [lo_net] [lo_net]
      (inr (mkLink "" 1 1)) (inr client) (Hcmd _ (or_intror eq_refl)) eq_refl Hlink Hc))) as (n1 & H1 & [-> | ->]); [|exact H1..].
    right. left. vm_compute. reflexivity.
  - destruct (client_is_made [] disk0) as (client & o' & Hc); [by right|by left|].
    refine (proj1 (proj2 (server_starts "kube2haproxy" [] sample_go [] (flags_of []) disk0 o' [lo_net] [lo_net]
      (inr (mkLink "" 1 1)) (inr client) (Hcmd _ (or_intror eq_refl)) eq_refl Hlink Hc)) ["--devise=eth0"] (flags_of ["--devise=eth0"]) _).
    vm_compute. reflexivity.
Defined.
