(* ===== verification/Connect.v ===== *)
(** From the command line to the API server: the requests that the reflectors send for
    the flags [--master], [--kube-api-qps] and [--kube-api-burst], when there is no
    kubeconfig file.

    This puts [Server], [ClientCmd], [RESTConfig] and [RESTListWatch] together. *)

From Stdlib Require Import Ascii QArith.
From stdpp Require Import gmap strings list.
From S2P Require Import Prelude GoStrings GoTime Strconv GoURL GoURLProps QueryParams FieldSelector ApiErrors TokenBucket BucketRate Request RequestProps OS.
From S2P Require Import Reflector RESTListWatch.
From S2P Require Transport TransportProps RESTConfig RESTConfigProps ClientCmd ClientCmdProps Options Server.

Local Open Scope Z_scope.

(** The URL of a server: a scheme and a host, perhaps with a port and a user. *)
Record server_URL (u : URL) : Prop := {
  sv_sound : sound_URL u;
  sv_path : Path u = "";
  sv_query : RawQuery u = "";
  sv_fragment : Fragment u = ""
}.

Section Connect.
Context {gf : GoFormats} {mo : MapOrder} {pr : RESTConfig.Process} {kp : Transport.KeyPairs} {ck : RESTConfig.Clocks}.
Context {rg : RESTConfig.Registered} {cp : RESTConfig.CertPools} {kc : ClientCmd.KubeconfigCodec}.

(** The text of a request of a reflector. *)
Definition request_text (master : string) (prefix : list string) (res rv : string) (ts : option Z) : string :=
  master +:+ join "/" (["/api/v1"] ++ prefix ++ [res]) +:+
  (if decide (Encode (list_params rv ts) = "") then "" else "?" +:+ Encode (list_params rv ts)).

Lemma server_URL_String u : server_URL u → URL_String u = Scheme u +:+ String colon ("//" +:+ authority u).
Proof.
  intros [Hs Hp Hq Hf]. rewrite URL_String_sound, Hp, Hq, Hf by done.
  rewrite !(decide_True (P := "" = "")) by done. cbn [escape]. by rewrite !append_empty_r.
Qed.
Lemma server_URL_ne u : server_URL u → URL_String u ≠ "".
Proof. intros Hu. rewrite server_URL_String by done. destruct Hu as [[Hs _ _ _ _ _ _ _] _ _ _]. by destruct (Scheme u). Qed.
Lemma server_host_of u : server_URL u → ClientCmd.host_of (URL_String u) = URL_String u.
Proof.
  intros [Hs Hp Hq Hf]. unfold ClientCmd.host_of. rewrite ParseRequestURI_String by done.
  rewrite decide_False; [done|]. rewrite Hp. cbn. lia.
Qed.

(** The client of a server: its base and its path. *)
Lemma server_client_asks u (rc : RESTClient) res :
  server_URL u → base rc = set_Path "/" u → versionedAPIPath rc = "/api/v1" → res = "services" ∨ res = "endpoints" →
  asks rc "" res ∧
  ∀ prefix rv ts, prefix = [] ∨ prefix = ["watch"] →
    URL_String (asked_url rc prefix "" res rv ts) = request_text (URL_String u) prefix res rv ts.
Proof.
  intros Hu Hb Hv Hres. assert (asks rc "" res) as Hasks.
  { destruct Hu as [[Hs Hl Ho Hh Hi _ Hr Hq] _ Hq0 _].
    split; rewrite ?Hb, ?Hv; [split; cbn; try done; by right|..];
      try (by destruct Hres as [-> | ->]);
      unfold plain_path; repeat (apply Forall_cons; split; [by (left + right)|]); constructor. }
  split; [done|]. intros prefix rv ts Hpre.
  rewrite URL_String_sound by (by apply asked_sound). rewrite server_URL_String by done.
  unfold asked_url, request_text. cbn [RawQuery Fragment Scheme Path set_RawQuery set_Path].
  rewrite Hb, Hv. cbn [Scheme Fragment set_Path Path]. destruct Hu as [_ _ _ Hf]. rewrite Hf.
  rewrite (decide_True (P := "" = "")), append_empty_r by done.
  assert (authority (set_RawQuery (Encode (list_params rv ts)) (set_Path (path_of (segments "/" ++ segments "/api/v1" ++ prefix ++ [] ++ [ToLower res]))
    (set_Path "/" u))) = authority u) as Ha by done.
  assert (escape encodePath (path_of (segments "/" ++ segments "/api/v1" ++ prefix ++ [] ++ [ToLower res])) =
    join "/" (["/api/v1"] ++ prefix ++ [res])) as Hp by (destruct Hres as [-> | ->], Hpre as [-> | ->]; vm_compute; reflexivity).
  rewrite Ha, Hp, !append_assoc. by rewrite (append_cons colon), !append_assoc.
Qed.

(** Without a kubeconfig file the configuration is that of the flag. *)
Lemma load_named_master u o : server_URL u → faults o = [] →
  ClientCmdProps.in_pod o = false ∨ URL_String u ≠ ClientCmd.host_of ClientCmdProps.default_server →
  ClientCmd.load_from_flags "" (URL_String u) o = Ret (inr (RESTConfig.set_Host (URL_String u) RESTConfig.zero_Config)) o.
Proof.
  intros Hu Hf Hpod. rewrite ClientCmdProps.flags_without_file by done. cbn [ClientCmdProps.first_of].
  rewrite decide_False, server_host_of by first [done|by apply server_URL_ne]. unfold ClientCmdProps.or_cluster.
  destruct Hpod as [-> | Hne]; [done|]. rewrite bool_decide_eq_false_2, andb_false_r; [done|]. by intros [= E].
Qed.

(** ** The limiter

    The flags for which there is a client, when the rate is a whole number: without a rate
    there is no limiter; a rate of zero, and with it a burst of zero, is replaced by the
    default. *)
Definition limits_ok (r burst : Z) : Prop := r < 0 ∨ 0 < burst ∨ (r = 0 ∧ burst = 0).

(** A full bucket for the rate and the burst, or nothing. *)
Definition limited (r burst : Z) (throttle : option Bucket) : Prop :=
  let r' := if decide (r = 0) then 5 else r in
  let burst' := if decide (burst = 0) then 10 else burst in
  match throttle with
  | None => r < 0
  | Some b => 0 <= r ∧ ∃ now, b = mkBucket now burst' 1 (1000000000 / r') burst' 0
  end.

Lemma Qle_whole r : Qle_bool (inject_Z r) 0 = bool_decide (r <= 0).
Proof. unfold Qle_bool, inject_Z. cbn. rewrite Z.mul_1_r. case_bool_decide; [by apply Z.leb_le|apply Z.leb_gt; lia]. Qed.
Lemma Qeq_whole r : Qeq_bool (inject_Z r) 0 = bool_decide (r = 0).
Proof. unfold Qeq_bool, inject_Z. cbn. rewrite Z.mul_1_r. case_bool_decide; [by subst|]. by apply Z.eqb_neq. Qed.
(** The rate of a client that has the defaults. *)
Lemma limits_whole r : (if Qeq_bool (inject_Z r) 0 then 5%Q else inject_Z r) = inject_Z (if decide (r = 0) then 5 else r).
Proof. rewrite Qeq_whole. by repeat case_decide; case_bool_decide. Qed.

Lemma whole_has_limiter r burst c : RESTConfig.QPS c = inject_Z r → RESTConfig.Burst c = burst → r <= 1000 →
  r <= 0 ∨ 0 < burst → RESTConfigProps.has_limiter c.
Proof.
  intros Hq Hb Hr H. unfold RESTConfigProps.has_limiter. rewrite Hq, Hb, Qle_whole.
  destruct (decide (r <= 0)); [left; by apply bool_decide_eq_true|]. right. intros now. eexists. apply whole_rate; lia.
Qed.
(** For which flags there is a client. *)
Lemma limits_decide r burst c u gv (o : OS) : RESTConfigProps.open_config u c → RESTConfig.groupMetaMap !! "" = Some gv →
  RESTConfig.QPS c = inject_Z r → RESTConfig.Burst c = burst → r <= 1000 →
  (limits_ok r burst → ∃ cl, RESTConfig.New c (o, ∅) = Ret (inr cl) (o, ∅)) ∧
  (¬ limits_ok r burst → ∃ msg, RESTConfig.New c (o, ∅) = Panic msg (o, ∅)).
Proof.
  intros Hc Hgv Hq Hb Hr. unfold limits_ok. split; intros Hok.
  - apply (RESTConfigProps.open_New u c gv o Hc); [eapply whole_has_limiter; [done..|lia]| |done].
    apply (whole_has_limiter (if decide (r = 0) then 5 else r) (if decide (burst = 0) then 10 else burst)).
    + unfold RESTConfig.with_limits. cbn [RESTConfig.QPS RESTConfig.set_limits]. rewrite Hq. apply limits_whole.
    + unfold RESTConfig.with_limits. cbn [RESTConfig.Burst RESTConfig.set_limits]. by rewrite Hb.
    + case_decide; lia.
    + repeat case_decide; lia.
  - destruct (decide (r = 0)) as [->|].
    + apply (RESTConfigProps.negative_burst_New u c gv o Hc Hgv); [|lia].
      unfold RESTConfig.with_limits. cbn [RESTConfig.QPS RESTConfig.set_limits]. by rewrite Hq.
    + apply (RESTConfigProps.no_burst_New u c gv o Hc Hgv); [|lia]. rewrite Hq, Qle_whole. apply bool_decide_eq_false_2. lia.
Qed.
Lemma New_limited r burst throttle : r <= 1000 → limits_ok r burst →
  let qps := if Qeq_bool (inject_Z r) 0 then 5%Q else inject_Z r in
  match throttle with
  | None => Qle_bool qps 0 = true
  | Some b => Qle_bool qps 0 = false ∧ ∃ now, NewTokenBucketRateLimiter qps (if decide (burst = 0) then 10 else burst) now = inr b
  end → limited r burst throttle.
Proof.
  intros Hr Hok. cbv zeta. rewrite limits_whole, Qle_whole. unfold limited, limits_ok in *. destruct throttle as [b|].
  - intros (Hpos%bool_decide_eq_false & now & Hb). split; [case_decide; lia|]. exists now.
    rewrite whole_rate in Hb by (repeat case_decide; lia). by injection Hb.
  - intros Hneg%bool_decide_eq_true. case_decide; lia.
Qed.

(** ** The theorem *)
Context {obj : Type} `{!Codec obj} {W : Type} `{!Outside W}.

(** C19: the flags decide what the API server is asked.  With [--master] naming a server
    by its URL, no kubeconfig file and a whole rate, there is a client exactly if the
    burst is positive, no rate is wanted, or both are zero, and the start panics
    otherwise.  The client has a full bucket of the burst that fills at the rate, with
    five a second for a rate of zero and ten for a burst of zero.  Every list of a
    reflector is at most ten times the same request, and every watch one request, and
    their URLs are those of the master with [/api/v1], [watch] for a watch, the resource
    and the options. *)
Theorem master_is_asked good `{!Responsive W good} (cfg : Options.ProxyServerConfig) (u : URL) (o : OS) (r : Z) :
  Options.Kubeconfig cfg = "" → Options.Master cfg = URL_String u → server_URL u →
  Options.KubeAPIQPS cfg = inject_Z r → r <= 1000 →
  faults o = [] → ClientCmdProps.in_pod o = false ∨ URL_String u ≠ ClientCmd.host_of ClientCmdProps.default_server →
  RESTConfig.groupMetaMap !! "" = Some (mkGroupVersion "" "v1") →
  (¬ limits_ok r (Options.KubeAPIBurst cfg) → ∃ msg, Server.client_for cfg o = Panic msg o) ∧
  (limits_ok r (Options.KubeAPIBurst cfg) → ∃ cl, Server.client_for cfg o = Ret (inr cl) o ∧
    let rc := RESTConfig.rest (RESTConfig.client cl) in
    limited r (Options.KubeAPIBurst cfg) (Throttle rc) ∧
    ∀ res rv ts (c : conn (W * list event)), res = "services" ∨ res = "endpoints" → rv ≠ "<nil>" → (∀ z, ts = Some z → is_int64 z) →
      let url prefix := request_text (Options.Master cfg) prefix res rv ts in
      returns (ListFunc_of (obj := obj) rc res "" (Some Everything) (mkListOptions rv ts)) c (λ _ c', ∃ evs,
        log c' = log c ++ evs ∧ (length (sent evs) <= 10)%nat ∧
        Forall (λ s, Method s.1.2 = "GET" ∧ URL_ s.1.2 = url []) (sent evs)) ∧
      returns (WatchFunc_of (obj := obj) rc res "" (Some Everything) (mkListOptions rv ts)) c (λ _ c', ∃ evs s,
        log c' = log c ++ evs ∧ sent evs = [s] ∧ s.1.2 = mkHttpRequest "GET" (url ["watch"]) ∅)).
Proof.
  intros Hk Hm Hu Hq Hr Hf Hpod Hgv. set (burst := Options.KubeAPIBurst cfg).
  set (config := RESTConfig.set_limits (Options.KubeAPIQPS cfg) burst (RESTConfig.set_Host (URL_String u) RESTConfig.zero_Config)).
  assert (RESTConfigProps.open_config u config) as Hopen.
  { split; try done; [apply Parse_String, Hu|by apply server_URL_ne|]. destruct Hu as [[Hs _ _ _ _ _ _ _] _ _ _]. cbn. by destruct (Scheme u). }
  assert (Server.client_for cfg o = Server.kubeclient_New config o) as ->.
  { unfold Server.client_for, Server.kubeconfig_of. rewrite Hk, Hm.
    by rewrite (bind_Ret _ _ _ (inr config) o) by (by run (load_named_master u o Hu Hf Hpod)). }
  unfold Server.kubeclient_New, with_var.
  destruct (limits_decide r burst config u _ o Hopen Hgv Hq eq_refl Hr) as [Hmade Hno].
  split; [intros [msg ->]%Hno; by exists msg|]. intros Hok. destruct (Hmade Hok) as [cl Hcl]. exists cl.
  split; [by rewrite Hcl|].
  destruct (RESTConfigProps.New_client config _ _ cl _ Hgv Hcl eq_refl eq_refl) as (u' & [p Hu'] & Hb & Hv & _ & Ht).
  rewrite (RESTConfigProps.open_config_url u config Hopen) in Hu'. injection Hu' as <- _.
  assert (base (RESTConfig.rest (RESTConfig.client cl)) = set_Path "/" u) as Hbase.
  { rewrite Hb. destruct Hu as [_ Hp Hqr Hfr]. rewrite Hp. destruct u. cbn in *. by subst. }
  split; [apply New_limited; [done..|]; unfold config in Ht; cbn [RESTConfig.QPS RESTConfig.Burst RESTConfig.set_limits] in Ht; by rewrite Hq in Ht|].
  intros res rv ts c Hres Hrv Hts. rewrite Hm.
  destruct (server_client_asks u _ res Hu Hbase (Hv eq_refl) Hres) as [Hasks Htext].
  cbv beta zeta. rewrite <-(Htext [] rv ts), <-(Htext ["watch"] rv ts) by tauto.
  exact (proj2 (asked_requests good _ "" res (mkListOptions rv ts) c Hasks Hrv Hts)).
Qed.
End Connect.

(** * Witness *)
Section Witness.
#[local] Existing Instances plain_formats order_up no_codec busy_world busy_responds.
#[local] Existing Instances RESTConfigProps.pod RESTConfigProps.legacy_group RESTConfigProps.any_pair RESTConfigProps.at_boot.
#[local] Existing Instances ClientCmdProps.one_text ClientCmdProps.any_roots.

Definition a_server : URL := mkURL "https" "" None "10.0.0.1:6443" "" "" "" "".
Definition a_config : Options.ProxyServerConfig :=
  let c := Options.NewProxyServerConfig in
  Options.mkProxyServerConfig (Options.BindAddress c) (Options.Address c) (Options.Port c) (Options.KubeAPIQPS c)
    (Options.KubeAPIBurst c) (URL_String a_server) (Options.SyncPeriod c) (Options.Kubeconfig c) (Options.EnableProfiling c)
    (Options.Device c) (Options.KeepalivedConfig c) (Options.HaproxyConfig c).
Definition no_files : OS := mkOS ∅ [] [].

Example first_watch : request_text (Options.Master a_config) ["watch"] "services" "17" (Some 400) =
  "https://10.0.0.1:6443/api/v1/watch/services?resourceVersion=17&timeoutSeconds=400".
Proof. vm_compute. reflexivity. Qed.
Lemma a_server_URL : server_URL a_server.
Proof. split; [|done..]. split; try done. by left. Qed.
Lemma master_is_asked_witness : ∃ cl now, Server.client_for a_config no_files = Ret (inr cl) no_files ∧
  Throttle (RESTConfig.rest (RESTConfig.client cl)) = Some (mkBucket now 10 1 200000000 10 0) ∧
  returns (WatchFunc_of (obj := string) (RESTConfig.rest (RESTConfig.client cl)) "services" "" (Some Everything)
      (mkListOptions "17" (Some 400))) start
    (λ _ c', ∃ evs s, log c' = log start ++ evs ∧ sent evs = [s] ∧ s.1.2 =
       mkHttpRequest "GET" (request_text (Options.Master a_config) ["watch"] "services" "17" (Some 400)) ∅).
Proof.
  assert (∀ z, Some 400 = Some z → is_int64 z) as Hts by by intros z [= <-].
  destruct (master_is_asked (obj := string) wants_retry a_config a_server no_files 5) as [_ H];
    [reflexivity|reflexivity|exact a_server_URL|reflexivity|lia|reflexivity|left; reflexivity|apply (lookup_insert_eq ∅ "")|].
  destruct H as (cl & Hcl & Ht & Hr); [right; left; reflexivity|]. exists cl.
  destruct (Throttle (RESTConfig.rest (RESTConfig.client cl))) as [b|]; [|exfalso; cbn in Ht; lia].
  destruct Ht as (_ & now & ->). exists now. split; [exact Hcl|]. split; [reflexivity|].
  destruct (Hr "services" "17" (Some 400) start) as [_ Hw]; [left; reflexivity|discriminate|exact Hts|exact Hw].
Defined.
End Witness.
